(* ===== verification/_CoqProject ===== *)
-Q . S2P
Prelude.v
JsString.v
Regex.v
Encoding.v
JsDate.v
Json.v
JsonText.v
JsNumber.v
Url.v
Layout.v
Libs.v
Contract.v
Pool.v
GithubClient.v
ArtifactWrite.v
Repository.v
FileRepository.v
Catalogue.v
CatalogueFacts.v
Flights.v
Search.v
D1.v
AuthConfig.v
AuthCore.v
SessionStore.v
GithubApp.v
RepoAuth.v
Auth.v
AuthFacts.v
OAuthRoutes.v
Hoare.v
NodeFs.v
BackupMetadata.v
SqliteStorage.v
SqliteFacts.v
SqliteBackup.v
SqliteExamples.v
Vault.v
VaultFacts.v
VaultExamples.v
ChangePolicy.v
ChangePolicyFacts.v
Freshness.v
FreshnessFacts.v
Publication.v
PublicationFacts.v
DeliveryExamples.v
FeatureRequests.v
FeatureIssues.v
FeatureFacts.v
FeatureExamples.v
GraphSearch.v
WorkflowBlocks.v
WorkflowGraph.v
WorkflowPlan.v
WorkflowCompose.v
WorkflowGraphFacts.v
WorkflowShape.v
TarjanFacts.v
WorkflowPlanFacts.v
WorkflowAccepted.v
WorkflowCompile.v
WorkflowComposeFacts.v
WorkflowComposed.v
WorkflowExamples.v
WorkflowComposeExamples.v
RunTables.v
RunStorage.v
RunFacts.v
RunWf.v
RunCalls.v
RunTheorems.v
RunExamples.v
DurableResult.v
DurableFacts.v
RunDriver.v
RunDriverFacts.v
NodeTurn.v
NodeTurnFacts.v
RunDriverExamples.v
