(* ===== verification/Prelude.v ===== *)
(** * Artifact Dev Toolkit: verification library

    The toolkit is a web application that keeps Markdown artifacts in a GitHub
    repository, signs users in with GitHub, stores provider credentials, runs
    workflows on services of its own, and is delivered by scripts of this
    repository. This library models its core as executable definitions and proves
    what makes each part correct. A definition has the name of the function it
    translates (in snake case where it is a local step of one), and the comments
    give the source file.

    ** Parts, and the files that model them

    Foundations, used by every part:
    - [Prelude]: outcomes (a value or a thrown error), effects over a world with
      exceptions ([eff]), relations every run respects ([keeps]), [Set] and list
      helpers; [Hoare]: triples for effectful code; [D1]: one SQL statement with
      faults before or after its effect.
    - [JsString], [JsNumber], [JsDate], [Json], [JsonText], [Regex], [Encoding],
      [Url]: strings as lists of UTF-16 units, numbers, ISO dates, JSON values with
      parser and printer (round trip proved), backtracking regular expressions
      (sound and complete for their relation), UTF-8, base64 and URL encoding.
    - [Libs]: gray-matter, zod checks and [localeCompare] as a class with laws.

    Artifacts ([src/lib/repository-layout.ts], [artifact-contract.ts],
    [artifact-repository.ts], [artifact-catalogue.ts], [search.ts]):
    - [Layout], [Contract]: paths, front matter, normalisation, serialisation.
    - [Pool], [GithubClient]: the worker pool as a step relation; requests to
      GitHub with retries, against a scripted network.
    - [ArtifactWrite], [Repository], [FileRepository]: the two repositories.
    - [Catalogue], [CatalogueFacts], [Flights]: the cache of catalogues, its
      publication protocol, and the sharing of loads as a step relation.
    - [Search]: bounded search and search authorities.

    Sign-in ([auth-core.ts], [auth-session-store.ts], [auth-configuration.ts],
    [github-app.ts], [repository-authorization.ts], [auth.ts],
    [oauth-route-handlers.ts]):
    - [AuthConfig], [AuthCore], [SessionStore], [GithubApp], [RepoAuth], [Auth],
      [OAuthRoutes], with theorems on the gates in [AuthFacts].

    Codex runner storage ([src/codex-runner/src/sqlite-storage.ts]):
    - [NodeFs]: a file tree whose calls may fail or stop half-way;
      [BackupMetadata], [SqliteStorage]: manifests, bootstrap, backup, restore;
      [SqliteFacts], [SqliteBackup], [SqliteExamples]: theorems and runs.

    Credential vault ([provider-credential-vault.ts], [-crypto.ts]):
    - [Vault]: envelopes, secrets, bindings over tables with keys and cascades;
      [VaultFacts], [VaultExamples].

    Delivery (scripts and [src/lib/deployment-*]):
    - [ChangePolicy], [ChangePolicyFacts]: classification of changes and merging
      without review; [Freshness], [FreshnessFacts]: is a deployment still current;
      [Publication], [PublicationFacts]: the tags of a Runtime image;
      [DeliveryExamples]: runs.
    - [FeatureRequests], [FeatureIssues], [FeatureFacts], [FeatureExamples]:
      request files, their rendering and the issues created from them.

    Workflows ([workflow-block-registry.ts], [workflow-definitions.ts]):
    - [GraphSearch]: depth-first search with a shared set of visited nodes, as the
      source writes it in many places, and what it finds.
    - [WorkflowBlocks], [WorkflowGraph], [WorkflowPlan]: the registry with the
      configuration schemas, [validateGraphTopology], the schema of definitions and
      the compiler to execution plans; [WorkflowCompose]: the expansion of reusable
      workflows and the check of their updates.
    - [WorkflowGraphFacts], [WorkflowShape], [TarjanFacts], [WorkflowPlanFacts],
      [WorkflowComposeFacts]: lemmas; [WorkflowAccepted], [WorkflowCompile],
      [WorkflowComposed]: theorems; [WorkflowExamples], [WorkflowComposeExamples].

    Workflow runs ([workflow-d1-storage.ts], [workflow-approvals.ts],
    [workflow-launch.ts], [workflow-run-legacy.ts], [workflow-worker-runtime.ts],
    [workflow-durable-driver.ts], [workflow-durable-runtime-result.ts],
    [workflow-orchestration-diagnostics.ts]):
    - [RunTables]: the tables of runs, attempts and approvals, and every statement
      that changes them as a value of [sql_write]; [RunStorage]: the methods of
      [D1WorkflowRunStorage] and [D1WorkflowApprovalStore], the launch of an
      instance and the wait for an approval, over those statements.
    - [RunFacts]: how the tables evolve; [RunWf]: their invariant; [RunCalls]: every
      call keeps both; [RunTheorems], [RunExamples].
    - [DurableResult], [DurableFacts]: the checks of the values that durable steps
      return and of the diagnostics that are stored.
    - [RunDriver]: the driver of a run ([executeWorkflowRun]), over the storage and
      a scripted Runtime; [NodeTurn]: the turn of a node behind the gateway
      ([executeDurableGraphNodeTurn]), over the storage and a scripted provider;
      [RunDriverFacts], [NodeTurnFacts]: theorems; [RunDriverExamples].

    ** What the theorems show

    - Repository writes are single, guarded requests: an update or deletion only
      replaces the blob the caller saw, a creation never overwrites, and what is
      prepared for writing can be read back.
    - The catalogue cache serves valid snapshots under the state it reports, reads
      back what it published, never serves an invalidated scope, and loads a scope
      once at a time; the request loop refines its retry policy, the worker pool
      terminates and keeps order.
    - Access is granted only to a live session with a matching, recent
      authorisation by GitHub; revocation is final; a callback needs the browser's
      state.
    - Whatever file system call fails, a restore ends with the verified backup, the
      originals, or closed with the originals in a safety copy; a backup restores to
      the snapshots it saved.
    - The vault's tables stay consistent under every call and fault; an envelope
      only opens under its own identifier; revisions decide concurrent replacements.
    - What merges without review reaches no image, migration or sensitive code; the
      classifiers agree; freshness is exact; publication never overwrites an
      immutable tag or moves [latest] back, and completes without failures;
      processing requests never creates a second issue for one.
    - An accepted workflow is connected from its entry to its terminal, its blocks
      have the shape of their types, its references point upstream to agents, and
      its cycles are left by a Condition; the components the validator computes are
      the classes of mutual reachability. It compiles to the stated plan; a
      composition freezes and traces what it used, compiles, and an update is
      accepted exactly when every dependent still composes.
    - Whatever calls are made on workflow runs, whatever fails and whatever other
      workers do, the tables stay consistent, attempts only move forward, an ended
      run is final, an attempt is started by one caller, an approval resumes its run
      once, and a launch only asks for the instance named after its generation.
    - The driver of a run comes to an end, authorises only stored attempts and
      reports success only of a run with a succeeded attempt; a provider is never
      started twice for an attempt; delays and replayed values are within bounds.

    Theorems whose comment starts with an identifier C<n> are the claims of the
    development; a claim with hypotheses has a witness that applies it to a concrete
    input. The examples modules also hold runs in which the code does not do what
    it means to.

    ** Choices and bounds

    - Effects performed before a thrown error stay, as in the source. Networks,
      databases, file systems, registries and trackers are worlds with a script of
      answers or faults, so a theorem for all worlds holds for every schedule of
      failures. Concurrency is modelled where the code shares state ([Pool],
      [Flights]); elsewhere a call is one sequential run, and database statements
      are the atomic steps. In [RunStorage] each statement of a call is preceded by
      any number of statements of other workers, from a script.
    - Code outside the repository is a parameter: cryptography (with round trip and
      authenticity laws), the URL parser, git, docker, gh, GitHub's answers, zod and
      gray-matter. The laws are satisfied by the concrete instances of the examples
      modules.
    - Fuel: [JSON_parse] has one unit of fuel per character and [Star] of a regular
      expression one per remaining unit, both proved enough by their round trip and
      completeness lemmas; removing leading [./] has the length of the path. Graph
      searches have one unit more than there are nodes ([search_fuel], enough by
      [dfs_exact]; for the components by [components_exact]); chains of
      conversations have two more than there are conversations ([chain_fuel]); the
      expansion stops at the depth bound of the source before its fuel ends
      ([expand_fuel]), and the dependents of a workflow are found within one pass
      more than there are definitions ([affected_spec]). The wait for an approval
      has no bound in the source; its fuel is the number of waits. The driver's
      loops are proved to end within theirs ([driver_ends]). A turn of a node runs
      itself again when it defers a failure; its fuel is the number of deferrals,
      one unless another worker clears the failure in between.
    - Numbers are exact integers and decimals; rounding above 2^53 is not modelled,
      and the code that depends on exactness checks [Number.isSafeInteger].
    - [toLowerCase] is modelled on Latin-1 and the special units the sources meet.

    ** Not modelled

    React components, pages and route glue; process spawning, timers and HTTP
    servers of the runner and the runtime; the LangGraph engine; reports assembled
    for diagnostics pages. The manifest lists every part with its status.

    ** Plan

    Next: agent definitions and the decoding of stored snapshots, the publication of
    pull requests, the protocol of the Runtime service and its client, then the
    external repository validator.
*)

From Stdlib Require Export ZArith NArith Lia Ascii String.
From stdpp Require Export prelude gmap.

#[export] Set Default Goal Selector "!".
#[export] Unset Program Cases.

Declare Scope adt_scope.
Delimit Scope adt_scope with adt.
Open Scope adt_scope.

(** ** Hint databases *)

(** [adt_keeps] holds the closure lemmas of [keeps] (state relations that every
    run of a computation respects); [adt_wp] the weakest-precondition rules. *)
Create HintDb adt_keeps discriminated.
Create Rewrite HintDb adt_str.

(** ** Outcomes: a value or a thrown error *)

Inductive outcome (E A : Type) : Type :=
| Ok (a : A)
| Throw (e : E).
Arguments Ok {E A} a.
Arguments Throw {E A} e.

Definition outcome_map {E A B} (f : A → B) (o : outcome E A) : outcome E B :=
  match o with Ok a => Ok (f a) | Throw e => Throw e end.

Definition is_ok {E A} (o : outcome E A) : bool :=
  match o with Ok _ => true | Throw _ => false end.

#[export] Instance outcome_ret E : MRet (outcome E) := λ A a, Ok a.
#[export] Instance outcome_bind E : MBind (outcome E) :=
  λ A B f o, match o with Ok a => f a | Throw e => Throw e end.

(** [guard_throw b e] is the source's [if (!b) throw e]. *)
Definition guard_throw {E} (b : bool) (e : E) : outcome E unit :=
  if b then Ok () else Throw e.

Definition from_option_throw {E A} (e : E) (o : option A) : outcome E A :=
  match o with Some a => Ok a | None => Throw e end.

Lemma outcome_bind_ok {E A B} (m : outcome E A) (k : A → outcome E B) b :
  m ≫= k = Ok b ↔ ∃ a, m = Ok a ∧ k a = Ok b.
Proof. destruct m; cbn; naive_solver. Qed.

Lemma guard_throw_ok {E} (b : bool) (e : E) u :
  guard_throw b e = Ok u ↔ b = true.
Proof. destruct b, u; cbn; naive_solver. Qed.

Lemma from_option_throw_ok {E A} (e : E) (o : option A) a :
  from_option_throw e o = Ok a ↔ o = Some a.
Proof. destruct o; cbn; naive_solver. Qed.

(** ** Effects: state and exceptions

    A JavaScript computation that reads and writes a world [W] and may throw an
    [E]. Effects performed before a [throw] stay, as they do in the source. *)

Definition eff (W E A : Type) : Type := W → W * outcome E A.

#[export] Instance eff_ret W E : MRet (eff W E) := λ A a w, (w, Ok a).
#[export] Instance eff_bind W E : MBind (eff W E) := λ A B k m w,
  match m w with
  | (w', Ok a) => k a w'
  | (w', Throw e) => (w', Throw e)
  end.

Section Effects.
Context {W E : Type}.

Definition throw {A} (e : E) : eff W E A := λ w, (w, Throw e).
Definition lift {A} (o : outcome E A) : eff W E A := λ w, (w, o).
Definition get_world : eff W E W := λ w, (w, Ok w).
Definition set_world (w : W) : eff W E unit := λ _, (w, Ok ()).
Definition modify_world (f : W → W) : eff W E unit := λ w, (f w, Ok ()).

(** [try { m } catch (error) { h error }] *)
Definition try_catch {A} (m : eff W E A) (h : E → eff W E A) : eff W E A := λ w,
  match m w with
  | (w', Ok a) => (w', Ok a)
  | (w', Throw e) => h e w'
  end.

(** [attempt m] reifies the exception of [m], so that code with both a
    [try] continuation and a [catch] continuation can be written down. *)
Definition attempt {A} (m : eff W E A) : eff W E (outcome E A) := λ w,
  let '(w', r) := m w in (w', Ok r).

Definition when (b : bool) (m : eff W E unit) : eff W E unit :=
  if b then m else mret ().

Fixpoint for_each {A B} (f : A → eff W E B) (l : list A) : eff W E (list B) :=
  match l with
  | [] => mret []
  | a :: l => b ← f a; bs ← for_each f l; mret (b :: bs)
  end.

(** Taking a run of a sequence apart. *)
Lemma bind_run {A B} (m : eff W E A) (k : A → eff W E B) w w' r :
  (m ≫= k) w = (w', r) →
  (∃ w1 a, m w = (w1, Ok a) ∧ k a w1 = (w', r)) ∨ (∃ e, m w = (w', Throw e) ∧ r = Throw e).
Proof.
  unfold mbind, eff_bind. destruct (m w) as [w1 [a|e]]; [by eauto|]. intros [= <- <-]. eauto.
Qed.

(** Running the first step of a sequence. *)
Lemma bind_step {A B} (m : eff W E A) (k : A → eff W E B) w w' a : m w = (w', Ok a) → (m ≫= k) w = k a w'.
Proof. intros H. unfold mbind, eff_bind. by rewrite H. Qed.

Lemma bind_bind {A B C} (m : eff W E A) (k : A → eff W E B) (h : B → eff W E C) w :
  ((m ≫= k) ≫= h) w = (m ≫= (λ a, k a ≫= h)) w.
Proof. unfold mbind, eff_bind. by destruct (m w) as [w1 [a|e]]. Qed.

Lemma try_run {A} (m : eff W E A) (h : E → eff W E A) w w' r :
  try_catch m h w = (w', r) →
  (∃ a, m w = (w', Ok a) ∧ r = Ok a) ∨ (∃ w1 e, m w = (w1, Throw e) ∧ h e w1 = (w', r)).
Proof.
  unfold try_catch. destruct (m w) as [w1 [a|e]]; [intros [= <- <-]; by eauto|by eauto].
Qed.

Lemma attempt_run {A} (m : eff W E A) w w' r :
  attempt m w = (w', r) → ∃ o, m w = (w', o) ∧ r = Ok o.
Proof. unfold attempt. destruct (m w) as [w1 o]. intros [= <- <-]. by exists o. Qed.

Lemma ret_run {A} (a : A) w w' r : (mret a : eff W E A) w = (w', r) → w' = w ∧ r = Ok a.
Proof. by intros [= <- <-]. Qed.

Lemma throw_run {A} (e : E) w w' r : (throw e : eff W E A) w = (w', r) → w' = w ∧ r = Throw e.
Proof. by intros [= <- <-]. Qed.

Lemma lift_run {A} (o : outcome E A) w w' r : lift o w = (w', r) → w' = w ∧ r = o.
Proof. by intros [= <- <-]. Qed.

Lemma for_each_run {A B} (f : A → eff W E B) l w w' bs :
  for_each f l w = (w', Ok bs) → Forall2 (λ a b, ∃ w1 w2, f a w1 = (w2, Ok b)) l bs.
Proof.
  revert w bs. induction l as [|a l IH]; intros w bs; cbn; [by intros [= _ <-]|].
  intros [(w1 & b & Hb & H)|(e & _ & ?)]%bind_run; [|done].
  apply bind_run in H as [(w2 & bs' & Hbs & H)|(e & _ & ?)]; [|done].
  injection H as <- <-. constructor; [by eauto|]. exact (IH _ _ Hbs).
Qed.

(** *** Relations every run respects *)

Definition keeps {A} (R : W → W → Prop) (m : eff W E A) : Prop :=
  ∀ w, R w (m w).1.

Lemma keeps_run {A} (R : W → W → Prop) (m : eff W E A) w w' r :
  keeps R m → m w = (w', r) → R w w'.
Proof. intros H Hr. specialize (H w). by rewrite Hr in H. Qed.

Context (R : W → W → Prop) `{!PreOrder R}.

Lemma keeps_ret {A} (a : A) : keeps R (mret a : eff W E A).
Proof. intros w; reflexivity. Qed.
Lemma keeps_throw {A} (e : E) : keeps R (throw e : eff W E A).
Proof. intros w; reflexivity. Qed.
Lemma keeps_lift {A} (o : outcome E A) : keeps R (lift o).
Proof. intros w; reflexivity. Qed.
Lemma keeps_get : keeps R get_world.
Proof. intros w; reflexivity. Qed.
Lemma keeps_modify f : (∀ w, R w (f w)) → keeps R (modify_world f).
Proof. intros Hf w; apply Hf. Qed.

Lemma keeps_bind {A B} (m : eff W E A) (k : A → eff W E B) :
  keeps R m → (∀ a, keeps R (k a)) → keeps R (m ≫= k).
Proof.
  intros Hm Hk w; unfold mbind, eff_bind. specialize (Hm w).
  destruct (m w) as [w' [a|e]]; cbn in *; [|done].
  etrans; [exact Hm | apply Hk].
Qed.

Lemma keeps_try {A} (m : eff W E A) h :
  keeps R m → (∀ e, keeps R (h e)) → keeps R (try_catch m h).
Proof.
  intros Hm Hk w; unfold try_catch. specialize (Hm w).
  destruct (m w) as [w' [a|e]]; cbn in *; [done|].
  etrans; [exact Hm | apply Hk].
Qed.

Lemma keeps_attempt {A} (m : eff W E A) : keeps R m → keeps R (attempt m).
Proof.
  intros Hm w; unfold attempt. specialize (Hm w).
  by destruct (m w) as [w' [a|e]].
Qed.

Lemma keeps_when b m : keeps R m → keeps R (when b m).
Proof. destruct b; [done | intros _; apply keeps_ret]. Qed.

Lemma keeps_for_each {A B} (f : A → eff W E B) l :
  (∀ a, keeps R (f a)) → keeps R (for_each f l).
Proof.
  intros Hf. induction l as [|a l IH]; [apply keeps_ret|].
  apply keeps_bind; [apply Hf|intros b].
  apply keeps_bind; [exact IH|intros bs; apply keeps_ret].
Qed.

(** *** Weakest preconditions *)

Definition wp {A} (m : eff W E A) (Q : W → outcome E A → Prop) (w : W) : Prop :=
  Q (m w).1 (m w).2.

Lemma wp_mono {A} (m : eff W E A) (Q Q' : W → outcome E A → Prop) w :
  (∀ w' r, Q w' r → Q' w' r) → wp m Q w → wp m Q' w.
Proof. unfold wp; auto. Qed.

Lemma wp_bind {A B} (m : eff W E A) (k : A → eff W E B) Q w :
  wp m (λ w' r, match r with Ok a => wp (k a) Q w' | Throw e => Q w' (Throw e) end) w →
  wp (m ≫= k) Q w.
Proof.
  unfold wp, mbind, eff_bind. by destruct (m w) as [w' [a|e]].
Qed.

Lemma wp_try {A} (m : eff W E A) h Q w :
  wp m (λ w' r, match r with Ok a => Q w' (Ok a) | Throw e => wp (h e) Q w' end) w →
  wp (try_catch m h) Q w.
Proof.
  unfold wp, try_catch. by destruct (m w) as [w' [a|e]].
Qed.

Lemma wp_attempt {A} (m : eff W E A) Q w :
  wp m (λ w' r, Q w' (Ok r)) w → wp (attempt m) Q w.
Proof. unfold wp, attempt. by destruct (m w). Qed.

Lemma wp_ret {A} (a : A) (Q : W → outcome E A → Prop) w : Q w (Ok a) → wp (mret a) Q w.
Proof. done. Qed.
Lemma wp_lift {A} (o : outcome E A) (Q : W → outcome E A → Prop) w : Q w o → wp (lift o) Q w.
Proof. done. Qed.
Lemma wp_throw {A} (e : E) (Q : W → outcome E A → Prop) w : Q w (Throw e) → wp (throw e) Q w.
Proof. done. Qed.
End Effects.

(** One structural step of a [keeps] goal; [keeps_tac] runs them all and leaves
    the primitive operations to the [adt_keeps] hints. *)
Ltac keeps_step :=
  lazymatch goal with
  | |- keeps _ (mret _) => apply (keeps_ret _)
  | |- keeps _ (throw _) => apply (keeps_throw _)
  | |- keeps _ (lift _) => apply (keeps_lift _)
  | |- keeps _ get_world => apply (keeps_get _)
  | |- keeps _ (attempt _) => apply (keeps_attempt _)
  | |- keeps _ (mbind _ _) => apply (keeps_bind _); [|intros ?]
  | |- keeps _ (try_catch _ _) => apply (keeps_try _); [|intros ?]
  | |- keeps _ (when _ _) => apply (keeps_when _)
  | |- keeps _ (for_each _ _) => apply (keeps_for_each _); intros ?
  | |- keeps _ (match ?x with _ => _ end) => destruct x
  end.
Ltac keeps_tac := repeat keeps_step; auto with adt_keeps.

(** Case-split every [match] of the goal, then clean up. *)
Ltac split_matches :=
  repeat match goal with
         | |- context [match ?x with _ => _ end] => destruct x eqn:?; simplify_eq/=
         end.
(** Case-split every [match] of a hypothesis. *)
Ltac split_matches_in H :=
  repeat match type of H with
         | context [match ?x with _ => _ end] => destruct x eqn:?; simplify_eq/=
         end.

(** Turn boolean tests into propositions. *)
Ltac to_prop :=
  repeat match goal with
         | H : _ && _ = true |- _ => apply andb_true_iff in H as [? ?]
         | H : _ || _ = false |- _ => apply orb_false_iff in H as [? ?]
         | H : negb _ = true |- _ => apply negb_true_iff in H
         | H : negb _ = false |- _ => apply negb_false_iff in H
         | H : bool_decide _ = true |- _ => apply bool_decide_eq_true in H
         | H : bool_decide _ = false |- _ => apply bool_decide_eq_false in H
         end.

(** Prove a closed decidable proposition by evaluation. *)
Ltac eval_decide := refine (bool_decide_eq_true_1 _ _); vm_compute; reflexivity.

(** ** Lists *)

(** [Array.from(new Set(xs))]: first occurrences, in order. *)
Fixpoint dedup_from {A} `{!EqDecision A} (seen : list A) (l : list A) : list A :=
  match l with
  | [] => []
  | x :: l => if decide (x ∈ seen) then dedup_from seen l
              else x :: dedup_from (x :: seen) l
  end.
Definition dedup {A} `{!EqDecision A} (l : list A) : list A := dedup_from [] l.

Section Dedup.
Context {A} `{!EqDecision A}.
Implicit Types l : list A.

Lemma elem_of_dedup_from x seen l : x ∈ dedup_from seen l ↔ x ∈ l ∧ x ∉ seen.
Proof.
  revert seen. induction l as [|y l IH]; intros seen; cbn; [set_solver|].
  destruct (decide (y ∈ seen)).
  - rewrite IH. set_solver.
  - rewrite elem_of_cons, IH. destruct (decide (x = y)); set_solver.
Qed.

Lemma elem_of_dedup x l : x ∈ dedup l ↔ x ∈ l.
Proof. unfold dedup. rewrite elem_of_dedup_from. set_solver. Qed.

Lemma NoDup_dedup_from seen l : NoDup (dedup_from seen l).
Proof.
  revert seen. induction l as [|y l IH]; intros seen; cbn; [constructor|].
  case_decide; [apply IH|]. constructor; [|apply IH].
  rewrite elem_of_dedup_from. set_solver.
Qed.

Lemma NoDup_dedup l : NoDup (dedup l).
Proof. apply NoDup_dedup_from. Qed.

Lemma dedup_from_id seen l :
  NoDup l → (∀ x, x ∈ l → x ∉ seen) → dedup_from seen l = l.
Proof.
  revert seen. induction l as [|y l IH]; intros seen Hnd Hs; cbn; [done|].
  apply NoDup_cons in Hnd as [Hy Hnd].
  rewrite decide_False by set_solver. f_equal. apply IH; [done|set_solver].
Qed.

Lemma dedup_id l : NoDup l → dedup l = l.
Proof. intros. apply dedup_from_id; [done|set_solver]. Qed.

Lemma dedup_idemp l : dedup (dedup l) = dedup l.
Proof. apply dedup_id, NoDup_dedup. Qed.
End Dedup.

(** [find] of the source's [Array.prototype.find]. *)
Definition find_list {A} (f : A → bool) (l : list A) : option A := List.find f l.

Lemma forallb_true_elem {A} (f : A → bool) l :
  forallb f l = true ↔ ∀ x, x ∈ l → f x = true.
Proof.
  rewrite forallb_forall. setoid_rewrite <- list_elem_of_In. done.
Qed.
