(* ===== verification/JsString.v ===== *)
(** * JavaScript strings

    A JavaScript string is the list of its UTF-16 code units ([str]). This file
    models the [String.prototype] methods and the replace/split idioms the
    sources use, with the list lemmas the components share.

    [to_lower] follows the Unicode case mapping on ASCII and Latin-1 and on the
    two other code units whose lower case contains an ASCII letter (U+0130 and
    U+212A); it is the identity on the remaining code units. *)

From S2P Require Import Prelude.

Abbreviation str := (list N).

Definition js (s : string) : str := map N_of_ascii (list_ascii_of_string s).
Arguments js s%_string : simpl never.
Definition ch (a : ascii) : N := N_of_ascii a.
Arguments ch a%_char : simpl never.

(** Evaluate the comparisons of closed code units in the goal. *)
Ltac eval_eqb :=
  repeat match goal with
         | |- context [N.eqb ?a ?b] =>
             let r := eval vm_compute in (N.eqb a b) in
             first [constr_eq r true | constr_eq r false];
             change (N.eqb a b) with r; cbv iota
         end.

(** ** Character classes *)

Definition in_range (lo hi c : N) : bool := (lo <=? c)%N && (c <=? hi)%N.
Definition is_digit (c : N) : bool := in_range 48 57 c.
Definition is_lower (c : N) : bool := in_range 97 122 c.
Definition is_upper (c : N) : bool := in_range 65 90 c.
Definition is_alpha (c : N) : bool := is_lower c || is_upper c.
Definition is_alnum (c : N) : bool := is_alpha c || is_digit c.
Definition is_lower_alnum (c : N) : bool := is_lower c || is_digit c.
(** [[a-f0-9]] with the [i] flag *)
Definition is_hex (c : N) : bool := is_digit c || in_range 97 102 c || in_range 65 70 c.
(** [\w] *)
Definition is_word (c : N) : bool := is_alnum c || (c =? ch "_")%N.

(** WhiteSpace and LineTerminator: what [trim] removes and [\s] matches. *)
Definition is_ws (c : N) : bool :=
  in_range 9 13 c || (c =? 32)%N || (c =? 160)%N || (c =? 5760)%N ||
  in_range 8192 8202 c || (c =? 8232)%N || (c =? 8233)%N || (c =? 8239)%N ||
  (c =? 8287)%N || (c =? 12288)%N || (c =? 65279)%N.

(** ** Methods *)

Definition str_eqb (a b : str) : bool := bool_decide (a = b).
Definition nonempty (s : str) : bool := match s with [] => false | _ => true end.

Fixpoint drop_while (p : N → bool) (s : str) : str :=
  match s with
  | [] => []
  | c :: s' => if p c then drop_while p s' else s
  end.
Definition drop_while_end (p : N → bool) (s : str) : str :=
  reverse (drop_while p (reverse s)).
Definition trim (s : str) : str := drop_while_end is_ws (drop_while is_ws s).

Arguments trim s : simpl never.

Fixpoint starts_with (p s : str) : bool :=
  match p, s with
  | [], _ => true
  | _, [] => false
  | a :: p, b :: s => (a =? b)%N && starts_with p s
  end.
Definition ends_with (p s : str) : bool := starts_with (reverse p) (reverse s).
Fixpoint includes (sub s : str) : bool :=
  starts_with sub s || match s with [] => false | _ :: s' => includes sub s' end.

(** [s.split(sep)] for a one-unit separator: [""] gives [[""]]. *)
Fixpoint split_on (sep : N) (s : str) : list str :=
  match s with
  | [] => [[]]
  | c :: s' =>
      if (c =? sep)%N then [] :: split_on sep s'
      else match split_on sep s' with
           | [] => [[c]]
           | w :: ws => (c :: w) :: ws
           end
  end.

Fixpoint join (sep : str) (l : list str) : str :=
  match l with
  | [] => []
  | [w] => w
  | w :: ws => w ++ sep ++ join sep ws
  end.

(** The order of [Array.prototype.sort] on strings: by code units. *)
Fixpoint str_leb (a b : str) : bool :=
  match a, b with
  | [], _ => true
  | _, [] => false
  | x :: a, y :: b => (x <? y)%N || ((x =? y)%N && str_leb a b)
  end.

(** [s.replace(/a/g, b)] for single code units *)
Definition replace_unit (a b : N) (s : str) : str :=
  map (λ c, if (c =? a)%N then b else c) s.

(** [s.replace(/[p]+/g, rep)]: every maximal run of [p] becomes [rep]. *)
Fixpoint replace_runs_aux (p : N → bool) (rep : str) (inrun : bool) (s : str) : str :=
  match s with
  | [] => []
  | c :: s' =>
      if p c then (if inrun then [] else rep) ++ replace_runs_aux p rep true s'
      else c :: replace_runs_aux p rep false s'
  end.
Definition replace_runs (p : N → bool) (rep : str) (s : str) : str :=
  replace_runs_aux p rep false s.

Definition lower_unit (c : N) : list N :=
  if is_upper c then [(c + 32)%N]
  else if in_range 192 222 c && negb (c =? 215)%N then [(c + 32)%N]
  else if (c =? 304)%N then [105; 775]%N
  else if (c =? 8490)%N then [107]%N
  else [c].
Definition to_lower (s : str) : str := flat_map lower_unit s.

(** Decimal digits of a non-negative integer: [String(n)]. *)
Fixpoint dec_digits (fuel : nat) (n : N) (acc : str) : str :=
  match fuel with
  | O => acc
  | S fuel =>
      let acc := (48 + n mod 10)%N :: acc in
      if (n <? 10)%N then acc else dec_digits fuel (n / 10)%N acc
  end.
Definition dec_of_N (n : N) : str := dec_digits (S (N.to_nat (N.log2 n))) n [].
Definition dec_of_Z (z : Z) : str :=
  match z with
  | Zneg p => ch "-" :: dec_of_N (Npos p)
  | _ => dec_of_N (Z.to_N z)
  end.

Definition hex_digit (n : N) : N := (if n <? 10 then 48 + n else 87 + n)%N.
(** [byte.toString(16).padStart(2, "0")] *)
Definition hex_byte (b : N) : str := [hex_digit (b / 16)%N; hex_digit (b mod 16)%N].

(** ** Lemmas *)

Lemma str_eqb_eq a b : str_eqb a b = true ↔ a = b.
Proof. apply bool_decide_eq_true. Qed.
Lemma str_eqb_refl a : str_eqb a a = true.
Proof. by apply str_eqb_eq. Qed.

Lemma nonempty_true s : nonempty s = true ↔ s ≠ [].
Proof. by destruct s. Qed.

Lemma starts_with_spec p s : starts_with p s = true ↔ ∃ r, s = p ++ r.
Proof.
  revert s. induction p as [|a p IH]; intros [|b s]; cbn.
  - naive_solver.
  - naive_solver.
  - split; [done|]. by intros [? ?].
  - rewrite andb_true_iff, N.eqb_eq, IH. naive_solver.
Qed.

Lemma starts_with_app p s : starts_with p (p ++ s) = true.
Proof. apply starts_with_spec. by eexists. Qed.

Lemma ends_with_spec p s : ends_with p s = true ↔ ∃ r, s = r ++ p.
Proof.
  unfold ends_with. rewrite starts_with_spec. split.
  - intros [r Hr]. exists (reverse r).
    rewrite <- (reverse_involutive s), Hr. by rewrite reverse_app, reverse_involutive.
  - intros [r ->]. exists (reverse r). by rewrite reverse_app.
Qed.

Lemma ends_with_app p s : ends_with p (s ++ p) = true.
Proof. apply ends_with_spec. by eexists. Qed.

Lemma includes_spec sub s : includes sub s = true ↔ ∃ a b, s = a ++ sub ++ b.
Proof.
  induction s as [|c s IH]; cbn; rewrite orb_true_iff, starts_with_spec.
  - split.
    + intros [[r Hr]|?]; [|done]. exists [], r. done.
    + intros (a & b & H). left. exists b. destruct a; [done|]. discriminate.
  - rewrite IH. split.
    + intros [[r Hr]|(a & b & ->)]; [by exists [], r|by exists (c :: a), b].
    + intros (a & b & H). destruct a as [|x a]; cbn in H.
      * left. by exists b.
      * right. simplify_eq. by exists a, b.
Qed.

Lemma split_on_nonnil sep s : split_on sep s ≠ [].
Proof. destruct s as [|c s]; cbn; [done|]. case_match; [done|]. by case_match. Qed.

Lemma join_cons_nonnil sep w ws : ws ≠ [] → join sep (w :: ws) = w ++ sep ++ join sep ws.
Proof. by destruct ws. Qed.

(** Splitting and re-joining gives the string back. *)
Lemma join_split_on sep s : join [sep] (split_on sep s) = s.
Proof.
  induction s as [|c s IH]; cbn; [done|].
  pose proof (split_on_nonnil sep s) as Hne.
  destruct (N.eqb_spec c sep) as [->|Hc].
  - rewrite join_cons_nonnil by done. by rewrite IH.
  - destruct (split_on sep s) as [|w ws] eqn:Es; [done|].
    destruct ws as [|w' ws]; cbn in *; [by subst|by rewrite IH].
Qed.

Lemma split_on_no_sep sep s : Forall (λ w, sep ∉ w) (split_on sep s).
Proof.
  induction s as [|c s IH]; cbn; [repeat constructor; set_solver|].
  destruct (N.eqb_spec c sep) as [->|Hc].
  - constructor; [set_solver|done].
  - destruct (split_on sep s) as [|w ws]; [repeat constructor; set_solver|].
    apply Forall_cons in IH as [Hw Hws]. constructor; [set_solver|done].
Qed.

Lemma split_on_fresh sep s : sep ∉ s → split_on sep s = [s].
Proof.
  induction s as [|c s IH]; cbn; intros Hs; [done|].
  destruct (N.eqb_spec c sep) as [->|Hc]; [set_solver|].
  rewrite IH by set_solver. done.
Qed.

Lemma split_on_app sep a b :
  sep ∉ a → split_on sep (a ++ sep :: b) = a :: split_on sep b.
Proof.
  induction a as [|c a IH]; cbn; intros Hs.
  - by rewrite N.eqb_refl.
  - destruct (N.eqb_spec c sep) as [->|Hc]; [set_solver|].
    rewrite IH by set_solver. done.
Qed.

Lemma drop_while_none p s : (∀ c, c ∈ s → p c = false) → drop_while p s = s.
Proof. destruct s as [|c s]; cbn; intros H; [done|]. rewrite H by set_solver. done. Qed.

Lemma drop_while_head p c s : p c = false → drop_while p (c :: s) = c :: s.
Proof. cbn. by intros ->. Qed.

Lemma drop_while_idemp p s : drop_while p (drop_while p s) = drop_while p s.
Proof. induction s as [|c s IH]; cbn; [done|]. destruct (p c) eqn:E; cbn; [done|]. by rewrite E. Qed.

Lemma drop_while_suffix p s : ∃ r, s = r ++ drop_while p s ∧ Forall (λ c, p c = true) r.
Proof.
  induction s as [|c s (r & Hr & Hp)]; cbn; [by exists []|].
  destruct (p c) eqn:E; [|by exists []].
  exists (c :: r). split; [by rewrite Hr at 1|by constructor].
Qed.

Lemma drop_while_end_prefix p s :
  ∃ r, s = drop_while_end p s ++ r ∧ Forall (λ c, p c = true) r.
Proof.
  unfold drop_while_end. destruct (drop_while_suffix p (reverse s)) as (r & Hr & Hp).
  exists (reverse r). split.
  - rewrite <- (reverse_involutive s) at 1. rewrite Hr at 1. by rewrite reverse_app.
  - by apply Forall_reverse.
Qed.

Lemma drop_while_head_false p s c s' : drop_while p s = c :: s' → p c = false.
Proof.
  induction s as [|d s IH]; cbn; [done|]. destruct (p d) eqn:E; [apply IH|].
  intros [= -> _]. done.
Qed.

Lemma drop_while_end_idemp p s : drop_while_end p (drop_while_end p s) = drop_while_end p s.
Proof. unfold drop_while_end. by rewrite reverse_involutive, drop_while_idemp. Qed.

Lemma trim_idemp s : trim (trim s) = trim s.
Proof.
  unfold trim. set (t := drop_while is_ws s).
  enough (drop_while is_ws (drop_while_end is_ws t) = drop_while_end is_ws t) as ->
    by apply drop_while_end_idemp.
  destruct (drop_while_end is_ws t) as [|c u] eqn:E; [done|].
  apply drop_while_head. destruct (drop_while_end_prefix is_ws t) as (r & Hr & _).
  rewrite E in Hr. unfold t in Hr. by eapply drop_while_head_false.
Qed.

Lemma replace_unit_none a b s : a ∉ s → replace_unit a b s = s.
Proof.
  intros H. induction s as [|c s IH]; cbn; [done|].
  destruct (N.eqb_spec c a); [set_solver|]. f_equal. apply IH. set_solver.
Qed.

Lemma replace_unit_gone a b s : a ≠ b → a ∉ replace_unit a b s.
Proof.
  intros H. induction s as [|c s IH]; cbn; [set_solver|].
  fold (replace_unit a b s). destruct (N.eqb_spec c a); set_solver.
Qed.

Lemma to_lower_app a b : to_lower (a ++ b) = to_lower a ++ to_lower b.
Proof. apply flat_map_app. Qed.

Lemma lower_unit_idemp c : to_lower (lower_unit c) = lower_unit c.
Proof.
  unfold to_lower, lower_unit, is_upper, in_range.
  repeat (case_match; cbn -[N.leb N.eqb]); try done;
    repeat match goal with H : _ = true |- _ => rewrite ?andb_true_iff, ?N.leb_le, ?N.eqb_eq in H end;
    repeat match goal with H : _ = false |- _ => rewrite ?andb_false_iff, ?N.leb_gt, ?N.eqb_neq in H end;
    rewrite ?app_nil_r; try done;
    repeat match goal with |- context [if ?b then _ else _] => destruct b eqn:? end;
    rewrite ?andb_true_iff, ?andb_false_iff, ?negb_true_iff, ?negb_false_iff,
      ?N.leb_le, ?N.leb_gt, ?N.eqb_eq, ?N.eqb_neq in *; try done; lia.
Qed.

Lemma to_lower_idemp s : to_lower (to_lower s) = to_lower s.
Proof.
  induction s as [|c s IH]; [done|].
  change (to_lower (c :: s)) with (lower_unit c ++ to_lower s).
  rewrite to_lower_app, IH. f_equal. apply lower_unit_idemp.
Qed.

Lemma forallb_app_iff {A} (f : A → bool) l k :
  forallb f (l ++ k) = true ↔ forallb f l = true ∧ forallb f k = true.
Proof. rewrite forallb_app. apply andb_true_iff. Qed.

#[export] Hint Rewrite to_lower_idemp trim_idemp : adt_str.

Lemma drop_while_all p s : Forall (λ c, p c = true) s → drop_while p s = [].
Proof. induction 1 as [|c s Hc Hs IH]; cbn; [done|]. by rewrite Hc. Qed.

Lemma drop_while_app p s k :
  drop_while p (s ++ k) = match drop_while p s with [] => drop_while p k | t => t ++ k end.
Proof. induction s as [|c s IH]; cbn; [done|]. by destruct (p c). Qed.

(** Trailing white space after an already trimmed string is removed again. *)
Lemma trim_app_ws s w : Forall (λ c, is_ws c = true) w → trim (trim s ++ w) = trim s.
Proof.
  intros Hw. destruct (trim s) as [|c t] eqn:E.
  - cbn [app]. unfold trim. by rewrite (drop_while_all _ w).
  - pose proof (trim_idemp s) as Hi. rewrite E in Hi. unfold trim in Hi |- *.
    assert (Hc : is_ws c = false).
    { unfold trim in E. destruct (drop_while_end_prefix is_ws (drop_while is_ws s)) as (r & Hr & _).
      rewrite E in Hr. by eapply drop_while_head_false. }
    cbn [app]. rewrite drop_while_head in Hi |- * by done.
    unfold drop_while_end in *.
    change (c :: t ++ w) with ((c :: t) ++ w). rewrite reverse_app, drop_while_app.
    rewrite (drop_while_all _ (reverse w)) by (by apply Forall_reverse). exact Hi.
Qed.
