(* ===== verification/Regex.v ===== *)
(** * Regular expressions

    The fragment of JavaScript regular expressions the sources use with
    [RegExp.prototype.test]: character classes, sequence, alternation,
    repetition, [\b], [^] and [$]. [rmatch] is the declarative semantics on
    positions (the code unit before the position, the rest of the input);
    [ends] enumerates the end positions and [re_test] is the executable
    search, proved equivalent in [ends_spec] and [re_test_spec]. *)

From S2P Require Import Prelude JsString.

Inductive re : Type :=
| Eps
| Cls (p : N → bool)
| Seq (a b : re)
| Alt (a b : re)
| Star (a : re)
| WordB
| Bos
| Eos.

(** A position: the preceding code unit, if any, and the remaining input. *)
Abbreviation pos := (option N * str)%type.

Definition word_before (p : pos) : bool := match p.1 with Some c => is_word c | None => false end.
Definition word_after (p : pos) : bool := match p.2 with c :: _ => is_word c | [] => false end.

Inductive rmatch : re → pos → pos → Prop :=
| m_eps p : rmatch Eps p p
| m_cls f c b s : f c = true → rmatch (Cls f) (b, c :: s) (Some c, s)
| m_seq a b p q t : rmatch a p q → rmatch b q t → rmatch (Seq a b) p t
| m_alt_l a b p q : rmatch a p q → rmatch (Alt a b) p q
| m_alt_r a b p q : rmatch b p q → rmatch (Alt a b) p q
| m_star_nil a p : rmatch (Star a) p p
| m_star_step a p q t : rmatch a p q → rmatch (Star a) q t → rmatch (Star a) p t
| m_wordb p : word_before p ≠ word_after p → rmatch WordB p p
| m_bos s : rmatch Bos (None, s) (None, s)
| m_eos b : rmatch Eos (b, []) (b, []).

Definition plen (p : pos) : nat := length p.2.

(** Iterate [f] from [p], only along positions that consumed input. *)
Fixpoint star_iter (fuel : nat) (f : pos → list pos) (p : pos) : list pos :=
  match fuel with
  | O => [p]
  | S k => p :: flat_map (star_iter k f) (List.filter (λ q, (plen q <? plen p)%nat) (f p))
  end.

Fixpoint ends (r : re) (p : pos) : list pos :=
  match r with
  | Eps => [p]
  | Cls f => match p.2 with
             | c :: s => if f c then [(Some c, s)] else []
             | [] => []
             end
  | Seq a b => flat_map (ends b) (ends a p)
  | Alt a b => ends a p ++ ends b p
  | Star a => star_iter (plen p) (ends a) p
  | WordB => if bool_decide (word_before p = word_after p) then [] else [p]
  | Bos => match p.1 with None => [p] | Some _ => [] end
  | Eos => match p.2 with [] => [p] | _ :: _ => [] end
  end.

Definition match_at (r : re) (p : pos) : bool :=
  match ends r p with [] => false | _ => true end.

Fixpoint search_from (r : re) (b : option N) (s : str) : bool :=
  match_at r (b, s) || match s with [] => false | c :: s' => search_from r (Some c) s' end.

(** [re.test(s)] *)
Definition re_test (r : re) (s : str) : bool := search_from r None s.

(** ** Derived forms *)

Definition Opt (a : re) : re := Alt a Eps.
Definition Plus (a : re) : re := Seq a (Star a).
Fixpoint Times (n : nat) (a : re) : re := match n with O => Eps | S n => Seq a (Times n a) end.
(** [a{n,}] *)
Definition AtLeast (n : nat) (a : re) : re := Seq (Times n a) (Star a).
Definition Lit (s : str) : re := foldr (λ c r, Seq (Cls (N.eqb c)) r) Eps s.
(** a literal under the [i] flag (ASCII letters) *)
Definition LitI (s : str) : re :=
  foldr (λ c r, Seq (Cls (λ d, bool_decide (lower_unit c = lower_unit d) && (d <? 128)%N)) r) Eps s.
Fixpoint AltL (l : list re) : re :=
  match l with [] => Cls (λ _, false) | [a] => a | a :: l => Alt a (AltL l) end.

(** ** Correctness of the executable matcher *)

Lemma rmatch_shrinks r p q : rmatch r p q → q = p ∨ plen q < plen p.
Proof.
  induction 1; unfold plen in *; cbn; try (by left); try assumption; try (right; lia).
  all: destruct IHrmatch1 as [->|], IHrmatch2 as [->|]; try (by left); right; lia.
Qed.

Lemma elem_of_flat_map {A B} (f : A → list B) l y :
  y ∈ flat_map f l ↔ ∃ x, x ∈ l ∧ y ∈ f x.
Proof.
  rewrite list_elem_of_In, in_flat_map. setoid_rewrite <- list_elem_of_In. done.
Qed.

Lemma elem_of_List_filter {A} (f : A → bool) l x :
  x ∈ List.filter f l ↔ x ∈ l ∧ f x = true.
Proof. rewrite !list_elem_of_In. apply filter_In. Qed.

Section StarIter.
Context (a : re) (f : pos → list pos).
Hypothesis f_spec : ∀ p q, q ∈ f p ↔ rmatch a p q.

Lemma star_iter_sound fuel p q : q ∈ star_iter fuel f p → rmatch (Star a) p q.
Proof using f_spec.
  revert p. induction fuel as [|k IH]; intros p; cbn.
  - rewrite list_elem_of_singleton. intros ->. constructor.
  - rewrite elem_of_cons, elem_of_flat_map. intros [->|(t & Ht & Hq)]; [constructor|].
    apply elem_of_List_filter in Ht as [Ht _]. econstructor; [by apply f_spec|by apply IH].
Qed.

Lemma star_iter_complete p q :
  rmatch (Star a) p q → ∀ fuel, plen p ≤ fuel → q ∈ star_iter fuel f p.
Proof using f_spec.
  intros H. remember (Star a) as r eqn:Er. induction H; try discriminate; intros fuel Hf.
  - destruct fuel; cbn; set_solver.
  - simplify_eq. destruct (rmatch_shrinks _ _ _ H) as [->|Hlt]; [by apply IHrmatch2|].
    destruct fuel as [|k]; [lia|]. cbn. apply elem_of_cons. right.
    apply elem_of_flat_map. exists q. split.
    + apply elem_of_List_filter. split; [by apply f_spec|by apply Nat.ltb_lt].
    + apply IHrmatch2; [done|lia].
Qed.
End StarIter.

(** The executable enumeration computes exactly the declarative matches. *)
Lemma ends_spec r p q : q ∈ ends r p ↔ rmatch r p q.
Proof.
  revert p q. induction r as [|f|a IHa b IHb|a IHa b IHb|a IHa| | |]; intros [w s] q; cbn.
  - rewrite list_elem_of_singleton. split; [intros ->; constructor|by inversion 1].
  - split.
    + destruct s as [|c s]; [set_solver|]. destruct (f c) eqn:E; [|set_solver].
      rewrite list_elem_of_singleton. intros ->. by constructor.
    + inversion 1; simplify_eq. case_match; [set_solver|congruence].
  - rewrite elem_of_flat_map. split.
    + intros (t & Ht & Hq). econstructor; [by apply IHa|by apply IHb].
    + inversion 1; simplify_eq. exists q0. by rewrite IHa, IHb.
  - rewrite elem_of_app, IHa, IHb. split; [intros []; by constructor|inversion 1; auto].
  - split; [apply star_iter_sound, IHa|].
    intros H. eapply star_iter_complete; [exact IHa|exact H|done].
  - case_bool_decide as Hb; split; try set_solver.
    + inversion 1; by simplify_eq.
    + rewrite list_elem_of_singleton. intros ->. by constructor.
    + inversion 1; simplify_eq. set_solver.
  - destruct w; (split; [|inversion 1; simplify_eq; set_solver]); [set_solver|].
    rewrite list_elem_of_singleton. intros ->. constructor.
  - destruct s; (split; [|inversion 1; simplify_eq; set_solver]); [|set_solver].
    rewrite list_elem_of_singleton. intros ->. constructor.
Qed.

Lemma match_at_spec r p : match_at r p = true ↔ ∃ q, rmatch r p q.
Proof.
  unfold match_at. setoid_rewrite <- ends_spec. destruct (ends r p) as [|q l].
  - split; [done|]. intros [q Hq]. set_solver.
  - split; [|done]. intros _. exists q. set_solver.
Qed.

(** The position reached in [s] after the prefix [a], starting after [b]. *)
Definition pos_after (b : option N) (a rest : str) : pos :=
  (match last a with Some c => Some c | None => b end, rest).

Lemma pos_after_cons b c a rest : pos_after b (c :: a) rest = pos_after (Some c) a rest.
Proof.
  unfold pos_after. destruct a as [|x a]; [done|].
  rewrite last_cons_cons. by destruct (proj2 (last_is_Some (x :: a)) ltac:(done)) as [? ->].
Qed.

Lemma search_from_spec r b s :
  search_from r b s = true ↔ ∃ a rest q, s = a ++ rest ∧ rmatch r (pos_after b a rest) q.
Proof.
  revert b. induction s as [|c s IH]; intros b; cbn; rewrite orb_true_iff, match_at_spec.
  - split.
    + intros [[q Hq]|?]; [|done]. by exists [], [], q.
    + intros (a & rest & q & H & Hm). destruct a; [|done]. cbn in H. subst. left. by exists q.
  - rewrite IH. split.
    + intros [[q Hq]|(a & rest & q & -> & Hm)]; [by exists [], (c :: s), q|].
      exists (c :: a), rest, q. by rewrite pos_after_cons.
    + intros (a & rest & q & H & Hm). destruct a as [|x a]; cbn in H.
      * subst. left. by exists q.
      * simplify_eq. right. exists a, rest, q. by rewrite pos_after_cons in Hm.
Qed.

Lemma re_test_spec r s :
  re_test r s = true ↔ ∃ a rest q, s = a ++ rest ∧ rmatch r (pos_after None a rest) q.
Proof. apply search_from_spec. Qed.

(** ** Introduction rules for matches *)

Lemma rmatch_lit w b s : ∃ b', rmatch (Lit w) (b, w ++ s) (b', s).
Proof.
  revert b. induction w as [|c w IH]; intros b; cbn; [eexists; constructor|].
  destruct (IH (Some c)) as [b' Hb]. exists b'. econstructor; [constructor; apply N.eqb_refl|exact Hb].
Qed.

Lemma rmatch_times_cls f w b s :
  Forall (λ c, f c = true) w → ∃ b', rmatch (Times (length w) (Cls f)) (b, w ++ s) (b', s).
Proof.
  intros Hw. revert b. induction Hw as [|c w Hc Hw IH]; intros b; cbn; [eexists; constructor|].
  destruct (IH (Some c)) as [b' Hb]. exists b'. econstructor; [by constructor|exact Hb].
Qed.

Lemma rmatch_star_cls w f b s :
  Forall (λ c, f c = true) w → ∃ b', rmatch (Star (Cls f)) (b, w ++ s) (b', s).
Proof.
  intros Hw. revert b. induction Hw as [|c w Hc Hw IH]; intros b; cbn; [eexists; constructor|].
  destruct (IH (Some c)) as [b' Hb]. exists b'. econstructor; [by constructor|exact Hb].
Qed.

Lemma rmatch_plus_cls w f b s :
  w ≠ [] → Forall (λ c, f c = true) w → ∃ b', rmatch (Plus (Cls f)) (b, w ++ s) (b', s).
Proof.
  intros Hne Hw. destruct w as [|c w]; [done|]. apply Forall_cons in Hw as [Hc Hw].
  destruct (rmatch_star_cls w f (Some c) s Hw) as [b' Hb]. exists b'.
  econstructor; [by constructor|exact Hb].
Qed.

(** ** Inversion rules *)

Lemma rmatch_star_cls_inv f p q :
  rmatch (Star (Cls f)) p q → ∃ w, p.2 = w ++ q.2 ∧ Forall (λ c, f c = true) w.
Proof.
  intros H. remember (Star (Cls f)) as r eqn:Er. induction H; try discriminate.
  - exists []. done.
  - simplify_eq. inversion H; simplify_eq. destruct (IHrmatch2 eq_refl) as (w & Hw & HF).
    cbn in *. exists (c :: w). rewrite Hw. split; [done|by constructor].
Qed.

Lemma rmatch_plus_cls_inv f p q :
  rmatch (Plus (Cls f)) p q → ∃ w, w ≠ [] ∧ p.2 = w ++ q.2 ∧ Forall (λ c, f c = true) w.
Proof.
  inversion 1; simplify_eq. match goal with H : rmatch (Cls _) _ _ |- _ => inversion H end.
  simplify_eq. destruct (rmatch_star_cls_inv f (Some c, s) q) as (w & Hw & HF); [done|].
  cbn in *. exists (c :: w). rewrite Hw. split; [done|]. split; [done|by constructor].
Qed.

Lemma rmatch_bos_inv p q : rmatch Bos p q → p.1 = None ∧ q = p.
Proof. by inversion 1. Qed.

(** An expression anchored by [^] is only ever matched at the start. *)
Lemma re_test_bos r s : re_test (Seq Bos r) s = true ↔ ∃ q, rmatch r (None, s) q.
Proof.
  rewrite re_test_spec. split.
  - intros (a & rest & q & -> & H). inversion H; simplify_eq.
    match goal with H : rmatch Bos _ _ |- _ => apply rmatch_bos_inv in H as [Hp ->] end.
    destruct a as [|c a]; [by exists q|]. unfold pos_after in Hp. cbn [fst] in Hp.
    destruct (proj2 (last_is_Some (c :: a)) ltac:(done)) as [x Hx]. by rewrite Hx in Hp.
  - intros [q Hq]. exists [], s, q. split; [done|]. econstructor; [constructor|exact Hq].
Qed.
