(* ===== verification/Encoding.v ===== *)
(** * Encodings of the JavaScript platform

    UTF-8 ([TextEncoder], [Buffer.from(s)], [buffer.toString("utf8")]),
    base64 ([buffer.toString("base64")], [Buffer.from(s, "base64")]) and URI
    components. Bytes are [N] below 256. *)

From S2P Require Import Prelude JsString.

Local Open Scope N_scope.
Ltac Zify.zify_post_hook ::= Z.to_euclidean_division_equations.

(** ** UTF-8 *)

Definition is_hi (c : N) : bool := in_range 55296 56319 c.
Definition is_lo (c : N) : bool := in_range 56320 57343 c.
Definition code_point (hi lo : N) : N := 65536 + (hi - 55296) * 1024 + (lo - 56320).

(** The bytes of one code point below 0x110000. *)
Definition utf8_bytes (c : N) : list N :=
  if c <? 128 then [c]
  else if c <? 2048 then [192 + c / 64; 128 + c mod 64]
  else if c <? 65536 then [224 + c / 4096; 128 + (c / 64) mod 64; 128 + c mod 64]
  else [240 + c / 262144; 128 + (c / 4096) mod 64; 128 + (c / 64) mod 64; 128 + c mod 64].

Definition replacement : N := 65533.

(** [new TextEncoder().encode(s)]: lone surrogates become U+FFFD. *)
Fixpoint utf8_encode (s : str) : list N :=
  match s with
  | [] => []
  | c :: s' =>
      if is_hi c then
        match s' with
        | d :: s'' => if is_lo d then utf8_bytes (code_point c d) ++ utf8_encode s''
                      else utf8_bytes replacement ++ utf8_encode s'
        | [] => utf8_bytes replacement
        end
      else if is_lo c then utf8_bytes replacement ++ utf8_encode s'
      else utf8_bytes c ++ utf8_encode s'
  end.

(** [Buffer.byteLength(s, "utf8")] *)
Definition byte_length (s : str) : Z := Z.of_nat (length (utf8_encode s)).

Definition is_cont (b : N) : bool := in_range 128 191 b.
(** The code units of a code point. *)
Definition units (c : N) : str :=
  if c <? 65536 then [c]
  else [55296 + (c - 65536) / 1024; 56320 + (c - 65536) mod 1024].

(** Bounds on the second byte of a three- or four-byte sequence. *)
Definition second3 (b b1 : N) : bool :=
  if b =? 224 then in_range 160 191 b1 else if b =? 237 then in_range 128 159 b1 else is_cont b1.
Definition second4 (b b1 : N) : bool :=
  if b =? 240 then in_range 144 191 b1 else if b =? 244 then in_range 128 143 b1 else is_cont b1.

(** [buffer.toString("utf8")]: each maximal ill-formed part becomes U+FFFD. *)
Fixpoint utf8_decode (l : list N) : str :=
  match l with
  | [] => []
  | b :: r =>
      if b <? 128 then b :: utf8_decode r
      else if in_range 194 223 b then
        match r with
        | b1 :: r1 => if is_cont b1 then ((b - 192) * 64 + (b1 - 128)) :: utf8_decode r1
                      else replacement :: utf8_decode r
        | [] => [replacement]
        end
      else if in_range 224 239 b then
        match r with
        | b1 :: r1 =>
            if second3 b b1 then
              match r1 with
              | b2 :: r2 => if is_cont b2
                            then ((b - 224) * 4096 + (b1 - 128) * 64 + (b2 - 128)) :: utf8_decode r2
                            else replacement :: utf8_decode r1
              | [] => [replacement]
              end
            else replacement :: utf8_decode r
        | [] => [replacement]
        end
      else if in_range 240 244 b then
        match r with
        | b1 :: r1 =>
            if second4 b b1 then
              match r1 with
              | b2 :: r2 =>
                  if is_cont b2 then
                    match r2 with
                    | b3 :: r3 =>
                        if is_cont b3
                        then units ((b - 240) * 262144 + (b1 - 128) * 4096 + (b2 - 128) * 64
                                    + (b3 - 128)) ++ utf8_decode r3
                        else replacement :: utf8_decode r2
                    | [] => [replacement]
                    end
                  else replacement :: utf8_decode r1
              | [] => [replacement]
              end
            else replacement :: utf8_decode r
        | [] => [replacement]
        end
      else replacement :: utf8_decode r
  end.

(** Strings without lone surrogates (and with 16-bit code units). *)
Fixpoint utf16_ok (s : str) : bool :=
  match s with
  | [] => true
  | c :: s' =>
      if is_hi c then match s' with d :: s'' => is_lo d && utf16_ok s'' | [] => false end
      else negb (is_lo c) && (c <? 65536) && utf16_ok s'
  end.

(** ** Base64 *)

Definition b64_char (v : N) : N :=
  if v <? 26 then 65 + v else if v <? 52 then 71 + v else if v <? 62 then v - 4
  else if v =? 62 then 43 else 47.
Definition b64_val (c : N) : option N :=
  if is_upper c then Some (c - 65)
  else if is_lower c then Some (c - 71)
  else if is_digit c then Some (c + 4)
  else if (c =? 43) || (c =? 45) then Some 62
  else if (c =? 47) || (c =? 95) then Some 63
  else None.

(** [buffer.toString("base64")] *)
Fixpoint base64_encode (l : list N) : str :=
  match l with
  | [] => []
  | [a] => [b64_char (a / 4); b64_char (a mod 4 * 16); 61; 61]
  | [a; b] => [b64_char (a / 4); b64_char (a mod 4 * 16 + b / 16); b64_char (b mod 16 * 4); 61]
  | a :: b :: c :: r =>
      [b64_char (a / 4); b64_char (a mod 4 * 16 + b / 16);
       b64_char (b mod 16 * 4 + c / 64); b64_char (c mod 64)] ++ base64_encode r
  end.

Fixpoint sextets_to_bytes (l : list N) : list N :=
  match l with
  | a :: b :: c :: d :: r =>
      [a * 4 + b / 16; b mod 16 * 16 + c / 4; c mod 4 * 64 + d] ++ sextets_to_bytes r
  | [a; b; c] => [a * 4 + b / 16; b mod 16 * 16 + c / 4]
  | [a; b] => [a * 4 + b / 16]
  | _ => []
  end.

(** [Buffer.from(s, "base64")]: units outside the alphabet are skipped. *)
Definition base64_decode (s : str) : list N := sextets_to_bytes (omap b64_val s).

(** [buffer.toString("base64url")]: the URL alphabet, without padding. *)
Definition b64url_unit (c : N) : N := if c =? 43 then 45 else if c =? 47 then 95 else c.
Definition base64url_encode (l : list N) : str :=
  map b64url_unit (List.filter (λ c, negb (c =? 61)) (base64_encode l)).

(** ** URI components *)

Definition hex_upper (n : N) : N := if n <? 10 then 48 + n else 55 + n.
Definition percent (b : N) : str := [37; hex_upper (b / 16); hex_upper (b mod 16)].
Definition is_unreserved (c : N) : bool :=
  is_alnum c || bool_decide (c ∈ js "-_.!~*'()").

(** [encodeURIComponent(s)]; [None] is the URIError of a lone surrogate. *)
Fixpoint encodeURIComponent (s : str) : option str :=
  match s with
  | [] => Some []
  | c :: s' =>
      if is_unreserved c then cons c <$> encodeURIComponent s'
      else if is_hi c then
        match s' with
        | d :: s'' => if is_lo d
                      then app (flat_map percent (utf8_bytes (code_point c d))) <$> encodeURIComponent s''
                      else None
        | [] => None
        end
      else if is_lo c then None
      else app (flat_map percent (utf8_bytes c)) <$> encodeURIComponent s'
  end.

Definition hex_val (c : N) : option N :=
  if is_digit c then Some (c - 48)
  else if in_range 97 102 c then Some (c - 87)
  else if in_range 65 70 c then Some (c - 55)
  else None.

(** ** Round trips *)

Ltac unfold_ranges :=
  unfold second3, second4, is_hi, is_lo, is_cont, is_upper, is_lower, is_digit, in_range in *.
Ltac n_bool :=
  rewrite ?andb_true_iff, ?andb_false_iff, ?orb_true_iff, ?orb_false_iff, ?negb_true_iff,
    ?negb_false_iff, ?N.leb_le, ?N.leb_gt, ?N.ltb_lt, ?N.ltb_ge, ?N.eqb_eq, ?N.eqb_neq in *.
(** Decide every boolean test of the goal by linear arithmetic. *)
Ltac n_decide :=
  repeat match goal with
         | |- context [if ?b then _ else _] =>
             first [ assert (b = true) as -> by (unfold_ranges; n_bool; lia)
                   | assert (b = false) as -> by (unfold_ranges; n_bool; lia)
                   | destruct b eqn:? ]
         end.

Lemma utf8_decode_1 c r : c < 128 → utf8_decode (c :: r) = c :: utf8_decode r.
Proof. intros H. cbn [utf8_decode]. n_decide. done. Qed.

Lemma utf8_decode_2 b b1 r :
  194 <= b <= 223 → 128 <= b1 <= 191 →
  utf8_decode (b :: b1 :: r) = ((b - 192) * 64 + (b1 - 128)) :: utf8_decode r.
Proof. intros H1 H2. cbn [utf8_decode]. n_decide. done. Qed.

Lemma utf8_decode_3 b b1 b2 r :
  224 <= b <= 239 → second3 b b1 = true → 128 <= b2 <= 191 →
  utf8_decode (b :: b1 :: b2 :: r)
  = ((b - 224) * 4096 + (b1 - 128) * 64 + (b2 - 128)) :: utf8_decode r.
Proof.
  intros H1 H2 H3. cbn [utf8_decode]. rewrite H2.
  assert (is_cont b2 = true) as -> by (unfold_ranges; n_bool; lia).
  assert ((b <? 128) = false) as -> by (n_bool; lia).
  assert (in_range 194 223 b = false) as -> by (unfold_ranges; n_bool; lia).
  assert (in_range 224 239 b = true) as -> by (unfold_ranges; n_bool; lia). done.
Qed.

Lemma utf8_decode_4 b b1 b2 b3 r :
  240 <= b <= 244 → second4 b b1 = true → 128 <= b2 <= 191 → 128 <= b3 <= 191 →
  utf8_decode (b :: b1 :: b2 :: b3 :: r)
  = units ((b - 240) * 262144 + (b1 - 128) * 4096 + (b2 - 128) * 64 + (b3 - 128)) ++ utf8_decode r.
Proof.
  intros H1 H2 H3 H4. cbn [utf8_decode]. rewrite H2.
  assert (is_cont b2 = true) as -> by (unfold_ranges; n_bool; lia).
  assert (is_cont b3 = true) as -> by (unfold_ranges; n_bool; lia).
  assert ((b <? 128) = false) as -> by (n_bool; lia).
  assert (in_range 194 223 b = false) as -> by (unfold_ranges; n_bool; lia).
  assert (in_range 224 239 b = false) as -> by (unfold_ranges; n_bool; lia).
  assert (in_range 240 244 b = true) as -> by (unfold_ranges; n_bool; lia). done.
Qed.

Lemma utf8_decode_bytes c r :
  c < 65536 → is_hi c = false → is_lo c = false →
  utf8_decode (utf8_bytes c ++ r) = c :: utf8_decode r.
Proof.
  intros Hc Hhi Hlo. unfold utf8_bytes.
  destruct (N.ltb_spec c 128); [by apply utf8_decode_1|].
  destruct (N.ltb_spec c 2048).
  { cbn [app]. rewrite utf8_decode_2 by lia. f_equal. lia. }
  destruct (N.ltb_spec c 65536); [|lia].
  cbn [app]. rewrite utf8_decode_3.
  - f_equal. lia.
  - lia.
  - unfold_ranges. n_decide; n_bool; lia.
  - lia.
Qed.

Lemma utf8_decode_pair hi lo r :
  is_hi hi = true → is_lo lo = true →
  utf8_decode (utf8_bytes (code_point hi lo) ++ r) = hi :: lo :: utf8_decode r.
Proof.
  intros Hhi Hlo. unfold_ranges. n_bool. unfold utf8_bytes, code_point.
  set (c := 65536 + (hi - 55296) * 1024 + (lo - 56320)).
  assert (65536 <= c < 1114112) by lia.
  destruct (N.ltb_spec c 128); [lia|]. destruct (N.ltb_spec c 2048); [lia|].
  destruct (N.ltb_spec c 65536); [lia|].
  cbn [app]. rewrite utf8_decode_4.
  - replace ((240 + c / 262144 - 240) * 262144 + (128 + (c / 4096) mod 64 - 128) * 4096
      + (128 + (c / 64) mod 64 - 128) * 64 + (128 + c mod 64 - 128)) with c by lia.
    unfold units. destruct (N.ltb_spec c 65536); [lia|]. cbn [app]. subst c.
    f_equal; [lia|]. f_equal. lia.
  - lia.
  - unfold second4, is_cont, in_range. n_decide; n_bool; lia.
  - lia.
  - lia.
Qed.

Lemma str_pair_ind (P : str → Prop) :
  P [] → (∀ c, P [c]) → (∀ c d s, P s → P (d :: s) → P (c :: d :: s)) → ∀ s, P s.
Proof.
  intros H0 H1 H2 s. enough (P s ∧ ∀ c, P (c :: s)) by tauto.
  induction s as [|d s [IH1 IH2]]; [auto|]. split; [auto|]. intros c. by apply H2.
Qed.

(** Decoding the UTF-8 bytes of a well-formed string gives the string back. *)
Lemma utf8_roundtrip s : utf16_ok s = true → utf8_decode (utf8_encode s) = s.
Proof.
  induction s as [|c|c d s IHs IHds] using str_pair_ind; intros Hok; [done| |].
  - cbn [utf16_ok utf8_encode] in *. destruct (is_hi c) eqn:Eh; [done|].
    to_prop. rewrite H. apply (utf8_decode_bytes c []); [by apply N.ltb_lt|done|done].
  - cbn [utf8_encode]. cbn [utf16_ok] in Hok. destruct (is_hi c) eqn:Eh.
    + to_prop. rewrite H. rewrite utf8_decode_pair by done. by rewrite IHs.
    + apply andb_true_iff in Hok as [Hc Hok]. to_prop. rewrite H.
      rewrite utf8_decode_bytes; [|by apply N.ltb_lt|done|done].
      f_equal. by apply IHds.
Qed.

Definition byte_ok (b : N) : Prop := b < 256.

Lemma utf8_encode_cons2 c d s :
  utf8_encode (c :: d :: s) =
  if is_hi c then
    if is_lo d then utf8_bytes (code_point c d) ++ utf8_encode s
    else utf8_bytes replacement ++ utf8_encode (d :: s)
  else utf8_bytes (if is_lo c then replacement else c) ++ utf8_encode (d :: s).
Proof. cbn. destruct (is_hi c), (is_lo c); done. Qed.

Lemma b64_val_char v : v < 64 → b64_val (b64_char v) = Some v.
Proof.
  intros H. unfold b64_val, b64_char.
  destruct (N.ltb_spec v 26); [n_decide; f_equal; lia|].
  destruct (N.ltb_spec v 52); [n_decide; f_equal; lia|].
  destruct (N.ltb_spec v 62); [n_decide; f_equal; lia|].
  destruct (N.eqb_spec v 62); [by subst|]. replace v with 63 by lia. done.
Qed.

Lemma list_triple_ind {A} (P : list A → Prop) :
  P [] → (∀ a, P [a]) → (∀ a b, P [a; b]) → (∀ a b c l, P l → P (a :: b :: c :: l)) → ∀ l, P l.
Proof.
  intros H0 H1 H2 H3 l.
  enough (P l ∧ (∀ a, P (a :: l)) ∧ ∀ a b, P (a :: b :: l)) by tauto.
  induction l as [|x l (IH1 & IH2 & IH3)]; [auto|]. repeat split; auto.
Qed.

(** Base64 decoding inverts base64 encoding. *)
Lemma base64_roundtrip l : Forall byte_ok l → base64_decode (base64_encode l) = l.
Proof.
  unfold base64_decode, byte_ok.
  induction l as [|a|a b|a b c l IH] using list_triple_ind; intros H; [done| | |].
  - apply Forall_cons in H as [Ha _]. cbn. rewrite !b64_val_char by lia. cbn.
    f_equal. lia.
  - apply Forall_cons in H as [Ha H]. apply Forall_cons in H as [Hb _].
    cbn. rewrite !b64_val_char by lia. cbn. f_equal; [lia|]. f_equal. lia.
  - apply Forall_cons in H as [Ha H]. apply Forall_cons in H as [Hb H].
    apply Forall_cons in H as [Hc H].
    cbn [base64_encode app omap list_omap]. rewrite !b64_val_char by lia.
    cbn [sextets_to_bytes app]. rewrite IH by done.
    f_equal; [lia|]. f_equal; [lia|]. f_equal. lia.
Qed.

Lemma utf8_bytes_ok c : c < 1114112 → Forall byte_ok (utf8_bytes c).
Proof.
  intros H. unfold utf8_bytes, byte_ok.
  destruct (N.ltb_spec c 128); [repeat constructor; lia|].
  destruct (N.ltb_spec c 2048); [repeat constructor; lia|].
  destruct (N.ltb_spec c 65536); repeat constructor; lia.
Qed.

Lemma utf8_encode_ok s : Forall (λ c, c < 65536) s → Forall byte_ok (utf8_encode s).
Proof.
  induction s as [|c|c d s IHs IHds] using str_pair_ind; intros H; [constructor| |].
  - apply Forall_cons in H as [Hc _]. cbn [utf8_encode].
    repeat case_match; rewrite ?app_nil_r; apply utf8_bytes_ok; unfold replacement; lia.
  - apply Forall_cons in H as [Hc H]. assert (Hd := H). apply Forall_cons in H as [Hd' Hs].
    rewrite utf8_encode_cons2. destruct (is_hi c) eqn:Eh.
    + destruct (is_lo d) eqn:El; apply Forall_app; (split; [apply utf8_bytes_ok|]).
      * unfold code_point. unfold_ranges. n_bool. lia.
      * by apply IHs.
      * unfold replacement. lia.
      * by apply IHds.
    + apply Forall_app. split; [|by apply IHds].
      apply utf8_bytes_ok. unfold replacement. case_match; lia.
Qed.

Lemma utf16_ok_units s : utf16_ok s = true → Forall (λ c, c < 65536) s.
Proof.
  induction s as [|c|c d s IHs IHds] using str_pair_ind; cbn; intros H; [constructor| |].
  - destruct (is_hi c); [done|]. to_prop. repeat constructor. by apply N.ltb_lt.
  - destruct (is_hi c) eqn:Eh.
    + to_prop. unfold_ranges. n_bool. constructor; [lia|]. constructor; [lia|]. auto.
    + apply andb_true_iff in H as [H1 H2]. apply andb_true_iff in H1 as [H0 H1].
      constructor; [by apply N.ltb_lt|]. by apply IHds.
Qed.

(** What [writeContents] sends as base64 is what [fetchBlob] decodes. *)
Lemma base64_utf8_roundtrip s :
  utf16_ok s = true → utf8_decode (base64_decode (base64_encode (utf8_encode s))) = s.
Proof.
  intros H. rewrite base64_roundtrip; [by apply utf8_roundtrip|].
  by apply utf8_encode_ok, utf16_ok_units.
Qed.

(** ** The alphabet of an encoded component *)

Definition uri_safe (c : N) : bool := is_unreserved c || (c =? 37).

Lemma percent_safe b : byte_ok b → Forall (λ c, uri_safe c = true) (percent b).
Proof.
  intros H. unfold byte_ok in H.
  assert (Hh : ∀ n, n < 16 → uri_safe (hex_upper n) = true).
  { intros n Hn. unfold uri_safe, is_unreserved, is_alnum, is_alpha, hex_upper.
    destruct (N.ltb_spec n 10).
    - replace (is_digit (48 + n)) with true; [by rewrite orb_true_r|].
      symmetry. unfold_ranges. n_bool. lia.
    - replace (is_upper (55 + n)) with true; [by rewrite orb_true_r|].
      symmetry. unfold_ranges. n_bool. lia. }
  repeat constructor; apply Hh; lia.
Qed.

Lemma percent_list_safe l : Forall byte_ok l → Forall (λ c, uri_safe c = true) (flat_map percent l).
Proof.
  induction 1 as [|b l Hb Hl IH]; cbn; [constructor|].
  apply (Forall_app_2 _ (percent b)); [by apply percent_safe|done].
Qed.

Lemma encodeURIComponent_safe s u :
  Forall (λ c, c < 65536) s → encodeURIComponent s = Some u → Forall (λ c, uri_safe c = true) u.
Proof.
  revert u. induction s as [|c|c d s IHs IHds] using str_pair_ind; intros u H Hu; cbn in Hu.
  - simplify_eq. constructor.
  - apply Forall_cons in H as [Hc _].
    destruct (is_unreserved c) eqn:Eu.
    { simplify_eq/=. repeat constructor. unfold uri_safe. by rewrite Eu. }
    destruct (is_hi c); [done|]. destruct (is_lo c); simplify_eq/=.
    rewrite app_nil_r. apply percent_list_safe, utf8_bytes_ok. lia.
  - apply Forall_cons in H as [Hc H]. assert (Hds := H). apply Forall_cons in H as [Hd H].
    destruct (is_unreserved c) eqn:Eu.
    { apply fmap_Some in Hu as (v & Hv & ->). constructor; [unfold uri_safe; by rewrite Eu|].
      by apply IHds. }
    destruct (is_hi c) eqn:Eh.
    { destruct (is_lo d) eqn:El; [|done]. apply fmap_Some in Hu as (v & Hv & ->).
      apply Forall_app. split; [|by apply IHs].
      apply percent_list_safe, utf8_bytes_ok. unfold code_point. unfold_ranges. n_bool. lia. }
    destruct (is_lo c) eqn:El; [done|]. apply fmap_Some in Hu as (v & Hv & ->).
    apply Forall_app. split; [apply percent_list_safe, utf8_bytes_ok; lia|by apply IHds].
Qed.

Lemma b64url_val c : c <> 61 → b64_val (b64url_unit c) = b64_val c.
Proof.
  intros H. unfold b64url_unit. destruct (N.eqb_spec c 43) as [->|]; [done|].
  by destruct (N.eqb_spec c 47) as [->|].
Qed.

Lemma base64url_roundtrip l : Forall byte_ok l → base64_decode (base64url_encode l) = l.
Proof.
  intros H. rewrite <- (base64_roundtrip l H) at 2. unfold base64_decode. f_equal.
  unfold base64url_encode. generalize (base64_encode l). intros s. clear H.
  induction s as [|c s IH]; cbn; [done|]. destruct (N.eqb_spec c 61) as [->|Hc]; cbn; [exact IH|].
  rewrite b64url_val by done. by destruct (b64_val c); rewrite IH.
Qed.

(** Token parts contain no full stop. *)
Lemma base64url_no_dot l : Forall byte_ok l → 46 ∉ base64url_encode l.
Proof.
  intros H Hin. unfold base64url_encode in Hin. apply list_elem_of_fmap in Hin as (c & E & Hc).
  apply list_elem_of_In, filter_In in Hc as [Hc _]. apply list_elem_of_In in Hc.
  assert (c = 46) as ->.
  { unfold b64url_unit in E. destruct (c =? 43); [done|]. by destruct (c =? 47). }
  assert (Hnd : ∀ v, v < 64 → 46 ≠ b64_char v).
  { intros v Hv Ev. pose proof (b64_val_char v Hv) as Hb. by rewrite <- Ev in Hb. }
  clear E. revert Hc. unfold byte_ok in H.
  induction l as [|a|a b|a b d l IH] using list_triple_ind; cbn [base64_encode app];
    rewrite ?elem_of_cons; rewrite ?Forall_cons in H.
  - by intros ?%elem_of_nil.
  - intros [E|[E|[E|[E|E]]]]; [by eapply Hnd; [|exact E]; lia..|done|done|by apply elem_of_nil in E].
  - intros [E|[E|[E|[E|E]]]]; [by eapply Hnd; [|exact E]; lia..|done|by apply elem_of_nil in E].
  - destruct H as (Ha & Hb & Hd & H).
    intros [E|[E|[E|[E|E]]]]; [by eapply Hnd; [|exact E]; lia..|by apply IH].
Qed.
