(* ===== verification/JsDate.v ===== *)
(** * Dates

    Times are integers: milliseconds since the epoch, as [Date.now()] gives
    them. [toISOString] and [Date_parse] follow ECMAScript's date-time string
    format with a time part ([YYYY-MM-DDTHH:mm[:ss[.s+]]] and [Z] or an
    offset); other spellings, which engines treat as they like, parse to [None]
    (NaN). *)

From S2P Require Import Prelude JsString.

Local Open Scope Z_scope.
Ltac Zify.zify_post_hook ::= Z.to_euclidean_division_equations.

Definition ms_per_day : Z := 86400000.

(** ** Days and civil dates *)

(** Day of a 400-year era (March-based) to year, month and day of the era. *)
Definition civil_of_doe (doe : Z) : Z * Z * Z :=
  let yoe := (doe - doe / 1460 + doe / 36524 - doe / 146096) / 365 in
  let doy := doe - (365 * yoe + yoe / 4 - yoe / 100) in
  let mp := (5 * doy + 2) / 153 in
  (yoe, mp, doy - (153 * mp + 2) / 5 + 1).

Definition doe_of_civil (yoe mp d : Z) : Z :=
  yoe * 365 + yoe / 4 - yoe / 100 + ((153 * mp + 2) / 5 + d - 1).

Definition civil_from_days (z : Z) : Z * Z * Z :=
  let z := z + 719468 in
  let era := z / 146097 in
  let '(yoe, mp, d) := civil_of_doe (z mod 146097) in
  let m := if mp <? 10 then mp + 3 else mp - 9 in
  (yoe + era * 400 + (if m <=? 2 then 1 else 0), m, d).

Definition days_from_civil (y m d : Z) : Z :=
  let y := if m <=? 2 then y - 1 else y in
  let era := y / 400 in
  let mp := if m <=? 2 then m + 9 else m - 3 in
  era * 146097 + doe_of_civil (y mod 400) mp d - 719468.

(** ** Fixed-width decimal fields *)

Fixpoint pad_digits (k : nat) (n : Z) : str :=
  match k with
  | O => []
  | S k => Z.to_N (48 + (n / 10 ^ Z.of_nat k) mod 10) :: pad_digits k n
  end.

Definition digit_val (c : N) : option Z :=
  if is_digit c then Some (Z.of_N c - 48) else None.

(** Read exactly [k] digits. *)
Fixpoint read_digits (k : nat) (acc : Z) (s : str) : option (Z * str) :=
  match k with
  | O => Some (acc, s)
  | S k => match s with
           | c :: s => d ← digit_val c; read_digits k (acc * 10 + d) s
           | [] => None
           end
  end.

Definition expect (c : N) (s : str) : option str :=
  match s with d :: s => if (c =? d)%N then Some s else None | [] => None end.

(** ** [toISOString] *)

Definition iso_year (y : Z) : str :=
  if (0 <=? y) && (y <=? 9999) then pad_digits 4 y
  else (if y <? 0 then ch "-" else ch "+") :: pad_digits 6 (Z.abs y).

Definition toISOString (t : Z) : str :=
  let '(y, m, d) := civil_from_days (t / ms_per_day) in
  let r := t mod ms_per_day in
  iso_year y ++ ch "-" :: pad_digits 2 m ++ ch "-" :: pad_digits 2 d ++
  ch "T" :: pad_digits 2 (r / 3600000) ++ ch ":" :: pad_digits 2 (r / 60000 mod 60) ++
  ch ":" :: pad_digits 2 (r / 1000 mod 60) ++ ch "." :: pad_digits 3 (r mod 1000) ++ [ch "Z"].

(** ** [Date.parse] *)

(** The first three fractional digits; further ones are dropped. *)
Fixpoint read_fraction (k : nat) (acc : Z) (s : str) : Z * str :=
  match s with
  | c :: s' => match digit_val c with
               | Some d => match k with
                           | O => read_fraction O acc s'
                           | S k => read_fraction k (acc * 10 + d) s'
                           end
               | None => (acc * 10 ^ Z.of_nat k, s)
               end
  | [] => (acc * 10 ^ Z.of_nat k, [])
  end.

Definition read_zone (s : str) : option Z :=
  match s with
  | [c] => if (c =? ch "Z")%N then Some 0 else None
  | c :: s =>
      sign ← (if (c =? ch "+")%N then Some 1 else if (c =? ch "-")%N then Some (-1) else None);
      '(h, s) ← read_digits 2 0 s; s ← expect (ch ":") s; '(m, s) ← read_digits 2 0 s;
      match s with
      | [] => if (h <? 24) && (m <? 60) then Some (sign * (h * 60 + m) * 60000) else None
      | _ => None
      end
  | [] => None
  end.

Definition read_seconds (s : str) : option (Z * Z * str) :=
  match expect (ch ":") s with
  | None => Some (0, 0, s)
  | Some s =>
      '(sec, s) ← read_digits 2 0 s;
      match expect (ch ".") s with
      | None => Some (sec, 0, s)
      | Some s => if match s with c :: _ => is_digit c | [] => false end
                  then let '(ms, s) := read_fraction 3 0 s in Some (sec, ms, s)
                  else None
      end
  end.

Definition Date_parse (s : str) : option Z :=
  '(y, s) ← read_digits 4 0 s; s ← expect (ch "-") s;
  '(m, s) ← read_digits 2 0 s; s ← expect (ch "-") s;
  '(d, s) ← read_digits 2 0 s; s ← expect (ch "T") s;
  '(hh, s) ← read_digits 2 0 s; s ← expect (ch ":") s;
  '(mi, s) ← read_digits 2 0 s;
  '(sec, ms, s) ← read_seconds s;
  off ← read_zone s;
  if (1 <=? m) && (m <=? 12) && (1 <=? d) && (d <=? 31) && (hh <? 24) && (mi <? 60) && (sec <? 60)
  then Some (days_from_civil y m d * ms_per_day + hh * 3600000 + mi * 60000 + sec * 1000 + ms - off)
  else None.

(** ** Round trip *)

Lemma doy_range doe :
  0 <= doe < 146097 →
  let yoe := (doe - doe / 1460 + doe / 36524 - doe / 146096) / 365 in
  0 <= yoe <= 399 ∧ 0 <= doe - (365 * yoe + yoe / 4 - yoe / 100) <= 365.
Proof. cbn zeta. lia. Qed.

(** Every day of an era survives the conversion. *)
Lemma civil_of_doe_ok doe yoe mp d :
  0 <= doe < 146097 → civil_of_doe doe = (yoe, mp, d) →
  doe_of_civil yoe mp d = doe ∧ 0 <= yoe <= 399 ∧ 0 <= mp <= 11 ∧ 1 <= d <= 31.
Proof.
  intros Hd. unfold civil_of_doe, doe_of_civil. pose proof (doy_range doe Hd) as Hr.
  cbn zeta in *. set (y := (doe - doe / 1460 + doe / 36524 - doe / 146096) / 365) in *.
  clearbody y. intros H. simplify_eq.
  set (doy := doe - (365 * yoe + yoe / 4 - yoe / 100)) in *.
  assert (doe = doy + (365 * yoe + yoe / 4 - yoe / 100)) by lia. clearbody doy. lia.
Qed.

Lemma civil_roundtrip z y m d :
  civil_from_days z = (y, m, d) →
  days_from_civil y m d = z ∧ 1 <= m <= 12 ∧ 1 <= d <= 31.
Proof.
  unfold civil_from_days, days_from_civil. intros H.
  destruct (civil_of_doe ((z + 719468) mod 146097)) as [[yoe mp] dd] eqn:E0.
  apply civil_of_doe_ok in E0 as (E0 & Hyoe & Hmp & Hdd); [|lia]. simplify_eq.
  destruct (Z.ltb_spec mp 10).
  - rewrite (proj2 (Z.leb_gt _ _)) by lia.
    replace (yoe + (z + 719468) / 146097 * 400 + 0) with (yoe + (z + 719468) / 146097 * 400) by lia.
    rewrite Z.div_add, Z.mod_add by lia. rewrite Z.div_small, Z.mod_small by lia.
    replace (mp + 3 - 3) with mp by lia. lia.
  - rewrite (proj2 (Z.leb_le _ _)) by lia.
    replace (yoe + (z + 719468) / 146097 * 400 + 1 - 1)
      with (yoe + (z + 719468) / 146097 * 400) by lia.
    rewrite Z.div_add, Z.mod_add by lia. rewrite Z.div_small, Z.mod_small by lia.
    replace (mp - 9 + 9) with mp by lia. lia.
Qed.

Lemma digit_val_of n : digit_val (Z.to_N (48 + n mod 10)) = Some (n mod 10).
Proof.
  unfold digit_val, is_digit, in_range. assert (0 <= n mod 10 < 10) by lia.
  rewrite !(proj2 (N.leb_le _ _)) by lia. cbn. f_equal. lia.
Qed.

Lemma read_pad k n acc s :
  0 <= n < 10 ^ Z.of_nat k →
  read_digits k acc (pad_digits k n ++ s) = Some (acc * 10 ^ Z.of_nat k + n, s).
Proof.
  intros Hn. enough (H : ∀ acc, read_digits k acc (pad_digits k n ++ s)
    = Some (acc * 10 ^ Z.of_nat k + n mod 10 ^ Z.of_nat k, s)).
  { rewrite H. do 2 f_equal. by rewrite Z.mod_small. }
  clear Hn acc. induction k as [|k IH]; intros acc.
  - cbn. do 2 f_equal. rewrite Z.mod_1_r. lia.
  - cbn [pad_digits read_digits app]. rewrite digit_val_of. cbn [mbind option_bind].
    rewrite IH. do 2 f_equal. rewrite Nat2Z.inj_succ, Z.pow_succ_r by lia.
    rewrite (Z.mul_comm 10), Z.rem_mul_r by lia. lia.
Qed.

Lemma is_digit_of n : is_digit (Z.to_N (48 + n mod 10)) = true.
Proof.
  unfold is_digit, in_range. assert (0 <= n mod 10 < 10) by lia.
  rewrite !(proj2 (N.leb_le _ _)) by lia. done.
Qed.

Lemma read_fraction_pad3 n : 0 <= n < 1000 →
  read_fraction 3 0 (pad_digits 3 n ++ [ch "Z"]) = (n, [ch "Z"]).
Proof.
  intros Hn. cbn [pad_digits app read_fraction]. rewrite !digit_val_of.
  cbn [digit_val is_digit]. replace (digit_val (ch "Z")) with (@None Z) by done.
  f_equal. change (10 ^ Z.of_nat 2) with 100. change (10 ^ Z.of_nat 1) with 10.
  change (10 ^ Z.of_nat 0) with 1. rewrite Z.div_1_r. lia.
Qed.

(** Times whose year has four digits. *)
Definition iso_time (t : Z) : Prop := 0 <= t < 253402300800000.

Lemma iso_time_year t y m d :
  iso_time t → civil_from_days (t / ms_per_day) = (y, m, d) → 0 <= y <= 9999.
Proof.
  unfold iso_time, ms_per_day. intros Ht H. unfold civil_from_days in H.
  set (z := t / 86400000 + 719468) in *. assert (719468 <= z < 3652365) by lia.
  destruct (civil_of_doe (z mod 146097)) as [[yoe mp] dd] eqn:E.
  apply civil_of_doe_ok in E as (E & Hyoe & Hmp & Hdd); [|lia]. simplify_eq.
  assert (z / 146097 <= 24) by lia. assert (0 <= z / 146097) by lia.
  destruct (Z.ltb_spec mp 10).
  { rewrite (proj2 (Z.leb_gt (mp + 3) 2)) by lia. lia. }
  rewrite (proj2 (Z.leb_le (mp - 9) 2)) by lia.
  destruct (Z.eq_dec (z / 146097) 24); [|lia]. destruct (Z.eq_dec yoe 399); [|lia]. subst yoe.
  assert (z mod 146097 <= 146036) by lia. unfold doe_of_civil in *.
  assert (399 / 4 = 99) by done. assert (399 / 100 = 3) by done.
  assert ((153 * 10 + 2) / 5 <= (153 * mp + 2) / 5) by (apply Z.div_le_mono; lia).
  assert ((153 * 10 + 2) / 5 = 306) by done. lia.
Qed.

Lemma Date_parse_toISOString t : iso_time t → Date_parse (toISOString t) = Some t.
Proof.
  intros Ht. unfold toISOString.
  destruct (civil_from_days (t / ms_per_day)) as [[y m] d] eqn:E.
  pose proof (iso_time_year _ _ _ _ Ht E) as Hy.
  apply civil_roundtrip in E as (E & Hm & Hd).
  unfold iso_year. rewrite !(proj2 (Z.leb_le _ _)) by lia. cbn [andb].
  unfold Date_parse, ms_per_day in *. set (r := t mod 86400000).
  assert (0 <= r < 86400000) by lia.
  repeat (rewrite read_pad by (cbn; lia); cbn [mbind option_bind expect app];
          rewrite ?N.eqb_refl; cbn [mbind option_bind]).
  unfold read_seconds. cbn [expect app]. rewrite N.eqb_refl.
  rewrite read_pad by (cbn; lia). cbn [mbind option_bind expect app]. rewrite N.eqb_refl.
  cbn [pad_digits app]. rewrite is_digit_of.
  change (_ :: _ :: _ :: [ch "Z"]) with (pad_digits 3 (r mod 1000) ++ [ch "Z"]).
  rewrite read_fraction_pad3 by lia. cbn [mbind option_bind read_zone]. rewrite N.eqb_refl.
  cbn [mbind option_bind]. rewrite !Z.mul_0_l, !Z.add_0_l.
  rewrite !(proj2 (Z.leb_le _ _)), !(proj2 (Z.ltb_lt _ _)) by lia. cbn [andb].
  f_equal. rewrite E. lia.
Qed.
