(* ===== verification/Json.v ===== *)
(** * JavaScript values and JSON

    [jsval] is the data the sources pass around as [unknown]; [stringify] and
    [JSON_parse] model [JSON.stringify] and [JSON.parse]. Decimal literals keep
    their exact value ([NDec m e] is [m / 10^e], not an integer); object keys
    keep their insertion order. *)

From S2P Require Import Prelude JsString JsDate.

Inductive num : Type :=
| NInt (z : Z)
| NDec (m : Z) (e : positive)
| NNaN
| NInf (negative : bool).

Inductive jsval : Type :=
| JUndefined
| JNull
| JBool (b : bool)
| JNum (n : num)
| JStr (s : str)
| JArr (l : list jsval)
| JObj (o : list (str * jsval))
| JDate (ms : Z).

(** [Number.isSafeInteger] *)
Definition is_safe_Z (z : Z) : bool := (Z.abs z <=? 9007199254740991)%Z.
Definition is_safe_integer (v : jsval) : bool :=
  match v with JNum (NInt z) => is_safe_Z z | _ => false end.

(** [n <= z] on numbers; comparisons with NaN are false. *)
Definition num_le_Z (n : num) (z : Z) : bool :=
  match n with
  | NInt m => (m <=? z)%Z
  | NDec m e => (m <=? z * 10 ^ Zpos e)%Z
  | NNaN => false
  | NInf neg => neg
  end.
Definition num_gt_Z (n : num) (z : Z) : bool :=
  match n with
  | NInt m => (z <? m)%Z
  | NDec m e => (z * 10 ^ Zpos e <? m)%Z
  | NNaN => false
  | NInf neg => negb neg
  end.
(** [Number.isFinite] *)
Definition is_finite (n : num) : bool :=
  match n with NInt _ | NDec _ _ => true | _ => false end.

(** Property access on an object; a missing property is [undefined]. *)
Fixpoint assoc {A} (k : str) (o : list (str * A)) : option A :=
  match o with
  | [] => None
  | (k', v) :: o => if str_eqb k k' then Some v else assoc k o
  end.
Definition field (k : str) (o : list (str * jsval)) : jsval := default JUndefined (assoc k o).

(** Assignment [o[k] = v]: an existing key keeps its place. *)
Fixpoint obj_set {A} (k : str) (v : A) (o : list (str * A)) : list (str * A) :=
  match o with
  | [] => [(k, v)]
  | (k', v') :: o => if str_eqb k k' then (k', v) :: o else (k', v') :: obj_set k v o
  end.

Lemma assoc_obj_set {A} k k' (v : A) o :
  assoc k (obj_set k' v o) = if str_eqb k k' then Some v else assoc k o.
Proof.
  induction o as [|[k'' v'] o IH]; cbn; [done|]. unfold str_eqb in *.
  repeat case_bool_decide; subst; cbn; unfold str_eqb; repeat case_bool_decide; congruence.
Qed.

(** ** [JSON.stringify] *)

Definition hex4 (c : N) : str := hex_byte (c / 256)%N ++ hex_byte (c mod 256)%N.
Definition u_escape (c : N) : str := [92; 117]%N ++ hex4 c.

Definition quote_unit (c : N) : str :=
  (if c =? 34 then [92; 34]
   else if c =? 92 then [92; 92]
   else if c =? 8 then [92; 98]
   else if c =? 12 then [92; 102]
   else if c =? 10 then [92; 110]
   else if c =? 13 then [92; 114]
   else if c =? 9 then [92; 116]
   else if c <? 32 then u_escape c
   else [c])%N.

(** Surrogate pairs are kept, lone surrogates are escaped. *)
Fixpoint quote_body (s : str) : str :=
  match s with
  | [] => []
  | c :: s' =>
      if in_range 55296 56319 c then
        match s' with
        | d :: s'' => if in_range 56320 57343 d then c :: d :: quote_body s''
                      else u_escape c ++ quote_body s'
        | [] => u_escape c
        end
      else if in_range 56320 57343 c then u_escape c ++ quote_body s'
      else quote_unit c ++ quote_body s'
  end.
Definition quote (s : str) : str := 34%N :: quote_body s ++ [34%N].

Definition num_text (n : num) : str :=
  match n with
  | NInt z => dec_of_Z z
  | NDec m e =>
      (if (m <? 0)%Z then [ch "-"] else []) ++ dec_of_Z (Z.abs m / 10 ^ Zpos e) ++
      ch "." :: pad_digits (Pos.to_nat e) (Z.abs m mod 10 ^ Zpos e)
  | NNaN | NInf _ => js "null"
  end.

Definition is_undefined (v : jsval) : bool := match v with JUndefined => true | _ => false end.

Fixpoint stringify (v : jsval) : str :=
  match v with
  | JUndefined | JNull => js "null"
  | JBool true => js "true"
  | JBool false => js "false"
  | JNum n => num_text n
  | JStr s => quote s
  | JDate t => quote (toISOString t)
  | JArr l => ch "[" :: join [ch ","] (map stringify l) ++ [ch "]"]
  | JObj o =>
      ch "{" :: join [ch ","]
        (flat_map (λ kv, if is_undefined kv.2 then []
                         else [quote kv.1 ++ ch ":" :: stringify kv.2]) o) ++ [ch "}"]
  end.

(** ** [JSON.parse] *)

Definition is_json_ws (c : N) : bool := ((c =? 32) || (c =? 9) || (c =? 10) || (c =? 13))%N.
Definition skip_ws (s : str) : str := drop_while is_json_ws s.

Definition hex4_val (a b c d : N) : option N :=
  let v (x : N) : option N :=
    if is_digit x then Some (x - 48)%N
    else if in_range 97 102 x then Some (x - 87)%N
    else if in_range 65 70 x then Some (x - 55)%N else None in
  a ← v a; b ← v b; c ← v c; d ← v d; Some (((a * 16 + b) * 16 + c) * 16 + d)%N.

Definition unescape (e : N) : option N :=
  (if e =? 34 then Some 34 else if e =? 92 then Some 92 else if e =? 47 then Some 47
   else if e =? 98 then Some 8 else if e =? 102 then Some 12 else if e =? 110 then Some 10
   else if e =? 114 then Some 13 else if e =? 116 then Some 9 else None)%N.

(** The rest of a string literal after its opening quote. *)
Fixpoint parse_chars (s : str) : option (str * str) :=
  match s with
  | [] => None
  | c :: r =>
      if (c =? 34)%N then Some ([], r)
      else if (c =? 92)%N then
        match r with
        | e :: r' =>
            if (e =? 117)%N then
              match r' with
              | h1 :: h2 :: h3 :: h4 :: r'' =>
                  u ← hex4_val h1 h2 h3 h4; '(w, t) ← parse_chars r''; Some (u :: w, t)
              | _ => None
              end
            else u ← unescape e; '(w, t) ← parse_chars r'; Some (u :: w, t)
        | [] => None
        end
      else if (c <? 32)%N then None
      else '(w, t) ← parse_chars r; Some (c :: w, t)
  end.

(** A maximal run of digits: value, count, rest. *)
Fixpoint digit_run (acc : Z) (k : nat) (s : str) : Z * nat * str :=
  match s with
  | c :: r => match digit_val c with
              | Some d => digit_run (acc * 10 + d) (S k) r
              | None => (acc, k, s)
              end
  | [] => (acc, k, [])
  end.

(** The number [m * 10^x]. *)
Definition scale (m x : Z) : num :=
  (if 0 <=? x then NInt (m * 10 ^ x)
   else if m mod 10 ^ (- x) =? 0 then NInt (m / 10 ^ (- x))
   else NDec m (Z.to_pos (- x)))%Z.

Definition parse_exp (s : str) : option (Z * str) :=
  match s with
  | c :: r =>
      if ((c =? ch "e") || (c =? ch "E"))%N then
        let '(sign, r) := match r with
                          | d :: r' => if (d =? ch "-")%N then ((-1)%Z, r')
                                       else if (d =? ch "+")%N then (1%Z, r') else (1%Z, r)
                          | [] => (1%Z, r)
                          end in
        let '(x, k, r) := digit_run 0 0 r in
        if (k =? 0)%nat then None else Some ((sign * x)%Z, r)
      else Some (0%Z, s)
  | [] => Some (0%Z, s)
  end.

Definition parse_num (s : str) : option (num * str) :=
  let '(sign, s) := match s with
                    | c :: r => if (c =? ch "-")%N then ((-1)%Z, r) else (1%Z, s)
                    | [] => (1%Z, s)
                    end in
  let '(m, k, r) := digit_run 0 0 s in
  if (k =? 0)%nat then None
  else if match s with c :: _ => (c =? 48)%N && (1 <? k)%nat | [] => false end then None
  else
    '(m, f, r) ← match r with
                 | c :: r' => if (c =? ch ".")%N then
                                let '(m', k', r'') := digit_run m 0 r' in
                                if (k' =? 0)%nat then None else Some (m', Z.of_nat k', r'')
                              else Some (m, 0%Z, r)
                 | [] => Some (m, 0%Z, r)
                 end;
    '(x, r) ← parse_exp r;
    Some (scale (sign * m) (x - f), r).

Definition literal (w : str) (v : jsval) (s : str) : option (jsval * str) :=
  if starts_with w s then Some (v, drop (length w) s) else None.

Fixpoint parse_value (n : nat) (s : str) : option (jsval * str) :=
  match n with
  | O => None
  | S n =>
      match skip_ws s with
      | [] => None
      | c :: r =>
          if (c =? ch "n")%N then literal (js "null") JNull (c :: r)
          else if (c =? ch "t")%N then literal (js "true") (JBool true) (c :: r)
          else if (c =? ch "f")%N then literal (js "false") (JBool false) (c :: r)
          else if (c =? 34)%N then '(w, t) ← parse_chars r; Some (JStr w, t)
          else if (c =? ch "[")%N then
            match skip_ws r with
            | d :: r' => if (d =? ch "]")%N then Some (JArr [], r')
                         else '(l, t) ← parse_elems n (d :: r'); Some (JArr l, t)
            | [] => None
            end
          else if (c =? ch "{")%N then
            match skip_ws r with
            | d :: r' => if (d =? ch "}")%N then Some (JObj [], r')
                         else '(o, t) ← parse_members n [] (d :: r'); Some (JObj o, t)
            | [] => None
            end
          else '(x, t) ← parse_num (c :: r); Some (JNum x, t)
      end
  end
with parse_elems (n : nat) (s : str) : option (list jsval * str) :=
  match n with
  | O => None
  | S n =>
      '(v, t) ← parse_value n s;
      match skip_ws t with
      | d :: t' => if (d =? ch "]")%N then Some ([v], t')
                   else if (d =? ch ",")%N then '(l, t) ← parse_elems n t'; Some (v :: l, t)
                   else None
      | [] => None
      end
  end
with parse_members (n : nat) (acc : list (str * jsval)) (s : str)
    : option (list (str * jsval) * str) :=
  match n with
  | O => None
  | S n =>
      match skip_ws s with
      | q :: s =>
          if (q =? 34)%N then
            '(k, t) ← parse_chars s;
            match skip_ws t with
            | d :: t =>
                if (d =? ch ":")%N then
                  '(v, t) ← parse_value n t;
                  let acc := obj_set k v acc in
                  match skip_ws t with
                  | d :: t => if (d =? ch "}")%N then Some (acc, t)
                              else if (d =? ch ",")%N then parse_members n acc t
                              else None
                  | [] => None
                  end
                else None
            | [] => None
            end
          else None
      | [] => None
      end
  end.

(** [JSON.parse(s)]; [None] is the SyntaxError. *)
Definition JSON_parse (s : str) : option jsval :=
  '(v, r) ← parse_value (S (length s)) s;
  match skip_ws r with [] => Some v | _ => None end.

Example json_ex :
  JSON_parse (replace_unit 39 34 (js "{ 'a' : [1, -2.50, 1e2, true], 'b':{}}"))
  = Some (JObj [(js "a", JArr [JNum (NInt 1); JNum (NDec (-250) 2); JNum (NInt 100); JBool true]);
                (js "b", JObj [])]).
Proof. vm_compute. reflexivity. Qed.

(** ** Round trip *)

Local Open Scope N_scope.
Ltac Zify.zify_post_hook ::= Z.to_euclidean_division_equations.

Lemma hex4_val_hex4 c : c < 65536 →
  ∃ h1 h2 h3 h4, hex4 c = [h1; h2; h3; h4] ∧ hex4_val h1 h2 h3 h4 = Some c.
Proof.
  intros Hc. do 4 eexists. split; [reflexivity|].
  assert (Hd : ∀ n, n < 16 →
    (if is_digit (hex_digit n) then Some (hex_digit n - 48)
     else if in_range 97 102 (hex_digit n) then Some (hex_digit n - 87)
     else if in_range 65 70 (hex_digit n) then Some (hex_digit n - 55) else None) = Some n).
  { intros n Hn. unfold hex_digit, is_digit, in_range.
    destruct (N.ltb_spec n 10).
    - rewrite !(proj2 (N.leb_le _ _)) by lia. cbn. f_equal. lia.
    - rewrite (proj2 (N.leb_gt (87 + n) 57)) by lia. rewrite andb_false_r.
      rewrite !(proj2 (N.leb_le _ _)) by lia. cbn. f_equal. lia. }
  unfold hex4_val. rewrite !Hd by lia. cbn. f_equal. lia.
Qed.

Definition push_char (c : N) (o : option (str * str)) : option (str * str) :=
  '(w, t) ← o; Some (c :: w, t).

Lemma parse_chars_u_escape c t : c < 65536 →
  parse_chars (u_escape c ++ t) = push_char c (parse_chars t).
Proof.
  intros Hc. destruct (hex4_val_hex4 c Hc) as (h1 & h2 & h3 & h4 & E & V).
  unfold u_escape. rewrite E. cbn -[hex4_val]. rewrite V. done.
Qed.

Lemma parse_chars_quote_unit c t : c < 65536 →
  parse_chars (quote_unit c ++ t) = push_char c (parse_chars t).
Proof.
  intros Hc. unfold quote_unit.
  repeat match goal with
         | |- context [if (c =? ?k)%N then _ else _] => destruct (N.eqb_spec c k) as [->|?]; [done|]
         end.
  destruct (N.ltb_spec c 32); [by apply parse_chars_u_escape|].
  cbn [app parse_chars].
  rewrite !(proj2 (N.eqb_neq _ _)) by done. by rewrite (proj2 (N.ltb_ge _ _)).
Qed.

Lemma parse_chars_plain c t : 127 < c → parse_chars (c :: t) = push_char c (parse_chars t).
Proof.
  intros Hc. cbn. rewrite !(proj2 (N.eqb_neq _ _)) by lia. by rewrite (proj2 (N.ltb_ge _ _)) by lia.
Qed.

Lemma str_two_ind (P : str → Prop) :
  P [] → (∀ c, P [c]) → (∀ c d s, P s → P (d :: s) → P (c :: d :: s)) → ∀ s, P s.
Proof.
  intros H0 H1 H2 s. enough (P s ∧ ∀ c, P (c :: s)) by tauto.
  induction s as [|d s [IH1 IH2]]; [auto|]. split; [auto|]. intros c. by apply H2.
Qed.

Lemma quote_body_cons2 c d s :
  quote_body (c :: d :: s) =
  if in_range 55296 56319 c then
    if in_range 56320 57343 d then c :: d :: quote_body s else u_escape c ++ quote_body (d :: s)
  else if in_range 56320 57343 c then u_escape c ++ quote_body (d :: s)
  else quote_unit c ++ quote_body (d :: s).
Proof. done. Qed.

Lemma parse_chars_quote s r :
  Forall (λ c, c < 65536) s → parse_chars (quote_body s ++ 34 :: r) = Some (s, r).
Proof.
  induction s as [|c|c d s IHs IHds] using str_two_ind; intros H; [done| |].
  - apply Forall_cons in H as [Hc _]. cbn [quote_body].
    repeat case_match; rewrite <- ?app_assoc; cbn [app];
      first [rewrite parse_chars_u_escape by done | rewrite parse_chars_quote_unit by done]; done.
  - apply Forall_cons in H as [Hc H]. assert (Hds := H). apply Forall_cons in H as [Hd H].
    rewrite quote_body_cons2. destruct (in_range 55296 56319 c) eqn:Eh.
    + destruct (in_range 56320 57343 d) eqn:El.
      * unfold in_range in *. to_prop. rewrite ?N.leb_le in *.
        cbn [app]. rewrite !parse_chars_plain by lia. by rewrite IHs.
      * rewrite <- app_assoc, parse_chars_u_escape by done. by rewrite IHds.
    + destruct (in_range 56320 57343 c) eqn:El; rewrite <- app_assoc.
      * rewrite parse_chars_u_escape by done. by rewrite IHds.
      * rewrite parse_chars_quote_unit by done. by rewrite IHds.
Qed.

(** *** Decimal integers *)

Definition dec_val (a : Z) (ds : str) : Z := foldl (λ a c, a * 10 + (Z.of_N c - 48))%Z a ds.

Lemma dec_val_cons a c ds : dec_val a (c :: ds) = dec_val (a * 10 + (Z.of_N c - 48))%Z ds.
Proof. done. Qed.

Lemma dec_digits_spec fuel n acc :
  n < 10 ^ N.of_nat fuel → (0 < fuel)%nat →
  ∃ ds, dec_digits fuel n acc = ds ++ acc ∧ Forall (λ c, is_digit c = true) ds ∧
    (∀ a, dec_val a ds = a * 10 ^ Z.of_nat (length ds) + Z.of_N n)%Z ∧
    ((n = 0 ∧ ds = [48]) ∨ ∃ c ds', ds = c :: ds' ∧ c ≠ 48).
Proof.
  revert n acc. induction fuel as [|fuel IH]; intros n acc Hn Hf; [lia|].
  cbn [dec_digits].
  assert (Hdig : is_digit (48 + n mod 10) = true)
    by (unfold is_digit, in_range; rewrite !(proj2 (N.leb_le _ _)) by lia; done).
  destruct (N.ltb_spec n 10).
  - exists [48 + n mod 10]. repeat split.
    + by constructor.
    + intros a. cbn. lia.
    + destruct (decide (n = 0)) as [->|]; [by left|right].
      do 2 eexists. split; [done|]. rewrite N.mod_small by done. lia.
  - destruct (IH (n / 10) ((48 + n mod 10) :: acc)) as (ds & E & Hds & Hv & Hh).
    + rewrite Nat2N.inj_succ, N.pow_succ_r' in Hn. apply N.Div0.div_lt_upper_bound. lia.
    + destruct fuel; [cbn in Hn; lia|lia].
    + exists (ds ++ [48 + n mod 10]). split; [by rewrite <- app_assoc|]. split.
      { apply Forall_app. split; [done|]. by constructor. }
      split.
      { intros a. unfold dec_val in *. rewrite foldl_app, Hv. cbn. rewrite length_app. cbn [length].
        rewrite Nat2Z.inj_add, Z.pow_add_r by lia. change (10 ^ Z.of_nat 1)%Z with 10%Z. lia. }
      right. destruct Hh as [[? _]|(c & ds' & -> & Hc)]; [lia|]. by eexists _, _.
Qed.

Lemma dec_of_N_spec n :
  ∃ ds, dec_of_N n = ds ∧ Forall (λ c, is_digit c = true) ds ∧ dec_val 0 ds = Z.of_N n ∧
    ((n = 0 ∧ ds = [48]) ∨ ∃ c ds', ds = c :: ds' ∧ c ≠ 48).
Proof.
  unfold dec_of_N. destruct (dec_digits_spec (S (N.to_nat (N.log2 n))) n []) as (ds & E & H1 & H2 & H3).
  - rewrite Nat2N.inj_succ, N2Nat.id. destruct (N.eq_dec n 0) as [->|Hn]; [cbn; lia|].
    apply N.lt_le_trans with (2 ^ N.succ (N.log2 n)).
    + apply N.log2_spec. lia.
    + apply N.pow_le_mono_l. lia.
  - lia.
  - exists ds. rewrite E, app_nil_r. repeat split; auto.
Qed.

(** What may follow a value inside a document, or a final newline. *)
Definition stop (r : str) : Prop :=
  match r with [] => True | c :: _ => c = ch "," ∨ c = ch "]" ∨ c = ch "}" ∨ c = 10 end.

Lemma digit_run_app ds a k r :
  Forall (λ c, is_digit c = true) ds → stop r →
  digit_run a k (ds ++ r) = (dec_val a ds, (k + length ds)%nat, r).
Proof.
  intros Hds Hr. revert a k. induction Hds as [|c ds Hc Hds IH]; intros a k.
  - rewrite Nat.add_0_r. destruct r as [|c r]; [done|].
    destruct Hr as [ -> |[ -> |[ -> | -> ]]]; done.
  - cbn [app digit_run]. unfold digit_val at 1. rewrite Hc. rewrite IH.
    do 2 f_equal. cbn. lia.
Qed.

Lemma stop_not c r : stop (c :: r) →
  (c =? ch ".") = false ∧ (c =? ch "e") = false ∧ (c =? ch "E") = false.
Proof. intros [ -> |[ -> |[ -> | -> ]]]; done. Qed.

Lemma digit_first c : is_digit c = true → c ≠ ch "-".
Proof. intros H ->. done. Qed.

Lemma parse_num_dec z r : stop r → parse_num (dec_of_Z z ++ r) = Some (NInt z, r).
Proof.
  intros Hr.
  assert (Hpos : ∀ n sgn, (sgn = 1 ∨ sgn = -1)%Z →
    (let '(m, k, r') := digit_run 0 0 (dec_of_N n ++ r) in
     if (k =? 0)%nat then None
     else if match dec_of_N n ++ r with c :: _ => (c =? 48)%N && (1 <? k)%nat | [] => false end then None
     else
      '(m, f, r) ← match r' with
                   | c :: q => if (c =? ch ".")%N then
                                 let '(m', k', r'') := digit_run m 0 q in
                                 if (k' =? 0)%nat then None else Some (m', Z.of_nat k', r'')
                               else Some (m, 0%Z, r')
                   | [] => Some (m, 0%Z, r')
                   end;
      '(x, r) ← parse_exp r; Some (scale (sgn * m) (x - f), r)) = Some (NInt (sgn * Z.of_N n), r)).
  { intros n sgn Hs. destruct (dec_of_N_spec n) as (ds & -> & Hd & Hv & Hh).
    rewrite (digit_run_app _ _ _ _ Hd Hr), Hv. cbn [Nat.add].
    assert ((length ds =? 0)%nat = false) as ->
      by (destruct Hh as [[_ ->]|(? & ? & -> & _)]; done).
    assert (match ds ++ r with c :: _ => (c =? 48)%N && (1 <? length ds)%nat | [] => false end = false) as ->.
    { destruct Hh as [[_ ->]|(c & ds' & -> & Hc)]; [done|]. cbn. by rewrite (proj2 (N.eqb_neq _ _)). }
    assert (scale (sgn * Z.of_N n) 0 = NInt (sgn * Z.of_N n)) as E
      by (unfold scale; cbn; f_equal; lia).
    destruct r as [|c r]; [cbn -[scale Z.mul]; change (0 - 0)%Z with 0%Z; by rewrite E|].
    apply stop_not in Hr as (E1 & E2 & E3). rewrite E1. cbn -[scale Z.mul parse_exp]. unfold parse_exp.
    rewrite E2, E3. cbn -[scale Z.mul]. change (0 - 0)%Z with 0%Z. by rewrite E. }
  unfold parse_num. destruct z as [|p|p].
  - apply (Hpos 0 1%Z). by left.
  - change (dec_of_Z (Zpos p)) with (dec_of_N (Npos p)).
    assert (match dec_of_N (Npos p) ++ r with
            | c :: r' => if c =? ch "-" then ((-1)%Z, r') else (1%Z, dec_of_N (Npos p) ++ r)
            | [] => (1%Z, dec_of_N (Npos p) ++ r) end = (1%Z, dec_of_N (Npos p) ++ r)) as ->.
    { destruct (dec_of_N_spec (Npos p)) as (ds & -> & Hd & _ & Hh).
      destruct Hh as [[? _]|(c & ds' & -> & _)]; [done|]. cbn. apply Forall_cons in Hd as [Hd _].
      by rewrite (proj2 (N.eqb_neq _ _)) by (by apply digit_first). }
    apply (Hpos (Npos p) 1%Z). by left.
  - cbn [dec_of_Z app]. rewrite N.eqb_refl. apply (Hpos (Npos p) (-1)%Z). by right.
Qed.

(** *** Values *)

Definition units_ok (s : str) : Prop := Forall (λ c, c < 65536) s.

(** Values that survive serialisation: no [undefined], NaN, infinities, dates
    or fractions, integers below 10^21 (printed without an exponent), distinct
    keys, 16-bit code units. *)
Fixpoint json_ok (v : jsval) : Prop :=
  match v with
  | JNull | JBool _ => True
  | JNum (NInt z) => (Z.abs z < 10 ^ 21)%Z
  | JStr s => units_ok s
  | JArr l => (fix all l := match l with [] => True | v :: l => json_ok v ∧ all l end) l
  | JObj o =>
      NoDup (map fst o) ∧
      (fix all (o : list (str * jsval)) :=
         match o with [] => True | kv :: o => (units_ok kv.1 ∧ json_ok kv.2) ∧ all o end) o
  | _ => False
  end.

Section JsvalInd.
Context (P : jsval → Prop).
Hypothesis (HU : P JUndefined) (HN : P JNull) (HB : ∀ b, P (JBool b)) (HM : ∀ n, P (JNum n))
  (HS : ∀ s, P (JStr s)) (HD : ∀ t, P (JDate t))
  (HA : ∀ l, Forall P l → P (JArr l)) (HO : ∀ o, Forall (λ kv, P kv.2) o → P (JObj o)).

Fixpoint jsval_rec_ind (v : jsval) : P v :=
  match v with
  | JUndefined => HU
  | JNull => HN
  | JBool b => HB b
  | JNum n => HM n
  | JStr s => HS s
  | JDate t => HD t
  | JArr l => HA l ((fix all l : Forall P l :=
                       match l with
                       | [] => Forall_nil_2 _
                       | v :: l => Forall_cons_2 _ _ _ (jsval_rec_ind v) (all l)
                       end) l)
  | JObj o => HO o ((fix all (o : list (str * jsval)) : Forall (λ kv, P kv.2) o :=
                       match o with
                       | [] => Forall_nil_2 _
                       | kv :: o => Forall_cons_2 _ _ _ (jsval_rec_ind kv.2) (all o)
                       end) o)
  end.
End JsvalInd.

Lemma json_ok_arr l : json_ok (JArr l) ↔ Forall json_ok l.
Proof. cbn. induction l as [|v l IH]; [split; constructor|]. rewrite Forall_cons, <- IH. done. Qed.

Lemma json_ok_obj o :
  json_ok (JObj o) ↔ NoDup (map fst o) ∧ Forall (λ kv, units_ok kv.1 ∧ json_ok kv.2) o.
Proof.
  cbn. apply and_iff_compat_l. induction o as [|v o IH]; [split; constructor|].
  rewrite Forall_cons, <- IH. done.
Qed.

Lemma json_ok_defined v : json_ok v → is_undefined v = false.
Proof. by destruct v. Qed.

Lemma skip_ws_head c s : is_json_ws c = false → skip_ws (c :: s) = c :: s.
Proof. apply drop_while_head. Qed.

(** The first unit of a printed value selects its own branch of the parser. *)
Inductive starts_value : N → Prop :=
| sv_digit c : is_digit c = true → starts_value c
| sv_punct c : c ∈ js "ntf[{-" ∨ c = 34 → starts_value c.

Lemma starts_value_ws c : starts_value c → is_json_ws c = false ∧ c ≠ ch "]" ∧ c ≠ ch "}".
Proof.
  intros [c' H|c' H].
  - unfold is_digit, in_range in H. to_prop. rewrite !N.leb_le in *. unfold is_json_ws.
    rewrite !(proj2 (N.eqb_neq _ _)) by lia.
    repeat split; [intros ->; unfold ch in *; cbn in *; lia..].
  - assert (c' ∈ 34 :: js "ntf[{-") as Hin by (apply elem_of_cons; tauto). revert Hin.
    clear H. revert c'. apply Forall_forall. vm_compute. repeat constructor; done.
Qed.

Lemma stringify_head v : json_ok v → ∃ c r, stringify v = c :: r ∧ starts_value c.
Proof.
  intros Hok. destruct v as [| |b|[z|? ?| |?]|s|l|o|t]; try done.
  - eexists _, _. split; [reflexivity|]. apply sv_punct. left. by eval_decide.
  - destruct b; eexists _, _; (split; [reflexivity|]); apply sv_punct; left; by eval_decide.
  - assert (Hd : ∀ n, ∃ c r, dec_of_N n = c :: r ∧ starts_value c).
    { intros n. destruct (dec_of_N_spec n) as (ds & -> & Hd & _ & [[_ ->]|(c & r & -> & _)]).
      - do 2 eexists. split; [done|]. by constructor.
      - apply Forall_cons in Hd as [Hd _]. do 2 eexists. split; [done|]. by constructor. }
    destruct z as [|p|p]; cbn -[dec_of_N]; [apply (Hd 0)|apply (Hd (Npos p))|].
    do 2 eexists. split; [done|]. apply sv_punct. left. by eval_decide.
  - eexists _, _. split; [reflexivity|]. apply sv_punct. by right.
  - eexists _, _. split; [reflexivity|]. apply sv_punct. left. by eval_decide.
  - eexists _, _. split; [reflexivity|]. apply sv_punct. left. by eval_decide.
Qed.

Definition member_text (kv : str * jsval) : str := quote kv.1 ++ ch ":" :: stringify kv.2.

Lemma stringify_obj o :
  Forall (λ kv, json_ok kv.2) o →
  stringify (JObj o) = ch "{" :: join [ch ","] (map member_text o) ++ [ch "}"].
Proof.
  intros H. cbn [stringify]. do 3 f_equal. induction H as [|kv o Hkv Ho IH]; [done|].
  cbn [flat_map map]. rewrite (json_ok_defined _ Hkv). cbn [app]. f_equal. apply IH.
Qed.

Lemma obj_set_fresh {A} k (v : A) o : k ∉ map fst o → obj_set k v o = o ++ [(k, v)].
Proof.
  induction o as [|[k' v'] o IH]; intros H; [done|]. cbn in *.
  unfold str_eqb. rewrite bool_decide_eq_false_2 by set_solver.
  rewrite IH by set_solver. done.
Qed.

Definition reparses (v : jsval) : Prop :=
  ∀ n r, (length (stringify v) < n)%nat → stop r → parse_value n (stringify v ++ r) = Some (v, r).

Lemma stop_comma r : stop (ch "," :: r). Proof. by left. Qed.
Lemma stop_bracket r : stop (ch "]" :: r). Proof. right. by left. Qed.
Lemma stop_brace r : stop (ch "}" :: r). Proof. do 2 right. by left. Qed.
Lemma stop_newline r : stop (10 :: r). Proof. by do 3 right. Qed.
#[local] Hint Resolve stop_comma stop_bracket stop_brace : core.

Lemma parse_elems_join l n r :
  l ≠ [] → Forall reparses l →
  (S (length (join [ch ","] (map stringify l))) < n)%nat →
  parse_elems n (join [ch ","] (map stringify l) ++ ch "]" :: r) = Some (l, r).
Proof.
  intros Hne HF. revert n. induction HF as [|v l Hv HF IH]; [done|]. intros n Hn.
  destruct n as [|n]; [lia|]. destruct l as [|v' l].
  - cbn [map join] in *. cbn [parse_elems]. rewrite Hv by (lia || auto). done.
  - change (join [ch ","] (map stringify (v :: v' :: l)))
      with (stringify v ++ [ch ","] ++ join [ch ","] (map stringify (v' :: l))) in *.
    rewrite !length_app in Hn. cbn [length] in Hn.
    rewrite <- !app_assoc. cbn [parse_elems]. rewrite Hv by (lia || apply stop_comma).
    cbn [mbind option_bind app]. rewrite skip_ws_head by done. eval_eqb.
    rewrite IH by (done || lia). done.
Qed.

Lemma parse_members_join o acc n r :
  o ≠ [] → NoDup (map fst (acc ++ o)) → Forall (λ kv, units_ok kv.1 ∧ reparses kv.2) o →
  (S (length (join [ch ","] (map member_text o))) < n)%nat →
  parse_members n acc (join [ch ","] (map member_text o) ++ ch "}" :: r) = Some (acc ++ o, r).
Proof.
  intros Hne Hnd HF. revert acc n Hnd. induction HF as [|[k v] o [Hk Hv] HF IH]; [done|].
  intros acc n Hnd Hn. destruct n as [|n]; [lia|]. cbn [fst snd] in Hk, Hv.
  assert (Hset : obj_set k v acc = acc ++ [(k, v)]).
  { apply obj_set_fresh. rewrite map_app in Hnd. apply NoDup_app in Hnd as (_ & H & _).
    intros Hin. apply (H k Hin). cbn. by left. }
  assert (Hstep : ∀ t, stop t → (length (stringify v) < n)%nat →
    parse_members (S n) acc (member_text (k, v) ++ t)
    = match skip_ws t with
      | d :: t => if (d =? ch "}")%N then Some (acc ++ [(k, v)], t)
                  else if (d =? ch ",")%N then parse_members n (acc ++ [(k, v)]) t else None
      | [] => None
      end).
  { intros t Ht Hl. unfold member_text, quote. cbn [fst snd]. rewrite <- app_assoc.
    cbn [app parse_members]. rewrite skip_ws_head by done. rewrite N.eqb_refl.
    rewrite <- app_assoc. cbn [app]. rewrite parse_chars_quote by done.
    cbn [mbind option_bind]. rewrite skip_ws_head by done. rewrite N.eqb_refl.
    rewrite Hv by done. cbn [mbind option_bind]. rewrite Hset. done. }
  assert (Hlen : (length (stringify v) < length (member_text (k, v)))%nat)
    by (unfold member_text; rewrite length_app; cbn; lia).
  destruct o as [|kv' o].
  - cbn [map join] in *. rewrite Hstep by (lia || auto). done.
  - change (join [ch ","] (map member_text ((k, v) :: kv' :: o)))
      with (member_text (k, v) ++ [ch ","] ++ join [ch ","] (map member_text (kv' :: o))) in *.
    rewrite !length_app in Hn. cbn [length] in Hn. rewrite <- !app_assoc.
    rewrite Hstep by (lia || apply stop_comma).
    cbn [app]. rewrite skip_ws_head by done. eval_eqb.
    rewrite IH.
    + by rewrite <- app_assoc.
    + done.
    + by rewrite <- app_assoc.
    + lia.
Qed.

Lemma num_head_not c : is_digit c = true ∨ c = ch "-" →
  (c =? ch "n") = false ∧ (c =? ch "t") = false ∧ (c =? ch "f") = false ∧
  (c =? 34) = false ∧ (c =? ch "[") = false ∧ (c =? ch "{") = false.
Proof.
  intros [H| ->]; [|done]. repeat split; apply N.eqb_neq; intros ->; done.
Qed.

Lemma stringify_reparses v : json_ok v → reparses v.
Proof.
  induction v as [| |b|x|s|t|l IH|o IH] using jsval_rec_ind; intros Hok n r Hn Hr; try done.
  - destruct n; [lia|]. done.
  - destruct n; [lia|]. by destruct b.
  - destruct x as [z|? ?| |?]; try done. destruct n; [lia|].
    destruct (stringify_head _ Hok) as (c & w & E & _). cbn [stringify num_text] in *.
    assert (Hc : is_digit c = true ∨ c = ch "-").
    { destruct z as [|p|p]; cbn [dec_of_Z] in E.
      2: { change (dec_of_N (Z.to_N (Zpos p))) with (dec_of_N (Npos p)) in E.
           destruct (dec_of_N_spec (Npos p)) as (ds & E' & Hd & _). rewrite E' in E. subst ds.
           apply Forall_cons in Hd as [? _]. by left. }
      - left. vm_compute in E. by simplify_eq.
      - right. by simplify_eq. }
    pose proof (parse_num_dec z r Hr) as Hp. rewrite E in *. cbn [app] in *.
    cbn [parse_value]. rewrite skip_ws_head.
    2: { destruct Hc as [Hc| ->]; [|done]. by apply (starts_value_ws c), sv_digit. }
    destruct (num_head_not c Hc) as (-> & -> & -> & -> & -> & ->). rewrite Hp. done.
  - destruct n; [lia|]. cbn [stringify app parse_value quote]. rewrite skip_ws_head by done.
    eval_eqb. rewrite <- app_assoc. cbn [app]. by rewrite (parse_chars_quote s r Hok).
  - apply json_ok_arr in Hok. destruct n as [|n]; [lia|]. destruct l as [|v l]; [done|].
    cbn [stringify] in *. cbn [length] in Hn. rewrite length_app in Hn. cbn [length] in Hn.
    assert (Hall : Forall reparses (v :: l)).
    { rewrite Forall_forall in IH, Hok |- *. intros x Hx. by apply IH, Hok. }
    pose proof (parse_elems_join (v :: l) n r ltac:(done) Hall ltac:(lia)) as He.
    apply Forall_cons in Hok as [Hv _]. destruct (stringify_head v Hv) as (c & w & E & Hc).
    apply starts_value_ws in Hc as (Hws & Hb & _).
    assert (∃ w', join [ch ","] (map stringify (v :: l)) = c :: w') as [w' Ew].
    { cbn [map join]. rewrite E. destruct (map stringify l); by eexists. }
    rewrite Ew in *. cbn [app parse_value]. rewrite skip_ws_head by done. eval_eqb.
    rewrite <- app_assoc. cbn [app] in *. rewrite skip_ws_head by done.
    rewrite (proj2 (N.eqb_neq _ _)) by done. rewrite He. done.
  - apply json_ok_obj in Hok as [Hnd Hok]. destruct n as [|n]; [lia|].
    rewrite stringify_obj in *
      by (eapply Forall_impl; [exact Hok|]; by intros ? [_ ?]).
    destruct o as [|[k v] o]; [done|].
    cbn [length] in Hn. rewrite length_app in Hn. cbn [length] in Hn.
    assert (Hall : Forall (λ kv, units_ok kv.1 ∧ reparses kv.2) ((k, v) :: o)).
    { rewrite Forall_forall in IH, Hok |- *. intros x Hx. split; [by apply Hok|]. by apply IH, Hok. }
    pose proof (parse_members_join ((k, v) :: o) [] n r ltac:(done) Hnd Hall ltac:(lia)) as He.
    assert (∃ w', join [ch ","] (map member_text ((k, v) :: o)) = 34 :: w') as [w' Ew].
    { cbn [map join]. destruct (map member_text o); eexists; reflexivity. }
    rewrite Ew in *. cbn [app parse_value]. rewrite skip_ws_head by done. eval_eqb.
    rewrite <- app_assoc. cbn [app] in *. rewrite skip_ws_head by done.
    rewrite (proj2 (N.eqb_neq _ _)) by done. rewrite He. done.
Qed.

(** Parsing a printed value gives the value back. *)
Lemma JSON_roundtrip v : json_ok v → JSON_parse (stringify v) = Some v.
Proof.
  intros H. unfold JSON_parse. pose proof (stringify_reparses v H) as Hp.
  specialize (Hp (S (length (stringify v))) []). rewrite app_nil_r in Hp.
  rewrite Hp; [done|lia|done].
Qed.

(** A document written with a final newline. *)
Lemma JSON_roundtrip_newline v : json_ok v → JSON_parse (stringify v ++ [10]) = Some v.
Proof.
  intros Hv. unfold JSON_parse. rewrite (stringify_reparses v Hv); [done| |apply stop_newline].
  rewrite length_app. cbn. lia.
Qed.
