(* ===== verification/JsonText.v ===== *)
(** * JSON documents as bytes

    [JSON.stringify] escapes lone surrogates, so its output is well-formed
    UTF-16 and survives encoding to UTF-8 and back. *)

From S2P Require Import Prelude JsString Encoding JsDate Json.

Lemma utf16_ok_app a b : utf16_ok a = true → utf16_ok b = true → utf16_ok (a ++ b) = true.
Proof.
  intros Ha Hb. induction a as [|c|c d s IHs IHds] using str_pair_ind; cbn [app utf16_ok] in *; [done| |].
  - destruct (is_hi c); [done|]. to_prop. rewrite H, Hb. cbn. by rewrite H1.
  - destruct (is_hi c).
    + to_prop. rewrite H. cbn. by apply IHs.
    + apply andb_true_iff in Ha as [Hc Hs]. rewrite Hc. cbn [andb]. by apply IHds.
Qed.

Lemma utf16_ok_ascii s : Forall (λ c, (c < 128)%N) s → utf16_ok s = true.
Proof.
  induction 1 as [|c s Hc Hs IH]; [done|]. cbn [utf16_ok].
  assert (is_hi c = false ∧ is_lo c = false) as [-> ->] by (unfold_ranges; n_bool; lia).
  rewrite IH. cbn. rewrite (proj2 (N.ltb_lt _ _)) by lia. done.
Qed.

Lemma utf16_ok_cons c s : (c < 128)%N → utf16_ok s = true → utf16_ok (c :: s) = true.
Proof. intros Hc Hs. apply (utf16_ok_app [c]); [|done]. apply utf16_ok_ascii. by repeat constructor. Qed.

Lemma hex_digit_ascii n : (n < 16)%N → (hex_digit n < 128)%N.
Proof. unfold hex_digit. destruct (N.ltb_spec n 10); lia. Qed.

Lemma u_escape_ascii c : (c < 65536)%N → utf16_ok (u_escape c) = true.
Proof.
  intros Hc. apply utf16_ok_ascii. unfold u_escape, hex4, hex_byte. cbn [app].
  repeat apply Forall_cons_2; try constructor; try lia; apply hex_digit_ascii; lia.
Qed.

Lemma quote_unit_ok c : (c < 65536)%N → is_hi c = false → is_lo c = false → utf16_ok (quote_unit c) = true.
Proof.
  intros Hc Hh Hl. unfold quote_unit.
  repeat match goal with |- context [if ?b then _ else _] => destruct b; [first [done|by apply u_escape_ascii]|] end.
  cbn [utf16_ok]. rewrite Hh, Hl. cbn. by rewrite (proj2 (N.ltb_lt _ _)).
Qed.

Lemma quote_body_ok s : units_ok s → utf16_ok (quote_body s) = true.
Proof.
  unfold units_ok. induction s as [|c|c d s IHs IHds] using str_pair_ind; intros Hs; [done| |].
  - apply Forall_cons in Hs as [Hc _]. cbn [quote_body].
    destruct (in_range 55296 56319 c) eqn:Eh; [by apply u_escape_ascii|].
    destruct (in_range 56320 57343 c) eqn:El; rewrite app_nil_r; [by apply u_escape_ascii|by apply quote_unit_ok].
  - apply Forall_cons in Hs as [Hc Hs]. pose proof Hs as [Hd Hs']%Forall_cons. rewrite quote_body_cons2.
    destruct (in_range 55296 56319 c) eqn:Eh.
    + destruct (in_range 56320 57343 d) eqn:El.
      * cbn [utf16_ok]. unfold is_hi, is_lo. rewrite Eh, El. cbn. by apply IHs.
      * apply utf16_ok_app; [by apply u_escape_ascii|by apply IHds].
    + destruct (in_range 56320 57343 c) eqn:El; (apply utf16_ok_app; [|by apply IHds]);
        [by apply u_escape_ascii|by apply quote_unit_ok].
Qed.

Lemma quote_ok s : units_ok s → utf16_ok (quote s) = true.
Proof.
  intros Hs. apply utf16_ok_cons; [lia|]. apply utf16_ok_app; [by apply quote_body_ok|done].
Qed.

Lemma join_ok sep l : utf16_ok sep = true → Forall (λ s, utf16_ok s = true) l → utf16_ok (join sep l) = true.
Proof.
  intros Hsep. induction 1 as [|s l Hs Hl IH]; [done|]. destruct l as [|s' l]; [done|].
  rewrite join_cons_nonnil by done. by repeat apply utf16_ok_app.
Qed.

Lemma dec_of_Z_ok z : utf16_ok (dec_of_Z z) = true.
Proof.
  apply utf16_ok_ascii.
  assert (Hd : ∀ n, Forall (λ c, (c < 128)%N) (dec_of_N n)).
  { intros n. destruct (dec_of_N_spec n) as (ds & -> & H & _). eapply Forall_impl; [exact H|].
    intros c Hc. cbn in Hc. unfold_ranges. n_bool. lia. }
  destruct z; cbn [dec_of_Z]; [apply Hd..|]. constructor; [by vm_compute|apply Hd].
Qed.

(** The text of a document is well-formed UTF-16. *)
Lemma stringify_ok v : json_ok v → utf16_ok (stringify v) = true.
Proof.
  induction v as [| |b|n|s|t|l IH|o IH] using jsval_rec_ind; intros Hv; try done.
  - by destruct b.
  - destruct n; try done. apply dec_of_Z_ok.
  - by apply quote_ok.
  - apply json_ok_arr in Hv. cbn [stringify]. apply utf16_ok_cons; [by vm_compute|].
    apply utf16_ok_app; [|done]. apply join_ok; [done|]. apply Forall_fmap.
    rewrite Forall_forall in Hv, IH. apply Forall_forall. intros v Hin. apply IH; auto.
  - apply json_ok_obj in Hv as [_ Hv]. cbn [stringify]. apply utf16_ok_cons; [by vm_compute|].
    apply utf16_ok_app; [|done]. apply join_ok; [done|].
    rewrite Forall_forall in Hv, IH. apply Forall_forall. intros x Hx. apply list_elem_of_In, in_flat_map in Hx as (kv & Hin & Hx).
    apply list_elem_of_In in Hin. destruct (Hv kv Hin) as [Hk Hj]. rewrite json_ok_defined in Hx by done.
    destruct Hx as [<-|[]]. apply utf16_ok_app; [by apply quote_ok|].
    apply utf16_ok_cons; [by vm_compute|]. by apply IH.
Qed.

(** Serialising to UTF-8 bytes and parsing them back. *)
Lemma json_bytes_roundtrip v :
  json_ok v → JSON_parse (utf8_decode (utf8_encode (stringify v))) = Some v.
Proof. intros Hv. rewrite utf8_roundtrip by (by apply stringify_ok). by apply JSON_roundtrip. Qed.

(** ** Deciding [json_ok] *)

Lemma units_ok_app a b : units_ok (a ++ b) ↔ units_ok a ∧ units_ok b.
Proof. apply Forall_app. Qed.

(** Literals, by evaluation. *)
Lemma units_ok_dec s : forallb (λ c, (c <? 65536)%N) s = true → units_ok s.
Proof.
  intros H. apply Forall_forall. intros c Hc. rewrite forallb_true_elem in H.
  specialize (H c Hc). cbn in H. by apply N.ltb_lt.
Qed.
Ltac units_lit := apply units_ok_dec; vm_compute; reflexivity.

(** [json_ok] by evaluation. *)
Definition units_okb (s : str) : bool := forallb (λ c, (c <? 65536)%N) s.
Fixpoint json_okb (v : jsval) : bool :=
  match v with
  | JNull | JBool _ => true
  | JNum (NInt z) => (Z.abs z <? 10 ^ 21)%Z
  | JStr s => units_okb s
  | JArr l => forallb json_okb l
  | JObj o => bool_decide (NoDup (map fst o)) && forallb (λ kv, units_okb kv.1 && json_okb kv.2) o
  | _ => false
  end.
Lemma json_okb_sound v : json_okb v = true → json_ok v.
Proof.
  induction v as [| |b|n|s|t|l IH|o IH] using jsval_rec_ind; try done.
  - destruct n; try done. cbn. apply Z.ltb_lt.
  - apply units_ok_dec.
  - intros H. apply json_ok_arr, Forall_forall. intros v Hv. rewrite Forall_forall in IH.
    apply IH; [done|]. cbn in H. rewrite forallb_true_elem in H. by apply H.
  - intros H. cbn in H. apply andb_true_iff in H as [H1 H2]. apply json_ok_obj. split.
    + by apply bool_decide_eq_true in H1.
    + apply Forall_forall. intros kv Hkv. rewrite Forall_forall in IH. rewrite forallb_true_elem in H2.
      specialize (H2 kv Hkv). cbn in H2. apply andb_true_iff in H2 as [? ?].
      split; [by apply units_ok_dec|by apply IH].
Qed.

Lemma safe_abs z : is_safe_Z z = true → (Z.abs z < 10 ^ 21)%Z.
Proof. unfold is_safe_Z. intros H%Z.leb_le. lia. Qed.

(** ** Undefined properties

    [JSON.stringify] leaves properties that are [undefined] out. *)

Fixpoint defined_part (v : jsval) : jsval :=
  match v with
  | JObj o => JObj (flat_map (λ kv, if is_undefined kv.2 then [] else [(kv.1, defined_part kv.2)]) o)
  | v => v
  end.

Lemma defined_part_undefined v : is_undefined (defined_part v) = is_undefined v.
Proof. by destruct v. Qed.

Lemma stringify_defined_part v : stringify (defined_part v) = stringify v.
Proof.
  induction v as [| | | | | | |o IH] using jsval_rec_ind; try done.
  cbn [defined_part stringify]. do 3 f_equal.
  induction IH as [|kv o Hkv Ho IHo]; [done|]. cbn [flat_map]. rewrite flat_map_app, IHo.
  destruct (is_undefined kv.2) eqn:E; [done|]. cbn. by rewrite defined_part_undefined, E, Hkv.
Qed.

Lemma JSON_defined_roundtrip v :
  json_ok (defined_part v) → JSON_parse (stringify v) = Some (defined_part v).
Proof. intros. rewrite <- stringify_defined_part. by apply JSON_roundtrip. Qed.

Definition defined_fields (o : list (str * jsval)) : list (str * jsval) :=
  flat_map (λ kv, if is_undefined kv.2 then [] else [(kv.1, defined_part kv.2)]) o.

Lemma defined_part_obj o : defined_part (JObj o) = JObj (defined_fields o).
Proof. done. Qed.

Lemma assoc_not_in {A} k (o : list (str * A)) : k ∉ map fst o → assoc k o = None.
Proof.
  induction o as [|[k' v] o IH]; intros Hk; [done|]. cbn in *. unfold str_eqb.
  rewrite bool_decide_eq_false_2 by set_solver. apply IH. set_solver.
Qed.

Lemma defined_fields_keys o : map fst (defined_fields o) ⊆ map fst o.
Proof.
  induction o as [|[k v] o IH]; [done|]. unfold defined_fields in *. cbn. destruct (is_undefined v); set_solver.
Qed.

(** A property of the parsed object is the property of the serialised one. *)
Lemma field_defined k o :
  NoDup (map fst o) → field k (defined_fields o) = defined_part (field k o).
Proof.
  unfold field. induction o as [|[k' v] o IH]; intros Hnd; [done|].
  cbn in Hnd. apply NoDup_cons in Hnd as [Hk Hnd]. unfold defined_fields in *. cbn.
  destruct (str_eqb k k') eqn:E.
  - apply str_eqb_eq in E as ->. destruct (is_undefined v) eqn:Ev; cbn; [|by rewrite str_eqb_refl].
    rewrite assoc_not_in; [by destruct v|].
    intros Hin. apply Hk. exact (defined_fields_keys o _ Hin).
  - destruct (is_undefined v); cbn; [by apply IH|]. rewrite E. by apply IH.
Qed.

Lemma defined_fields_nodup o : NoDup (map fst o) → NoDup (map fst (defined_fields o)).
Proof.
  induction o as [|[k v] o IH]; intros Hnd; [constructor|].
  cbn in Hnd. apply NoDup_cons in Hnd as [Hk Hnd]. unfold defined_fields in *. cbn.
  destruct (is_undefined v); [by apply IH|]. cbn. constructor; [|by apply IH].
  intros Hin. apply Hk. exact (defined_fields_keys o _ Hin).
Qed.

(** [defined_part] of an object is fit for JSON when its defined properties are. *)
Lemma json_ok_defined_obj o :
  NoDup (map fst o) →
  Forall (λ kv, units_ok kv.1 ∧ (is_undefined kv.2 = false → json_ok (defined_part kv.2))) o →
  json_ok (defined_part (JObj o)).
Proof.
  intros Hnd Ho. apply json_ok_obj. split; [by apply defined_fields_nodup|].
  induction Ho as [|[k v] o [Hk Hv] Ho IH]; [constructor|].
  cbn in Hnd. apply NoDup_cons in Hnd as [_ Hnd]. cbn in *.
  destruct (is_undefined v); [by apply IH|]. constructor; [|by apply IH]. auto.
Qed.

Lemma field_hit k v o : field k ((k, v) :: o) = v.
Proof. unfold field. cbn. by rewrite str_eqb_refl. Qed.
Lemma field_miss k k' v o : str_eqb k k' = false → field k ((k', v) :: o) = field k o.
Proof. unfold field. cbn. by intros ->. Qed.

(** Evaluate the property accesses on object literals, leaving the values alone. *)
Ltac lookup_fields :=
  repeat match goal with
         | |- context [field ?k ((?k, _) :: _)] => rewrite field_hit
         | |- context [field ?k ((?k', _) :: _)] =>
             rewrite (field_miss k k') by (vm_compute; reflexivity)
         end.
