(* ===== verification/JsNumber.v ===== *)
(** * Number conversion

    [Number(s)] on strings, and the few operations on numbers the sources use. *)

From S2P Require Import Prelude JsString JsDate Json.

(** Digits of a radix literal; [None] when a unit is not a digit of the radix. *)
Fixpoint radix_val (base : Z) (acc : Z) (s : str) : option Z :=
  match s with
  | [] => Some acc
  | c :: s =>
      d ← (if is_digit c then Some (Z.of_N c - 48)%Z
           else if in_range 97 102 c then Some (Z.of_N c - 87)%Z
           else if in_range 65 70 c then Some (Z.of_N c - 55)%Z else None);
      if (d <? base)%Z then radix_val base (acc * base + d)%Z s else None
  end.

(** An unsigned StrDecimalLiteral that is not [Infinity]; [sign] is applied. *)
Definition decimal_literal (sign : Z) (s : str) : num :=
  let '(m, k, r) := digit_run 0 0 s in
  let '(m, k', r) :=
    match r with
    | c :: r' => if (c =? ch ".")%N then digit_run m 0 r' else (m, O, r)
    | [] => (m, O, r)
    end in
  if (k + k' =? 0)%nat then NNaN
  else match parse_exp r with
       | Some (x, []) => scale (sign * m) (x - Z.of_nat k')
       | _ => NNaN
       end.

Definition signed_literal (s : str) : num :=
  let '(neg, s) := match s with
                   | c :: r => if (c =? ch "-")%N then (true, r)
                               else if (c =? ch "+")%N then (false, r) else (false, s)
                   | [] => (false, s)
                   end in
  if str_eqb s (js "Infinity") then NInf neg
  else decimal_literal (if neg then -1 else 1)%Z s.

Definition radix_literal (base : Z) (s : str) : num :=
  match s with
  | [] => NNaN
  | _ => match radix_val base 0 s with Some z => NInt z | None => NNaN end
  end.

(** [Number(s)] *)
Definition js_number (s : str) : num :=
  match trim s with
  | [] => NInt 0
  | z :: x :: r =>
      if (z =? 48)%N && ((x =? ch "x") || (x =? ch "X"))%N then radix_literal 16 r
      else if (z =? 48)%N && ((x =? ch "o") || (x =? ch "O"))%N then radix_literal 8 r
      else if (z =? 48)%N && ((x =? ch "b") || (x =? ch "B"))%N then radix_literal 2 r
      else signed_literal (z :: x :: r)
  | t => signed_literal t
  end.

Example js_number_ex :
  map js_number [js " 12 "; js "0x1F"; js "-.5e1"; js "1,5"; js "-Infinity"]
  = [NInt 12; NInt 31; NInt (-5); NNaN; NInf true].
Proof. vm_compute. reflexivity. Qed.

(** [n * 1000] *)
Definition num_mul_1000 (n : num) : num :=
  match n with
  | NInt z => NInt (z * 1000)
  | NDec m e => scale (m * 1000) (Zneg e)
  | n => n
  end.

(** [Math.min(hi, Math.max(lo, n))] for integer bounds *)
Definition num_clamp (lo hi : Z) (n : num) : num :=
  match n with
  | NNaN => NNaN
  | _ => if num_le_Z n lo then NInt lo else if num_gt_Z n hi then NInt hi else n
  end.

Lemma num_clamp_bounds lo hi n :
  (lo <= hi)%Z → n ≠ NNaN →
  num_le_Z (num_clamp lo hi n) hi = true ∧ num_gt_Z (num_clamp lo hi n) (lo - 1) = true.
Proof.
  intros Hlh Hn. unfold num_clamp.
  assert (Hgt : ∀ n z, n ≠ NNaN → num_gt_Z n z = negb (num_le_Z n z)).
  { clear. intros [m|m e| |[]] z Hn; cbn; try done.
    - rewrite Z.ltb_antisym. done.
    - rewrite Z.ltb_antisym. done. }
  destruct n as [m|m e| |b]; [| |done|].
  - destruct (num_le_Z (NInt m) lo) eqn:E; cbn in *; [split; lia|].
    destruct (Z.ltb_spec hi m); cbn; split; lia.
  - destruct (num_le_Z (NDec m e) lo) eqn:E; [cbn; split; lia|].
    destruct (num_gt_Z (NDec m e) hi) eqn:E2; [cbn; split; lia|].
    rewrite Hgt in E2 by done. apply negb_false_iff in E2. split; [done|].
    cbn in *. apply Z.ltb_lt. apply Z.leb_gt in E.
    assert (0 < 10 ^ Zpos e)%Z by (apply Z.pow_pos_nonneg; lia). nia.
  - destruct b; cbn; split; lia.
Qed.
