(* ===== verification/Url.v ===== *)
(** * URLs

    [decodeURIComponent], and the part of the WHATWG URL parser that the sign-in
    code uses: a relative reference resolved against an [https] (or [http]) base
    that has no path of its own. Host names are read by a parameter of the
    platform ([UrlHost]): the mapping of a host name to its ASCII form is not
    part of the program. *)

From S2P Require Import Prelude JsString Encoding.

(** ** [decodeURIComponent] *)

Definition hex_pair (a b : N) : option N :=
  x ← hex_val a; y ← hex_val b; Some (x * 16 + y)%N.

(** A percent-encoded continuation byte at the head of [s]. *)
Definition cont_escape (s : str) : option (N * str) :=
  match s with
  | p :: a :: b :: r =>
      if (p =? 37)%N then
        v ← hex_pair a b;
        if is_cont v then Some (v, r) else None
      else None
  | _ => None
  end.

(** The code point of a multi-byte sequence, [None] when it is not well-formed UTF-8. *)
Definition code_point2 (b b1 : N) : N := ((b - 192) * 64 + (b1 - 128))%N.
Definition code_point3 (b b1 b2 : N) : option N :=
  if second3 b b1 then Some ((b - 224) * 4096 + (b1 - 128) * 64 + (b2 - 128))%N else None.
Definition code_point4 (b b1 b2 b3 : N) : option N :=
  if second4 b b1
  then Some ((b - 240) * 262144 + (b1 - 128) * 4096 + (b2 - 128) * 64 + (b3 - 128))%N else None.

(** [decodeURIComponent(s)]; [None] is its URIError. [fuel] bounds the number of
    units and escapes read: the length of [s] is enough. *)
Fixpoint decode_component (fuel : nat) (s : str) : option str :=
  match fuel, s with
  | _, [] => Some []
  | O, _ => None
  | S fuel, c :: s1 =>
      if negb (c =? 37)%N then cons c <$> decode_component fuel s1
      else match s1 with
           | a :: b :: s2 =>
               v ← hex_pair a b;
               if (v <? 128)%N then cons v <$> decode_component fuel s2
               else if in_range 194 223 v then
                 '(b1, s3) ← cont_escape s2;
                 app (units (code_point2 v b1)) <$> decode_component fuel s3
               else if in_range 224 239 v then
                 '(b1, s3) ← cont_escape s2;
                 '(b2, s4) ← cont_escape s3;
                 p ← code_point3 v b1 b2;
                 app (units p) <$> decode_component fuel s4
               else if in_range 240 244 v then
                 '(b1, s3) ← cont_escape s2;
                 '(b2, s4) ← cont_escape s3;
                 '(b3, s5) ← cont_escape s4;
                 p ← code_point4 v b1 b2 b3;
                 app (units p) <$> decode_component fuel s5
               else None
           | _ => None
           end
  end.
Definition decodeURIComponent (s : str) : option str := decode_component (length s) s.

(** ** Code points *)

(** A string as scalar values: lone surrogates become U+FFFD (USVString). *)
Fixpoint scalars (s : str) : list N :=
  match s with
  | [] => []
  | c :: s' =>
      if is_hi c then
        match s' with
        | d :: s'' => if is_lo d then code_point c d :: scalars s'' else replacement :: scalars s'
        | [] => [replacement]
        end
      else if is_lo c then replacement :: scalars s' else c :: scalars s'
  end.

(** ** The URL parser *)

(** Percent-encode sets. *)
Definition c0_set (c : N) : bool := (c <? 32)%N || (126 <? c)%N.
Definition fragment_set (c : N) : bool := c0_set c || bool_decide (c ∈ [32; 34; 60; 62; 96]%N).
Definition query_set (c : N) : bool := c0_set c || bool_decide (c ∈ [32; 34; 35; 60; 62]%N).
Definition special_query_set (c : N) : bool := query_set c || (c =? 39)%N.
Definition path_set (c : N) : bool := query_set c || bool_decide (c ∈ [63; 94; 96; 123; 125]%N).

Definition encode_point (set : N → bool) (c : N) : str :=
  if set c then flat_map percent (utf8_bytes c) else [c].

Definition is_slash (c : N) : bool := (c =? 47)%N || (c =? 92)%N.
Definition is_tab_newline (c : N) : bool := (c =? 9)%N || (c =? 10)%N || (c =? 13)%N.

Definition is_single_dot (s : str) : bool :=
  bool_decide (to_lower s ∈ [js "."; js "%2e"]).
Definition is_double_dot (s : str) : bool :=
  bool_decide (to_lower s ∈ [js ".."; js ".%2e"; js "%2e."; js "%2e%2e"]).

(** End of a path segment: [path] is reversed, [more] tells that a slash follows. *)
Definition close_segment (buffer : str) (more : bool) (path : list str) : list str :=
  if is_double_dot buffer then (if more then id else cons []) (tail path)
  else if is_single_dot buffer then (if more then id else cons []) path
  else buffer :: path.

(** The path state: the reversed path and the rest of the input, which is empty
    or starts with [?] or [#]. *)
Fixpoint path_state (buffer : str) (path : list str) (s : list N) : list str * list N :=
  match s with
  | [] => (close_segment buffer false path, [])
  | c :: s' =>
      if is_slash c then path_state [] (close_segment buffer true path) s'
      else if (c =? 63)%N || (c =? 35)%N then (close_segment buffer false path, s)
      else path_state (buffer ++ encode_point path_set c) path s'
  end.

(** The query state, up to [#]. *)
Fixpoint query_state (s : list N) : str * list N :=
  match s with
  | [] => ([], [])
  | c :: s' => if (c =? 35)%N then ([], s)
               else let '(q, r) := query_state s' in (encode_point special_query_set c ++ q, r)
  end.

Definition fragment_state (s : list N) : str := flat_map (encode_point fragment_set) s.

Definition pathname_of (path : list str) : str := 47%N :: join [47%N] (reverse path).

(** The getters: an empty query or fragment reads as the empty string. *)
Definition prefixed (c : N) (s : str) : str := match s with [] => [] | _ => c :: s end.

Record url := Url { url_origin : str; url_pathname : str; url_search : str; url_hash : str }.

(** From the first unit of the path on (its leading slash is consumed). *)
Definition parse_path (origin : str) (s : list N) : url :=
  let '(path, r) := path_state [] [] s in
  let '(query, r) := match r with
                     | c :: r' => if (c =? 63)%N then query_state r' else ([], r)
                     | [] => ([], [])
                     end in
  let fragment := match r with _ :: r' => fragment_state r' | [] => [] end in
  Url origin (pathname_of path) (prefixed 63 query) (prefixed 35 fragment).

(** Leading and trailing C0 controls and spaces go, tabs and newlines go. *)
Definition is_c0_space (c : N) : bool := (c <=? 32)%N.
Definition url_input (s : str) : list N :=
  List.filter (λ c, negb (is_tab_newline c))
    (drop_while_end is_c0_space (drop_while is_c0_space (scalars s))).

Class UrlHost := {
  (** The origin of [scheme://authority/]; [None] when the host does not parse. *)
  authority_origin : str → list N → option str;
}.

Section Parse.
Context `{H : UrlHost}.

Definition ends_authority (c : N) : bool := is_slash c || (c =? 63)%N || (c =? 35)%N.
Fixpoint split_authority (s : list N) : list N * list N :=
  match s with
  | [] => ([], [])
  | c :: s' => if ends_authority c then ([], s)
               else let '(a, r) := split_authority s' in (c :: a, r)
  end.

(** Everything from the authority on; a missing path is the root. *)
Definition parse_authority (scheme : str) (s : list N) : option url :=
  let '(authority, r) := split_authority s in
  origin ← authority_origin scheme authority;
  Some (parse_path origin (match r with c :: r' => if is_slash c then r' else r | [] => [] end)).

(** [new URL(s, base)] for a reference that starts with a slash, where [base] is
    the [scheme] base of origin [origin]; [None] is the TypeError of an invalid
    URL. References of other forms are not used by the sources. *)
Definition resolve_reference (scheme origin : str) (s : str) : option url :=
  match url_input s with
  | c :: s' =>
      if is_slash c then
        match s' with
        | d :: _ => if is_slash d then parse_authority scheme (drop_while is_slash s')
                    else Some (parse_path origin s')
        | [] => Some (parse_path origin [])
        end
      else None
  | [] => None
  end.
End Parse.

Example url_ex `{UrlHost} :
  resolve_reference (js "https") (js "https://o") (js "/a/./b/../c d?q=1 '#x y")
  = Some (Url (js "https://o") (js "/a/c%20d") (js "?q=1%20%27") (js "#x%20y")).
Proof. vm_compute. reflexivity. Qed.
Example url_dots_ex `{UrlHost} :
  (λ u, url_pathname u) <$> resolve_reference (js "https") (js "https://o") (js "/x/../..//y/%2E%2e/.")
  = Some (js "//").
Proof. vm_compute. reflexivity. Qed.
Example decode_ex :
  map decodeURIComponent [js "a%2Fb"; js "%e2%82%AC"; js "%C0%80"; js "%"; js "%F0%9F%98%80"]
  = [Some (js "a/b"); Some [8364%N]; None; None; Some [55357; 56832]%N].
Proof. vm_compute. reflexivity. Qed.

(** ** Decoded units *)

Lemma hex_val_lt c v : hex_val c = Some v → (v < 16)%N.
Proof.
  unfold hex_val. intros H. repeat case_match; simplify_eq; unfold_ranges; n_bool; lia.
Qed.

Lemma hex_pair_byte a b v : hex_pair a b = Some v → byte_ok v.
Proof.
  unfold hex_pair, byte_ok. intros (x & Hx%hex_val_lt & H)%bind_Some.
  apply bind_Some in H as (y & Hy%hex_val_lt & [= <-]). lia.
Qed.

Lemma cont_escape_some P s v r :
  cont_escape s = Some (v, r) → Forall P s → is_cont v = true ∧ Forall P r.
Proof.
  unfold cont_escape. intros H Hs.
  destruct s as [|p [|a [|b s]]]; try done. case_match; [|done].
  apply bind_Some in H as (w & _ & H). case_match; simplify_eq. split; [done|].
  by repeat match goal with H : Forall _ (_ :: _) |- _ => apply Forall_cons in H as [_ H] end.
Qed.

Lemma units_16 c : (c < 1114112)%N → Forall (λ c, (c < 65536)%N) (units c).
Proof.
  intros Hc. unfold units. case_match; n_bool.
  - by repeat constructor.
  - repeat constructor.
    + assert ((c - 65536) / 1024 < 1024)%N by (apply N.Div0.div_lt_upper_bound; lia). lia.
    + pose proof (N.mod_lt (c - 65536) 1024). lia.
Qed.

Lemma code_point2_lt b b1 : in_range 194 223 b = true → is_cont b1 = true → (code_point2 b b1 < 1114112)%N.
Proof. unfold code_point2. unfold_ranges. n_bool. lia. Qed.
Lemma code_point3_lt b b1 b2 p :
  in_range 224 239 b = true → is_cont b1 = true → is_cont b2 = true →
  code_point3 b b1 b2 = Some p → (p < 1114112)%N.
Proof. unfold code_point3. intros ????. case_match; simplify_eq. unfold_ranges. n_bool. lia. Qed.
Lemma code_point4_lt b b1 b2 b3 p :
  in_range 240 244 b = true → is_cont b1 = true → is_cont b2 = true → is_cont b3 = true →
  code_point4 b b1 b2 b3 = Some p → (p < 1114112)%N.
Proof.
  unfold code_point4, second4. intros ?????.
  repeat case_match; simplify_eq; unfold_ranges; n_bool; lia.
Qed.

(** Take the next piece of a decoding apart. *)
Ltac decode_step :=
  match goal with
  | H : (_ ≫= _) = Some _ |- _ => apply bind_Some in H as (? & ? & H)
  | H : (_ <$> _) = Some _ |- _ => apply fmap_Some in H as (? & ? & ->)
  | H : (let '(_, _) := ?x in _) = Some _ |- _ => destruct x
  | H : Forall _ (_ :: _) |- _ => apply Forall_cons in H as [? H]
  | H : cont_escape ?s = Some _, Hs : Forall _ ?s |- _ => apply (cont_escape_some _ _ _ _ H) in Hs as [??]; clear H
  | H : hex_pair _ _ = Some _ |- _ => apply hex_pair_byte in H; unfold byte_ok in H
  end.

(** A decoded string is made of 16-bit units when its input is. *)
Lemma decode_component_units fuel s d :
  Forall (λ c, (c < 65536)%N) s → decode_component fuel s = Some d →
  Forall (λ c, (c < 65536)%N) d.
Proof.
  revert s d. induction fuel as [|fuel IH]; intros [|c s] d Hs H; cbn in H; simplify_eq; [constructor..|].
  decode_step. case_match; [decode_step; constructor; [done|eauto]|].
  destruct s as [|a [|b s]]; try done. repeat decode_step.
  repeat case_match; try done; repeat decode_step;
    try (apply Forall_app; split; [apply units_16|by eauto]);
    eauto using code_point2_lt, code_point3_lt, code_point4_lt.
  constructor; [n_bool; lia|eauto].
Qed.

(** ** What the parser writes *)

(** Printable ASCII other than the space and the backslash. *)
Definition url_unit (c : N) : bool := in_range 33 126 c && negb (c =? 92)%N.
Abbreviation plain s := (Forall (λ c, url_unit c = true) s).

Lemma uri_safe_url_unit c : uri_safe c = true → url_unit c = true.
Proof.
  unfold uri_safe, is_unreserved, is_alnum, is_alpha, url_unit. intros H.
  destruct (bool_decide_reflect (c ∈ js "-_.!~*'()")) as [Hin|Hin].
  - apply list_elem_of_In in Hin. cbn in Hin.
    repeat destruct Hin as [<-|Hin]; done.
  - rewrite orb_false_r in H. unfold_ranges. n_bool. rewrite !andb_true_iff in H. n_bool. lia.
Qed.

(** The sets that leave only printable units. *)
Definition covers (set : N → bool) : Prop :=
  ∀ c, set c = false → in_range 33 126 c = true.

Lemma covers_fragment : covers fragment_set.
Proof.
  intros c. unfold fragment_set, c0_set. rewrite orb_false_iff. intros [H1 H2%bool_decide_eq_false].
  assert (c ≠ 32)%N by set_solver. unfold_ranges. n_bool. lia.
Qed.
Lemma covers_query : covers query_set.
Proof.
  intros c. unfold query_set, c0_set. rewrite orb_false_iff. intros [H1 H2%bool_decide_eq_false].
  assert (c ≠ 32)%N by set_solver. unfold_ranges. n_bool. lia.
Qed.
Lemma covers_special_query : covers special_query_set.
Proof. intros c. unfold special_query_set. rewrite orb_false_iff. intros [? _]. by apply covers_query. Qed.
Lemma covers_path : covers path_set.
Proof. intros c. unfold path_set. rewrite orb_false_iff. intros [? _]. by apply covers_query. Qed.

(** A scalar value that is not a backslash. *)
Definition point_ok (c : N) : Prop := (c < 1114112)%N ∧ c ≠ 92%N.

Lemma encode_point_plain set c : covers set → point_ok c → plain (encode_point set c).
Proof.
  intros Hs [Hc ?]. unfold encode_point. destruct (set c) eqn:E.
  - eapply Forall_impl; [apply percent_list_safe, utf8_bytes_ok, Hc|]. apply uri_safe_url_unit.
  - apply Forall_singleton. unfold url_unit. rewrite (Hs _ E). n_bool. done.
Qed.

Lemma scalars_cons2 c d s :
  scalars (c :: d :: s)
  = if is_hi c then (if is_lo d then code_point c d :: scalars s else replacement :: scalars (d :: s))
    else (if is_lo c then replacement else c) :: scalars (d :: s).
Proof. cbn [scalars]. by destruct (is_hi c), (is_lo c). Qed.

Lemma scalars_ok s : Forall (λ c, (c < 65536)%N) s → 92%N ∉ s → Forall point_ok (scalars s).
Proof.
  unfold point_ok, replacement.
  induction s as [|c|c d s IHs IHds] using str_pair_ind; intros Hs Hb; [constructor| |].
  - apply Forall_cons_1 in Hs as [Hs _]. cbn. unfold replacement. assert (c ≠ 92%N) by set_solver.
    destruct (is_hi c), (is_lo c); apply Forall_singleton; lia.
  - apply Forall_cons in Hs as [Hc Hs]. pose proof Hs as [Hd Hs']%Forall_cons.
    assert (c ≠ 92%N) by set_solver. assert (92%N ∉ (d :: s)) by set_solver.
    assert (92%N ∉ s) by set_solver.
    rewrite scalars_cons2. destruct (is_hi c) eqn:Eh; [destruct (is_lo d) eqn:Ed|destruct (is_lo c)];
      (constructor; [|by auto]); unfold code_point, replacement; unfold_ranges; n_bool; lia.
Qed.

Lemma drop_while_Forall {P} p s : Forall P s → Forall P (drop_while p s).
Proof. destruct (drop_while_suffix p s) as (r & E & _). rewrite E at 1. by intros [_ ?]%Forall_app. Qed.
Lemma drop_while_end_Forall {P} p s : Forall P s → Forall P (drop_while_end p s).
Proof. unfold drop_while_end. intros H. apply Forall_reverse, drop_while_Forall. by apply Forall_reverse. Qed.

Lemma List_filter_Forall {A} (P : A → Prop) f (l : list A) : Forall P l → Forall P (List.filter f l).
Proof. induction 1; cbn; [constructor|]. case_match; [by constructor|done]. Qed.

Lemma url_input_ok s :
  Forall (λ c, (c < 65536)%N) s → 92%N ∉ s → Forall point_ok (url_input s).
Proof.
  intros. unfold url_input. apply List_filter_Forall.
  apply drop_while_end_Forall, drop_while_Forall. by apply scalars_ok.
Qed.

Lemma close_segment_plain buffer more path :
  plain buffer → Forall (λ w, plain w) path → Forall (λ w, plain w) (close_segment buffer more path).
Proof.
  intros Hb Hp. assert (Forall (λ w, plain w) (tail path)) by (destruct path; [done|by apply Forall_cons_1 in Hp as [_ ?]]).
  unfold close_segment, id. by repeat case_match; repeat constructor.
Qed.

Lemma path_state_plain buffer path s path' r :
  plain buffer → Forall (λ w, plain w) path → Forall point_ok s →
  path_state buffer path s = (path', r) → Forall (λ w, plain w) path' ∧ Forall point_ok r.
Proof.
  revert buffer path. induction s as [|c s IH]; intros buffer path Hb Hp Hs H; cbn in H.
  { injection H as <- <-. eauto using close_segment_plain. }
  pose proof Hs as [Hc Hs']%Forall_cons_1. case_match.
  { eapply IH; [..|done]; eauto using close_segment_plain. }
  case_match; [injection H as <- <-; eauto using close_segment_plain|].
  eapply IH; [..|done]; eauto. apply Forall_app; eauto using encode_point_plain, covers_path.
Qed.

Lemma query_state_plain s q r :
  Forall point_ok s → query_state s = (q, r) → plain q ∧ Forall point_ok r.
Proof.
  revert q r. induction s as [|c s IH]; intros q r Hs H; cbn in H; [by simplify_eq|].
  pose proof Hs as [Hc Hs']%Forall_cons_1. case_match; [by simplify_eq|].
  destruct (query_state s) as [q' r'] eqn:E. injection H as <- <-.
  destruct (IH _ _ Hs' eq_refl) as [??]. split; [|done].
  apply Forall_app; eauto using encode_point_plain, covers_special_query.
Qed.

Lemma fragment_state_plain s : Forall point_ok s → plain (fragment_state s).
Proof.
  unfold fragment_state. induction 1; cbn; [constructor|].
  apply Forall_app; eauto using encode_point_plain, covers_fragment.
Qed.

Lemma join_plain l : Forall (λ w, plain w) l → plain (join [47%N] l).
Proof.
  induction l as [|w [|v l] IH]; intros H; [constructor|by apply Forall_cons_1 in H as [? _]|].
  apply Forall_cons_1 in H as [Hw Hl]. rewrite join_cons_nonnil by done.
  repeat (apply Forall_app; split); auto.
Qed.

Lemma prefixed_plain c s : url_unit c = true → plain s → plain (prefixed c s).
Proof. destruct s; [done|]. by constructor. Qed.

(** The serialised path, query and fragment of a parsed URL are printable. *)
Lemma parse_path_plain origin s u :
  Forall point_ok s → parse_path origin s = u →
  plain (url_pathname u) ∧ plain (url_search u) ∧ plain (url_hash u).
Proof.
  intros Hs <-. unfold parse_path. destruct (path_state [] [] s) as [path r] eqn:E.
  apply path_state_plain in E as [Hpath Hr]; try done.
  assert (plain (pathname_of path)).
  { unfold pathname_of. constructor; [done|]. by apply join_plain, Forall_reverse. }
  destruct r as [|c r]; cbn; [done|]. pose proof Hr as [_ Hr']%Forall_cons_1. destruct (c =? 63)%N.
  - destruct (query_state r) as [q r'] eqn:E. apply query_state_plain in E as [??]; [|done]. cbn.
    split_and!; [done|by apply prefixed_plain|]. apply prefixed_plain; [done|].
    case_match; [done|]. apply fragment_state_plain. by eapply Forall_cons_1.
  - cbn. split_and!; [done|done|]. apply prefixed_plain; [done|]. by apply fragment_state_plain.
Qed.

(** ** Paths without dot segments *)

Definition ends_path (c : N) : bool := (c =? 63)%N || (c =? 35)%N.
(** The units before the first [?] or [#]. *)
Fixpoint path_part (s : list N) : list N :=
  match s with
  | [] => []
  | c :: s => if ends_path c then [] else c :: path_part s
  end.
Definition encode_segment (w : list N) : str := flat_map (encode_point path_set) w.
Definition dot_segment (w : list N) : bool :=
  is_single_dot (encode_segment w) || is_double_dot (encode_segment w).

Lemma encode_point_nonnil set c : encode_point set c ≠ [].
Proof. unfold encode_point. case_match; [|done]. unfold utf8_bytes. by repeat case_match. Qed.

(** A segment that is not a dot segment is kept: the path only grows. *)
Lemma path_state_grows s buffer path path' r :
  92%N ∉ s →
  (∀ w, In w (tail (split_on 47 (path_part s))) → dot_segment w = false) →
  (∀ w, head (split_on 47 (path_part s)) = Some w →
        is_single_dot (buffer ++ encode_segment w) || is_double_dot (buffer ++ encode_segment w) = false) →
  path_state buffer path s = (path', r) →
  ∃ w k, head (split_on 47 (path_part s)) = Some w ∧ path' = k ++ (buffer ++ encode_segment w) :: path.
Proof.
  revert buffer path. induction s as [|c s IH]; intros buffer path Hb Ht Hh H; cbn in H.
  { injection H as <- <-. exists [], []. split; [done|]. specialize (Hh [] eq_refl).
    unfold close_segment. apply orb_false_iff in Hh as [E1 E2]. unfold encode_segment in *; cbn in *.
    rewrite app_nil_r in *. by rewrite E1, E2. }
  assert (92%N ∉ s) by set_solver. assert (c ≠ 92%N) by set_solver.
  unfold is_slash in H. rewrite (proj2 (N.eqb_neq c 92)), orb_false_r in H by done.
  cbn [path_part] in *. unfold ends_path in *.
  destruct (N.eqb_spec c 47) as [->|Hs].
  - cbn in Ht, Hh. specialize (Hh [] eq_refl). unfold encode_segment in Hh; cbn in Hh. rewrite app_nil_r in Hh.
    apply orb_false_iff in Hh as [E1 E2].
    apply IH in H as (w & k & Hw & ->); [| done | |].
    + exists [], (k ++ [encode_segment w]). split; [done|]. unfold close_segment. rewrite E1, E2.
      cbn. rewrite app_nil_r, <- app_assoc. done.
    + intros v Hv. apply Ht. destruct (split_on 47 (path_part s)) eqn:E; [done|]. by right.
    + intros v Hv. apply Ht. destruct (split_on 47 (path_part s)) eqn:E; [done|]. cbn in Hv. left. congruence.
  - destruct ((c =? 63)%N || (c =? 35)%N) eqn:Eq.
    + injection H as <- <-. cbn in *. exists [], []. split; [done|]. specialize (Hh [] eq_refl).
      unfold close_segment, encode_segment in *; cbn in *. rewrite app_nil_r in *.
      apply orb_false_iff in Hh as [E1 E2]. by rewrite E1, E2.
    + cbn [split_on] in *. rewrite (proj2 (N.eqb_neq c 47)) in * by done.
      destruct (split_on 47 (path_part s)) as [|w ws] eqn:E; [by apply split_on_nonnil in E|].
      cbn in Ht, Hh |- *. specialize (Hh _ eq_refl).
      apply IH in H as (w' & k & [= <-] & ->); [|done|done|].
      * exists (c :: w), k. split; [done|]. unfold encode_segment. cbn. by rewrite <- app_assoc.
      * intros v [= <-]. unfold encode_segment in *. cbn in Hh. by rewrite <- app_assoc.
Qed.

(** Printable text is its own URL input. *)
Lemma url_input_plain s : plain s → url_input s = s.
Proof.
  intros Hs. unfold url_input.
  assert (scalars s = s) as ->.
  { induction Hs as [|c s Hc Hs IH]; [done|]. cbn. unfold url_unit in Hc.
    assert (is_hi c = false ∧ is_lo c = false) as [-> ->] by (unfold_ranges; n_bool; lia).
    by rewrite IH. }
  assert (∀ c, url_unit c = true → is_c0_space c = false ∧ is_tab_newline c = false) as Hu.
  { intros c. unfold url_unit, is_c0_space, is_tab_newline. unfold_ranges. n_bool. lia. }
  rewrite (drop_while_none _ s) by (intros c Hc; rewrite Forall_forall in Hs; by apply Hu, Hs).
  unfold drop_while_end. rewrite drop_while_none.
  2: { intros c Hc. rewrite elem_of_reverse in Hc. rewrite Forall_forall in Hs. by apply Hu, Hs. }
  rewrite reverse_involutive. induction Hs as [|c s Hc Hs IH]; [done|]. cbn.
  destruct (Hu c Hc) as [_ ->]. cbn. by rewrite IH.
Qed.

(** [`${pathname}${search}${hash}`] *)
Definition local_part (u : url) : str := url_pathname u ++ url_search u ++ url_hash u.

Lemma encode_point_head c : ∃ x l, encode_point path_set c = x :: l ∧ (x = c ∨ x = 37%N).
Proof.
  unfold encode_point. destruct (path_set c); [|by eauto].
  unfold utf8_bytes. repeat case_match; cbn; eauto.
Qed.

(** A path without dot segments whose first segment is not empty is written
    with exactly one leading slash. *)
Lemma local_part_one_slash origin s :
  92%N ∉ s → head s ≠ Some 47%N →
  (∀ w, In w (split_on 47 (path_part s)) → dot_segment w = false) →
  ∃ rest, local_part (parse_path origin s) = 47%N :: rest ∧ head rest ≠ Some 47%N.
Proof.
  intros Hb Hh Hd. unfold local_part, parse_path. destruct (path_state [] [] s) as [path r] eqn:E.
  destruct (decide (path_part s = [])) as [Hp|Hp].
  - assert (path = [[]] ∧ r = s) as [-> ->].
    { destruct s as [|c s]; cbn in E; [by simplify_eq|].
      cbn in Hp. destruct (ends_path c) eqn:Ec; [|done]. unfold ends_path in Ec. unfold is_slash in E.
      destruct (N.eqb_spec c 47) as [->|]; [done|]. destruct (N.eqb_spec c 92) as [->|]; [done|].
      cbn in E. rewrite Ec in E. by simplify_eq. }
    destruct s as [|c s]; [by eexists|]. cbn.
    repeat case_match; simplify_eq/=; (eexists; split; [done|]); unfold prefixed; by repeat case_match.
  - destruct s as [|c s]; [done|]. cbn in Hp. destruct (ends_path c) eqn:Ec; [done|].
    assert (c ≠ 47%N) by (intros ->; by apply Hh).
    apply path_state_grows in E as (w & k & Hw & ->); [|done|intros w Hw; apply Hd..].
    2: { by destruct (split_on 47 _); [|right]. }
    2: { by destruct (split_on 47 _); [|left; cbn in Hw; simplify_eq]. }
    cbn [path_part] in Hw. rewrite Ec in Hw. cbn [split_on] in Hw. rewrite (proj2 (N.eqb_neq c 47)) in Hw by done.
    assert (∃ v, w = c :: v) as [v ->] by (destruct (split_on 47 (path_part s)); cbn in Hw; simplify_eq; eauto).
    destruct (encode_point_head c) as (x & l & Hx & Hxc).
    assert (∃ t, pathname_of (k ++ [[] ++ encode_segment (c :: v)]) = 47%N :: x :: t) as [t Ht].
    { unfold pathname_of, encode_segment. cbn. rewrite reverse_app, Hx. cbn.
      destruct (reverse k); eauto. }
    match goal with |- context [let '(_, _) := ?m in _] => destruct m end.
    cbn [url_pathname url_search url_hash]. rewrite Ht.
    eexists. split; [done|]. cbn. destruct Hxc; congruence.
Qed.

(** Such a reference resolves to the origin of its base. *)
Lemma one_slash_same_origin `{UrlHost} scheme origin rest :
  plain (47%N :: rest) → head rest ≠ Some 47%N →
  ∃ u, resolve_reference scheme origin (47%N :: rest) = Some u ∧ url_origin u = origin.
Proof.
  intros Hp Hh. unfold resolve_reference. rewrite url_input_plain by done. cbn.
  destruct rest as [|c rest].
  - eexists. done.
  - apply Forall_cons_1 in Hp as [_ Hp]. apply Forall_cons_1 in Hp as [Hc _].
    assert (is_slash c = false) as ->.
    { unfold is_slash. rewrite (proj2 (N.eqb_neq c 47)) by (intros ->; by apply Hh).
      unfold url_unit in Hc. unfold_ranges. n_bool. lia. }
    eexists. split; [done|]. unfold parse_path. by repeat case_match.
Qed.
