(* ===== verification/Layout.v ===== *)
(** * Repository layout

    Models [src/lib/repository-layout.ts] and [src/lib/artifact-id.ts]: which
    repository paths are artifacts, where a new artifact is written, and the
    identifiers derived from titles. *)

From S2P Require Import Prelude JsString Regex.

Inductive artifact_type := Prompt | Snippet | Template | AppIdea.
#[export] Instance artifact_type_eq_dec : EqDecision artifact_type.
Proof. solve_decision. Defined.

Inductive layout := Canonical.

Definition ARTIFACT_DIRECTORIES : list str :=
  [js "prompts"; js "snippets"; js "templates"; js "app-ideas"].

(** [Boolean(segment) && segment !== "." && segment !== ".."] *)
Definition safe_segment (w : str) : bool :=
  nonempty w && negb (str_eqb w (js ".")) && negb (str_eqb w (js "..")).

Definition slash : N := ch "/".
Definition backslash : N := ch "\".
Definition is_slash (c : N) : bool := (c =? slash)%N.

(** [value.replace(/\\/g, "/").replace(/^\/+/, "")] *)
Definition normalize_path (value : str) : str :=
  drop_while is_slash (replace_unit backslash slash value).

Definition safeSegments (value : str) : option (list str) :=
  let segments := split_on slash (normalize_path value) in
  if (1 <? length segments)%nat && forallb safe_segment segments then Some segments else None.

Definition safeRootSegments (value : str) : option (list str) :=
  let normalized := drop_while_end is_slash (normalize_path value) in
  let segments := split_on slash normalized in
  if nonempty normalized && forallb safe_segment segments then Some segments else None.

Definition normalizeRepositoryRoot (value : str) : option str :=
  join [slash] <$> safeRootSegments value.

Definition classifyArtifactPath (filePath : str) : option layout :=
  segments ← safeSegments filePath;
  top ← head segments;
  if bool_decide (top ∈ ARTIFACT_DIRECTORIES) then Some Canonical else None.

Definition isSupportedArtifactPath (filePath : str) : bool :=
  match classifyArtifactPath filePath with Some _ => true | None => false end
  && ends_with (js ".md") (replace_unit backslash slash filePath).

Definition artifactTypeDirectories (t : artifact_type) : str :=
  match t with
  | Prompt => js "prompts"
  | Snippet => js "snippets"
  | Template => js "templates"
  | AppIdea => js "app-ideas"
  end.

(** [/^[a-z0-9]+(?:-[a-z0-9]+)*$/] *)
Definition dash : N := ch "-".
Definition id_word : re := Plus (Cls is_lower_alnum).
Definition id_re : re :=
  Seq Bos (Seq id_word (Seq (Star (Seq (Cls (N.eqb dash)) id_word)) Eos)).
Definition is_artifact_id (id : str) : bool := re_test id_re id.

Definition canonicalArtifactWritePath (t : artifact_type) (id : str) : option str :=
  if is_artifact_id id
  then Some (artifactTypeDirectories t ++ [slash] ++ id ++ js ".md")
  else None.

Definition isSupportedArtifactMutationPath (filePath : str) : bool :=
  isSupportedArtifactPath filePath.

Definition isArtifactMarkdownCandidate (filePath : str) : bool :=
  let normalized := normalize_path filePath in
  ends_with (js ".md") normalized
  && existsb (λ directory, starts_with (directory ++ [slash]) normalized) ARTIFACT_DIRECTORIES.

(** ** [slugify] *)

(** [s.replace(/(^-|-$)+/g, "")]: one leading and one trailing dash. *)
Definition strip_leading_dash (s : str) : str :=
  match s with c :: r => if (c =? dash)%N then r else s | [] => [] end.
Definition strip_dashes (s : str) : str :=
  reverse (strip_leading_dash (reverse (strip_leading_dash s))).

Definition slugify (value : str) : str :=
  take 80 (strip_dashes (replace_runs (λ c, negb (is_lower_alnum c)) [dash] (to_lower value))).

Example slugify_ex : slugify (js "  Hello, World! v2 ") = js "hello-world-v2".
Proof. vm_compute. reflexivity. Qed.

(** ** Identifiers *)

(** A maximal dash-free piece of an identifier. *)
Definition id_segment (w : str) : Prop := w ≠ [] ∧ Forall (λ c, is_lower_alnum c = true) w.

Lemma lower_alnum_not c d : is_lower_alnum c = true → is_lower_alnum d = false → c ≠ d.
Proof. intros H1 H2 ->. congruence. Qed.

Lemma id_segment_fresh w d : is_lower_alnum d = false → id_segment w → d ∉ w.
Proof.
  intros Hd [_ Hw] Hin. rewrite Forall_forall in Hw. specialize (Hw d Hin). cbn in Hw. congruence.
Qed.

Lemma join_concat d w ws : join [d] (w :: ws) = w ++ concat (map (cons d) ws).
Proof.
  revert w. induction ws as [|w' ws IH]; intros w; [by rewrite app_nil_r|].
  rewrite join_cons_nonnil by done. rewrite IH. done.
Qed.

Lemma split_on_concat d w ws :
  d ∉ w → Forall (λ w, d ∉ w) ws → split_on d (w ++ concat (map (cons d) ws)) = w :: ws.
Proof.
  revert w. induction ws as [|w' ws IH]; intros w Hw Hws.
  - rewrite app_nil_r. by apply split_on_fresh.
  - apply Forall_cons in Hws as [Hw' Hws]. cbn [map concat app].
    rewrite split_on_app by done. by rewrite IH.
Qed.

Lemma id_tail_inv p q :
  rmatch (Star (Seq (Cls (N.eqb dash)) id_word)) p q →
  ∃ ws, p.2 = concat (map (cons dash) ws) ++ q.2 ∧ Forall id_segment ws.
Proof.
  intros H. remember (Star _) as r eqn:Er. induction H; try discriminate.
  - by exists [].
  - simplify_eq. destruct (IHrmatch2 eq_refl) as (ws & E & HF).
    inversion H; simplify_eq. match goal with H : rmatch (Cls _) _ _ |- _ => inversion H; simplify_eq end.
    match goal with H : (dash =? _)%N = true |- _ => apply N.eqb_eq in H; subst end.
    match goal with H : rmatch id_word _ _ |- _ =>
      apply rmatch_plus_cls_inv in H as (w & Hne & Hw & Hwf) end.
    cbn in *. exists (w :: ws). rewrite Hw, E. cbn. rewrite <- app_assoc.
    split; [done|]. by constructor.
Qed.

Lemma id_tail_intro ws b s :
  Forall id_segment ws →
  ∃ b', rmatch (Star (Seq (Cls (N.eqb dash)) id_word)) (b, concat (map (cons dash) ws) ++ s) (b', s).
Proof.
  intros HF. revert b. induction HF as [|w ws [Hne Hw] HF IH]; intros b; [eexists; constructor|].
  destruct (rmatch_plus_cls w is_lower_alnum (Some dash) (concat (map (cons dash) ws) ++ s) Hne Hw)
    as [b1 Hb1].
  destruct (IH b1) as [b2 Hb2]. exists b2. cbn. rewrite <- app_assoc.
  econstructor; [|exact Hb2]. econstructor; [constructor; apply N.eqb_refl|exact Hb1].
Qed.

(** The pattern accepts exactly the dash-separated lower-case words. *)
Lemma is_artifact_id_spec id :
  is_artifact_id id = true ↔ Forall id_segment (split_on dash id).
Proof.
  unfold is_artifact_id, id_re. rewrite re_test_bos. split.
  - intros [q H]. inversion H; simplify_eq.
    match goal with H : rmatch id_word _ _ |- _ =>
      apply rmatch_plus_cls_inv in H as (w & Hne & Hw & Hwf) end.
    match goal with H : rmatch (Seq _ Eos) _ _ |- _ => inversion H; simplify_eq end.
    match goal with H : rmatch (Star _) _ _ |- _ => apply id_tail_inv in H as (ws & E & HF) end.
    match goal with H : rmatch Eos _ _ |- _ => inversion H; simplify_eq end.
    cbn in *. rewrite app_nil_r in E. rewrite Hw, E.
    rewrite split_on_concat.
    + by constructor.
    + by apply id_segment_fresh.
    + eapply Forall_impl; [exact HF|]. intros x Hx. by apply id_segment_fresh.
  - intros H. rewrite <- (join_split_on dash id). pose proof (split_on_nonnil dash id).
    destruct (split_on dash id) as [|w ws]; [done|]. apply Forall_cons in H as [[Hne Hw] Hws].
    rewrite join_concat.
    destruct (rmatch_plus_cls w is_lower_alnum None (concat (map (cons dash) ws)) Hne Hw) as [b1 H1].
    destruct (id_tail_intro ws b1 [] Hws) as [b2 H2]. rewrite app_nil_r in H2.
    eexists. econstructor; [exact H1|]. econstructor; [exact H2|]. constructor.
Qed.

Lemma is_artifact_id_units id :
  is_artifact_id id = true → Forall (λ c, is_lower_alnum c = true ∨ c = dash) id.
Proof.
  rewrite is_artifact_id_spec. intros H. rewrite <- (join_split_on dash id).
  pose proof (split_on_nonnil dash id) as Hnn. destruct (split_on dash id) as [|w ws]; [done|].
  clear Hnn. rewrite join_concat. apply Forall_cons in H as [[_ Hw] Hws]. apply Forall_app. split.
  - eapply Forall_impl; [exact Hw|]. by left.
  - induction Hws as [|x xs [_ Hx] Hxs IH]; cbn; [constructor|]. constructor; [by right|].
    apply Forall_app. split; [|done]. eapply Forall_impl; [exact Hx|]. by left.
Qed.

Lemma is_artifact_id_nonempty id : is_artifact_id id = true → id ≠ [].
Proof. intros H ->. done. Qed.

Lemma is_artifact_id_fresh id c :
  is_artifact_id id = true → is_lower_alnum c = false → c ≠ dash → c ∉ id.
Proof.
  intros H Hc Hd Hin. apply is_artifact_id_units in H. rewrite Forall_forall in H.
  destruct (H c Hin); [congruence|done].
Qed.

(** Identifiers contain no white space. *)
Lemma is_artifact_id_trim id : is_artifact_id id = true → trim id = id.
Proof.
  intros H. apply is_artifact_id_units in H.
  assert (Hf : ∀ c, c ∈ id → is_ws c = false).
  { intros c Hc. rewrite Forall_forall in H. destruct (H c Hc) as [Hl| ->]; [|done].
    unfold is_lower_alnum, is_lower, is_digit, in_range in Hl. unfold is_ws, in_range.
    rewrite !orb_true_iff, !andb_true_iff, !N.leb_le in Hl.
    rewrite !orb_false_iff, !andb_false_iff, !N.eqb_neq, !N.leb_gt. lia. }
  unfold trim, drop_while_end. rewrite (drop_while_none _ id) by (intros c Hc; by apply Hf).
  rewrite drop_while_none; [apply reverse_involutive|]. intros c Hc. apply Hf. by apply elem_of_reverse.
Qed.

(** ** Confinement of artifact paths *)

(** Walking a path the way a file system does: empty and [.] segments stay in
    place, [..] goes up; [None] when the walk leaves the repository. *)
Fixpoint walk (here : list str) (segments : list str) : option (list str) :=
  match segments with
  | [] => Some here
  | w :: ws =>
      if negb (nonempty w) || str_eqb w (js ".") then walk here ws
      else if str_eqb w (js "..") then
        match reverse here with [] => None | _ :: up => walk (reverse up) ws end
      else walk (here ++ [w]) ws
  end.

Lemma walk_safe here segments :
  forallb safe_segment segments = true → walk here segments = Some (here ++ segments).
Proof.
  revert here. induction segments as [|w ws IH]; intros here H; [by rewrite app_nil_r|].
  cbn [forallb] in H. apply andb_true_iff in H as [Hw Hws]. unfold safe_segment in Hw. to_prop.
  cbn [walk]. rewrite H, H1, H0. cbn [negb orb]. rewrite IH by done. by rewrite <- app_assoc.
Qed.

Lemma classify_inv p l :
  classifyArtifactPath p = Some l →
  ∃ d rest, split_on slash (normalize_path p) = d :: rest ∧ rest ≠ [] ∧
    d ∈ ARTIFACT_DIRECTORIES ∧ forallb safe_segment (d :: rest) = true.
Proof.
  unfold classifyArtifactPath, safeSegments. intros H.
  destruct ((1 <? _)%nat && _) eqn:E; [|done]. to_prop. cbn in H.
  destruct (split_on slash (normalize_path p)) as [|d rest]; [done|]. cbn in H.
  case_bool_decide; [|done]. exists d, rest. repeat split; [|done|done].
  apply Nat.ltb_lt in H0. destruct rest; [cbn in H0; lia|done].
Qed.

Lemma classify_intro p d rest :
  split_on slash (normalize_path p) = d :: rest → rest ≠ [] → d ∈ ARTIFACT_DIRECTORIES →
  forallb safe_segment (d :: rest) = true → classifyArtifactPath p = Some Canonical.
Proof.
  intros E Hne Hd Hs. unfold classifyArtifactPath, safeSegments. rewrite E, Hs.
  destruct rest; [done|]. cbn [length Nat.ltb]. cbn. by rewrite bool_decide_eq_true_2.
Qed.

Lemma directory_is_listed t : artifactTypeDirectories t ∈ ARTIFACT_DIRECTORIES.
Proof. destruct t; eval_decide. Qed.

Lemma directory_safe t : safe_segment (artifactTypeDirectories t) = true.
Proof. by destruct t. Qed.

Lemma directory_fresh t c : c ∈ [slash; backslash] → c ∉ artifactTypeDirectories t.
Proof.
  intros H. assert (Forall (λ c, c ∉ artifactTypeDirectories t) [slash; backslash]) as HF
    by (destruct t; eval_decide).
  rewrite Forall_forall in HF. auto.
Qed.

Lemma id_file_safe id : is_artifact_id id = true → safe_segment (id ++ js ".md") = true.
Proof.
  intros H. pose proof (is_artifact_id_units id H) as Hu.
  destruct id as [|c id]; [done|]. apply Forall_cons in Hu as [Hc _].
  assert (c ≠ ch ".") as Hdot by (destruct Hc as [Hc| ->]; [|done]; by intros ->).
  unfold safe_segment. cbn [nonempty app andb]. unfold str_eqb.
  rewrite !bool_decide_eq_false_2; [done| |]; by intros [= ? ?].
Qed.

Lemma id_file_fresh id c : is_artifact_id id = true → c ∈ [slash; backslash] → c ∉ (id ++ js ".md").
Proof.
  intros H Hc. assert (Forall (λ c, (c ∉ js ".md") ∧ is_lower_alnum c = false ∧ c ≠ dash)
    [slash; backslash]) as HF by eval_decide.
  rewrite Forall_forall in HF. destruct (HF c Hc) as (H1 & H2 & H3).
  rewrite elem_of_app. intros [Hin|Hin]; [|done]. by eapply is_artifact_id_fresh.
Qed.

(** The write target of a type and an identifier, taken apart. *)
Lemma write_path_shape t id p :
  canonicalArtifactWritePath t id = Some p →
  is_artifact_id id = true ∧ p = artifactTypeDirectories t ++ slash :: id ++ js ".md" ∧
  normalize_path p = p ∧ replace_unit backslash slash p = p ∧
  split_on slash p = [artifactTypeDirectories t; id ++ js ".md"].
Proof.
  unfold canonicalArtifactWritePath. destruct (is_artifact_id id) eqn:Hid; [|done].
  intros [= <-]. cbn [app].
  assert (Hb : replace_unit backslash slash (artifactTypeDirectories t ++ slash :: id ++ js ".md")
     = artifactTypeDirectories t ++ slash :: id ++ js ".md").
  { apply replace_unit_none. rewrite elem_of_app, elem_of_cons. intros [H|[H|H]].
    - by apply (directory_fresh t backslash); [set_solver|].
    - done.
    - by apply (id_file_fresh id backslash); [|set_solver|]. }
  repeat split; [|done|].
  - unfold normalize_path. rewrite Hb. by destruct t.
  - rewrite split_on_app by (apply directory_fresh; set_solver).
    by rewrite split_on_fresh by (apply id_file_fresh; [done|set_solver]).
Qed.

(** ** Shape of slugs *)

(** No two adjacent dashes, and only slug units; [prev] says whether the unit
    before the string is a dash. *)
Fixpoint no_double_dash (prev : bool) (s : str) : bool :=
  match s with
  | [] => true
  | c :: s => if (c =? dash)%N then negb prev && no_double_dash true s
              else is_lower_alnum c && no_double_dash false s
  end.

Lemma no_double_dash_weaken s b : no_double_dash true s = true → no_double_dash b s = true.
Proof. destruct b; [done|]. destruct s as [|c s]; cbn; [done|]. by destruct (c =? dash)%N. Qed.

Lemma no_double_dash_take n b s : no_double_dash b s = true → no_double_dash b (take n s) = true.
Proof.
  revert b n. induction s as [|c s IH]; intros b [|n] H; cbn in *; [done..|].
  destruct (c =? dash)%N; to_prop; rewrite ?H; cbn; by apply IH.
Qed.

Lemma no_double_dash_app b s k : no_double_dash b (s ++ k) = true → no_double_dash b s = true.
Proof. intros H. rewrite <- (take_app_length s k). by apply no_double_dash_take. Qed.

Lemma replace_runs_no_double_dash b s :
  no_double_dash b (replace_runs_aux (λ c, negb (is_lower_alnum c)) [dash] b s) = true.
Proof.
  revert b. induction s as [|c s IH]; intros b; cbn; [done|].
  destruct (is_lower_alnum c) eqn:Ec; cbn.
  - destruct (N.eqb_spec c dash) as [->|]; [done|]. rewrite Ec. apply IH.
  - destruct b; cbn; [apply IH|]. apply IH.
Qed.

Lemma strip_leading_dash_ok s : no_double_dash false s = true →
  no_double_dash true (strip_leading_dash s) = true.
Proof.
  destruct s as [|c s]; [done|]. cbn. destruct (c =? dash)%N eqn:E; [done|].
  cbn. by rewrite E.
Qed.

(** Identifiers are the strings without a double, leading or trailing dash. *)
Lemma id_of_no_double_dash s :
  no_double_dash true s = true → s ≠ [] → last s ≠ Some dash → is_artifact_id s = true.
Proof.
  intros H Hne Hl. apply is_artifact_id_spec.
  enough (HG : ∀ b, no_double_dash b s = true → last s ≠ Some dash →
     match split_on dash s with
     | w :: ws => Forall (λ c, is_lower_alnum c = true) w ∧ Forall id_segment ws ∧
                  (b = true → s ≠ [] → w ≠ [])
     | [] => False end).
  { specialize (HG true H Hl). destruct (split_on dash s) as [|w ws]; [done|].
    destruct HG as (H1 & H2 & H3). constructor; [split; auto|done]. }
  clear H Hl Hne. induction s as [|c s IH]; intros b H Hl; cbn; [done|]. cbn in H.
  destruct (N.eqb_spec c dash) as [->|Hc].
  - to_prop. subst b. destruct s as [|d s]; [done|].
    specialize (IH true H0 ltac:(intros E; apply Hl; by rewrite last_cons_cons)).
    destruct (split_on dash (d :: s)) as [|w ws]; [done|]. destruct IH as (H1 & H2 & H3).
    split; [done|]. split; [|done]. constructor; [|done]. split; [by apply H3|done].
  - to_prop. assert (Hl' : last s ≠ Some dash).
    { destruct s as [|d s]; [done|]. intros E. apply Hl. by rewrite last_cons_cons. }
    specialize (IH false H0 Hl'). destruct (split_on dash s) as [|w ws]; [done|].
    destruct IH as (H1 & H2 & _). split; [by constructor|]. done.
Qed.

Lemma id_or_dash_end s :
  no_double_dash true s = true → s ≠ [] →
  is_artifact_id s = true ∨ ∃ s', s = s' ++ [dash] ∧ is_artifact_id s' = true.
Proof.
  intros H Hne. destruct (decide (last s = Some dash)) as [E|E]; [|left; by apply id_of_no_double_dash].
  right. apply last_Some in E as [s' ->]. exists s'. split; [done|].
  apply id_of_no_double_dash.
  - by eapply no_double_dash_app.
  - intros ->. done.
  - intros [s'' ->]%last_Some. rewrite <- app_assoc in H.
    assert (HG : ∀ b, no_double_dash b (s'' ++ [dash] ++ [dash]) = false); [|by rewrite HG in H].
    clear. induction s'' as [|c s IH]; intros b; cbn; [by rewrite andb_false_r|].
    rewrite !IH, !andb_false_r. by destruct (c =? dash)%N.
Qed.

(** ** Properties *)

Lemma normalize_path_suffix p w :
  ends_with w (replace_unit backslash slash p) = true → w ≠ [] → slash ∉ w →
  ends_with w (normalize_path p) = true.
Proof.
  rewrite !ends_with_spec. intros [r Hr] Hne Hw. unfold normalize_path. rewrite Hr. clear Hr.
  induction r as [|c r IH]; cbn.
  - exists []. apply drop_while_none. intros c Hc. apply N.eqb_neq. intros ->. done.
  - destruct (is_slash c); [exact IH|]. by exists (c :: r).
Qed.

(** A path the layout classifies as an artifact is confined to the library:
    walking its segments from the repository root, with [.] and [..] resolved as
    a file system would, ends inside one of the four artifact directories, at a
    path that is at least one level below it and is the path as written. *)
Theorem artifact_path_confined p l :
  classifyArtifactPath p = Some l →
  ∃ d rest, walk [] (split_on slash (normalize_path p)) = Some (d :: rest) ∧
    d ∈ ARTIFACT_DIRECTORIES ∧ rest ≠ [] ∧
    join [slash] (d :: rest) = normalize_path p ∧ backslash ∉ normalize_path p.
Proof.
  intros H. apply classify_inv in H as (d & rest & E & Hne & Hd & Hs). exists d, rest.
  rewrite E, walk_safe by done. repeat split; [done|done| |].
  - by rewrite <- E, join_split_on.
  - unfold normalize_path. destruct (drop_while_suffix is_slash (replace_unit backslash slash p))
      as (r & Hr & _). intros Hin.
    assert (backslash ∈ replace_unit backslash slash p) as Hb by (rewrite Hr; set_solver).
    by apply replace_unit_gone in Hb.
Qed.

Lemma artifact_path_confined_witness :
  ∃ d rest, walk [] (split_on slash (normalize_path (js "/prompts\team/a.md"))) = Some (d :: rest) ∧
    d ∈ ARTIFACT_DIRECTORIES ∧ rest ≠ [] ∧
    join [slash] (d :: rest) = normalize_path (js "/prompts\team/a.md") ∧
    backslash ∉ normalize_path (js "/prompts\team/a.md").
Proof. apply (artifact_path_confined _ Canonical). vm_compute. reflexivity. Defined.

(** Supported paths are among the candidates a repository scan considers. *)
Lemma supported_is_candidate p :
  isSupportedArtifactPath p = true → isArtifactMarkdownCandidate p = true.
Proof.
  unfold isSupportedArtifactPath, isArtifactMarkdownCandidate. intros H. to_prop.
  destruct (classifyArtifactPath p) as [l|] eqn:E; [|done].
  rewrite normalize_path_suffix; [|done|done|eval_decide]. cbn [andb].
  apply classify_inv in E as (d & rest & E & Hne & Hd & _).
  apply existsb_exists. exists d. split; [by apply list_elem_of_In|].
  rewrite <- (join_split_on slash (normalize_path p)), E. rewrite join_cons_nonnil by done.
  rewrite app_assoc. apply starts_with_app.
Qed.

Lemma write_path_classified t id p :
  canonicalArtifactWritePath t id = Some p → classifyArtifactPath p = Some Canonical.
Proof.
  intros H. apply write_path_shape in H as (Hid & -> & Hn & Hb & Hs).
  eapply classify_intro; [rewrite Hn; exact Hs|done|apply directory_is_listed|].
  cbn. by rewrite directory_safe, id_file_safe.
Qed.

Lemma write_path_supported t id p :
  canonicalArtifactWritePath t id = Some p → isSupportedArtifactPath p = true.
Proof.
  intros H. pose proof (write_path_classified _ _ _ H) as Hc.
  apply write_path_shape in H as (_ & E & _ & Hb & _).
  unfold isSupportedArtifactPath. rewrite Hc, Hb, E. cbn [andb].
  change (slash :: id ++ js ".md") with (([slash] ++ id) ++ js ".md").
  rewrite app_assoc. apply ends_with_app.
Qed.

(** Every target computed for a new artifact is a path that the read side
    accepts and the mutation check allows, and it determines the type and the
    identifier: two different artifacts never share a write target. *)
Theorem write_path_sound t id p :
  canonicalArtifactWritePath t id = Some p →
  classifyArtifactPath p = Some Canonical ∧
  isArtifactMarkdownCandidate p = true ∧
  isSupportedArtifactMutationPath p = true ∧
  (∀ t' id', canonicalArtifactWritePath t' id' = Some p → t' = t ∧ id' = id).
Proof.
  intros H. pose proof (write_path_supported _ _ _ H) as Hsup.
  repeat split; eauto using supported_is_candidate, write_path_classified;
    apply write_path_shape in H as (_ & _ & _ & _ & Hs).
  - apply write_path_shape in H0 as (_ & _ & _ & _ & Hs'). rewrite Hs' in Hs.
    simplify_eq. by destruct t, t'.
  - apply write_path_shape in H0 as (_ & _ & _ & _ & Hs'). rewrite Hs' in Hs.
    injection Hs as _ E. by apply app_inv_tail in E.
Qed.

Lemma write_path_sound_witness :
  classifyArtifactPath (js "app-ideas/todo-list.md") = Some Canonical ∧
  isArtifactMarkdownCandidate (js "app-ideas/todo-list.md") = true ∧
  isSupportedArtifactMutationPath (js "app-ideas/todo-list.md") = true ∧
  (∀ t' id', canonicalArtifactWritePath t' id' = Some (js "app-ideas/todo-list.md") →
     t' = AppIdea ∧ id' = js "todo-list").
Proof. apply (write_path_sound AppIdea (js "todo-list")). vm_compute. reflexivity. Defined.

Lemma slugify_no_double_dash v : no_double_dash true (slugify v) = true.
Proof.
  unfold slugify, strip_dashes. apply no_double_dash_take.
  set (s := strip_leading_dash (replace_runs _ _ _)). assert (Hs : no_double_dash true s = true)
    by apply strip_leading_dash_ok, replace_runs_no_double_dash.
  clearbody s. destruct (reverse s) as [|c r] eqn:E; [done|]. cbn [strip_leading_dash].
  assert (Es : s = reverse r ++ [c]) by (rewrite <- (reverse_involutive s), E; by rewrite reverse_cons).
  destruct (c =? dash)%N.
  - rewrite Es in Hs. by eapply no_double_dash_app.
  - by rewrite reverse_cons, <- Es.
Qed.

(** A slug is empty, a valid artifact identifier, or, only when the 80-unit
    cut falls right after a word, a valid identifier followed by one dash; it
    never exceeds 80 units. *)
Lemma slugify_shape v :
  (length (slugify v) ≤ 80)%nat ∧
  (slugify v = [] ∨ is_artifact_id (slugify v) = true ∨
   (length (slugify v) = 80 ∧ ∃ s, slugify v = s ++ [dash] ∧ is_artifact_id s = true)).
Proof.
  split; [unfold slugify; rewrite length_take; lia|].
  destruct (decide (slugify v = [])) as [|Hne]; [by left|right].
  destruct (id_or_dash_end _ (slugify_no_double_dash v) Hne) as [|(s & E & Hs)]; [by left|right].
  split; [|by exists s].
  unfold slugify in *. set (u := strip_dashes _) in *.
  destruct (decide (length u ≤ 80)%nat) as [Hl|Hl]; [|rewrite length_take; lia].
  exfalso. rewrite take_ge in E by done.
  assert (Hlast : ∀ w, no_double_dash true w = true →
    reverse (strip_leading_dash (reverse w)) ≠ s ++ [dash]).
  { clear. intros w Hw. destruct (reverse w) as [|c r] eqn:Er; cbn [strip_leading_dash]; [by destruct s|].
    assert (Ew : w = reverse r ++ [c]) by (rewrite <- (reverse_involutive w), Er; by rewrite reverse_cons).
    destruct (N.eqb_spec c dash) as [->|Hc].
    - intros E. rewrite E in Ew. subst w.
      assert (HG : ∀ b, no_double_dash b ((s ++ [dash]) ++ [dash]) = false); [|by rewrite HG in Hw].
      clear. induction s as [|d s IH]; intros b; cbn; [by rewrite andb_false_r|].
      rewrite !IH, !andb_false_r. by destruct (d =? dash)%N.
    - rewrite reverse_cons. intros E. apply app_inj_tail in E as [_ E]. done. }
  unfold u, strip_dashes in E. eapply Hlast; [|exact E].
  apply strip_leading_dash_ok, replace_runs_no_double_dash.
Qed.
