(* ===== verification/Libs.v ===== *)
(** * Third-party code and errors

    [Libs] collects what the modelled sources call in packages that are not part
    of the repository (gray-matter, zod's string formats, ICU collation), as an
    interface; [LibsLaws] states the documented behaviour the theorems rely on.
    [ToyLibs] is a concrete instance for evaluating witnesses. [error] is the
    sum of the error classes thrown by the artifact components. *)

From S2P Require Import Prelude JsString JsDate Json Layout.

(** ** Errors *)

(** [ArtifactMarkdownParseError.code] *)
Inductive parse_code := Invalid_front_matter | Invalid_metadata | Invalid_body.
(** [ArtifactBlobDiagnosticError.code] *)
Inductive blob_code := Unsupported_encoding | Blob_too_large | Blob_unavailable.

#[export] Instance parse_code_eq_dec : EqDecision parse_code.
Proof. solve_decision. Defined.
#[export] Instance blob_code_eq_dec : EqDecision blob_code.
Proof. solve_decision. Defined.

Inductive error : Type :=
| ArtifactMarkdownParseError (code : parse_code)
| ArtifactRepositoryConfigurationError
| ArtifactRepositoryUnavailableError (status : option Z)
| ArtifactRepositoryAccessError
| ArtifactRepositoryNotFoundError
| ArtifactBranchNotFoundError
| ArtifactRepositoryContentError
| ArtifactBlobDiagnosticError (code : blob_code)
| ArtifactWriteValidationError
| ArtifactWriteTooLargeError
| ArtifactSecretRejectedError
| ArtifactDuplicateError
| ArtifactWriteConflictError
| ArtifactWritePermissionError
| ArtifactWriteAuthenticationError
| ArtifactNotFoundError
| ArtifactWriteResponseError
| ZodError
| URIError
| PlainError (message : str)
(** an error of the credential provider, with its [status] property *)
| CredentialError (status : option Z).

#[export] Instance error_eq_dec : EqDecision error.
Proof. solve_decision. Defined.

(** ** Front matter data *)

(** The objects the sources serialise as front matter: strings and lists of
    strings under distinct keys. *)
Inductive flat := FStr (s : str) | FList (l : list str).
Definition flat_js (v : flat) : jsval :=
  match v with FStr s => JStr s | FList l => JArr (map JStr l) end.
Definition flat_obj (o : list (str * flat)) : list (str * jsval) :=
  map (λ kv, (kv.1, flat_js kv.2)) o.

(** What gray-matter returns: the raw front matter, its data, the content. *)
Record gray_matter := { gm_matter : str; gm_data : jsval; gm_content : str }.

Class Libs := {
  (** [matter(raw, {})]; [None] when it throws *)
  matter : str → option gray_matter;
  (** [matter.stringify(content, data)] *)
  matter_stringify : str → list (str * flat) → str;
  (** [z.string().datetime({ offset: true })] and [z.string().datetime()] *)
  zod_datetime_offset : str → bool;
  zod_datetime : str → bool;
  (** [z.string().url()] *)
  zod_url : str → bool;
  (** [a.localeCompare(b) <= 0] *)
  locale_le : str → str → bool;
  (** [Date.parse(s)] on strings that are not in the ISO format *)
  date_parse_fallback : str → option Z;
}.

(** [Date.parse] *)
Definition date_parse `{Libs} (s : str) : option Z :=
  match Date_parse s with Some t => Some t | None => date_parse_fallback s end.

Class LibsLaws (L : Libs) := {
  (** [stringify] reads front matter of its own at the head of the content, and ends the
      content with a newline: other contents come back as they were. *)
  matter_roundtrip content data :
    data ≠ [] → NoDup (map fst data) → starts_with (js "---") content = false →
    ∃ text, trim text ≠ [] ∧
      matter (matter_stringify (content ++ [10%N]) data)
      = Some {| gm_matter := text; gm_data := JObj (flat_obj data); gm_content := content ++ [10%N] |};
  datetime_offset_iso t : iso_time t → zod_datetime_offset (toISOString t) = true;
  datetime_offset_nil : zod_datetime_offset [] = false;
  datetime_iso t : iso_time t → zod_datetime (toISOString t) = true;
}.

(** Stable sorting by a key with [localeCompare]. *)
Section Sort.
Context {A : Type} (le : A → A → bool).
Fixpoint insert_sorted (x : A) (l : list A) : list A :=
  match l with
  | [] => [x]
  | y :: l' => if le x y then x :: l else y :: insert_sorted x l'
  end.
Definition sort_list (l : list A) : list A := foldr insert_sorted [] l.

Lemma insert_sorted_perm x l : Permutation (insert_sorted x l) (x :: l).
Proof.
  induction l as [|y l IH]; cbn; [done|]. case_match; [done|].
  rewrite IH. apply Permutation_swap.
Qed.
Lemma sort_list_perm l : Permutation (sort_list l) l.
Proof. induction l as [|x l IH]; cbn; [done|]. rewrite insert_sorted_perm. by rewrite IH. Qed.
End Sort.

(** ** A concrete instance *)

Module ToyLibs.
(** Length-prefixed strings. *)
Definition enc_str (s : str) : str := N.of_nat (length s) :: s.
Definition dec_str (l : str) : option (str * str) :=
  match l with
  | n :: r => if (N.to_nat n <=? length r)%nat
              then Some (take (N.to_nat n) r, drop (N.to_nat n) r) else None
  | [] => None
  end.
Fixpoint dec_strs (n : nat) (l : str) : option (list str * str) :=
  match n with
  | O => Some ([], l)
  | S n => '(s, l) ← dec_str l; '(ss, l) ← dec_strs n l; Some (s :: ss, l)
  end.
Definition enc_strs (ss : list str) : str := N.of_nat (length ss) :: flat_map enc_str ss.

Definition enc_flat (v : flat) : str :=
  match v with FStr s => 0%N :: enc_str s | FList l => 1%N :: enc_strs l end.
Definition dec_flat (l : str) : option (jsval * str) :=
  match l with
  | 0%N :: l => '(s, l) ← dec_str l; Some (JStr s, l)
  | 1%N :: n :: l => '(ss, l) ← dec_strs (N.to_nat n) l; Some (JArr (map JStr ss), l)
  | _ => None
  end.
Fixpoint dec_entries (n : nat) (l : str) : option (list (str * jsval) * str) :=
  match n with
  | O => Some ([], l)
  | S n => '(k, l) ← dec_str l; '(v, l) ← dec_flat l; '(o, l) ← dec_entries n l;
           Some ((k, v) :: o, l)
  end.
Definition enc_entries (o : list (str * flat)) : str :=
  flat_map (λ kv, enc_str kv.1 ++ enc_flat kv.2) o.

Definition toy_stringify (content : str) (data : list (str * flat)) : str :=
  N.of_nat (length data) :: enc_entries data ++ content.
Definition toy_matter (raw : str) : option gray_matter :=
  match raw with
  | [] => Some {| gm_matter := []; gm_data := JObj []; gm_content := [] |}
  | n :: l => '(o, content) ← dec_entries (N.to_nat n) l;
              Some {| gm_matter := js "front matter"; gm_data := JObj o; gm_content := content |}
  end.

Definition toy_datetime (s : str) : bool :=
  match Date_parse s with Some _ => true | None => false end.

#[export] Instance toy : Libs := {
  matter := toy_matter;
  matter_stringify := toy_stringify;
  zod_datetime_offset := toy_datetime;
  zod_datetime := toy_datetime;
  zod_url := starts_with (js "https://");
  locale_le := λ a b, bool_decide (length a ≤ length b)%nat;
  date_parse_fallback := λ _, None;
}.

Lemma dec_enc_str s r : dec_str (enc_str s ++ r) = Some (s, r).
Proof.
  cbn. rewrite Nat2N.id. rewrite length_app, (proj2 (Nat.leb_le _ _)) by lia.
  by rewrite take_app_length, drop_app_length.
Qed.

Lemma dec_enc_strs ss r : dec_strs (length ss) (flat_map enc_str ss ++ r) = Some (ss, r).
Proof.
  induction ss as [|s ss IH]; [done|]. cbn [flat_map dec_strs length].
  rewrite <- app_assoc, dec_enc_str. cbn. by rewrite IH.
Qed.

Lemma dec_enc_flat v r : dec_flat (enc_flat v ++ r) = Some (flat_js v, r).
Proof.
  destruct v as [s|l].
  - unfold enc_flat, dec_flat. change ((0%N :: enc_str s) ++ r) with (0%N :: enc_str s ++ r).
    cbv iota beta. by rewrite dec_enc_str.
  - unfold enc_flat, enc_strs, dec_flat. cbn [app]. rewrite Nat2N.id, dec_enc_strs. done.
Qed.

Lemma dec_enc_entries o r : dec_entries (length o) (enc_entries o ++ r) = Some (flat_obj o, r).
Proof.
  induction o as [|[k v] o IH]; [done|]. unfold enc_entries in *. cbn [flat_map length dec_entries].
  cbn [fst snd]. rewrite <- !app_assoc, dec_enc_str. cbn [mbind option_bind].
  rewrite dec_enc_flat. cbn [mbind option_bind]. by rewrite IH.
Qed.

#[export] Instance toy_laws : LibsLaws toy.
Proof.
  split.
  - intros content data Hne _ _. exists (js "front matter"). split; [done|].
    cbn -[js]. rewrite Nat2N.id, dec_enc_entries. done.
  - intros t Ht. change (toy_datetime (toISOString t) = true). unfold toy_datetime.
    by rewrite Date_parse_toISOString.
  - done.
  - intros t Ht. change (toy_datetime (toISOString t) = true). unfold toy_datetime.
    by rewrite Date_parse_toISOString.
Qed.
End ToyLibs.
