(* ===== verification/Contract.v ===== *)
(** * Artifact contract

    Models [src/lib/artifact-contract.ts]: the front-matter schema, metadata
    normalisation, Markdown serialisation and parsing, and identifier
    uniqueness. A zod schema is the partial function its [parse] computes;
    [unknown] inputs are [jsval]. *)

From S2P Require Import Prelude JsString JsDate Json Layout Libs.

Definition DEFAULT_ARTIFACT_BRANCH : str := js "main".
Definition DEFAULT_ARTIFACT_ROOT : str := js "canonical-root-v1".
Definition MAX_SERIALIZED_ARTIFACT_BYTES : Z := 1024 * 1024.

(** ** Schema combinators *)

Definition z_string (v : jsval) : option str := match v with JStr s => Some s | _ => None end.
(** [z.string().trim().min(1)] *)
Definition z_trimmed (v : jsval) : option str :=
  s ← z_string v; if nonempty (trim s) then Some (trim s) else None.
(** [z.string().max(n)] *)
Definition z_string_max (n : nat) (v : jsval) : option str :=
  s ← z_string v; if (length s <=? n)%nat then Some s else None.
Definition z_optional {A} (p : jsval → option A) (v : jsval) : option (option A) :=
  match v with JUndefined => Some None | _ => Some <$> p v end.
Definition z_default {A} (a : A) (p : jsval → option A) (v : jsval) : option A :=
  match v with JUndefined => Some a | _ => p v end.
Definition z_array {A} (p : jsval → option A) (v : jsval) : option (list A) :=
  match v with JArr l => mapM p l | _ => None end.

(** [artifactTypeSchema] *)
Definition type_name (t : artifact_type) : str :=
  match t with
  | Prompt => js "prompt"
  | Snippet => js "snippet"
  | Template => js "template"
  | AppIdea => js "app-idea"
  end.
Definition artifactTypeSchema (v : jsval) : option artifact_type :=
  s ← z_string v;
  find_list (λ t, str_eqb s (type_name t)) [Prompt; Snippet; Template; AppIdea].

(** ** Metadata *)

(** The front matter, with [C] the type of [createdAt]: the schema admits a text
    or a [Date], normalisation leaves a text. *)
Record metadata (C : Type) := Metadata {
  md_id : str;
  md_title : str;
  md_description : str;
  md_type : artifact_type;
  md_tags : list str;
  md_aliases : list str;
  md_sourceId : option str;
  md_createdAt : option C;
}.
Arguments Metadata {C}.
Arguments md_id {C}. Arguments md_title {C}. Arguments md_description {C}. Arguments md_type {C}.
Arguments md_tags {C}. Arguments md_aliases {C}. Arguments md_sourceId {C}. Arguments md_createdAt {C}.

Inductive created_at := CreatedText (s : str) | CreatedDate (ms : Z).

Abbreviation ArtifactMetadata := (metadata str).

Record ArtifactModel := Artifact {
  am_meta : ArtifactMetadata;
  am_body : str;
  am_excerpt : str;
  am_path : str;
}.

#[export] Instance metadata_eq_dec : EqDecision ArtifactMetadata.
Proof. solve_decision. Defined.
#[export] Instance artifact_eq_dec : EqDecision ArtifactModel.
Proof. solve_decision. Defined.

Definition toExcerpt (body : str) : str := take 180 (trim (replace_runs is_ws [32%N] body)).
Definition trimSlashes (value : str) : str := drop_while_end is_slash (drop_while is_slash value).

(** [Array.from(new Set(values.map(v => v.trim()).filter(Boolean)))] *)
Definition normalizeList (values : list str) : list str :=
  dedup (List.filter nonempty (map trim values)).

Arguments normalizeList values : simpl never.
Arguments toExcerpt body : simpl never.

Section Contract.
Context `{L : Libs}.

Definition z_created (v : jsval) : option created_at :=
  match v with
  | JStr s => if zod_datetime_offset s then Some (CreatedText s) else None
  | JDate ms => Some (CreatedDate ms)
  | _ => None
  end.

Definition artifactFrontMatterSchema (v : jsval) : outcome error (metadata created_at) :=
  from_option_throw ZodError
    match v with
    | JObj o =>
        id ← z_trimmed (field (js "id") o);
        title ← z_trimmed (field (js "title") o);
        description ← z_default [] (z_string_max 2000) (field (js "description") o);
        type ← artifactTypeSchema (field (js "type") o);
        tags ← z_default [] (z_array z_string) (field (js "tags") o);
        aliases ← z_default [] (z_array z_string) (field (js "aliases") o);
        sourceId ← z_optional z_trimmed (field (js "sourceId") o);
        createdAt ← z_optional z_created (field (js "createdAt") o);
        if is_undefined (field (js "status") o)
        then Some (Metadata id title description type tags aliases sourceId createdAt)
        else None
    | _ => None
    end.

Definition created_text (c : created_at) : str :=
  match c with CreatedText s => s | CreatedDate ms => toISOString ms end.

(** [{ ...data, tags, aliases, createdAt }] *)
Definition normalize_data (data : metadata created_at) : ArtifactMetadata :=
  Metadata (md_id data) (md_title data) (md_description data) (md_type data)
    (normalizeList (md_tags data)) (normalizeList (md_aliases data))
    (md_sourceId data) (created_text <$> md_createdAt data).

Definition normalizeArtifactMetadata (input : jsval) : outcome error ArtifactMetadata :=
  data ← artifactFrontMatterSchema input;
  Ok (normalize_data data).

Definition parseArtifactMarkdown (raw filePath : str) : outcome error ArtifactModel :=
  match matter raw with
  | None => Throw (ArtifactMarkdownParseError Invalid_front_matter)
  | Some parsed =>
      if nonempty (trim (gm_matter parsed)) then
        if negb (str_eqb filePath (js "artifact.md"))
           && match classifyArtifactPath filePath with None => true | Some _ => false end
        then Throw (ArtifactMarkdownParseError Invalid_metadata)
        else
          match artifactFrontMatterSchema (gm_data parsed) with
          | Ok data => Ok (Artifact (normalize_data data) (trim (gm_content parsed))
                             (toExcerpt (gm_content parsed)) filePath)
          | Throw ZodError => Throw (ArtifactMarkdownParseError Invalid_metadata)
          | Throw e => Throw e
          end
      else Throw (ArtifactMarkdownParseError Invalid_front_matter)
  end.

(** The object handed to [matter.stringify]. *)
Definition front_matter (data : ArtifactMetadata) : list (str * flat) :=
  [(js "id", FStr (md_id data)); (js "title", FStr (md_title data));
   (js "description", FStr (md_description data)); (js "type", FStr (type_name (md_type data)));
   (js "tags", FList (md_tags data)); (js "aliases", FList (md_aliases data))] ++
  match md_sourceId data with
  | Some s => if nonempty s then [(js "sourceId", FStr s)] else []
  | None => []
  end ++
  match md_createdAt data with
  | Some s => if nonempty s then [(js "createdAt", FStr s)] else []
  | None => []
  end.

Definition serializeArtifactMarkdown (metadata : jsval) (body : str) : outcome error str :=
  data ← normalizeArtifactMetadata metadata;
  let markdown := matter_stringify (trim body ++ [10%N]) (front_matter data) in
  _ ← parseArtifactMarkdown markdown (js "artifact.md");
  Ok markdown.

(** The JavaScript object of a metadata value. *)
Definition metadata_js (m : ArtifactMetadata) : jsval :=
  JObj [(js "id", JStr (md_id m)); (js "title", JStr (md_title m));
        (js "description", JStr (md_description m)); (js "type", JStr (type_name (md_type m)));
        (js "tags", JArr (map JStr (md_tags m))); (js "aliases", JArr (map JStr (md_aliases m)));
        (js "sourceId", from_option JStr JUndefined (md_sourceId m));
        (js "createdAt", from_option JStr JUndefined (md_createdAt m))].

Definition formatArtifactDiagnostic (file reason : str) : str := file ++ js ": " ++ reason.

(** [None] is [undefined]: the path is acceptable. *)
Definition validateArtifactPath (filePath : str) : option str :=
  let relative := normalize_path filePath in
  if negb (nonempty relative)
     || existsb (λ segment, negb (nonempty segment) || str_eqb segment (js ".")
                            || str_eqb segment (js "..")) (split_on slash relative)
  then Some (js "Markdown artifact paths must not contain empty or traversal segments.")
  else match split_on slash relative with
       | topLevel :: _ =>
           if bool_decide (topLevel ∈ ARTIFACT_DIRECTORIES) then None
           else Some (js "Markdown artifacts must be stored under one of: "
                      ++ join (js ", ") ARTIFACT_DIRECTORIES ++ js ".")
       | [] => None
       end.

Definition quote_mark : str := [34%N].

(** The loop over the artifacts with its map of seen identifiers. *)
Fixpoint unique_from (seen : gmap str str) (artifacts : list (str * str)) : outcome error unit :=
  match artifacts with
  | [] => Ok ()
  | (id, path) :: rest =>
      match seen !! id with
      | Some ((_ :: _) as previous) =>
          Throw (PlainError (js "Duplicate artifact id " ++ quote_mark ++ id ++ quote_mark
            ++ js " found in " ++ path ++ js "; already used by " ++ previous ++ js "."))
      | _ => unique_from (<[id := path]> seen) rest
      end
  end.
Definition id_path (a : ArtifactModel) : str * str := (md_id (am_meta a), am_path a).
Definition validateUniqueArtifactIds (artifacts : list ArtifactModel) : outcome error unit :=
  unique_from ∅ (map id_path artifacts).
End Contract.

(** ** Well-formed metadata *)

Definition clean (s : str) : Prop := trim s = s ∧ s ≠ [].

(** What every normalised metadata value satisfies. *)
Record metadata_wf `{L : Libs} (m : ArtifactMetadata) : Prop := {
  wf_id : clean (md_id m);
  wf_title : clean (md_title m);
  wf_description : (length (md_description m) ≤ 2000)%nat;
  wf_tags : NoDup (md_tags m) ∧ Forall clean (md_tags m);
  wf_aliases : NoDup (md_aliases m) ∧ Forall clean (md_aliases m);
  wf_source : ∀ s, md_sourceId m = Some s → clean s;
  wf_created : ∀ s, md_createdAt m = Some s → zod_datetime_offset s = true;
}.

(** Dates in front matter lie in the four-digit years. *)
Definition dates_ok (v : jsval) : Prop :=
  match v with
  | JObj o => match field (js "createdAt") o with JDate ms => iso_time ms | _ => True end
  | _ => True
  end.

(** A body that opens with a front-matter fence. *)
Definition fenced (body : str) : bool := starts_with (js "---") (trim body).

Ltac inv_bind :=
  repeat match goal with
         | H : mbind _ _ = Some _ |- _ => apply bind_Some in H as (? & ? & ?)
         | H : mbind _ _ = Ok _ |- _ => apply outcome_bind_ok in H as (? & ? & ?)
         end.

Lemma z_trimmed_clean v s : z_trimmed v = Some s → clean s.
Proof.
  unfold z_trimmed. intros H. inv_bind. destruct (nonempty _) eqn:E; [|done]. simplify_eq.
  split; [apply trim_idemp|by apply nonempty_true].
Qed.

Lemma z_trimmed_id s : clean s → z_trimmed (JStr s) = Some s.
Proof. intros [H1 H2]. cbn. rewrite H1. by destruct s. Qed.

Lemma z_optional_Some {A} (p : jsval → option A) v a :
  z_optional p v = Some (Some a) → p v = Some a.
Proof.
  intros H. assert (Some <$> p v = Some (Some a)) as E by (destruct v; done).
  by apply fmap_Some in E as (x & E & [= <-]).
Qed.

Lemma z_description_length n v s :
  z_default [] (z_string_max n) v = Some s → (length s ≤ n)%nat.
Proof.
  unfold z_string_max. destruct v; cbn; intros H; simplify_eq/=; try lia.
  destruct (Nat.leb_spec (length s0) n); by simplify_eq.
Qed.

Lemma normalizeList_wf l : NoDup (normalizeList l) ∧ Forall clean (normalizeList l).
Proof.
  split; [apply NoDup_dedup|]. apply Forall_forall. intros s. unfold normalizeList.
  rewrite elem_of_dedup, list_elem_of_In, filter_In, in_map_iff.
  intros [(x & <- & _) Hne]. split; [apply trim_idemp|by apply nonempty_true].
Qed.

Lemma normalizeList_id l : NoDup l → Forall clean l → normalizeList l = l.
Proof.
  intros Hnd Hc. unfold normalizeList.
  assert (map trim l = l) as ->.
  { clear Hnd. induction Hc as [|s l [H _] Hc IH]; cbn; [done|]. by rewrite H, IH. }
  assert (List.filter nonempty l = l) as ->.
  { clear Hnd. induction Hc as [|s l [_ H] Hc IH]; cbn; [done|]. rewrite IH. by destruct s. }
  by apply dedup_id.
Qed.

Lemma mapM_strings l : mapM z_string (map JStr l) = Some l.
Proof. induction l as [|s l IH]; cbn; [done|]. cbn in IH. by rewrite IH. Qed.

Section ContractFacts.
Context `{L : Libs} {LL : LibsLaws L}.

Lemma artifactTypeSchema_name t : artifactTypeSchema (JStr (type_name t)) = Some t.
Proof. by destruct t. Qed.

Lemma schema_inv v d :
  artifactFrontMatterSchema v = Ok d → dates_ok v → metadata_wf (normalize_data d).
Proof.
  unfold artifactFrontMatterSchema. intros H Hd. apply from_option_throw_ok in H.
  destruct v as [| | | | | |o|]; try done. inv_bind.
  destruct (is_undefined _); [|done]. simplify_eq/=.
  split; cbn; eauto using z_trimmed_clean, normalizeList_wf.
  - by eapply z_description_length.
  - intros s ->. by eapply z_trimmed_clean, z_optional_Some.
  - intros s Hs. cbn in Hd. apply fmap_Some in Hs as (c & -> & ->).
    match goal with H : z_optional z_created _ = _ |- _ => apply z_optional_Some in H; revert H end.
    generalize dependent (field (js "createdAt") o). intros f Hd Hf.
    destruct f; cbn in Hf; simplify_eq/=.
    + destruct (zod_datetime_offset s) eqn:E; by simplify_eq/=.
    + by apply datetime_offset_iso.
Qed.

(** The parsed form of a normalised value. *)
Definition as_parsed (m : ArtifactMetadata) : metadata created_at :=
  Metadata (md_id m) (md_title m) (md_description m) (md_type m) (md_tags m) (md_aliases m)
    (md_sourceId m) (CreatedText <$> md_createdAt m).

Lemma normalize_as_parsed m : metadata_wf m → normalize_data (as_parsed m) = m.
Proof.
  intros [_ _ _ [H1 H2] [H3 H4] _ _]. destruct m as [i t d ty tg al src cr]. unfold normalize_data, as_parsed.
  cbn in *. rewrite !normalizeList_id by done. by destruct cr.
Qed.

Lemma schema_fields o m :
  metadata_wf m →
  field (js "id") o = JStr (md_id m) → field (js "title") o = JStr (md_title m) →
  field (js "description") o = JStr (md_description m) →
  field (js "type") o = JStr (type_name (md_type m)) →
  field (js "tags") o = JArr (map JStr (md_tags m)) →
  field (js "aliases") o = JArr (map JStr (md_aliases m)) →
  field (js "sourceId") o = from_option JStr JUndefined (md_sourceId m) →
  field (js "createdAt") o = from_option JStr JUndefined (md_createdAt m) →
  field (js "status") o = JUndefined →
  artifactFrontMatterSchema (JObj o) = Ok (as_parsed m).
Proof.
  intros [Hi Ht Hd _ _ Hs Hc] E1 E2 E3 E4 E5 E6 E7 E8 E9. unfold artifactFrontMatterSchema.
  rewrite E1, E2, E3, E4, E5, E6, E7, E8, E9.
  rewrite !z_trimmed_id by done. cbn [mbind option_bind z_default].
  unfold z_string_max. cbn [z_string mbind option_bind]. rewrite (proj2 (Nat.leb_le _ _)) by done.
  rewrite artifactTypeSchema_name. cbn [mbind option_bind z_array]. rewrite !mapM_strings.
  cbn [mbind option_bind].
  assert (z_optional z_trimmed (from_option JStr JUndefined (md_sourceId m)) = Some (md_sourceId m)) as ->.
  { destruct (md_sourceId m) as [s|]; [|done]. cbn [from_option z_optional].
    rewrite z_trimmed_id; [done|]. by apply Hs. }
  assert (z_optional z_created (from_option JStr JUndefined (md_createdAt m))
          = Some (CreatedText <$> md_createdAt m)) as ->.
  { destruct (md_createdAt m) as [s|]; [|done]. cbn. by rewrite (Hc s eq_refl). }
  done.
Qed.

Lemma normalize_metadata_js m :
  metadata_wf m → normalizeArtifactMetadata (metadata_js m) = Ok m.
Proof.
  intros Hm. unfold normalizeArtifactMetadata, metadata_js.
  rewrite (schema_fields _ m Hm) by reflexivity. cbn. by rewrite normalize_as_parsed.
Qed.

Lemma front_matter_nodup m : NoDup (map fst (front_matter m)).
Proof.
  unfold front_matter. destruct (md_sourceId m) as [[|? ?]|], (md_createdAt m) as [[|? ?]|];
    eval_decide.
Qed.
(** Reading back what was serialised. *)
Lemma parse_serialized m body filePath :
  metadata_wf m → fenced body = false →
  filePath = js "artifact.md" ∨ classifyArtifactPath filePath ≠ None →
  parseArtifactMarkdown (matter_stringify (trim body ++ [10%N]) (front_matter m)) filePath
  = Ok (Artifact m (trim body) (toExcerpt (trim body ++ [10%N])) filePath).
Proof.
  intros Hm Hb Hp. unfold parseArtifactMarkdown.
  destruct (matter_roundtrip (trim body) (front_matter m)) as (text & Htext & ->);
    [done|apply front_matter_nodup|done|].
  cbn [gm_matter gm_data gm_content]. rewrite (proj2 (nonempty_true _)) by done.
  assert (negb (str_eqb filePath (js "artifact.md"))
    && match classifyArtifactPath filePath with None => true | Some _ => false end = false) as ->.
  { destruct Hp as [->|Hp]; [by rewrite str_eqb_refl|].
    destruct (classifyArtifactPath filePath); [apply andb_false_r|done]. }
  assert (Hs : ∀ s, md_sourceId m = Some s → nonempty s = true)
    by (intros s Hs; apply nonempty_true; by apply (wf_source m Hm)).
  assert (Hc : ∀ s, md_createdAt m = Some s → nonempty s = true).
  { intros s Hs'. apply nonempty_true. intros ->. apply (wf_created m Hm) in Hs'.
    by rewrite datetime_offset_nil in Hs'. }
  rewrite (schema_fields _ m Hm).
  2-10: unfold front_matter; destruct (md_sourceId m) as [s|] eqn:Es, (md_createdAt m) as [c|] eqn:Ec;
    try rewrite (Hs s eq_refl); try rewrite (Hc c eq_refl); reflexivity.
  rewrite normalize_as_parsed by done.
  by rewrite trim_app_ws by (by repeat constructor).
Qed.

Lemma normalized_wf v m : dates_ok v → normalizeArtifactMetadata v = Ok m → metadata_wf m.
Proof.
  intros Hd Hn. unfold normalizeArtifactMetadata in Hn. inv_bind. simplify_eq. by eapply schema_inv.
Qed.

Lemma serialize_ok v m body :
  dates_ok v → fenced body = false → normalizeArtifactMetadata v = Ok m →
  metadata_wf m ∧
  serializeArtifactMarkdown v body
  = Ok (matter_stringify (trim body ++ [10%N]) (front_matter m)).
Proof.
  intros Hd Hb Hn. assert (Hm : metadata_wf m) by (by eapply normalized_wf).
  split; [done|]. unfold serializeArtifactMarkdown. rewrite Hn. cbn [mbind outcome_bind].
  by rewrite parse_serialized by (done || by left).
Qed.

(** Normalisation is a projection onto well-formed metadata: whatever the
    front matter it accepts, the result has trimmed non-empty id and title, a
    description of at most 2000 units, tag and alias lists that are trimmed,
    non-empty and duplicate free, and normalising the result again changes
    nothing. *)
Theorem normalize_projects v m :
  normalizeArtifactMetadata v = Ok m → dates_ok v →
  metadata_wf m ∧ normalizeArtifactMetadata (metadata_js m) = Ok m.
Proof.
  intros Hn Hd. pose proof (normalized_wf v m Hd Hn) as Hm.
  split; [done|by apply normalize_metadata_js].
Qed.


Lemma unique_from_spec seen l :
  (∀ id p, seen !! id = Some p → p ≠ []) → Forall (λ x : str * str, x.2 ≠ []) l →
  (is_ok (unique_from seen l) = true ↔ NoDup (map fst l) ∧ ∀ x, x ∈ l → seen !! x.1 = None).
Proof.
  intros Hseen Hl. revert seen Hseen. induction Hl as [|[id p] l Hp Hl IH]; intros seen Hseen; cbn.
  { split; [|done]. intros _. split; [constructor|set_solver]. }
  destruct (seen !! id) as [q|] eqn:E.
  - pose proof (Hseen _ _ E) as Hq. destruct q; [done|]. split; [done|].
    intros [_ H]. specialize (H (id, p) ltac:(set_solver)). cbn in H. congruence.
  - rewrite IH.
    2: { intros i q. rewrite lookup_insert_Some. intros [[_ <-]|[_ H]]; [done|by eapply Hseen]. }
    rewrite NoDup_cons. split.
    + intros [Hnd H]. split; [split; [|done]|].
      * intros Hin. apply list_elem_of_fmap in Hin as (x & -> & Hx).
        specialize (H x Hx). by rewrite lookup_insert_eq in H.
      * intros x [->|Hx]%elem_of_cons; [done|]. specialize (H x Hx).
        by apply lookup_insert_None in H as [? _].
    + intros [[Hni Hnd] H]. split; [done|]. intros x Hx. apply lookup_insert_None. split.
      * apply H. set_solver.
      * intros ->. apply Hni. apply list_elem_of_fmap. by exists x.
Qed.

(** The uniqueness check accepts a catalogue exactly when no two of its artifacts share an
    identifier. *)
Lemma unique_ids_spec artifacts :
  Forall (λ a, am_path a ≠ []) artifacts →
  (validateUniqueArtifactIds artifacts = Ok () ↔ NoDup (map (λ a, md_id (am_meta a)) artifacts)).
Proof.
  intros Hp. unfold validateUniqueArtifactIds.
  pose proof (unique_from_spec ∅ (map id_path artifacts)) as H.
  rewrite map_map in H. cbn in H.
  assert (unique_from ∅ (map id_path artifacts) = Ok () ↔
          is_ok (unique_from ∅ (map id_path artifacts)) = true) as ->
    by (destruct (unique_from _ _) as [[]|]; naive_solver).
  rewrite H.
  - split; [by intros [? _]|]. intros Hnd. split; [done|]. intros x _. apply lookup_empty.
  - intros id p. by rewrite lookup_empty.
  - apply Forall_fmap. eapply Forall_impl; [exact Hp|]. done.
Qed.
End ContractFacts.

(** ** Witnesses *)

Module ContractExamples.
Import ToyLibs.

Definition raw : jsval :=
  JObj [(js "id", JStr (js "a-1")); (js "title", JStr (js " Hello ")); (js "type", JStr (js "prompt"));
        (js "tags", JArr [JStr (js "x"); JStr (js " x "); JStr []]);
        (js "createdAt", JDate 1700000000000); (js "extra", JNull)].
Definition meta : ArtifactMetadata :=
  Metadata (js "a-1") (js "Hello") [] Prompt [js "x"] [] None (Some (js "2023-11-14T22:13:20.000Z")).
Definition artifact : ArtifactModel :=
  Artifact meta (js "Body") (js "Body") (js "prompts/a-1.md").

Lemma normalize_projects_witness :
  metadata_wf meta ∧ normalizeArtifactMetadata (metadata_js meta) = Ok meta.
Proof.
  apply (normalize_projects raw meta).
  - vm_compute. reflexivity.
  - change (iso_time 1700000000000). unfold iso_time. lia.
Defined.

End ContractExamples.
