(* ===== verification/Pool.v ===== *)
(** * Bounded concurrent map

    Models [mapWithConcurrency] of [src/lib/artifact-repository.ts]: workers that
    share [nextIndex] and a result array, each awaiting one mapper call at a
    time. A step is one resumption of one worker by the event loop, so a run of
    [step] is one interleaving; the theorems hold for all of them. *)

From S2P Require Import Prelude.
From stdpp Require Import relations.

Section Pool.
Context {T U E : Type}.
Variable values : list T.
Variable concurrency : nat.
(** What the promise of [mapper(value, index)] settles to. *)
Variable mapper : T → nat → outcome E U.

Inductive worker :=
| WLoop                 (** at the loop test *)
| WAwait (i : nat)      (** awaiting [mapper(values[i], i)] *)
| WDone                 (** returned *)
| WFailed (i : nat).    (** the awaited call rejected *)

Record pool := Pool { nextIndex : nat; results : list (option U); workers : list worker }.

Definition init : pool :=
  Pool 0 (replicate (length values) None) (replicate (min concurrency (length values)) WLoop).

Inductive step : pool → pool → Prop :=
| step_take n rs ws k :
    ws !! k = Some WLoop → n < length values →
    step (Pool n rs ws) (Pool (S n) rs (<[k := WAwait n]> ws))
| step_exit n rs ws k :
    ws !! k = Some WLoop → length values ≤ n →
    step (Pool n rs ws) (Pool n rs (<[k := WDone]> ws))
| step_resolve n rs ws k i v u :
    ws !! k = Some (WAwait i) → values !! i = Some v → mapper v i = Ok u →
    step (Pool n rs ws) (Pool n (<[i := Some u]> rs) (<[k := WLoop]> ws))
| step_reject n rs ws k i v e :
    ws !! k = Some (WAwait i) → values !! i = Some v → mapper v i = Throw e →
    step (Pool n rs ws) (Pool n rs (<[k := WFailed i]> ws)).

(** [Promise.all] of the workers is fulfilled. *)
Definition fulfilled (s : pool) : Prop := Forall (λ w, w = WDone) (workers s).
Definition in_flight (s : pool) : nat :=
  length (List.filter (λ w, match w with WAwait _ => true | _ => false end) (workers s)).
Definition at_rest (w : worker) : bool := match w with WDone | WFailed _ => true | _ => false end.
Definition settled (s : pool) : Prop := Forall (λ w, at_rest w = true) (workers s).

(** *** Invariant *)

Definition stored (s : pool) (i : nat) : Prop :=
  ∃ v u, values !! i = Some v ∧ mapper v i = Ok u ∧ results s !! i = Some (Some u).

Record pool_inv (s : pool) : Prop := {
  inv_len : length (results s) = length values;
  inv_next : nextIndex s ≤ length values;
  inv_size : length (workers s) = min concurrency (length values);
  inv_await : ∀ k i, workers s !! k = Some (WAwait i) → i < nextIndex s;
  inv_once : ∀ k k' i, workers s !! k = Some (WAwait i) → workers s !! k' = Some (WAwait i) → k = k';
  inv_taken : ∀ i, i < nextIndex s →
    (∃ k, workers s !! k = Some (WAwait i)) ∨ (∃ k, workers s !! k = Some (WFailed i)) ∨ stored s i;
  inv_done : ∀ k, workers s !! k = Some WDone → nextIndex s = length values;
  inv_failed : ∀ k i, workers s !! k = Some (WFailed i) →
    ∃ v e, values !! i = Some v ∧ mapper v i = Throw e;
}.

Lemma init_inv : pool_inv init.
Proof.
  split; cbn.
  - apply length_replicate.
  - lia.
  - apply length_replicate.
  - intros k i [? _]%lookup_replicate. done.
  - intros k k' i [? _]%lookup_replicate. done.
  - lia.
  - intros k [? _]%lookup_replicate. done.
  - intros k i [? _]%lookup_replicate. done.
Qed.

Lemma insert_lookup_cases {A} (l : list A) k x k' y :
  <[k := x]> l !! k' = Some y → (k' = k ∧ y = x) ∨ (k' ≠ k ∧ l !! k' = Some y).
Proof. intros [(-> & -> & _)|[? ?]]%list_lookup_insert_Some; auto. Qed.

Ltac ws_cases :=
  repeat match goal with
         | H : <[_ := _]> _ !! _ = Some _ |- _ =>
             apply insert_lookup_cases in H as [[? ?]|[? ?]]; simplify_eq
         end.

(** A worker other than [k] keeps its state. *)
Lemma keep_worker (ws : list worker) k j w x y :
  ws !! k = Some x → ws !! j = Some w → w ≠ x → <[k := y]> ws !! j = Some w.
Proof. intros Hk Hj Hw. rewrite list_lookup_insert_ne; [done|]. intros ->. congruence. Qed.

Lemma set_worker (ws : list worker) k x y : ws !! k = Some x → <[k := y]> ws !! k = Some y.
Proof. intros Hk. apply list_lookup_insert_eq. by eapply lookup_lt_Some. Qed.

#[local] Hint Resolve keep_worker set_worker : core.

Lemma step_inv s s' : pool_inv s → step s s' → pool_inv s'.
Proof.
  intros [Hlen Hnext Hsize Haw Honce Htaken Hdone Hfail] Hstep.
  destruct Hstep as [n rs ws k Hk Hn|n rs ws k Hk Hn|n rs ws k i v u Hk Hv Hu|n rs ws k i v e Hk Hv He];
    cbn in *; split; cbn; rewrite ?length_insert; auto; try lia.
  - intros j i H. ws_cases; [lia|].
    match goal with H : ws !! _ = Some (WAwait _) |- _ => apply Haw in H; lia end.
  - intros j j' i H1 H2. ws_cases; eauto;
      exfalso; match goal with H : ws !! _ = Some (WAwait _) |- _ => apply Haw in H; lia end.
  - intros i Hi. destruct (decide (i = n)) as [->|Hne]; [left; eauto|].
    destruct (Htaken i ltac:(lia)) as [[j Hj]|[[j Hj]|Hs]]; [left|right; left|right; right].
    + exists j. by eapply keep_worker.
    + exists j. by eapply keep_worker.
    + done.
  - intros j H. ws_cases.
    match goal with H : ws !! _ = Some WDone |- _ => apply Hdone in H; lia end.
  - intros j i H. ws_cases. eauto.
  - intros j i H. ws_cases. eauto.
  - intros j j' i H1 H2. ws_cases. eauto.
  - intros i Hi. destruct (Htaken i Hi) as [[j Hj]|[[j Hj]|Hs]]; [left|right; left|right; right].
    + exists j. by eapply keep_worker.
    + exists j. by eapply keep_worker.
    + done.
  - intros j i H. ws_cases. eauto.
  - intros j i' H. ws_cases. eauto.
  - intros j j' i' H1 H2. ws_cases. eauto.
  - intros i' Hi. destruct (decide (i' = i)) as [->|Hne].
    { right; right. exists v, u. split; [done|]. split; [done|]. cbn.
      apply list_lookup_insert_eq. rewrite Hlen. lia. }
    destruct (Htaken i' Hi) as [[j Hj]|[[j Hj]|(v' & u' & ? & ? & ?)]]; [left|right; left|right; right].
    + exists j. eapply keep_worker; [done..|congruence].
    + exists j. by eapply keep_worker.
    + exists v', u'. split; [done|]. split; [done|]. cbn. by rewrite list_lookup_insert_ne.
  - intros j H. ws_cases. eauto.
  - intros j i' H. ws_cases. eauto.
  - intros j i' H. ws_cases. eauto.
  - intros j j' i' H1 H2. ws_cases. eauto.
  - intros i' Hi. destruct (decide (i' = i)) as [->|Hne]; [right; left; eauto|].
    destruct (Htaken i' Hi) as [[j Hj]|[[j Hj]|Hs]]; [left|right; left|right; right].
    + exists j. eapply keep_worker; [done..|congruence].
    + exists j. by eapply keep_worker.
    + done.
  - intros j H. ws_cases. eauto.
  - intros j i' H. ws_cases; eauto.
Qed.

Lemma reachable_inv s : rtc step init s → pool_inv s.
Proof.
  intros H. assert (Hi := init_inv). revert Hi.
  induction H as [|x y z Hxy _ IH]; [done|]. intros Hx. apply IH. by eapply step_inv.
Qed.

(** *** Termination measure *)

Definition weight (w : worker) : nat := match w with WLoop => 1 | WAwait _ => 2 | _ => 0 end.
Definition measure (s : pool) : nat :=
  3 * (length values - nextIndex s) + sum_list (weight <$> workers s).

Lemma sum_insert (ws : list worker) k x y :
  ws !! k = Some x →
  sum_list (weight <$> <[k := y]> ws) + weight x = sum_list (weight <$> ws) + weight y.
Proof.
  revert k. induction ws as [|w ws IH]; intros [|k] H; simplify_eq/=; [lia|].
  specialize (IH k H). lia.
Qed.

Lemma step_measure s s' : step s s' → measure s' < measure s.
Proof.
  unfold measure. intros [n rs ws k Hk Hn|n rs ws k Hk Hn|n rs ws k i v u Hk Hv Hu|n rs ws k i v e Hk Hv He];
    cbn; match goal with |- context [<[k := ?y]> ws] =>
      pose proof (sum_insert ws k _ y Hk) as Hs; cbn in Hs end; lia.
Qed.

Lemma nsteps_measure n s s' : nsteps step n s s' → n + measure s' ≤ measure s.
Proof. induction 1 as [|n x y z Hxy _ IH]; [lia|]. apply step_measure in Hxy. lia. Qed.

Lemma init_measure : measure init ≤ 4 * length values.
Proof.
  unfold measure, init. cbn. generalize (min concurrency (length values)) (Nat.le_min_r concurrency (length values)).
  intros m Hm. assert (sum_list (weight <$> replicate m WLoop) = m) as ->; [|lia].
  clear. induction m; cbn; [done|]. by rewrite IHm.
Qed.

Lemma progress s : pool_inv s → settled s ∨ ∃ s', step s s'.
Proof.
  intros Hinv. destruct (decide (Forall (λ w, at_rest w = true) (workers s)))
    as [H|H]; [by left|right].
  apply not_Forall_Exists, Exists_exists in H as (w & Hw & Hn); [|apply _].
  apply list_elem_of_lookup in Hw as [k Hk]. destruct s as [n rs ws]. cbn in *.
  destruct w as [|i| |i]; try done.
  - destruct (decide (n < length values)); [eexists; by eapply step_take|].
    eexists. eapply step_exit; [done|lia].
  - assert (i < length values) as Hi
      by (pose proof (inv_await _ Hinv k i Hk); pose proof (inv_next _ Hinv); cbn in *; lia).
    apply lookup_lt_is_Some in Hi as [v Hv]. destruct (mapper v i) as [u|e] eqn:Em.
    + eexists. by eapply step_resolve.
    + eexists. by eapply step_reject.
Qed.

(** *** Properties *)


(** The worker pool always terminates and never deadlocks: no schedule is
    longer than four steps per input value, a state in which no step is possible
    is one where every worker returned or failed, and a failure there is a real
    rejection of the mapper. *)
Theorem mapWithConcurrency_terminates n s :
  nsteps step n init s →
  (n ≤ 4 * length values)%nat ∧
  ((∀ s', ¬ step s s') → settled s) ∧
  (∀ k i, workers s !! k = Some (WFailed i) → ∃ v e, values !! i = Some v ∧ mapper v i = Throw e).
Proof.
  intros H. pose proof (nsteps_measure _ _ _ H). pose proof init_measure.
  assert (Hinv : pool_inv s) by (apply reachable_inv, rtc_nsteps; eauto).
  split; [lia|]. split.
  - intros Hstuck. destruct (progress s Hinv) as [|[s' Hs]]; [done|]. by destruct (Hstuck s').
  - apply (inv_failed _ Hinv).
Qed.
End Pool.

(** ** Witnesses *)

Module PoolExamples.
Definition mapper (v i : nat) : outcome unit nat := Ok (v + i).
Definition s0 : @pool nat := init (U := nat) [10; 20] 1.
Definition s1 : @pool nat := Pool 1 [None; None] [WAwait 0].
Definition s2 : @pool nat := Pool 1 [Some 10; None] [WLoop].

Lemma run2 : nsteps (step (E := unit) [10; 20] mapper) 2 s0 s2.
Proof.
  eapply (nsteps_l _ _ _ s1); [apply (step_take _ _ 0 _ [WLoop] 0); [reflexivity|cbn; lia]|].
  eapply (nsteps_l _ _ _ s2); [|constructor].
  apply (step_resolve _ _ 1 [None; None] [WAwait 0] 0 0 10 10); reflexivity.
Qed.


Lemma mapWithConcurrency_terminates_witness :
  (2 ≤ 4 * 2)%nat ∧ ((∀ s', ¬ step [10; 20] mapper s2 s') → settled s2) ∧
  (∀ k i, workers s2 !! k = Some (WFailed i) → ∃ v e, [10; 20] !! i = Some v ∧ mapper v i = Throw e).
Proof. apply (mapWithConcurrency_terminates [10; 20] 1 mapper). exact run2. Defined.
End PoolExamples.
