(* ===== verification/GithubClient.v ===== *)
(** * GitHub client of the artifact repository

    Models the request layer of [GitHubArtifactRepository] in
    [src/lib/artifact-repository.ts]: credentials, retries, tree and blob reads.
    [fetch], the credential provider and the clock are parameters acting on an
    abstract world [W]; the state adds the client's credential cache and a trace
    of its observable effects (requests, sleeps, log lines).

    A JSON answer used at a declared type is read at that type: a property of
    another JSON type reads as absent. *)

From S2P Require Import Prelude JsString JsDate Json JsNumber Encoding Layout Libs Contract.

(** ** Requests and answers *)

Inductive http_method := GET | PUT | DELETE | POST.
#[export] Instance http_method_eq_dec : EqDecision http_method.
Proof. solve_decision. Defined.

Record request := Request {
  rq_method : http_method;
  rq_url : str;
  rq_headers : list (str * str);
  rq_body : option jsval;
}.

(** How [response.json()] settles. *)
Inductive body_json := BodyJson (v : jsval) | BodyTypeError | BodySyntaxError.

Record response := Response {
  rs_status : Z;
  rs_retry_after : option str;
  rs_json : body_json;
}.
Definition rs_ok (r : response) : bool := ((200 <=? rs_status r) && (rs_status r <=? 299))%Z.

Inductive fetch_result := FetchRejected | Fetched (r : response).

(** [RepositoryCredentialCapability] *)
Inductive capability := CapRead | CapWrite | CapPullRequests.
#[export] Instance capability_eq_dec : EqDecision capability.
Proof. solve_decision. Defined.

Record credential_value := Credential { cr_token : str; cr_contents : option str }.

Inductive operation := OpTree | OpBlob.
Inductive not_found := NfBranch | NfContent | NfRepository.
#[export] Instance operation_eq_dec : EqDecision operation.
Proof. solve_decision. Defined.
#[export] Instance not_found_eq_dec : EqDecision not_found.
Proof. solve_decision. Defined.

Inductive event :=
| EvFetch (r : request)
| EvSleep (ms : num)
| EvRetry (op : operation) (path : option str) (status : option Z) (attempt : Z)
| EvFailure (op : operation) (path : option str) (status : option Z) (attempts : Z)
| EvInfo (name : str).

(** [GitHubTreeEntry] *)
Record tree_entry := TreeEntry {
  te_path : option str;
  te_type : option str;
  te_sha : option str;
  te_size : option num;
}.

Definition get_str (k : string) (v : jsval) : option str :=
  match v with JObj o => z_string (field (js k) o) | _ => None end.
Definition get_num (k : string) (v : jsval) : option num :=
  match v with JObj o => match field (js k) o with JNum n => Some n | _ => None end | _ => None end.
Definition decode_entry (v : jsval) : tree_entry :=
  TreeEntry (get_str "path" v) (get_str "type" v) (get_str "sha" v) (get_num "size" v).

(** Property access: a TypeError on [null] and [undefined]. *)
Definition get_prop (k : string) (v : jsval) : outcome error jsval :=
  match v with
  | JObj o => Ok (field (js k) o)
  | JNull | JUndefined => Throw (PlainError (js "TypeError"))
  | _ => Ok JUndefined
  end.
Definition truthy (v : jsval) : bool :=
  match v with
  | JUndefined | JNull => false
  | JBool b => b
  | JNum (NInt z) => negb (z =? 0)%Z
  | JNum NNaN => false
  | JStr s => nonempty s
  | _ => true
  end.

(** [/^[a-f0-9]{7,64}$/i] *)
Definition is_sha (s : str) : bool :=
  forallb is_hex s && (7 <=? length s)%nat && (length s <=? 64)%nat.

Definition githubApiBaseUrl : str := js "https://api.github.com".
Definition githubMaxAttempts : Z := 3.
Definition githubMaximumRetryDelayMs : Z := 5000.

(** The shape of a repository configuration. *)
Record gh_config := GhConfig { cf_owner : str; cf_repo : str; cf_branch : str; cf_root : str }.

Record gh_state (W : Type) := GhState {
  gh_world : W;
  gh_credentials : list (capability * outcome error str);
  gh_trace : list event;
}.
Arguments GhState {W}. Arguments gh_world {W}. Arguments gh_credentials {W}. Arguments gh_trace {W}.

(** What the client calls outside the repository. *)
Class GithubEnv (W : Type) := {
  fetchImpl : request → W → W * fetch_result;
  credentialProvider : capability → W → W * outcome error credential_value;
  date_now : W → Z;
  randomBytes : nat → W → W * list N;
}.

Section Client.
Context `{L : Libs} {W : Type} `{G : !GithubEnv W}.
Variable config : gh_config.

Abbreviation M := (eff (gh_state W) error).

Definition emit (e : event) : M unit :=
  modify_world (λ s, GhState (gh_world s) (gh_credentials s) (gh_trace s ++ [e])).

Definition do_fetch (r : request) : M fetch_result := λ s,
  let '(w, res) := fetchImpl r (gh_world s) in
  (GhState w (gh_credentials s) (gh_trace s ++ [EvFetch r]), Ok res).

Definition do_sleep (ms : num) : M unit := emit (EvSleep ms).

Definition encode (s : str) : M str := lift (from_option_throw URIError (encodeURIComponent s)).

Definition githubUrl (pathname : str) : M str :=
  owner ← encode (cf_owner config);
  repo ← encode (cf_repo config);
  mret (githubApiBaseUrl ++ js "/repos/" ++ owner ++ js "/" ++ repo ++ pathname).

Fixpoint lookup_credential (c : capability) (l : list (capability * outcome error str))
    : option (outcome error str) :=
  match l with
  | [] => None
  | (c', o) :: l => if decide (c = c') then Some o else lookup_credential c l
  end.

(** The [.then] continuation of the provider's promise. *)
Definition credential_token (c : capability) (v : credential_value) : outcome error str :=
  let contents (p : str) := bool_decide (cr_contents v = Some p) in
  let allowed := match c with
                 | CapRead => contents (js "read") || contents (js "write")
                 | _ => contents (js "write")
                 end in
  if allowed then Ok (cr_token v)
  else Throw match c with
             | CapWrite => ArtifactWritePermissionError
             | _ => ArtifactRepositoryAccessError
             end.

Definition credential (c : capability) : M str := λ s,
  match lookup_credential c (gh_credentials s) with
  | Some o => (s, o)
  | None =>
      let '(w, r) := credentialProvider c (gh_world s) in
      let o := r ≫= credential_token c in
      (GhState w ((c, o) :: gh_credentials s) (gh_trace s), o)
  end.

(** [(error as { status?: number }).status] *)
Definition error_status (e : error) : option Z :=
  match e with
  | ArtifactRepositoryUnavailableError s => s
  | CredentialError s => s
  | _ => None
  end.
Definition status_in (o : option Z) (l : list Z) : bool :=
  match o with Some z => bool_decide (z ∈ l) | None => false end.
Definition status_ge_500 (o : option Z) : bool :=
  match o with Some z => (500 <=? z)%Z | None => false end.

Definition writeCredential : M str :=
  try_catch (credential CapWrite) (λ e,
    let status := error_status e in
    throw (if decide (e = ArtifactWritePermissionError) then e
           else if status_in status [401; 403; 404]%Z then ArtifactWriteAuthenticationError
           else if status_in status [429]%Z || bool_decide (status = None) || status_ge_500 status
           then ArtifactRepositoryUnavailableError status
           else ArtifactRepositoryConfigurationError)).

Definition retryDelay (now : Z) (r : option response) (attempt : Z) : num :=
  let backoff := NInt (Z.min githubMaximumRetryDelayMs (100 * 2 ^ (attempt - 1))) in
  match r ≫= rs_retry_after with
  | Some ((_ :: _) as retryAfter) =>
      let seconds := js_number retryAfter in
      let milliseconds :=
        if is_finite seconds then num_mul_1000 seconds
        else match date_parse retryAfter with Some t => NInt (t - now) | None => NNaN end in
      if is_finite milliseconds then num_clamp 0 githubMaximumRetryDelayMs milliseconds else backoff
  | _ => backoff
  end.

Definition read_headers (token : str) : list (str * str) :=
  [(js "accept", js "application/vnd.github+json"); (js "authorization", js "Bearer " ++ token);
   (js "user-agent", js "artifact-dev-toolkit"); (js "x-github-api-version", js "2022-11-28")].

Definition read_credential (c : capability) : M str :=
  try_catch (credential c) (λ e,
    let status := error_status e in
    throw (if decide (e = ArtifactWritePermissionError) then e
           else if decide (e = ArtifactRepositoryAccessError) then e
           else if status_in status [429]%Z || status_ge_500 status || bool_decide (status = None)
           then ArtifactRepositoryUnavailableError status
           else if status_in status [401; 403; 404]%Z then ArtifactRepositoryAccessError
           else ArtifactRepositoryConfigurationError)).

(** What a non-retryable answer becomes. *)
Definition answer_error (url : str) (op : operation) (path : option str) (nf : not_found) (status : Z)
    : error :=
  (if (status =? 401) || (status =? 403) then ArtifactRepositoryAccessError
   else if (status =? 404) && includes (js "/git/ref/heads/") url then ArtifactBranchNotFoundError
   else if (status =? 404) && bool_decide (op = OpBlob)
           && match path with Some p => nonempty p | None => false end
   then ArtifactBlobDiagnosticError Blob_unavailable
   else if (status =? 404) && bool_decide (nf = NfBranch) then ArtifactBranchNotFoundError
   else if (status =? 404) && bool_decide (nf = NfRepository) then ArtifactRepositoryNotFoundError
   else ArtifactRepositoryContentError)%Z.

Definition now_ms : M Z := λ s, (s, Ok (date_now (gh_world s))).

Definition retryable (status : Z) : bool :=
  ((status =? 429) || ((500 <=? status) && (status <=? 599)))%Z.

Section Request.
Variables (url : str) (op : operation) (path : option str) (nf : not_found) (token : str).

(** One more attempt, or give up, after a temporary failure. *)
Definition retry_or_fail {A} (again : M A) (r : option response) (attempt : Z) : M A :=
  t ← now_ms;
  let delay := retryDelay t r attempt in
  let status := rs_status <$> r in
  if (attempt <? githubMaxAttempts)%Z then
    emit (EvRetry op path status (attempt + 1)) ;; do_sleep delay ;; again
  else
    emit (EvFailure op path status attempt) ;;
    throw (ArtifactRepositoryUnavailableError status).

(** The [for] loop over attempts; [fuel] attempts are left. *)
Fixpoint request_loop (fuel : nat) (attempt : Z) : M jsval :=
  match fuel with
  | O => throw (ArtifactRepositoryUnavailableError None)
  | S fuel =>
      res ← do_fetch (Request GET url (read_headers token) None);
      match res with
      | FetchRejected => retry_or_fail (request_loop fuel (attempt + 1)) None attempt
      | Fetched r =>
          if rs_ok r then
            match rs_json r with
            | BodyJson v => mret v
            | BodyTypeError => retry_or_fail (request_loop fuel (attempt + 1)) None attempt
            | BodySyntaxError => throw ArtifactRepositoryContentError
            end
          else if retryable (rs_status r)
          then retry_or_fail (request_loop fuel (attempt + 1)) (Some r) attempt
          else throw (answer_error url op path nf (rs_status r))
      end
  end.
End Request.

Definition githubJson (url : str) (op : operation) (path : option str) (c : capability)
    (nf : not_found) : M jsval :=
  token ← read_credential c;
  request_loop url op path nf token (Z.to_nat githubMaxAttempts) 1.

Definition fetchTree (c : capability) (revision : str) : M (list tree_entry) :=
  rev ← encode revision;
  url ← githubUrl (js "/git/trees/" ++ rev ++ js "?recursive=1");
  tree ← githubJson url OpTree None c
           (if decide (revision = cf_branch config) then NfBranch else NfContent);
  entries ← lift (get_prop "tree" tree);
  truncated ← lift (get_prop "truncated" tree);
  match entries with
  | JArr l => if truthy truncated
              then throw (PlainError (js "GitHub artifact repository tree response was truncated; reduce repository size or artifact root scope."))
              else mret (map decode_entry l)
  | _ => throw (PlainError (js "GitHub artifact repository tree response was malformed."))
  end.

Definition fetchBlob (sha filePath : str) (c : capability) : M str :=
  enc ← encode sha;
  url ← githubUrl (js "/git/blobs/" ++ enc);
  blob ← githubJson url OpBlob (Some filePath) c NfContent;
  size ← lift (get_prop "size" blob);
  if match size with JNum n => num_gt_Z n MAX_SERIALIZED_ARTIFACT_BYTES | _ => false end
  then throw (ArtifactBlobDiagnosticError Blob_too_large)
  else
    match get_str "encoding" blob, get_str "content" blob with
    | Some encoding, Some content =>
        if str_eqb encoding (js "base64") then
          let decoded := base64_decode (replace_runs is_ws [] content) in
          if (MAX_SERIALIZED_ARTIFACT_BYTES <? Z.of_nat (length decoded))%Z
          then throw (ArtifactBlobDiagnosticError Blob_too_large)
          else mret (utf8_decode decoded)
        else throw (ArtifactBlobDiagnosticError Unsupported_encoding)
    | _, _ => throw (ArtifactBlobDiagnosticError Unsupported_encoding)
    end.

Definition resolveBranch (c : capability) : M str :=
  b ← encode (cf_branch config);
  url ← githubUrl (js "/git/ref/heads/" ++ b);
  ref ← githubJson url OpTree None c NfContent;
  object ← lift (get_prop "object" ref);
  match get_str "sha" object with
  | Some sha => if is_sha sha then mret sha else throw ArtifactRepositoryContentError
  | None => throw ArtifactRepositoryContentError
  end.
Definition getBaseRevision : M str := resolveBranch CapRead.
End Client.

(** ** Observable effects *)

Definition fetches (l : list event) : list request :=
  omap (λ e, match e with EvFetch r => Some r | _ => None end) l.

Lemma fetches_app l k : fetches (l ++ k) = fetches l ++ fetches k.
Proof. apply omap_app. Qed.

(** Events that cannot change the repository. *)
Definition reads_only (e : event) : Prop :=
  match e with EvFetch r => rq_method r = GET | _ => True end.

Definition delay_ok (e : event) : Prop :=
  match e with
  | EvSleep d => num_le_Z d githubMaximumRetryDelayMs = true ∧ num_gt_Z d (-1) = true
  | _ => True
  end.

(** [s'] extends the trace of [s] with events satisfying [P]. *)
Definition appends {W} (P : event → Prop) (s s' : gh_state W) : Prop :=
  ∃ evs, gh_trace s' = gh_trace s ++ evs ∧ Forall P evs.

#[export] Instance appends_preorder {W} P : PreOrder (@appends W P).
Proof.
  split.
  - intros s. exists []. by rewrite app_nil_r.
  - intros x y z (e1 & H1 & F1) (e2 & H2 & F2). exists (e1 ++ e2).
    rewrite H2, H1, <- app_assoc. split; [done|]. by apply Forall_app.
Qed.

Section ClientFacts.
Context `{L : Libs} {W : Type} `{G : !GithubEnv W}.
Variable config : gh_config.
Implicit Types s : gh_state W.

Lemma keeps_emit (P : event → Prop) e : P e → keeps (appends P) (emit (W := W) e).
Proof. intros He s. exists [e]. split; [done|by constructor]. Qed.

Lemma keeps_fetch (P : event → Prop) r : P (EvFetch r) → keeps (appends P) (do_fetch r).
Proof.
  intros He s. unfold do_fetch. destruct (fetchImpl r (gh_world s)). exists [EvFetch r].
  split; [done|by constructor].
Qed.

Lemma keeps_credential P c : keeps (appends P) (credential (W := W) c).
Proof.
  intros s. unfold credential. destruct (lookup_credential _ _); [reflexivity|].
  destruct (credentialProvider c (gh_world s)). exists []. by rewrite app_nil_r.
Qed.

Lemma keeps_now P : keeps (appends P) (now_ms (W := W)).
Proof. intros s. reflexivity. Qed.

Lemma keeps_encode P x : keeps (appends P) (encode (W := W) x).
Proof. apply (keeps_lift _). Qed.
End ClientFacts.

#[export] Hint Resolve keeps_emit keeps_fetch keeps_credential keeps_now keeps_encode : adt_keeps.

Section ClientReads.
Context `{L : Libs} {W : Type} `{G : !GithubEnv W}.
Variable config : gh_config.

Lemma keeps_retry {A} (P : event → Prop) op path (again : eff (gh_state W) error A) r attempt :
  (∀ e, reads_only e → P e) → keeps (appends P) again →
  keeps (appends P) (retry_or_fail op path again r attempt).
Proof.
  intros HP Ha. unfold retry_or_fail, do_sleep. repeat keeps_step; auto with adt_keeps;
    apply keeps_emit; by apply HP.
Qed.

Lemma keeps_request_loop url op path nf token fuel attempt :
  keeps (appends reads_only) (request_loop (W := W) url op path nf token fuel attempt).
Proof.
  revert attempt. induction fuel as [|fuel IH]; intros attempt; cbn [request_loop].
  - apply (keeps_throw _).
  - repeat keeps_step; try (apply keeps_retry; auto). by apply keeps_fetch.
Qed.

Lemma keeps_githubJson url op path c nf :
  keeps (appends reads_only) (githubJson (W := W) url op path c nf).
Proof.
  unfold githubJson, read_credential. keeps_tac.
  apply keeps_request_loop.
Qed.

Lemma keeps_githubUrl P pathname : keeps (appends P) (githubUrl (W := W) config pathname).
Proof. unfold githubUrl. keeps_tac. Qed.

#[local] Hint Resolve keeps_githubJson keeps_githubUrl : adt_keeps.

Lemma keeps_fetchTree c rev : keeps (appends reads_only) (fetchTree (W := W) config c rev).
Proof. unfold fetchTree. keeps_tac. Qed.

Lemma keeps_fetchBlob sha p c : keeps (appends reads_only) (fetchBlob (W := W) config sha p c).
Proof. unfold fetchBlob. keeps_tac. Qed.

Lemma keeps_resolveBranch c : keeps (appends reads_only) (resolveBranch (W := W) config c).
Proof. unfold resolveBranch. keeps_tac. Qed.
End ClientReads.

#[export] Hint Resolve keeps_githubJson keeps_githubUrl keeps_fetchTree keeps_fetchBlob
  keeps_resolveBranch : adt_keeps.

(** ** The retry policy *)

Section Retry.
Context `{L : Libs} {W : Type} `{G : !GithubEnv W}.
Variables (url : str) (op : operation) (path : option str) (nf : not_found) (token : str).

Definition get_request : request := Request GET url (read_headers token) None.

(** Whether an answer is worth another attempt, or what it means. *)
Inductive verdict := Temporary (status : option Z) | Final (o : outcome error jsval).
Definition judge (res : fetch_result) : verdict :=
  match res with
  | FetchRejected => Temporary None
  | Fetched r =>
      if rs_ok r then
        match rs_json r with
        | BodyJson v => Final (Ok v)
        | BodyTypeError => Temporary None
        | BodySyntaxError => Final (Throw ArtifactRepositoryContentError)
        end
      else if retryable (rs_status r) then Temporary (Some (rs_status r))
      else Final (Throw (answer_error url op path nf (rs_status r)))
  end.

(** Abstract policy: up to [n] further attempts after a temporary failure. *)
Fixpoint policy (n : nat) (w : W) : W * outcome error jsval :=
  let '(w, res) := fetchImpl get_request w in
  match judge res with
  | Final o => (w, o)
  | Temporary status =>
      match n with
      | O => (w, Throw (ArtifactRepositoryUnavailableError status))
      | S n => policy n w
      end
  end.

Lemma policy_unfold n w :
  policy n w =
  let '(w, res) := fetchImpl get_request w in
  match judge res with
  | Final o => (w, o)
  | Temporary status =>
      match n with
      | O => (w, Throw (ArtifactRepositoryUnavailableError status))
      | S n => policy n w
      end
  end.
Proof. by destruct n. Qed.

Lemma retryDelay_ok now r attempt :
  (1 <= attempt)%Z → delay_ok (EvSleep (retryDelay now r attempt)).
Proof.
  intros Ha. unfold retryDelay, delay_ok.
  assert (Hb : num_le_Z (NInt (Z.min githubMaximumRetryDelayMs (100 * 2 ^ (attempt - 1))))
                 githubMaximumRetryDelayMs = true
               ∧ num_gt_Z (NInt (Z.min githubMaximumRetryDelayMs (100 * 2 ^ (attempt - 1)))) (-1) = true).
  { assert (0 < 2 ^ (attempt - 1))%Z by (apply Z.pow_pos_nonneg; lia).
    unfold num_le_Z, num_gt_Z, githubMaximumRetryDelayMs. split; lia. }
  destruct (r ≫= rs_retry_after) as [[|c t]|]; [done| |done].
  match goal with |- context [is_finite ?m] => destruct (is_finite m) eqn:E; [|done] end.
  apply (num_clamp_bounds 0); [done|]. intros Hn. by rewrite Hn in E.
Qed.

(** What a run of the loop appends to the trace. *)
Definition run_ok (fuel : nat) (s s' : gh_state W) : Prop :=
  gh_credentials s' = gh_credentials s ∧
  ∃ evs n, gh_trace s' = gh_trace s ++ evs ∧ (1 ≤ n ≤ fuel)%nat ∧
    fetches evs = replicate n get_request ∧ Forall delay_ok evs.

Lemma run_ok_one fuel s s' ev :
  gh_credentials s' = gh_credentials s → fetches ev = [] → Forall delay_ok ev →
  gh_trace s' = gh_trace s ++ EvFetch get_request :: ev → run_ok (S fuel) s s'.
Proof.
  intros H1 H2 H3 H4. split; [done|]. exists (EvFetch get_request :: ev), 1%nat.
  split; [done|]. split; [lia|]. split; [|by constructor]. cbn. unfold fetches in H2. by rewrite H2.
Qed.

Lemma run_ok_more fuel s s1 s' e d :
  gh_credentials s1 = gh_credentials s → fetches [e] = [] → delay_ok e → delay_ok (EvSleep d) →
  gh_trace s1 = ((gh_trace s ++ [EvFetch get_request]) ++ [e]) ++ [EvSleep d] →
  run_ok fuel s1 s' → run_ok (S fuel) s s'.
Proof.
  intros H1 H2 H3 Hd H4 (H5 & evs & n & H6 & H7 & H8 & H9). split; [congruence|].
  exists (EvFetch get_request :: e :: EvSleep d :: evs), (S n).
  rewrite H6, H4, <- !app_assoc. split; [done|]. split; [lia|].
  split; [|repeat apply Forall_cons_2; done].
  change (EvFetch get_request :: e :: EvSleep d :: evs)
    with ([EvFetch get_request] ++ [e] ++ [EvSleep d] ++ evs).
  rewrite !fetches_app, H2, H8. done.
Qed.

Lemma request_loop_policy fuel attempt s :
  (1 <= attempt)%Z → (attempt + Z.of_nat fuel = githubMaxAttempts)%Z →
  let '(s', r) := request_loop url op path nf token (S fuel) attempt s in
  (gh_world s', r) = policy fuel (gh_world s) ∧ run_ok (S fuel) s s'.
Proof.
  revert attempt s. induction fuel as [|fuel IH]; intros attempt s Ha Hf.
  - assert (attempt = 3%Z) as -> by (unfold githubMaxAttempts in Hf; lia).
    cbn [policy request_loop]. unfold mbind, eff_bind, do_fetch, get_request.
    destruct (fetchImpl _ _) as [w res]. unfold judge.
    destruct res as [|r]; [|destruct (rs_ok r); [destruct (rs_json r)|destruct (retryable (rs_status r))]];
      (split; [done|]);
      first [ apply (run_ok_one 0 _ _ []); [done|done|by constructor|reflexivity]
            | eapply (run_ok_one 0 _ _ [EvFailure op path _ _]);
              [done|done|by repeat constructor|cbn; by rewrite <- app_assoc] ].
  - assert (Hlt : (attempt <? githubMaxAttempts)%Z = true) by (apply Z.ltb_lt; lia).
    assert (Hagain : ∀ w r st,
      let s1 := GhState w (gh_credentials s)
        (((gh_trace s ++ [EvFetch get_request]) ++ [EvRetry op path st (attempt + 1)])
         ++ [EvSleep (retryDelay (date_now w) r attempt)]) in
      let '(s', x) := request_loop url op path nf token (S fuel) (attempt + 1) s1 in
      (gh_world s', x) = policy fuel w ∧ run_ok (S (S fuel)) s s').
    { intros w r st s1. specialize (IH (attempt + 1)%Z s1 ltac:(lia) ltac:(lia)).
      destruct (request_loop url op path nf token (S fuel) (attempt + 1) s1) as [s' x].
      destruct IH as [IH1 IH2]. split; [done|].
      eapply run_ok_more; [..|exact IH2]; cbn [gh_credentials gh_trace s1]; try reflexivity; try done.
      by apply retryDelay_ok. }
    rewrite policy_unfold. remember (S fuel) as f eqn:Ef.
    cbn [request_loop]. unfold mbind, eff_bind at 1. unfold do_fetch at 1.
    fold get_request. destruct (fetchImpl get_request (gh_world s)) as [w res].
    unfold judge. subst f.
    destruct res as [|r].
    { unfold retry_or_fail, mbind, eff_bind, now_ms. rewrite Hlt. apply (Hagain w None None). }
    destruct (rs_ok r); [destruct (rs_json r)|destruct (retryable (rs_status r))].
    + split; [done|]. eapply (run_ok_one _ _ _ []); done.
    + unfold retry_or_fail, mbind, eff_bind, now_ms. rewrite Hlt. apply (Hagain w None None).
    + split; [done|]. eapply (run_ok_one _ _ _ []); done.
    + unfold retry_or_fail, mbind, eff_bind, now_ms. rewrite Hlt.
      apply (Hagain w (Some r) (Some (rs_status r))).
    + split; [done|]. eapply (run_ok_one _ _ _ []); done.
Qed.

(** C32: a GitHub read implements the three-attempt policy: for every behaviour of
    the network the result and the resulting world are those of [policy 2]; the
    loop sends between one and three copies of the same GET request and nothing
    else, and every pause between attempts lies between 0 and 5000 ms whatever
    the [retry-after] header says. *)
Theorem request_loop_refines_policy s :
  let '(s', r) := request_loop url op path nf token (Z.to_nat githubMaxAttempts) 1 s in
  (gh_world s', r) = policy 2 (gh_world s) ∧
  gh_credentials s' = gh_credentials s ∧
  ∃ evs n, gh_trace s' = gh_trace s ++ evs ∧ (1 ≤ n ≤ 3)%nat ∧
    fetches evs = replicate n get_request ∧ Forall delay_ok evs.
Proof.
  change (Z.to_nat githubMaxAttempts) with 3%nat.
  pose proof (request_loop_policy 2 1 s ltac:(lia) eq_refl) as H.
  destruct (request_loop url op path nf token 3 1 s) as [s' r]. exact H.
Qed.
End Retry.

(** ** A scripted GitHub

    An instance for evaluating runs: the answers are given in advance, one per
    request, and a request beyond the script is rejected. *)

Module ScriptedGithub.
Definition next (l : list fetch_result) : list fetch_result * fetch_result :=
  match l with [] => ([], FetchRejected) | r :: l => (l, r) end.

#[export] Instance scripted : GithubEnv (list fetch_result) := {
  fetchImpl := λ _ w, next w;
  credentialProvider := λ _ w, (w, Ok (Credential (js "token") (Some (js "write"))));
  date_now := λ _, 1700000000000%Z;
  randomBytes := λ n w, (w, replicate n 171%N);
}.

Definition start (answers : list fetch_result) : gh_state (list fetch_result) := GhState answers [] [].
Definition ok (v : jsval) : fetch_result := Fetched (Response 200 None (BodyJson v)).

Definition tree_of (files : list (str * str)) : fetch_result :=
  ok (JObj [(js "tree", JArr (map (λ '(p, sha),
        JObj [(js "path", JStr p); (js "type", JStr (js "blob")); (js "sha", JStr sha)]) files));
      (js "truncated", JBool false)]).
Definition blob_of (text : str) : fetch_result :=
  ok (JObj [(js "encoding", JStr (js "base64")); (js "content", JStr (base64_encode (utf8_encode text)))]).
Definition commit : jsval :=
  JObj [(js "sha", JStr (js "c0ffee1")); (js "html_url", JStr (js "https://github.com/o/r/commit/c0ffee1"))].
Definition written (p : str) : fetch_result :=
  ok (JObj [(js "content", JObj [(js "path", JStr p); (js "sha", JStr (js "f00d123"))]); (js "commit", commit)]).
Definition deleted : fetch_result := ok (JObj [(js "content", JNull); (js "commit", commit)]).
End ScriptedGithub.
