(* ===== verification/ArtifactWrite.v ===== *)
(** * Preparing artifact writes

    Models the pure write-side functions of [src/lib/artifact-repository.ts]:
    the secret screen, [prepareArtifactWrite], the immutability check and
    [prepareVariation]. *)

From S2P Require Import Prelude JsString Regex Encoding JsDate Json Layout Libs Contract.

(** ** Secret screen *)

Definition one_of (s : string) : N → bool := λ c, bool_decide (c ∈ js s).
Definition alnum_underscore (c : N) : bool := is_alnum c || (c =? ch "_")%N.

(** [/-----BEGIN (?:RSA |DSA |EC |OPENSSH |PGP )?PRIVATE KEY-----/i] *)
Definition private_key_re : re :=
  Seq (LitI (js "-----BEGIN "))
    (Seq (Opt (AltL [LitI (js "RSA "); LitI (js "DSA "); LitI (js "EC "); LitI (js "OPENSSH ");
                     LitI (js "PGP ")]))
       (LitI (js "PRIVATE KEY-----"))).

(** A keyword between word boundaries ([api[_-]?key], [token], [secret] or [password]), then
    optional blanks, a colon or an equals sign, optional blanks, an optional single or double
    quote (code units 39 and 34), and at least 16 characters of [A-Za-z0-9_./+=-]. *)
Definition assignment_re : re :=
  Seq WordB
    (Seq (AltL [Seq (LitI (js "api")) (Seq (Opt (Cls (one_of "_-"))) (LitI (js "key")));
                LitI (js "token"); LitI (js "secret"); LitI (js "password")])
       (Seq WordB (Seq (Star (Cls is_ws)) (Seq (Cls (one_of ":=")) (Seq (Star (Cls is_ws))
          (Seq (Opt (Cls (λ c, (c =? 34)%N || (c =? 39)%N)))
             (AtLeast 16 (Cls (λ c, is_alnum c || one_of "_./+=-" c))))))))).

(** [/\bgh[pousr]_[A-Za-z0-9_]{36,}\b/] *)
Definition github_token_re : re :=
  Seq WordB (Seq (Lit (js "gh")) (Seq (Cls (one_of "pousr")) (Seq (Lit (js "_"))
    (Seq (AtLeast 36 (Cls alnum_underscore)) WordB)))).

(** [/\bgithub_pat_[A-Za-z0-9_]{22,}_[A-Za-z0-9_]{59,}\b/] *)
Definition github_pat_re : re :=
  Seq WordB (Seq (Lit (js "github_pat_")) (Seq (AtLeast 22 (Cls alnum_underscore))
    (Seq (Lit (js "_")) (Seq (AtLeast 59 (Cls alnum_underscore)) WordB)))).

(** [/\bsk-[A-Za-z0-9]{20,}\b/] *)
Definition openai_key_re : re :=
  Seq WordB (Seq (Lit (js "sk-")) (Seq (AtLeast 20 (Cls is_alnum)) WordB)).

Definition secretPatterns : list re :=
  [private_key_re; assignment_re; github_token_re; github_pat_re; openai_key_re].

Definition assertNoSecrets (value : str) : outcome error unit :=
  if existsb (λ pattern, re_test pattern value) secretPatterns
  then Throw ArtifactSecretRejectedError else Ok ().

Example secret_ex1 :
  assertNoSecrets (js "key: sk-abcdefghij0123456789") = Throw ArtifactSecretRejectedError.
Proof. vm_compute. reflexivity. Qed.
Example secret_ex2 :
  assertNoSecrets (js "API_KEY = 'abcdefgh12345678'") = Throw ArtifactSecretRejectedError.
Proof. vm_compute. reflexivity. Qed.
Example secret_ex3 : assertNoSecrets (js "tokens are counted: 12345678901234567890") = Ok ().
Proof. vm_compute. reflexivity. Qed.

(** ** [prepareArtifactWrite] *)

Section Write.
Context `{L : Libs}.

Definition prepare_body (metadataInput : jsval) (body : str) : outcome error (ArtifactMetadata * str) :=
  metadata ← normalizeArtifactMetadata metadataInput;
  _ ← guard_throw (is_artifact_id (md_id metadata)) ArtifactWriteValidationError;
  _ ← guard_throw (nonempty (trim body)) ArtifactWriteValidationError;
  markdown ← serializeArtifactMarkdown (metadata_js metadata) body;
  _ ← guard_throw (negb (MAX_SERIALIZED_ARTIFACT_BYTES <? byte_length markdown)%Z)
        ArtifactWriteTooLargeError;
  _ ← assertNoSecrets markdown;
  Ok (metadata, markdown).

Definition prepareArtifactWrite (metadataInput : jsval) (body : str)
    : outcome error (ArtifactMetadata * str) :=
  match prepare_body metadataInput body with
  | Ok r => Ok r
  | Throw e =>
      match e with
      | ArtifactSecretRejectedError | ArtifactWriteValidationError | ArtifactWriteTooLargeError => Throw e
      | _ => Throw ArtifactWriteValidationError
      end
  end.

Definition validateImmutableArtifactMetadata (stored : ArtifactModel) (submitted : ArtifactMetadata)
    : outcome error ArtifactMetadata :=
  metadata ← normalizeArtifactMetadata (metadata_js submitted);
  let st := am_meta stored in
  if bool_decide (md_id metadata = md_id st) && bool_decide (md_type metadata = md_type st)
     && bool_decide (md_sourceId metadata = md_sourceId st)
     && str_eqb (default [] (md_createdAt metadata)) (default [] (md_createdAt st))
  then Ok metadata else Throw ArtifactWriteValidationError.

(** ** [prepareVariation] *)

(** [a || b] on strings *)
Definition or_str (a b : str) : str := if nonempty a then a else b.

(** [/^[a-f0-9]{8}$/] *)
Definition is_suffix8 (s : str) : bool :=
  forallb (λ c, is_digit c || in_range 97 102 c) s && (length s =? 8)%nat.

Definition colon : N := ch ":".

Definition variation_title (source : ArtifactModel) (title : option str) : str :=
  or_str (default [] (trim <$> title)) (md_title (am_meta source) ++ js " Variation").
Definition variation_base (source : ArtifactModel) (title : option str) : str :=
  or_str (slugify (variation_title source title)) (slugify (md_id (am_meta source) ++ js " variation")).

(** [generation.now()] is [now], [generation.randomBytes(4)] is [bytes]. *)
Definition prepareVariation (source : ArtifactModel) (title : option str) (now : Z) (bytes : list N)
    : outcome error (str * ArtifactMetadata) :=
  let timestamp := toISOString now in
  let idBase := variation_base source title in
  _ ← guard_throw (nonempty idBase) ArtifactWriteValidationError;
  let suffix := flat_map hex_byte bytes in
  _ ← guard_throw (is_suffix8 suffix) ArtifactWriteValidationError;
  let id := idBase ++ [dash] ++ take 10 timestamp ++ [dash]
            ++ List.filter (λ c, negb (c =? colon)%N) (take 8 (drop 11 timestamp))
            ++ [dash] ++ suffix in
  let src := am_meta source in
  Ok (id, Metadata id (variation_title source title) (md_description src) (md_type src)
            (dedup (md_tags src ++ [js "variation"])) (md_aliases src) (Some (md_id src))
            (Some timestamp)).
End Write.

(** ** Facts *)

Lemma is_artifact_id_join a b :
  is_artifact_id (a ++ dash :: b) = true ↔ is_artifact_id a = true ∧ is_artifact_id b = true.
Proof.
  rewrite !is_artifact_id_spec, <- Forall_app.
  enough (split_on dash (a ++ dash :: b) = split_on dash a ++ split_on dash b) as -> by done.
  induction a as [|c a IH]; cbn; [by destruct (dash =? dash)%N eqn:E|].
  destruct (c =? dash)%N; [by rewrite IH|].
  rewrite IH. pose proof (split_on_nonnil dash a). by destruct (split_on dash a).
Qed.

Lemma is_artifact_id_word w :
  w ≠ [] → Forall (λ c, is_lower_alnum c = true) w → is_artifact_id w = true.
Proof.
  intros Hne Hw. apply is_artifact_id_spec. rewrite split_on_fresh; [by repeat constructor|].
  apply id_segment_fresh; [done|by split].
Qed.

(** The date and time parts of a variation's identifier. *)
Lemma timestamp_id now :
  iso_time now →
  is_artifact_id (take 10 (toISOString now)) = true ∧
  is_artifact_id (List.filter (λ c, negb (c =? colon)%N) (take 8 (drop 11 (toISOString now)))) = true.
Proof.
  intros Ht. unfold toISOString. destruct (civil_from_days _) as [[y m] d] eqn:E.
  pose proof (iso_time_year _ _ _ _ Ht E) as Hy.
  unfold iso_year. rewrite !(proj2 (Z.leb_le _ _)) by lia.
  assert (Hc : ∀ n, (Z.to_N (48 + n mod 10) =? colon)%N = false).
  { intros n. change colon with 58%N. apply N.eqb_neq. pose proof (Z.mod_pos_bound n 10). lia. }
  assert (Hd : ∀ n, is_lower_alnum (Z.to_N (48 + n mod 10)) = true).
  { intros n. unfold is_lower_alnum. rewrite is_digit_of. apply orb_true_r. }
  split; cbn [andb pad_digits app take drop List.filter].
  - change (ch "-") with dash. apply (is_artifact_id_join [_; _; _; _]).
    split; [|apply (is_artifact_id_join [_; _] [_; _]); split]; (apply is_artifact_id_word; [done|by repeat constructor]).
  - rewrite !Hc. change (ch ":" =? colon)%N with true. cbn [negb].
    apply is_artifact_id_word; [done|by repeat constructor].
Qed.

(** Lower-case hexadecimal suffixes are words. *)
Lemma suffix8_id s : is_suffix8 s = true → is_artifact_id s = true.
Proof.
  unfold is_suffix8. intros H. to_prop. apply is_artifact_id_word; [by destruct s|].
  apply Forall_forall. intros c Hc. rewrite forallb_true_elem in H. specialize (H c Hc).
  unfold is_lower_alnum, is_lower, is_digit, in_range in *.
  rewrite !orb_true_iff, !andb_true_iff, !N.leb_le in *. lia.
Qed.

Section VariationFacts.
Context `{L : Libs}.

Lemma variation_base_shape source title :
  variation_base source title ≠ [] →
  (is_artifact_id (variation_base source title) = true ↔
   last (variation_base source title) ≠ Some dash).
Proof.
  intros Hne. split.
  - intros H [s E]%last_Some. rewrite E, is_artifact_id_join in H. by destruct H.
  - intros Hl. apply id_of_no_double_dash; [|done..]. unfold variation_base, or_str.
    destruct (nonempty _); apply slugify_no_double_dash.
Qed.

(** A variation inherits the type, description, tags and aliases of its source, records
    it as [sourceId] and carries the creation time; and its identifier is one that the
    library can store exactly when the slug it is built from does not end in a dash (which
    the cut to 80 units can cause). *)
Theorem variation_identifier source title now bytes id m :
  prepareVariation source title now bytes = Ok (id, m) → iso_time now →
  md_id m = id ∧ md_type m = md_type (am_meta source) ∧ md_sourceId m = Some (md_id (am_meta source)) ∧
  Date_parse (default [] (md_createdAt m)) = Some now ∧
  (∀ tag, tag ∈ md_tags m ↔ tag ∈ md_tags (am_meta source) ∨ tag = js "variation") ∧
  NoDup (md_tags m) ∧
  (is_Some (canonicalArtifactWritePath (md_type m) id) ↔
   last (variation_base source title) ≠ Some dash).
Proof.
  intros H Ht. unfold prepareVariation in H. inv_bind.
  repeat match goal with H : guard_throw _ _ = Ok _ |- _ => apply guard_throw_ok in H end.
  simplify_eq. cbn [md_id md_type md_sourceId md_createdAt md_tags default].
  split; [done|]. split; [done|]. split; [done|].
  split; [by apply Date_parse_toISOString|].
  split; [intros tag; rewrite elem_of_dedup; set_solver|].
  split; [apply NoDup_dedup|].
  match goal with H : is_suffix8 _ = true |- _ => rename H into Hsuf end.
  match goal with H : nonempty _ = true |- _ => apply nonempty_true in H; rename H into Hne end.
  destruct (timestamp_id now Ht) as [Hd Htm].
  unfold canonicalArtifactWritePath.
  rewrite <- (variation_base_shape source title Hne).
  match goal with |- context [is_artifact_id ?i] => set (i' := i) end.
  assert (is_artifact_id i' = true ↔ is_artifact_id (variation_base source title) = true) as Hi.
  { unfold i'. cbn [app]. rewrite !is_artifact_id_join. pose proof (suffix8_id _ Hsuf). naive_solver. }
  rewrite <- Hi. destruct (is_artifact_id i'); by split.
Qed.
End VariationFacts.

(** Normalising the object of a metadata value trims its identifier and keeps its type. *)
Lemma normalize_js_id `{L : Libs} m m' :
  normalizeArtifactMetadata (metadata_js m) = Ok m' →
  md_id m' = trim (md_id m) ∧ md_type m' = md_type m.
Proof.
  unfold normalizeArtifactMetadata, artifactFrontMatterSchema, metadata_js. cbv iota. intros H. inv_bind.
  match goal with H : from_option_throw _ _ = Ok _ |- _ => apply from_option_throw_ok in H end.
  inv_bind. destruct (is_undefined _); [|done]. simplify_eq. cbn [normalize_data md_id md_type].
  split.
  - match goal with H : z_trimmed (field (js "id") _) = Some ?x |- _ =>
      change (z_trimmed (JStr (md_id m)) = Some x) in H; cbn in H end.
    destruct (nonempty _); by simplify_eq.
  - match goal with H : artifactTypeSchema (field (js "type") _) = Some ?x |- _ =>
      change (artifactTypeSchema (JStr (type_name (md_type m))) = Some x) in H;
      rewrite artifactTypeSchema_name in H; by injection H as <- end.
Qed.

Section PrepareFacts.
Context `{L : Libs} {LL : LibsLaws L}.

Lemma assertNoSecrets_ok s u :
  assertNoSecrets s = Ok u → Forall (λ p, re_test p s = false) secretPatterns.
Proof.
  unfold assertNoSecrets. destruct (existsb _ _) eqn:E; [done|]. intros _.
  apply Forall_forall. intros p Hp. destruct (re_test p s) eqn:Ep; [|done].
  assert (existsb (λ p, re_test p s) secretPatterns = true); [|congruence].
  apply existsb_exists. exists p. by rewrite <- list_elem_of_In.
Qed.

Lemma prepare_inv v body m markdown :
  prepareArtifactWrite v body = Ok (m, markdown) →
  normalizeArtifactMetadata v = Ok m ∧ is_artifact_id (md_id m) = true ∧ trim body ≠ [] ∧
  serializeArtifactMarkdown (metadata_js m) body = Ok markdown ∧
  (byte_length markdown <= MAX_SERIALIZED_ARTIFACT_BYTES)%Z ∧
  Forall (λ p, re_test p markdown = false) secretPatterns.
Proof.
  unfold prepareArtifactWrite. intros H.
  destruct (prepare_body v body) as [r|e] eqn:E; [|by destruct e]. simplify_eq.
  unfold prepare_body in E. inv_bind. simplify_eq.
  repeat match goal with H : guard_throw _ _ = Ok _ |- _ => apply guard_throw_ok in H end.
  match goal with H : nonempty _ = true |- _ => apply nonempty_true in H end.
  repeat split; try done; [|by eapply assertNoSecrets_ok].
  to_prop. lia.
Qed.

Lemma metadata_js_dates m : dates_ok (metadata_js m).
Proof. change (match from_option JStr JUndefined (md_createdAt m) with JDate ms => iso_time ms | _ => True end).
  by destruct (md_createdAt m). Qed.

(** A prepared write, read back at an artifact path. *)
Lemma prepared_parse v body m markdown p :
  prepareArtifactWrite v body = Ok (m, markdown) → dates_ok v → fenced body = false →
  classifyArtifactPath p = Some Canonical →
  parseArtifactMarkdown markdown p
  = Ok (Artifact m (trim body) (toExcerpt (trim body ++ [10%N])) p).
Proof.
  intros (Hn & _ & _ & Hs & _)%prepare_inv Hd Hb Hp.
  pose proof (normalized_wf _ _ Hd Hn) as Hm.
  destruct (serialize_ok (metadata_js m) m body (metadata_js_dates m) Hb
              (normalize_metadata_js m Hm)) as [_ Hs'].
  rewrite Hs in Hs'. simplify_eq. apply parse_serialized; [done|done|right; congruence].
Qed.

(** What the write preparation lets through can be stored and read back: the metadata is
    well formed, its canonical target exists, the Markdown has at most 1 MiB of UTF-8 and
    matches none of the secret patterns, and parsing it at that target gives the prepared
    metadata and the trimmed body. *)
Theorem prepared_write_readable v body m markdown :
  prepareArtifactWrite v body = Ok (m, markdown) → dates_ok v → fenced body = false →
  metadata_wf m ∧ trim body ≠ [] ∧
  (byte_length markdown <= MAX_SERIALIZED_ARTIFACT_BYTES)%Z ∧
  Forall (λ p, re_test p markdown = false) secretPatterns ∧
  ∃ target, canonicalArtifactWritePath (md_type m) (md_id m) = Some target ∧
    parseArtifactMarkdown markdown target
    = Ok (Artifact m (trim body) (toExcerpt (trim body ++ [10%N])) target).
Proof.
  intros H Hd Hb. pose proof (prepare_inv _ _ _ _ H) as (Hn & Hid & Hne & _ & Hl & Hs).
  split; [by eapply normalized_wf|]. repeat (split; [done|]).
  assert (∃ target, canonicalArtifactWritePath (md_type m) (md_id m) = Some target) as [target Ht].
  { unfold canonicalArtifactWritePath. rewrite Hid. eauto. }
  exists target. split; [done|]. eapply prepared_parse; [done..|].
  apply write_path_classified in Ht. done.
Qed.

(** Whatever goes wrong inside, preparing a write fails with one of the three errors the
    routes translate for the caller: invalid content, too large, or a rejected secret. *)
Lemma prepare_errors v body e :
  prepareArtifactWrite v body = Throw e →
  e = ArtifactWriteValidationError ∨ e = ArtifactWriteTooLargeError ∨ e = ArtifactSecretRejectedError.
Proof.
  unfold prepareArtifactWrite. destruct (prepare_body v body) as [r|e']; [done|].
  destruct e'; naive_solver.
Qed.
End PrepareFacts.

(** ** Witnesses *)

Module WriteExamples.
Import ToyLibs.

Definition body : str := js " Explain the code. ".
Definition written : ArtifactMetadata * str :=
  match prepareArtifactWrite ContractExamples.raw body with Ok r => r | Throw _ => (ContractExamples.meta, []) end.

Lemma prepared_write_readable_witness :
  metadata_wf written.1 ∧ trim body ≠ [] ∧
  (byte_length written.2 <= MAX_SERIALIZED_ARTIFACT_BYTES)%Z ∧
  Forall (λ p, re_test p written.2 = false) secretPatterns ∧
  ∃ target, canonicalArtifactWritePath (md_type written.1) (md_id written.1) = Some target ∧
    parseArtifactMarkdown written.2 target
    = Ok (Artifact written.1 (trim body) (toExcerpt (trim body ++ [10%N])) target).
Proof.
  apply (prepared_write_readable ContractExamples.raw).
  - vm_compute. reflexivity.
  - change (iso_time 1700000000000). unfold iso_time. lia.
  - vm_compute. reflexivity.
Defined.

Definition variation : str * ArtifactMetadata :=
  match prepareVariation ContractExamples.artifact None 1700000000000 [1; 2; 254; 255]%N with
  | Ok r => r | Throw _ => ([], ContractExamples.meta) end.

Lemma variation_identifier_witness :
  md_id variation.2 = variation.1 ∧ md_type variation.2 = Prompt ∧
  md_sourceId variation.2 = Some (js "a-1") ∧
  Date_parse (default [] (md_createdAt variation.2)) = Some 1700000000000%Z ∧
  (∀ tag, tag ∈ md_tags variation.2 ↔ tag ∈ [js "x"] ∨ tag = js "variation") ∧
  NoDup (md_tags variation.2) ∧
  (is_Some (canonicalArtifactWritePath (md_type variation.2) variation.1) ↔
   last (variation_base ContractExamples.artifact None) ≠ Some dash).
Proof.
  apply (variation_identifier ContractExamples.artifact None 1700000000000 [1; 2; 254; 255]%N).
  - vm_compute. reflexivity.
  - unfold iso_time. lia.
Defined.
End WriteExamples.

Lemma prepare_bad_id `{L : Libs} m body :
  is_artifact_id (trim (md_id m)) = false →
  prepareArtifactWrite (metadata_js m) body = Throw ArtifactWriteValidationError.
Proof.
  intros Hid. unfold prepareArtifactWrite, prepare_body.
  destruct (normalizeArtifactMetadata (metadata_js m)) as [m'|e] eqn:E.
  - apply normalize_js_id in E as [E _]. cbn [mbind outcome_bind]. by rewrite E, Hid.
  - unfold normalizeArtifactMetadata, artifactFrontMatterSchema in E.
    match goal with E : context [from_option_throw ZodError ?o] |- _ => destruct o; [done|] end.
    by injection E as <-.
Qed.

(** A title of 79 letters and another word: the slug is cut after the dash, and the variation
    gets an identifier with two adjacent dashes that has no place in the library. *)
Definition cut_title : str := replicate 79 (ch "a") ++ js " b".

(** Some valid titles cannot be used for a variation: the identifier made from
    [cut_title] is refused by the canonical layout, so the write fails as invalid content. *)
Theorem variation_cut_title_refused :
  ∃ id m, prepareVariation ContractExamples.artifact (Some cut_title) 1700000000000 [1; 2; 3; 4]%N = Ok (id, m) ∧
    canonicalArtifactWritePath (md_type m) id = None ∧
    ∀ (L : Libs) body, prepareArtifactWrite (metadata_js m) body = Throw ArtifactWriteValidationError.
Proof.
  eexists _, _. split; [vm_compute; reflexivity|]. split; [vm_compute; reflexivity|].
  intros L body.   apply prepare_bad_id; vm_compute; reflexivity.
Qed.
