(* ===== verification/Repository.v ===== *)
(** * The GitHub artifact repository

    Models the operations of [GitHubArtifactRepository] and
    [createArtifactRepository] in [src/lib/artifact-repository.ts] over the
    request layer of [GithubClient]. [mapWithConcurrency] runs its mappers in
    index order here, one of the schedules that [Pool] shows to give the same
    results.

    Properties: the optimistic concurrency protocol of updates and deletions,
    creation without overwriting, reads that cannot mutate, and the accounting
    of the validation report. *)

From S2P Require Import Prelude JsString Regex Encoding JsDate Json JsNumber Layout Libs Contract Pool GithubClient ArtifactWrite.

(** [ArtifactWriteResult] *)
Record write_result := WriteResult {
  wr_artifactId : str; wr_path : str; wr_fileSha : str; wr_commitSha : str; wr_commitUrl : str;
  wr_repositoryRevision : option str;
}.
(** [ArtifactDeleteResult] *)
Record delete_result := DeleteResult {
  dr_artifactId : str; dr_path : str; dr_commitSha : str; dr_commitUrl : str; dr_repositoryRevision : str;
}.
(** [CreateVariationResult] of the GitHub backend *)
Record variation_result := VariationResult {
  vr_id : str; vr_path : str; vr_fileSha : str; vr_commitSha : str; vr_commitUrl : str;
  vr_repositoryRevision : option str;
}.
(** [ArtifactWithRevision] *)
Record with_revision := WithRevision { wv_artifact : ArtifactModel; wv_currentFileSha : str }.
(** [RepositoryCatalogue] *)
Record catalogue := Catalogue {
  cg_artifacts : list ArtifactModel; cg_revision : str; cg_fileShas : list (str * str);
}.

Record create_input := CreateInput { ci_metadata : jsval; ci_body : str; ci_actor : str }.
Record update_input := UpdateInput {
  ui_id : str; ui_metadata : jsval; ui_body : str; ui_sha : str; ui_actor : str;
}.
Record delete_input := DeleteInput { di_id : str; di_sha : str; di_actor : str }.
Record variation_input := VariationInput {
  vi_source : ArtifactModel; vi_body : str; vi_title : option str; vi_actor : str;
}.

(** [ArtifactValidationDiagnostic["code"]] *)
Inductive diagnostic_code :=
| DInvalidPath | DMissingBlobSha | DBlob (c : blob_code) | DParse (c : parse_code) | DDuplicateId.
#[export] Instance diagnostic_code_eq_dec : EqDecision diagnostic_code.
Proof. solve_decision. Defined.
Record diagnostic := Diagnostic { dg_path : str; dg_code : diagnostic_code; dg_message : str }.

(** [RepositoryValidationReport] *)
Record validation_report := ValidationReport {
  rp_revision : str; rp_validCount : Z; rp_invalidCount : Z; rp_errors : list diagnostic;
  rp_omittedErrorCount : Z;
}.

Definition is_blob (e : tree_entry) : bool := bool_decide (te_type e = Some (js "blob")).
Definition entry_path (e : tree_entry) : str := default [] (te_path e).

(** [entry.type === "blob" && typeof entry.path === "string" && isArtifactMarkdownCandidate(entry.path)] *)
Definition is_candidate (e : tree_entry) : bool :=
  is_blob e && match te_path e with Some p => isArtifactMarkdownCandidate p | None => false end.

(** [tree.find((c) => c.type === "blob" && c.path === path)] *)
Definition find_entry (path : str) (tree : list tree_entry) : option tree_entry :=
  List.find (λ e, is_blob e && bool_decide (te_path e = Some path)) tree.

Definition find_artifact (id : str) (l : list ArtifactModel) : option ArtifactModel :=
  List.find (λ a, str_eqb (md_id (am_meta a)) id) l.

(** [entry?.sha] when it is a non-empty string *)
Definition entry_sha (e : option tree_entry) : option str :=
  match e ≫= te_sha with Some ((_ :: _) as sha) => Some sha | _ => None end.

(** [/^[A-Za-z0-9-]+$/] *)
Definition is_login (s : str) : bool := nonempty s && forallb (λ c, is_alnum c || (c =? dash)%N) s.

(** Assignment to a property of an object literal; [__proto__] is not an own property. *)
Definition record_set {A} (k : str) (v : A) (o : list (str * A)) : list (str * A) :=
  if str_eqb k (js "__proto__") then o else obj_set k v o.

Definition unsafe_path : str := js "[unsafe repository path]".

Definition by_title `{Libs} : list ArtifactModel → list ArtifactModel :=
  sort_list (λ a b, locale_le (md_title (am_meta a)) (md_title (am_meta b))).
Definition by_path `{Libs} : list tree_entry → list tree_entry :=
  sort_list (λ a b, locale_le (entry_path a) (entry_path b)).

Section Repository.
Context `{L : Libs} {W : Type} `{G : !GithubEnv W}.
Variable config : gh_config.

Abbreviation M := (eff (gh_state W) error).

(** [catch (error) { if (error instanceof ArtifactMarkdownParseError) throw new ArtifactRepositoryContentError(); throw error; }] *)
Definition as_content_error {A} (m : M A) : M A :=
  try_catch m (λ e, match e with
                    | ArtifactMarkdownParseError _ => throw ArtifactRepositoryContentError
                    | _ => throw e
                    end).

Definition load_listed (file : tree_entry) : M ArtifactModel :=
  match entry_sha (Some file) with
  | None => throw (PlainError (entry_path file ++ js ": GitHub tree entry is missing a blob SHA."))
  | Some sha =>
      raw ← fetchBlob config sha (entry_path file) CapRead;
      as_content_error (lift (parseArtifactMarkdown raw (entry_path file)))
  end.

Definition list_artifacts : M (list ArtifactModel) :=
  tree ← fetchTree config CapRead (cf_branch config);
  let files := by_path (List.filter is_candidate tree) in
  emit (EvInfo (js "github_artifact_tree_loaded")) ;;
  _ ← lift (guard_throw (forallb (λ f, isSupportedArtifactPath (entry_path f)) files)
              ArtifactRepositoryContentError);
  artifacts ← for_each load_listed files;
  _ ← lift (validateUniqueArtifactIds artifacts);
  emit (EvInfo (js "github_artifacts_loaded")) ;;
  mret (by_title artifacts).

Definition findById (id : str) : M (option ArtifactModel) :=
  artifacts ← list_artifacts;
  mret (find_artifact id artifacts).

Definition load_entry (c : capability) (file : tree_entry) : M ArtifactModel :=
  match entry_path file, entry_sha (Some file) with
  | (_ :: _) as path, Some sha =>
      match classifyArtifactPath path with
      | None => throw ArtifactRepositoryContentError
      | Some _ =>
          as_content_error (raw ← fetchBlob config sha path c; lift (parseArtifactMarkdown raw path))
      end
  | _, _ => throw ArtifactRepositoryContentError
  end.

Definition artifactsFromTree (tree : list tree_entry) (c : capability) : M (list ArtifactModel) :=
  artifacts ← for_each (load_entry c) (List.filter is_candidate tree);
  _ ← lift (validateUniqueArtifactIds artifacts);
  mret artifacts.

Definition findByIdWithRevision (id : str) : M (option with_revision) :=
  tree ← fetchTree config CapRead (cf_branch config);
  artifacts ← artifactsFromTree tree CapRead;
  match find_artifact id artifacts with
  | None => mret None
  | Some artifact =>
      match find_entry (am_path artifact) tree ≫= te_sha with
      | Some sha => if nonempty (trim sha) then mret (Some (WithRevision artifact sha))
                    else throw ArtifactRepositoryContentError
      | None => throw ArtifactRepositoryContentError
      end
  end.

(** The loop that collects [fileShas]. *)
Fixpoint collect_shas (tree : list tree_entry) (artifacts : list ArtifactModel)
    (fileShas : list (str * str)) : outcome error (list (str * str)) :=
  match artifacts with
  | [] => Ok fileShas
  | a :: rest =>
      match entry_sha (find_entry (am_path a) tree) with
      | Some sha => if is_sha sha then collect_shas tree rest (record_set (md_id (am_meta a)) sha fileShas)
                    else Throw ArtifactRepositoryContentError
      | None => Throw ArtifactRepositoryContentError
      end
  end.

Definition resolve_revision (revision : option str) : M str :=
  match revision with Some r => mret r | None => getBaseRevision config end.

Definition loadCatalogue (revision : option str) : M catalogue :=
  resolvedRevision ← resolve_revision revision;
  tree ← fetchTree config CapRead resolvedRevision;
  artifacts ← artifactsFromTree tree CapRead;
  fileShas ← lift (collect_shas tree artifacts []);
  mret (Catalogue (by_title artifacts) resolvedRevision fileShas).

(** ** The validation report *)

Definition blob_message (c : blob_code) : str :=
  match c with
  | Unsupported_encoding => js "Artifact blob encoding is unsupported."
  | Blob_unavailable => js "Artifact blob is unavailable."
  | Blob_too_large => js "Artifact exceeds the maximum allowed size."
  end.
Definition parse_message (c : parse_code) : str :=
  match c with
  | Invalid_body => js "Artifact body is invalid."
  | Invalid_front_matter => js "Artifact front matter is invalid."
  | Invalid_metadata => js "Artifact metadata is invalid."
  end.

Definition diagnose_entry (file : tree_entry) : M (ArtifactModel + diagnostic) :=
  let safePath := match te_path file with
                  | Some p => if isSupportedArtifactPath p then p else unsafe_path
                  | None => unsafe_path
                  end in
  if starts_with (js "[") safePath then
    mret (inr (Diagnostic safePath DInvalidPath
      (js "Artifact path is not a safe repository-relative path under the configured root.")))
  else
    match entry_sha (Some file) with
    | Some sha =>
        if is_sha sha then
          if match te_size file with Some n => num_gt_Z n MAX_SERIALIZED_ARTIFACT_BYTES | None => false end
          then mret (inr (Diagnostic safePath (DBlob Blob_too_large) (blob_message Blob_too_large)))
          else
            try_catch
              (raw ← fetchBlob config sha safePath CapRead;
               artifact ← lift (parseArtifactMarkdown raw safePath);
               mret (inl artifact))
              (λ e, match e with
                    | ArtifactRepositoryUnavailableError _ | ArtifactRepositoryAccessError => throw e
                    | ArtifactBlobDiagnosticError c => mret (inr (Diagnostic safePath (DBlob c) (blob_message c)))
                    | ArtifactMarkdownParseError c => mret (inr (Diagnostic safePath (DParse c) (parse_message c)))
                    | _ => mret (inr (Diagnostic safePath (DParse Invalid_metadata) (parse_message Invalid_metadata)))
                    end)
        else mret (inr (Diagnostic safePath DMissingBlobSha (js "GitHub did not provide a valid blob revision.")))
    | None => mret (inr (Diagnostic safePath DMissingBlobSha (js "GitHub did not provide a valid blob revision.")))
    end.

(** [results]: the outcome of each candidate, paired with its [entryIndex]. *)
Abbreviation entry_result := (nat * (ArtifactModel + diagnostic))%type.

Definition result_artifact (r : entry_result) : option ArtifactModel :=
  match r.2 with inl a => Some a | inr _ => None end.
Definition result_error (r : entry_result) : option (nat * diagnostic) :=
  match r.2 with inl _ => None | inr d => Some (r.1, d) end.

(** [byId.get(id)]: the results whose artifact has the identifier *)
Definition same_id (results : list entry_result) (id : str) : list entry_result :=
  List.filter (λ r, bool_decide (md_id ∘ am_meta <$> result_artifact r = Some id)) results.
Definition duplicate_diagnostic (r : entry_result) : nat * diagnostic :=
  (r.1, Diagnostic (from_option am_path [] (result_artifact r)) DDuplicateId
          (js "Artifact ID is duplicated by another valid file.")).
Definition duplicate_diagnostics (results : list entry_result) : list (nat * diagnostic) :=
  flat_map (λ id, let duplicates := same_id results id in
                  if (1 <? length duplicates)%nat then map duplicate_diagnostic duplicates else [])
    (dedup (map (md_id ∘ am_meta) (omap result_artifact results))).
Definition diagnostics_of (results : list entry_result) : list (nat * diagnostic) :=
  omap result_error results ++ duplicate_diagnostics results.

Definition report_of (revision : str) (results : list entry_result) : validation_report :=
  let valid := omap result_artifact results in
  let diagnostics := diagnostics_of results in
  let invalidEntries := dedup (map fst diagnostics) in
  let errors := map snd (take 50 diagnostics) in
  let demoted := List.filter (λ r, match result_artifact r with
                                   | Some _ => bool_decide (r.1 ∈ invalidEntries)
                                   | None => false end) results in
  ValidationReport revision (Z.of_nat (length valid) - Z.of_nat (length demoted))
    (Z.of_nat (length invalidEntries)) errors
    (Z.max 0 (Z.of_nat (length diagnostics) - Z.of_nat (length errors))).

Definition diagnoseCatalogue (revision : option str) : M validation_report :=
  resolvedRevision ← resolve_revision revision;
  tree ← fetchTree config CapRead resolvedRevision;
  results ← for_each diagnose_entry (List.filter is_candidate tree);
  mret (report_of resolvedRevision (imap pair results)).

(** ** Writing *)

Definition write_headers (token : str) : list (str * str) :=
  [(js "accept", js "application/vnd.github+json"); (js "authorization", js "Bearer " ++ token);
   (js "content-type", js "application/json");
   (js "user-agent", js "artifact-dev-toolkit"); (js "x-github-api-version", js "2022-11-28")].

Definition contents_url (filePath : str) : M str :=
  segments ← for_each encode (split_on slash filePath);
  githubUrl config (js "/contents/" ++ join [slash] segments).

(** [try { response = await this.fetchImpl(url, …) } catch { throw new ArtifactRepositoryUnavailableError(); }] *)
Definition send (method : http_method) (filePath : str) (token : str) (body : jsval) : M response :=
  answer ← attempt (url ← contents_url filePath;
                    do_fetch (Request method url (write_headers token) (Some body)));
  match answer with
  | Ok (Fetched r) => mret r
  | _ => throw (ArtifactRepositoryUnavailableError None)
  end.

Definition write_error (sha : option str) (status : Z) : error :=
  (if status =? 401 then ArtifactWriteAuthenticationError
   else if status =? 403 then ArtifactWritePermissionError
   else if (status =? 409) || (status =? 422)
   then match sha with Some _ => ArtifactWriteConflictError | None => ArtifactDuplicateError end
   else if (status =? 429) || (500 <=? status) then ArtifactRepositoryUnavailableError (Some status)
   else ArtifactWriteResponseError)%Z.

(** [z.string().min(1)] *)
Definition z_nonempty (v : jsval) : option str :=
  s ← z_string v; if nonempty s then Some s else None.
Definition z_url (v : jsval) : option str := s ← z_string v; if zod_url s then Some s else None.
Definition z_field (k : string) (v : jsval) : option jsval :=
  match v with JObj o => Some (field (js k) o) | _ => None end.
(** [z.object({ sha: z.string().min(1), html_url: z.string().url() })] *)
Definition z_commit (v : jsval) : option (str * str) :=
  sha ← z_field "sha" v ≫= z_nonempty;
  html_url ← z_field "html_url" v ≫= z_url;
  Some (sha, html_url).

(** The content path, the file's and the commit's SHA and the commit's URL. *)
Definition write_answer (v : jsval) : option (str * str * (str * str)) :=
  content ← z_field "content" v;
  path ← z_field "path" content ≫= z_string;
  sha ← z_field "sha" content ≫= z_nonempty;
  commit ← z_field "commit" v ≫= z_commit;
  Some (path, sha, commit).

(** The truthy [sha] of an update. *)
Definition write_body (commitMessage markdown : str) (sha : option str) : jsval :=
  JObj ([(js "message", JStr commitMessage);
         (js "content", JStr (base64_encode (utf8_encode markdown)));
         (js "branch", JStr (cf_branch config))] ++
        match sha with Some s => [(js "sha", JStr s)] | None => [] end).

Definition writeContents (filePath artifactId markdown commitMessage : str) (sha : option str)
    : M write_result :=
  let sha := match sha with Some (_ :: _) => sha | _ => None end in
  token ← writeCredential;
  response ← send PUT filePath token (write_body commitMessage markdown sha);
  if rs_ok response then
    match rs_json response with
    | BodyJson value =>
        match write_answer value with
        | Some (path, fileSha, (commitSha, commitUrl)) =>
            if str_eqb path filePath
            then mret (WriteResult artifactId filePath fileSha commitSha commitUrl (Some commitSha))
            else throw ArtifactWriteResponseError
        | None => throw ArtifactWriteResponseError
        end
    | _ => throw ArtifactWriteResponseError
    end
  else throw (write_error sha (rs_status response)).

Definition createValidatedArtifactAtPath (prepared : ArtifactMetadata * str) (path commitMessage : str)
    : M write_result :=
  let '(metadata, markdown) := prepared in
  _ ← lift (guard_throw (bool_decide (canonicalArtifactWritePath (md_type metadata) (md_id metadata) = Some path))
              ArtifactWriteValidationError);
  tree ← fetchTree config CapWrite (cf_branch config);
  _ ← lift (guard_throw (negb (existsb (λ e, is_blob e && bool_decide (te_path e = Some path)) tree))
              ArtifactDuplicateError);
  artifacts ← artifactsFromTree tree CapWrite;
  _ ← lift (guard_throw (negb (existsb (λ a, str_eqb (md_id (am_meta a)) (md_id metadata)) artifacts))
              ArtifactDuplicateError);
  writeContents path (md_id metadata) markdown commitMessage None.

Definition requested_by (actor : str) : str := js " (requested by @" ++ actor ++ js ")".

Definition artifactPath (metadata : ArtifactMetadata) : outcome error str :=
  from_option_throw ArtifactWriteValidationError
    (canonicalArtifactWritePath (md_type metadata) (md_id metadata)).

Definition create (input : create_input) : M write_result :=
  _ ← lift (guard_throw (is_login (ci_actor input)) ArtifactWriteValidationError);
  prepared ← lift (prepareArtifactWrite (ci_metadata input) (ci_body input));
  path ← lift (artifactPath prepared.1);
  createValidatedArtifactAtPath prepared path
    (js "Create artifact " ++ md_id prepared.1 ++ requested_by (ci_actor input)).

Definition update (input : update_input) : M write_result :=
  _ ← lift (guard_throw (is_login (ui_actor input)) ArtifactWriteValidationError);
  prepared ← lift (prepareArtifactWrite (ui_metadata input) (ui_body input));
  let '(metadata, markdown) := prepared in
  _ ← lift (guard_throw (str_eqb (md_id metadata) (ui_id input) && nonempty (trim (ui_sha input)))
              ArtifactWriteValidationError);
  tree ← fetchTree config CapWrite (cf_branch config);
  artifacts ← artifactsFromTree tree CapWrite;
  artifact ← lift (from_option_throw ArtifactNotFoundError (find_artifact (ui_id input) artifacts));
  sha ← lift (from_option_throw ArtifactWriteResponseError
                (entry_sha (find_entry (am_path artifact) tree)));
  _ ← lift (guard_throw (str_eqb sha (ui_sha input)) ArtifactWriteConflictError);
  _ ← lift (guard_throw (isSupportedArtifactMutationPath (am_path artifact)) ArtifactRepositoryContentError);
  _ ← lift (validateImmutableArtifactMetadata artifact metadata);
  writeContents (am_path artifact) (md_id metadata) markdown
    (js "Update artifact " ++ md_id metadata ++ requested_by (ui_actor input)) (Some (ui_sha input)).

Definition resolveDeletion (input : delete_input) (c : capability) : M ArtifactModel :=
  _ ← lift (guard_throw (is_login (di_actor input) && nonempty (trim (di_sha input)))
              ArtifactWriteValidationError);
  tree ← fetchTree config c (cf_branch config);
  artifacts ← artifactsFromTree tree c;
  artifact ← lift (from_option_throw ArtifactNotFoundError (find_artifact (di_id input) artifacts));
  _ ← lift (guard_throw (isSupportedArtifactMutationPath (am_path artifact)) ArtifactRepositoryContentError);
  sha ← lift (from_option_throw ArtifactRepositoryContentError
                (entry_sha (find_entry (am_path artifact) tree)));
  _ ← lift (guard_throw (str_eqb sha (di_sha input)) ArtifactWriteConflictError);
  mret artifact.

Definition delete_error (status : Z) : error :=
  (if status =? 401 then ArtifactWriteAuthenticationError
   else if status =? 403 then ArtifactWritePermissionError
   else if (status =? 404) || (status =? 409) || (status =? 422) then ArtifactWriteConflictError
   else if (status =? 429) || (500 <=? status) then ArtifactRepositoryUnavailableError (Some status)
   else ArtifactWriteResponseError)%Z.

(** [content: z.null()] and a commit on GitHub *)
Definition delete_answer (v : jsval) : option (str * str) :=
  content ← z_field "content" v;
  commit ← z_field "commit" v ≫= z_commit;
  match content with JNull => Some commit | _ => None end.

Definition delete_body (input : delete_input) : jsval :=
  JObj [(js "message", JStr (js "Delete artifact " ++ di_id input ++ requested_by (di_actor input)));
        (js "sha", JStr (di_sha input)); (js "branch", JStr (cf_branch config))].

Definition deleteContents (filePath : str) (input : delete_input) : M delete_result :=
  token ← writeCredential;
  response ← send DELETE filePath token (delete_body input);
  if rs_ok response then
    match rs_json response with
    | BodyJson value =>
        match delete_answer value with
        | Some (sha, html_url) =>
            if starts_with (js "https://github.com/") html_url
            then mret (DeleteResult (di_id input) filePath sha html_url sha)
            else throw ArtifactWriteResponseError
        | None => throw ArtifactWriteResponseError
        end
    | _ => throw ArtifactWriteResponseError
    end
  else throw (delete_error (rs_status response)).

Definition delete_artifact (input : delete_input) : M delete_result :=
  artifact ← resolveDeletion input CapWrite;
  deleteContents (am_path artifact) input.

Definition random_bytes (n : nat) : M (list N) := λ s,
  let '(w, b) := randomBytes n (gh_world s) in (GhState w (gh_credentials s) (gh_trace s), Ok b).

Definition createVariation (input : variation_input) : M variation_result :=
  _ ← lift (guard_throw (is_login (vi_actor input)) ArtifactWriteValidationError);
  now ← now_ms;
  bytes ← random_bytes 4;
  '(id, metadata) ← lift (prepareVariation (vi_source input) (vi_title input) now bytes);
  path ← lift (from_option_throw ArtifactWriteValidationError
                 (canonicalArtifactWritePath (md_type metadata) id));
  prepared ← lift (prepareArtifactWrite (metadata_js metadata) (trim (vi_body input)));
  result ← createValidatedArtifactAtPath prepared path
    (js "Create variation " ++ id ++ js " from " ++ md_id (am_meta (vi_source input))
     ++ requested_by (vi_actor input));
  mret (VariationResult id (wr_path result) (wr_fileSha result) (wr_commitSha result)
          (wr_commitUrl result) (wr_repositoryRevision result)).
End Repository.

(** ** Selecting a backend *)

Inductive backend := FileBackend | GithubBackend.

(** The variables of [process.env] that the selection reads. *)
Record repository_env := RepositoryEnv {
  en_ARTIFACT_REPOSITORY : option str; en_NODE_ENV : option str;
  en_OWNER : option str; en_NAME : option str; en_BRANCH : option str;
}.

Definition getArtifactRepositoryBackend (env : repository_env) : outcome error backend :=
  let value := default [] (en_ARTIFACT_REPOSITORY env) in
  let production := bool_decide (en_NODE_ENV env = Some (js "production")) in
  if str_eqb value (js "github") then Ok GithubBackend
  else if str_eqb value (js "file") && negb production then Ok FileBackend
  else if str_eqb value (js "file") then Throw ArtifactRepositoryConfigurationError
  else if negb (nonempty value) && negb production then Ok FileBackend
  else Throw ArtifactRepositoryConfigurationError.

(** The part of [RepositoryAccessContext] the factory reads. *)
Record access_context := AccessContext { ac_owner : str; ac_repo : str; ac_repositoryId : num }.

Inductive repository := FileRepository | GitHubRepository (config : gh_config).

Definition createArtifactRepository (env : repository_env) (access : access_context)
    : outcome error repository :=
  selected ← getArtifactRepositoryBackend env;
  match selected with
  | FileBackend => Ok FileRepository
  | GithubBackend =>
      let owner := default [] (en_OWNER env) in
      let repo := default [] (en_NAME env) in
      let branch := default DEFAULT_ARTIFACT_BRANCH (en_BRANCH env) in
      _ ← guard_throw (nonempty owner && nonempty repo && nonempty branch)
            ArtifactRepositoryConfigurationError;
      _ ← guard_throw (str_eqb (to_lower (ac_owner access)) (to_lower owner)
                       && str_eqb (to_lower (ac_repo access)) (to_lower repo)
                       && is_safe_integer (JNum (ac_repositoryId access)))
            ArtifactRepositoryConfigurationError;
      Ok (GitHubRepository (GhConfig (ac_owner access) (ac_repo access) branch
            (trimSlashes DEFAULT_ARTIFACT_ROOT)))
  end.

(** ** Reads never mutate *)

Section ReadFacts.
Context `{L : Libs} {W : Type} `{G : !GithubEnv W}.
Variable config : gh_config.

Lemma keeps_content_error {A} P (m : eff (gh_state W) error A) :
  keeps (appends P) m → keeps (appends P) (as_content_error m).
Proof. intros H. unfold as_content_error. keeps_tac. Qed.

Lemma keeps_load_listed file : keeps (appends reads_only) (load_listed (W := W) config file).
Proof. unfold load_listed. repeat keeps_step; auto with adt_keeps. apply keeps_content_error. keeps_tac. Qed.

Lemma keeps_load_entry c file : keeps (appends reads_only) (load_entry (W := W) config c file).
Proof. unfold load_entry. repeat keeps_step. apply keeps_content_error. keeps_tac. Qed.

Lemma keeps_artifactsFromTree tree c :
  keeps (appends reads_only) (artifactsFromTree (W := W) config tree c).
Proof. unfold artifactsFromTree. repeat keeps_step. apply keeps_load_entry. Qed.

Lemma keeps_resolve_revision rev : keeps (appends reads_only) (resolve_revision (W := W) config rev).
Proof. unfold resolve_revision, getBaseRevision. keeps_tac. Qed.

Lemma keeps_random_bytes P n : keeps (appends P) (random_bytes (W := W) n).
Proof.
  intros s. unfold random_bytes. destruct (randomBytes n (gh_world s)). exists []. by rewrite app_nil_r.
Qed.

Lemma keeps_diagnose_entry file : keeps (appends reads_only) (diagnose_entry (W := W) config file).
Proof. unfold diagnose_entry. cbv zeta. keeps_tac. Qed.
End ReadFacts.

#[export] Hint Resolve keeps_content_error keeps_load_listed keeps_load_entry keeps_artifactsFromTree
  keeps_resolve_revision keeps_random_bytes keeps_diagnose_entry : adt_keeps.

Section RepositoryFacts.
Context `{L : Libs} {W : Type} `{G : !GithubEnv W}.
Variable config : gh_config.
Implicit Types s : gh_state W.

(** No read operation of the repository can change it: listing, lookups, loading and
    diagnosing the catalogue only ever send GET requests, whatever GitHub answers. *)
Theorem reads_never_mutate id rev :
  keeps (appends reads_only) (list_artifacts (W := W) config) ∧
  keeps (appends reads_only) (findById (W := W) config id) ∧
  keeps (appends reads_only) (findByIdWithRevision (W := W) config id) ∧
  keeps (appends reads_only) (getBaseRevision (W := W) config) ∧
  keeps (appends reads_only) (loadCatalogue (W := W) config rev) ∧
  keeps (appends reads_only) (diagnoseCatalogue (W := W) config rev).
Proof.
  assert (keeps (appends reads_only) (list_artifacts (W := W) config)) as Hl.
  { unfold list_artifacts. keeps_tac; by apply keeps_emit. }
  split; [done|]. split; [unfold findById; keeps_tac|].
  split; [unfold findByIdWithRevision; keeps_tac|].
  split; [unfold getBaseRevision; keeps_tac|].
  split; [unfold loadCatalogue|unfold diagnoseCatalogue]; keeps_tac.
Qed.

(** *** One mutating request *)

Lemma encode_list_run l s : ∃ o, for_each (encode (W := W)) l s = (s, o).
Proof.
  induction l as [|x l [o IH]]; [by eexists|]. cbn. unfold mbind, eff_bind, encode at 1, lift.
  destruct (from_option_throw URIError (encodeURIComponent x)); [|by eexists].
  rewrite IH. destruct o; by eexists.
Qed.

Lemma contents_url_run p s : ∃ o, contents_url (W := W) config p s = (s, o).
Proof.
  unfold contents_url. unfold mbind, eff_bind.
  destruct (encode_list_run (split_on slash p) s) as [o ->]. destruct o as [segs|]; [|by eexists].
  unfold githubUrl, mbind, eff_bind, encode, lift.
  destruct (from_option_throw URIError (encodeURIComponent (cf_owner config))); [|by eexists].
  destruct (from_option_throw URIError (encodeURIComponent (cf_repo config))); by eexists.
Qed.

(** The mutating requests of a trace are at most the one given, in the last place. *)
Definition sent (method : http_method) (p : str) (body : jsval) (s : gh_state W) (evs : list event) : Prop :=
  ∃ token url, contents_url (W := W) config p s = (s, Ok url) ∧
    evs = [EvFetch (Request method url (write_headers token) (Some body))].

Lemma send_run method p token body s s' r :
  send config method p token body s = (s', r) →
  (s' = s ∧ r = Throw (ArtifactRepositoryUnavailableError None)) ∨
  (∃ evs, gh_trace s' = gh_trace s ++ evs ∧ sent method p body s evs).
Proof.
  unfold send, attempt. unfold mbind at 1, eff_bind at 1. unfold mbind, eff_bind.
  destruct (contents_url_run p s) as [o Ho]. rewrite Ho. destruct o as [url|e].
  - unfold do_fetch. destruct (fetchImpl _ (gh_world s)) as [w res].
    intros H. right. exists [EvFetch (Request method url (write_headers token) (Some body))].
    split; [|by exists token, url]. destruct res; by injection H as <- <-.
  - intros [= <- <-]. by left.
Qed.

Lemma writeCredential_run s s' r : writeCredential (W := W) s = (s', r) → gh_trace s' = gh_trace s.
Proof.
  unfold writeCredential, try_catch, credential.
  destruct (lookup_credential _ _) as [[?|?]|]; [by intros [= <- <-]..|].
  destruct (credentialProvider _ _) as [w [v|e]]; cbn -[credential_token];
    [destruct (credential_token _ _)|]; by intros [= <- <-].
Qed.

(** What a finished write operation did: nothing but reads and an error, or reads and then one
    mutating request. *)
Definition mutation_run {A} (method : http_method) (p : str) (body : jsval) s s' (r : outcome error A)
    : Prop :=
  ∃ evs, gh_trace s' = gh_trace s ++ evs ∧
    ((evs = [] ∧ ∃ e, r = Throw e) ∨ (∃ s1, sent method p body s1 evs)).

Lemma credentialed_run {A} method p body (k : response → eff (gh_state W) error A) s s' r :
  (∀ resp s, (k resp s).1 = s) →
  (token ← writeCredential; response ← send config method p token body; k response) s = (s', r) →
  mutation_run method p body s s' r.
Proof.
  intros Hk [(s1 & token & Hc & H)|(e & Hc & ->)]%bind_run;
    pose proof (writeCredential_run _ _ _ Hc) as Ht.
  2: { exists []. rewrite app_nil_r. split; [done|left; eauto]. }
  unfold mutation_run. rewrite <- Ht.
  apply bind_run in H as [(s2 & resp & Hs & H)|(e & Hs & ->)].
  - apply send_run in Hs as [[_ ?]|(evs & Hevs & Hsent)]; [done|].
    exists evs. split; [|right; by exists s1]. specialize (Hk resp s2). rewrite H in Hk.
    cbn in Hk. by subst.
  - apply send_run in Hs as [[-> _]|(evs & Hevs & Hsent)].
    + exists []. rewrite app_nil_r. split; [done|left; eauto].
    + exists evs. split; [done|right; by exists s1].
Qed.

Lemma writeContents_run p id markdown msg sha s s' r :
  writeContents config p id markdown msg sha s = (s', r) →
  mutation_run PUT p
    (write_body config msg markdown (match sha with Some (_ :: _) => sha | _ => None end)) s s' r.
Proof.
  unfold writeContents. cbv zeta.
  generalize (match sha with Some (_ :: _) => sha | _ => None end). intros sha'.
  apply credentialed_run. clear. intros resp s. by split_matches.
Qed.

Lemma deleteContents_run p input s s' r :
  deleteContents config p input s = (s', r) → mutation_run DELETE p (delete_body config input) s s' r.
Proof. apply credentialed_run. clear. intros resp s. by split_matches. Qed.

(** Reads and an error, or reads and then events satisfying [Q]. *)
Definition guarded {A} (Q : list event → Prop) s s' (r : outcome error A) : Prop :=
  ∃ evs, gh_trace s' = gh_trace s ++ evs ∧
    ((Forall reads_only evs ∧ ∃ e, r = Throw e) ∨
     (∃ pre last, evs = pre ++ last ∧ Forall reads_only pre ∧ Q last)).

Lemma guarded_step {A} Q s s1 s' (r : outcome error A) :
  appends reads_only s s1 → guarded Q s1 s' r → guarded Q s s' r.
Proof.
  intros (e1 & H1 & F1) (e2 & H2 & [[F2 He]|(pre & last & -> & Fp & HQ)]); rewrite H1 in H2.
  - exists (e1 ++ e2). rewrite H2, <- app_assoc. split; [done|]. left. split; [by apply Forall_app|done].
  - exists (e1 ++ pre ++ last). rewrite H2, <- app_assoc. split; [done|]. right.
    exists (e1 ++ pre), last. rewrite <- app_assoc. split; [done|]. split; [by apply Forall_app|done].
Qed.

Lemma guarded_throw {A} Q s s' (e : error) : appends reads_only s s' → guarded (A := A) Q s s' (Throw e).
Proof. intros (evs & H & F). exists evs. split; [done|]. left. eauto. Qed.

Lemma guarded_bind {A B} Q (m : eff (gh_state W) error A) (k : A → eff (gh_state W) error B) s s' r :
  keeps (appends reads_only) m → (m ≫= k) s = (s', r) →
  (∀ s1 a, m s = (s1, Ok a) → k a s1 = (s', r) → guarded Q s1 s' r) → guarded Q s s' r.
Proof.
  intros Hm [(s1 & a & H1 & H2)|(e & H1 & ->)]%bind_run Hk; pose proof (keeps_run _ _ _ _ _ Hm H1).
  - eapply guarded_step; [done|]. by apply (Hk s1 a).
  - by apply guarded_throw.
Qed.

Lemma guarded_lift {A B} Q (o : outcome error A) (k : A → eff (gh_state W) error B) s s' r :
  (lift o ≫= k) s = (s', r) → (∀ a, o = Ok a → k a s = (s', r) → guarded Q s s' r) → guarded Q s s' r.
Proof.
  intros H Hk. eapply guarded_bind; [apply (keeps_lift _)|exact H|].
  intros s1 a Ho H2. injection Ho as <- ->. by eapply Hk.
Qed.

Lemma guarded_mutation {A} method p body s s' (r : outcome error A) :
  mutation_run method p body s s' r → guarded (λ evs, ∃ s1, sent method p body s1 evs) s s' r.
Proof.
  intros (evs & H & [[-> He]|Hs]).
  - exists []. split; [done|]. by left.
  - exists evs. split; [done|]. right. by exists [], evs.
Qed.

Lemma guarded_impl {A} (Q Q' : list event → Prop) s s' (r : outcome error A) :
  (∀ evs, Q evs → Q' evs) → guarded Q s s' r → guarded Q' s s' r.
Proof.
  intros HQ (evs & H & [?|(pre & last & ? & ? & ?)]); exists evs; (split; [done|]); [by left|right].
  exists pre, last. auto.
Qed.

Lemma find_artifact_id id l a : find_artifact id l = Some a → a ∈ l ∧ md_id (am_meta a) = id.
Proof.
  unfold find_artifact. intros [H1 H2]%find_some. split; [by apply list_elem_of_In|].
  by apply str_eqb_eq.
Qed.

(** The entry an artifact was read from, and its blob. *)
Definition held_at (tree : list tree_entry) (p sha : str) : Prop :=
  ∃ e, find_entry p tree = Some e ∧ te_sha e = Some sha ∧ sha ≠ [].

Lemma entry_sha_held p tree sha : entry_sha (find_entry p tree) = Some sha → held_at tree p sha.
Proof.
  unfold entry_sha, held_at. destruct (find_entry p tree) as [e|]; [|done]. cbn.
  destruct (te_sha e) as [[|c t]|] eqn:E; [done| |done]. intros [= <-]. by exists e.
Qed.
End RepositoryFacts.

(** One step of a [guarded] goal with the run in [H]. *)
Ltac guarded_step_tac H :=
  cbv beta iota in H;
  lazymatch type of H with
  | (lift _ ≫= _) _ = _ => eapply guarded_lift; [exact H|clear H]
  | _ => eapply guarded_bind; [|exact H|clear H]; [by auto with adt_keeps|]
  end.

(** Re-associate a run whose first step is itself a sequence. *)
Ltac guarded_assoc H := cbv beta iota in H; rewrite bind_bind in H; cbv beta in H.

Section WriteProtocol.
Context `{L : Libs} {W : Type} `{G : !GithubEnv W}.
Variable config : gh_config.
Implicit Types s : gh_state W.

(** The last request of an update and what was established before it. *)
Definition update_sent (input : update_input) s (evs : list event) : Prop :=
  ∃ metadata markdown tree artifact s0 s1 s2,
    prepareArtifactWrite (ui_metadata input) (ui_body input) = Ok (metadata, markdown) ∧
    fetchTree config CapWrite (cf_branch config) s = (s0, Ok tree) ∧
    md_id (am_meta artifact) = ui_id input ∧
    (∃ artifacts, artifactsFromTree config tree CapWrite s0 = (s1, Ok artifacts) ∧ artifact ∈ artifacts) ∧
    held_at tree (am_path artifact) (ui_sha input) ∧
    isSupportedArtifactMutationPath (am_path artifact) = true ∧
    is_ok (validateImmutableArtifactMetadata artifact metadata) = true ∧
    sent config PUT (am_path artifact)
      (write_body config (js "Update artifact " ++ ui_id input ++ requested_by (ui_actor input))
         markdown (Some (ui_sha input))) s2 evs.

(** C1: an update is guarded by the revision the caller saw. Whatever GitHub answers, the
    operation either fails after reads only, or it ends with a single PUT, and then: the
    tree it fetched holds the artifact's file at exactly the caller's blob SHA, which the
    PUT repeats (so GitHub refuses it if the file changed since); the file is the one that
    the requested identifier was read from, at a path that may be mutated; and identifier,
    type, source and creation time are those of the stored artifact. *)
Theorem update_protocol input s s' r :
  update config input s = (s', r) →
  guarded (update_sent input s) s s' r.
Proof.
  unfold update. intros H.
  guarded_step_tac H; intros u1 _ H. guarded_step_tac H; intros [metadata markdown] Hp H.
  guarded_step_tac H; intros u2 Hid%guard_throw_ok H. to_prop.
  match goal with E : str_eqb _ _ = true |- _ => apply str_eqb_eq in E; rename E into Hid end.
  guarded_step_tac H; intros s0 tree Ht H.
  guarded_step_tac H; intros s1 artifacts Ha H.
  guarded_step_tac H; intros artifact Hf%from_option_throw_ok H.
  guarded_step_tac H; intros sha Hs%from_option_throw_ok H.
  guarded_step_tac H; intros u3 Hsha%guard_throw_ok H. apply str_eqb_eq in Hsha as ->.
  guarded_step_tac H; intros u4 Hm%guard_throw_ok H.
  guarded_step_tac H; intros m' Hi H.
  apply find_artifact_id in Hf as [Hin Haid]. apply entry_sha_held in Hs.
  apply writeContents_run, guarded_mutation in H. rewrite Hid in H.
  destruct Hs as (e & He & Hsha & Hne). destruct (ui_sha input) as [|c t] eqn:Esha; [done|].
  eapply guarded_impl; [|exact H]. intros evs [s2 Hsent].
  exists metadata, markdown, tree, artifact, s0, s1, s2. rewrite Hi.
  rewrite Esha. split_and!; eauto. by exists e.
Qed.

(** What a creation established before its PUT. *)
Definition created_fresh (metadata : ArtifactMetadata) (markdown path msg : str) s (evs : list event) : Prop :=
  ∃ tree artifacts s0 s1 s2,
    canonicalArtifactWritePath (md_type metadata) (md_id metadata) = Some path ∧
    fetchTree config CapWrite (cf_branch config) s = (s0, Ok tree) ∧ find_entry path tree = None ∧
    artifactsFromTree config tree CapWrite s0 = (s1, Ok artifacts) ∧
    find_artifact (md_id metadata) artifacts = None ∧
    sent config PUT path (write_body config msg markdown None) s2 evs.

Lemma existsb_find {A} (f : A → bool) l : negb (existsb f l) = true → List.find f l = None.
Proof.
  intros H%negb_true_iff. induction l as [|x l IH]; cbn in *; [done|].
  destruct (f x); [done|by apply IH].
Qed.

Lemma createValidated_run metadata markdown path msg s s' r :
  createValidatedArtifactAtPath config (metadata, markdown) path msg s = (s', r) →
  guarded (created_fresh metadata markdown path msg s) s s' r.
Proof.
  unfold createValidatedArtifactAtPath. intros H.
  guarded_step_tac H; intros u1 Hp%guard_throw_ok H. to_prop.
  guarded_step_tac H; intros s0 tree Ht H.
  guarded_step_tac H; intros u2 Hn%guard_throw_ok%existsb_find H.
  guarded_step_tac H; intros s1 artifacts Ha H.
  guarded_step_tac H; intros u3 Hi%guard_throw_ok%existsb_find H.
  apply writeContents_run, guarded_mutation in H.
  eapply guarded_impl; [|exact H]. intros evs [s2 Hsent].
  exists tree, artifacts, s0, s1, s2. by split_and!.
Qed.

Definition create_sent (input : create_input) s (evs : list event) : Prop :=
  ∃ metadata markdown path,
    prepareArtifactWrite (ci_metadata input) (ci_body input) = Ok (metadata, markdown) ∧
    created_fresh metadata markdown path
      (js "Create artifact " ++ md_id metadata ++ requested_by (ci_actor input)) s evs.

(** C24: creation never overwrites. A [create] either fails after reads only, or it ends with
    a single PUT that carries no SHA (so GitHub refuses it when the file exists) to the
    canonical path of the prepared metadata, and the tree it fetched has neither a blob at
    that path nor an artifact with that identifier. *)
Theorem create_never_overwrites input s s' r :
  create config input s = (s', r) →
  guarded (create_sent input s) s s' r.
Proof.
  unfold create. intros H.
  guarded_step_tac H; intros u1 _ H. guarded_step_tac H; intros [metadata markdown] Hp H.
  guarded_step_tac H; intros path _ H.
  apply createValidated_run in H. eapply guarded_impl; [|exact H]. intros evs Hev.
  by exists metadata, markdown, path.
Qed.

Definition variation_sent (input : variation_input) (evs : list event) : Prop :=
  ∃ id metadata metadata' markdown path now bytes s0,
    prepareVariation (vi_source input) (vi_title input) now bytes = Ok (id, metadata) ∧
    prepareArtifactWrite (metadata_js metadata) (trim (vi_body input)) = Ok (metadata', markdown) ∧
    canonicalArtifactWritePath (md_type metadata) id = Some path ∧
    created_fresh metadata' markdown path
      (js "Create variation " ++ id ++ js " from " ++ md_id (am_meta (vi_source input))
       ++ requested_by (vi_actor input)) s0 evs.

(** A variation is created under the same protection as a new artifact: reads only and
    an error, or one PUT without a SHA to the canonical path of the generated identifier. *)
Theorem variation_never_overwrites input s s' r :
  createVariation config input s = (s', r) →
  guarded (variation_sent input) s s' r.
Proof.
  unfold createVariation. intros H.
  guarded_step_tac H; intros u1 _ H. guarded_step_tac H; intros s0 now _ H.
  guarded_step_tac H; intros s1 bytes _ H. guarded_step_tac H; intros [id metadata] Hv H.
  guarded_step_tac H; intros path Hp%from_option_throw_ok H.
  guarded_step_tac H; intros [metadata' markdown] Hw H.
  apply bind_run in H as [(s2 & res & H & Hr)|(e & H & ->)]; apply createValidated_run in H.
  - injection Hr as <- <-. destruct H as (evs & H & [[_ [e He]]|(pre & last & -> & Hpre & HQ)]); [done|].
    exists (pre ++ last). split; [done|]. right. exists pre, last. split; [done|]. split; [done|].
    by exists id, metadata, metadata', markdown, path, now, bytes, s1.
  - destruct H as (evs & H & [[Hr He]|(pre & last & -> & Hpre & HQ)]).
    + exists evs. split; [done|]. left. eauto.
    + exists (pre ++ last). split; [done|]. right. exists pre, last. split; [done|]. split; [done|].
      by exists id, metadata, metadata', markdown, path, now, bytes, s1.
Qed.

Definition delete_sent (input : delete_input) s (evs : list event) : Prop :=
  ∃ tree artifact artifacts s0 s1 s2,
    fetchTree config CapWrite (cf_branch config) s = (s0, Ok tree) ∧
    artifactsFromTree config tree CapWrite s0 = (s1, Ok artifacts) ∧ artifact ∈ artifacts ∧
    md_id (am_meta artifact) = di_id input ∧
    held_at tree (am_path artifact) (di_sha input) ∧
    isSupportedArtifactMutationPath (am_path artifact) = true ∧
    sent config DELETE (am_path artifact) (delete_body config input) s2 evs.

(** A deletion is guarded like an update: reads only and an error, or a single DELETE of
    the file the identifier was read from, at the blob SHA the caller supplied and the
    fetched tree confirms, at a path that may be mutated. *)
Theorem delete_protocol input s s' r :
  delete_artifact config input s = (s', r) →
  guarded (delete_sent input s) s s' r.
Proof.
  unfold delete_artifact, resolveDeletion. intros H.
  guarded_assoc H. guarded_step_tac H; intros u1 _ H.
  guarded_assoc H. guarded_step_tac H; intros s0 tree Ht H.
  guarded_assoc H. guarded_step_tac H; intros s1 artifacts Ha H.
  guarded_assoc H. guarded_step_tac H; intros artifact Hf%from_option_throw_ok H.
  guarded_assoc H. guarded_step_tac H; intros u2 Hm%guard_throw_ok H.
  guarded_assoc H. guarded_step_tac H; intros sha Hs%from_option_throw_ok H.
  guarded_assoc H. guarded_step_tac H; intros u3 Hsha%guard_throw_ok H. apply str_eqb_eq in Hsha as ->.
  apply find_artifact_id in Hf as [Hin Hid]. apply entry_sha_held in Hs.
  change (deleteContents config (am_path artifact) input s1 = (s', r)) in H.
  apply deleteContents_run, guarded_mutation in H.
  eapply guarded_impl; [|exact H]. intros evs [s2 Hsent].
  exists tree, artifact, artifacts, s0, s1, s2. by split_and!.
Qed.
End WriteProtocol.

(** ** Loaded catalogues *)

Section CatalogueFacts.
Context `{L : Libs} {LL : LibsLaws L} {W : Type} `{G : !GithubEnv W}.
Variable config : gh_config.
Implicit Types s : gh_state W.

Lemma parse_path raw p a : parseArtifactMarkdown raw p = Ok a → am_path a = p.
Proof.
  unfold parseArtifactMarkdown. intros H. split_matches_in H; by simplify_eq.
Qed.

Lemma load_entry_run c file s s' a :
  load_entry config c file s = (s', Ok a) →
  te_path file = Some (am_path a) ∧ classifyArtifactPath (am_path a) = Some Canonical.
Proof.
  unfold load_entry, entry_path. destruct (te_path file) as [[|x p]|]; [done| |done].
  destruct (entry_sha (Some file)) as [sha|]; [|done]. cbn [from_option]. unfold id.
  destruct (classifyArtifactPath (x :: p)) as [[]|] eqn:Ec; [|done].
  unfold as_content_error, try_catch. unfold mbind, eff_bind.
  destruct (fetchBlob _ _ _ _ s) as [s1 [raw|e]]; [|by destruct e].
  unfold lift. destruct (parseArtifactMarkdown raw (x :: p)) as [a'|e] eqn:E; [|by destruct e].
  intros [= _ ->]. apply parse_path in E as ->. by rewrite Ec.
Qed.

Lemma artifactsFromTree_run tree c s s' artifacts :
  artifactsFromTree config tree c s = (s', Ok artifacts) →
  map Some (map am_path artifacts) = map te_path (List.filter is_candidate tree) ∧
  Forall (λ a, classifyArtifactPath (am_path a) = Some Canonical) artifacts ∧
  NoDup (map (λ a, md_id (am_meta a)) artifacts).
Proof.
  unfold artifactsFromTree.
  intros [(s1 & l & Hl & H)|(e & _ & ?)]%bind_run; [|done].
  apply bind_run in H as [(s2 & u & Hu & H)|(e & _ & ?)]; [|done].
  injection H as _ <-. apply lift_run in Hu as [_ Hu]. destruct u.
  apply for_each_run in Hl.
  assert (Hlp : Forall2 (λ f a, te_path f = Some (am_path a) ∧
                               classifyArtifactPath (am_path a) = Some Canonical)
               (List.filter is_candidate tree) l).
  { eapply Forall2_impl; [exact Hl|]. intros f a (s3 & s4 & H). by eapply load_entry_run. }
  assert (Hc : Forall (λ a, classifyArtifactPath (am_path a) = Some Canonical) l).
  { clear -Hlp. induction Hlp as [|f a fs l [_ H] Hlp IH]; by constructor. }
  split; [|split; [done|]].
  - clear -Hlp. induction Hlp as [|f a fs l [H _] Hlp IH]; cbn; [done|]. by rewrite H, IH.
  - apply unique_ids_spec; [|by rewrite Hu]. eapply Forall_impl; [exact Hc|].
    intros a Ha Hn. cbn beta in Ha. by rewrite Hn in Ha.
Qed.

Lemma collect_shas_spec tree artifacts acc shas :
  collect_shas tree artifacts acc = Ok shas → NoDup (map (λ a, md_id (am_meta a)) artifacts) →
  ∀ id, id ≠ js "__proto__" →
    match find_artifact id artifacts with
    | Some a => ∃ sha, assoc id shas = Some sha ∧ is_sha sha = true ∧ held_at tree (am_path a) sha
    | None => assoc id shas = assoc id acc
    end.
Proof.
  revert acc. induction artifacts as [|a l IH]; intros acc; cbn; [by intros [= <-]|].
  destruct (entry_sha _) as [sha|] eqn:E; [|done]. destruct (is_sha sha) eqn:Es; [|done].
  intros H [Hn Hnd]%NoDup_cons id Hid. specialize (IH _ H Hnd id Hid). clear H. fold (find_artifact id l).
  destruct (str_eqb (md_id (am_meta a)) id) eqn:Eid.
  - apply str_eqb_eq in Eid. subst id.
    destruct (find_artifact (md_id (am_meta a)) l) as [b|] eqn:Eb.
    { exfalso. apply Hn. apply find_artifact_id in Eb as [Hb <-].
      apply list_elem_of_fmap. by exists b. }
    exists sha. rewrite IH. unfold record_set, str_eqb. rewrite bool_decide_eq_false_2 by done.
    rewrite assoc_obj_set, str_eqb_refl. auto using entry_sha_held.
  - destruct (find_artifact id l) as [b|]; [done|]. rewrite IH. unfold record_set.
    destruct (str_eqb _ (js _)); [done|]. rewrite assoc_obj_set.
    destruct (str_eqb id (md_id (am_meta a))) eqn:E'; [|done].
    apply str_eqb_eq in E'. subst id. by rewrite str_eqb_refl in Eid.
Qed.

(** A loaded catalogue is consistent with one tree of one revision: its artifacts are the
    candidate files of the tree, at canonical paths and with distinct identifiers, in title
    order; and [fileShas] gives each identifier the blob SHA, of valid shape, that the tree
    holds at the artifact's path ([__proto__] cannot be a key of the record). *)
Theorem catalogue_consistent rev s s' c :
  loadCatalogue config (Some rev) s = (s', Ok c) →
  cg_revision c = rev ∧
  ∃ s1 tree artifacts, fetchTree config CapRead rev s = (s1, Ok tree) ∧
    cg_artifacts c = by_title artifacts ∧ Permutation (cg_artifacts c) artifacts ∧
    map Some (map am_path artifacts) = map te_path (List.filter is_candidate tree) ∧
    Forall (λ a, classifyArtifactPath (am_path a) = Some Canonical) artifacts ∧
    NoDup (map (λ a, md_id (am_meta a)) artifacts) ∧
    ∀ a, a ∈ artifacts → md_id (am_meta a) ≠ js "__proto__" →
      ∃ sha, assoc (md_id (am_meta a)) (cg_fileShas c) = Some sha ∧ is_sha sha = true ∧
             held_at tree (am_path a) sha.
Proof.
  unfold loadCatalogue, resolve_revision.
  intros [(s1 & r & [= <- <-] & H)|(e & _ & ?)]%bind_run; [|done].
  apply bind_run in H as [(s1 & tree & Ht & H)|(e & _ & ?)]; [|done].
  apply bind_run in H as [(s2 & artifacts & Ha & H)|(e & _ & ?)]; [|done].
  apply bind_run in H as [(s3 & shas & Hs & H)|(e & _ & ?)]; [|done].
  injection H as _ <-. apply lift_run in Hs as [_ Hs]. symmetry in Hs.
  apply artifactsFromTree_run in Ha as (Hp & Hc & Hnd).
  split; [done|]. exists s1, tree, artifacts. cbn [cg_artifacts cg_fileShas].
  split_and!; [done|done|apply sort_list_perm|done..|].
  intros a Hin Hid. pose proof (collect_shas_spec _ _ _ _ Hs Hnd _ Hid) as Hf.
  destruct (find_artifact (md_id (am_meta a)) artifacts) as [b|] eqn:Eb.
  - apply find_artifact_id in Eb as [Hb E]. assert (a = b) as ->; [|done].
    apply list_elem_of_lookup in Hin as [i Hi], Hb as [j Hj].
    assert (i = j) as ->; [|by simplify_eq].
    eapply NoDup_lookup; [exact Hnd|..]; change (map ?f artifacts) with (f <$> artifacts);
      rewrite list_lookup_fmap, ?Hi, ?Hj; cbn; [done|]. by rewrite E.
  - exfalso. unfold find_artifact in Eb.
    apply list_elem_of_In in Hin. eapply find_none in Eb; [|exact Hin]. by rewrite str_eqb_refl in Eb.
Qed.
End CatalogueFacts.

(** ** Backend selection *)

Section BackendFacts.
(** The repository handed to a request is the configured one and never the local files in
    production: the factory gives the file backend only outside production, and the GitHub
    backend only when the authorised owner and name are the configured ones up to case, with
    a safe integer identifier and a non-empty branch. *)
Theorem backend_selection env access r :
  createArtifactRepository env access = Ok r →
  match r with
  | FileRepository => en_NODE_ENV env ≠ Some (js "production")
  | GitHubRepository c =>
      to_lower (cf_owner c) = to_lower (default [] (en_OWNER env)) ∧
      to_lower (cf_repo c) = to_lower (default [] (en_NAME env)) ∧
      cf_owner c = ac_owner access ∧ cf_repo c = ac_repo access ∧ cf_branch c ≠ [] ∧
      is_safe_integer (JNum (ac_repositoryId access)) = true
  end.
Proof.
  unfold createArtifactRepository, getArtifactRepositoryBackend. intros H. inv_bind.
  destruct x.
  - split_matches_in H0; simplify_eq; split_matches_in H; to_prop; done.
  - inv_bind. repeat match goal with H : guard_throw _ _ = Ok _ |- _ => apply guard_throw_ok in H end.
    simplify_eq. to_prop. repeat match goal with H : str_eqb _ _ = true |- _ => apply str_eqb_eq in H end.
    split_and!; try done. by apply nonempty_true.
Qed.
End BackendFacts.

(** ** Accounting of the validation report *)

Section Report.
Abbreviation entry_result := (nat * (ArtifactModel + diagnostic))%type.
Implicit Types results : list entry_result.

(** Whether an entry is reported: it could not be read, or its identifier is shared. *)
Definition reported results (r : entry_result) : bool :=
  match result_artifact r with
  | Some a => (1 <? length (same_id results (md_id (am_meta a))))%nat
  | None => true
  end.

Lemma elem_of_same_id results id r :
  r ∈ same_id results id ↔ r ∈ results ∧ ∃ a, result_artifact r = Some a ∧ md_id (am_meta a) = id.
Proof.
  unfold same_id. rewrite !list_elem_of_In, filter_In, bool_decide_eq_true.
  destruct (result_artifact r); cbn; naive_solver.
Qed.

Lemma reported_indices results i :
  i ∈ map fst (diagnostics_of results) ↔ ∃ r, r ∈ results ∧ r.1 = i ∧ reported results r = true.
Proof.
  unfold diagnostics_of, duplicate_diagnostics. rewrite map_app, elem_of_app. split.
  - intros [H|H]; apply list_elem_of_fmap in H as (d & -> & Hd).
    + apply list_elem_of_omap in Hd as (r & Hr & E). exists r. unfold result_error, reported in *.
      destruct r as [i [a|e]]; by simplify_eq/=.
    + apply list_elem_of_In, in_flat_map in Hd as (id & _ & Hd).
      destruct (1 <? _)%nat eqn:Hlen; [|done]. apply list_elem_of_In, list_elem_of_fmap in Hd as (r & -> & Hr).
      pose proof Hr as (Hin & a & Ha & <-)%elem_of_same_id. exists r. unfold reported. by rewrite Ha.
  - intros (r & Hr & <- & Hb). unfold reported in Hb. destruct (result_artifact r) as [a|] eqn:Ha.
    + right. apply list_elem_of_fmap. exists (duplicate_diagnostic r). split; [done|].
      apply list_elem_of_In, in_flat_map. exists (md_id (am_meta a)). split.
      * apply list_elem_of_In, elem_of_dedup, list_elem_of_fmap. exists a. split; [done|].
        apply list_elem_of_omap. by exists r.
      * rewrite Hb. apply list_elem_of_In, list_elem_of_fmap. exists r. split; [done|].
        apply elem_of_same_id. eauto.
    + left. apply list_elem_of_fmap. destruct r as [i [a|d]]; [done|]. exists (i, d). split; [done|].
      apply list_elem_of_omap. by exists (i, inr d).
Qed.

Lemma NoDup_filter_fst (f : entry_result → bool) results :
  NoDup (map fst results) → NoDup (map fst (List.filter f results)).
Proof.
  induction results as [|r l IH]; cbn; [done|]. intros [Hn Hnd]%NoDup_cons.
  destruct (f r); cbn; [|by apply IH]. apply NoDup_cons. split; [|by apply IH].
  intros Hin. apply Hn. apply list_elem_of_fmap in Hin as (x & -> & Hx).
  apply list_elem_of_fmap. exists x. split; [done|].
  apply list_elem_of_In, filter_In in Hx as [Hx _]. by apply list_elem_of_In.
Qed.

Lemma length_invalid results :
  NoDup (map fst results) →
  length (dedup (map fst (diagnostics_of results))) = length (List.filter (reported results) results).
Proof.
  intros Hnd. rewrite <- (length_map fst (List.filter _ _)). apply Permutation_length, NoDup_Permutation.
  - apply NoDup_dedup.
  - by apply NoDup_filter_fst.
  - intros i. rewrite elem_of_dedup, reported_indices, list_elem_of_fmap.
    setoid_rewrite list_elem_of_In. setoid_rewrite filter_In. naive_solver.
Qed.

Lemma filter_partition {A} (f : A → bool) (l : list A) :
  (length (List.filter f l) + length (List.filter (λ x, negb (f x)) l))%nat = length l.
Proof. induction l as [|x l IH]; cbn; [done|]. destruct (f x); cbn; lia. Qed.

Lemma length_valid (f : entry_result → bool) results :
  length (omap result_artifact results) =
  (length (List.filter (λ r, match result_artifact r with Some _ => f r | None => false end) results)
   + length (List.filter (λ r, match result_artifact r with Some _ => negb (f r) | None => false end) results))%nat.
Proof.
  induction results as [|r l IH]; cbn; [done|]. destruct (result_artifact r); cbn; [|done].
  destruct (f r); cbn; rewrite IH; lia.
Qed.

Lemma filter_ext_elem {A} (f g : A → bool) l :
  (∀ x, x ∈ l → f x = g x) → List.filter f l = List.filter g l.
Proof.
  induction l as [|x l IH]; intros H; cbn; [done|]. rewrite (H x) by set_solver.
  rewrite IH; [done|]. intros y Hy. apply H. set_solver.
Qed.

(** An index identifies its entry. *)
Lemma index_inj results r r' :
  NoDup (map fst results) → r ∈ results → r' ∈ results → r.1 = r'.1 → r = r'.
Proof.
  intros Hnd [i Hi]%list_elem_of_lookup [j Hj]%list_elem_of_lookup E.
  assert (i = j) as ->; [|by simplify_eq].
  eapply NoDup_lookup; [exact Hnd|..]; change (map fst results) with (fst <$> results);
    rewrite list_lookup_fmap, ?Hi, ?Hj; cbn; [done|]. by rewrite E.
Qed.

(** The validation report adds up, for any outcomes of the candidate files: every file is
    counted exactly once, as valid or as invalid; the valid ones are those that parsed and
    whose identifier no other parsed file has; at most 50 diagnostics are listed, and the
    listed and the omitted ones are all the diagnostics. *)
Theorem report_accounting rev (outcomes : list (ArtifactModel + diagnostic)) :
  let results := imap pair outcomes in
  let rp := report_of rev results in
  (rp_validCount rp + rp_invalidCount rp = Z.of_nat (length outcomes))%Z ∧
  rp_validCount rp = Z.of_nat (length (List.filter (λ r, negb (reported results r)) results)) ∧
  (length (rp_errors rp) ≤ 50)%nat ∧
  (Z.of_nat (length (rp_errors rp)) + rp_omittedErrorCount rp
   = Z.of_nat (length (diagnostics_of results)))%Z.
Proof.
  intros results rp.
  assert (Hlen : length results = length outcomes) by apply length_imap.
  assert (Hnd : NoDup (map fst results)).
  { assert (map fst results = seq 0 (length outcomes)) as ->; [|apply NoDup_seq].
    unfold results. change (map fst ?l) with (fst <$> l). rewrite fmap_imap.
    apply list_eq. intros i. rewrite list_lookup_imap.
    destruct (decide (i < length outcomes)) as [Hi|Hi].
    - destruct (lookup_lt_is_Some_2 outcomes i Hi) as [x ->]. cbn. symmetry. by apply lookup_seq.
    - rewrite lookup_ge_None_2 by lia. cbn. symmetry. apply lookup_ge_None_2. rewrite length_seq. lia. }
  clearbody results. rewrite <- Hlen. clear Hlen outcomes.
  unfold rp, report_of. cbn [rp_validCount rp_invalidCount rp_errors rp_omittedErrorCount].
  rewrite (length_invalid results Hnd), length_map, length_take.
  pose proof (filter_partition (reported results) results) as Hpart.
  pose proof (length_valid (reported results) results) as Hval.
  set (inv := dedup (map fst (diagnostics_of results))).
  rewrite (filter_ext_elem (λ r, match result_artifact r with Some _ => bool_decide (r.1 ∈ inv) | None => false end)
    (λ r, match result_artifact r with Some _ => reported results r | None => false end)).
  2: { intros r Hr. destruct (result_artifact r); [|done]. apply eq_true_iff_eq.
       rewrite bool_decide_eq_true. unfold inv. rewrite elem_of_dedup, reported_indices. split.
       - intros (r' & Hr' & E & Hb). by rewrite (index_inj results r r') by done.
       - eauto. }
  rewrite (filter_ext_elem (λ r, match result_artifact r with Some _ => negb (reported results r) | None => false end)
    (λ r, negb (reported results r))) in Hval.
  2: { intros r _. unfold reported. by destruct (result_artifact r). }
  lia.
Qed.
End Report.

(** ** Witnesses *)

Module RepositoryExamples.
Import ToyLibs ScriptedGithub.

Definition config : gh_config := GhConfig (js "o") (js "r") (js "main") [].
Definition markdown : str := WriteExamples.written.2.
Definition answers : list fetch_result :=
  [tree_of [(js "prompts/a-1.md", js "abc1234")]; blob_of markdown].
Definition fresh_meta : jsval :=
  JObj [(js "id", JStr (js "b-2")); (js "title", JStr (js "Other")); (js "type", JStr (js "snippet"))].

Definition update_run :=
  update config (UpdateInput (js "a-1") ContractExamples.raw (js "New body") (js "abc1234") (js "octocat"))
    (start (answers ++ [written (js "prompts/a-1.md")])).
Definition create_run :=
  create config (CreateInput fresh_meta (js "Body") (js "octocat"))
    (start (answers ++ [written (js "snippets/b-2.md")])).
Definition delete_run :=
  delete_artifact config (DeleteInput (js "a-1") (js "abc1234") (js "octocat"))
    (start (answers ++ [deleted])).
Definition variation_run :=
  createVariation config (VariationInput ContractExamples.artifact (js "Body") None (js "octocat"))
    (start (answers ++ [written (js "prompts/hello-variation-2023-11-14-221320-abababab.md")])).

Lemma update_protocol_witness :
  is_ok update_run.2 = true ∧
  guarded (update_sent config
             (UpdateInput (js "a-1") ContractExamples.raw (js "New body") (js "abc1234") (js "octocat"))
             (start (answers ++ [written (js "prompts/a-1.md")])))
    (start (answers ++ [written (js "prompts/a-1.md")])) update_run.1 update_run.2.
Proof.
  split; [vm_compute; reflexivity|]. apply update_protocol. unfold update_run. apply surjective_pairing.
Defined.

Lemma create_never_overwrites_witness :
  is_ok create_run.2 = true ∧
  guarded (create_sent config (CreateInput fresh_meta (js "Body") (js "octocat"))
             (start (answers ++ [written (js "snippets/b-2.md")])))
    (start (answers ++ [written (js "snippets/b-2.md")])) create_run.1 create_run.2.
Proof.
  split; [vm_compute; reflexivity|]. apply create_never_overwrites. unfold create_run. apply surjective_pairing.
Defined.

Lemma delete_protocol_witness :
  is_ok delete_run.2 = true ∧
  guarded (delete_sent config (DeleteInput (js "a-1") (js "abc1234") (js "octocat"))
             (start (answers ++ [deleted])))
    (start (answers ++ [deleted])) delete_run.1 delete_run.2.
Proof.
  split; [vm_compute; reflexivity|]. apply delete_protocol. unfold delete_run. apply surjective_pairing.
Defined.

Lemma variation_never_overwrites_witness :
  is_ok variation_run.2 = true ∧
  guarded (variation_sent config (VariationInput ContractExamples.artifact (js "Body") None (js "octocat")))
    (start (answers ++ [written (js "prompts/hello-variation-2023-11-14-221320-abababab.md")]))
    variation_run.1 variation_run.2.
Proof.
  split; [vm_compute; reflexivity|]. apply variation_never_overwrites. unfold variation_run. apply surjective_pairing.
Defined.

Definition load_run := loadCatalogue config (Some (js "beef123")) (start answers).
Definition loaded : catalogue :=
  match load_run.2 with Ok c => c | Throw _ => Catalogue [] [] [] end.

Lemma catalogue_consistent_witness :
  cg_revision loaded = js "beef123" ∧
  ∃ s1 tree artifacts, fetchTree config CapRead (js "beef123") (start answers) = (s1, Ok tree) ∧
    cg_artifacts loaded = by_title artifacts ∧ Permutation (cg_artifacts loaded) artifacts ∧
    map Some (map am_path artifacts) = map te_path (List.filter is_candidate tree) ∧
    Forall (λ a, classifyArtifactPath (am_path a) = Some Canonical) artifacts ∧
    NoDup (map (λ a, md_id (am_meta a)) artifacts) ∧
    ∀ a, a ∈ artifacts → md_id (am_meta a) ≠ js "__proto__" →
      ∃ sha, assoc (md_id (am_meta a)) (cg_fileShas loaded) = Some sha ∧ is_sha sha = true ∧
             held_at tree (am_path a) sha.
Proof.
  apply (catalogue_consistent config (js "beef123") (start answers) load_run.1 loaded).
  vm_compute. reflexivity.
Defined.

Definition env : repository_env :=
  RepositoryEnv (Some (js "github")) (Some (js "production")) (Some (js "Acme")) (Some (js "lib")) None.
Lemma backend_selection_witness :
  to_lower (js "acme") = to_lower (js "Acme") ∧ to_lower (js "lib") = to_lower (js "lib") ∧
  js "acme" = js "acme" ∧ js "lib" = js "lib" ∧ js "main" ≠ [] ∧ is_safe_integer (JNum (NInt 7)) = true.
Proof.
  apply (backend_selection env (AccessContext (js "acme") (js "lib") (NInt 7))
           (GitHubRepository (GhConfig (js "acme") (js "lib") (js "main") (js "canonical-root-v1")))).
  vm_compute. reflexivity.
Defined.
End RepositoryExamples.
