(* ===== verification/FileRepository.v ===== *)
(** * The file-backed artifact repository

    Models [walkMarkdownFiles] and [FileArtifactRepository] of
    [src/lib/artifact-repository.ts]. The repository directory is a tree of
    nodes; a path below it is the list of its segments. Files hold bytes.

    Properties: a variation is written to a path that did not exist and shows up
    in the next listing, and nothing else changes. *)

From S2P Require Import Prelude JsString Encoding JsDate Json Layout Libs Contract ArtifactWrite Repository.

Inductive node :=
| NFile (bytes : list N)
| NDir (entries : list (str * node))
| NOther.

Abbreviation directory := (list (str * node)).

(** [walkMarkdownFiles] on an existing directory: the paths of its [.md] files with their
    contents, in directory order. *)
Fixpoint walk_node (prefix : list str) (name : str) (n : node) : list (list str * list N) :=
  match n with
  | NDir entries => flat_map (λ '(name', n'), walk_node (prefix ++ [name]) name' n') entries
  | NFile bytes => if ends_with (js ".md") name then [(prefix ++ [name], bytes)] else []
  | NOther => []
  end.
Definition walk_entries (prefix : list str) (entries : directory) : list (list str * list N) :=
  flat_map (λ '(name, n), walk_node prefix name n) entries.

Definition enotdir : error := PlainError (js "ENOTDIR").

Definition walkMarkdownFiles (root : directory) (dir : str) : outcome error (list (list str * list N)) :=
  match assoc dir root with
  | None => Ok []
  | Some (NDir entries) => Ok (walk_entries [dir] entries)
  | Some _ => Throw enotdir
  end.

(** The nodes along a path: [mkdir(dirname, { recursive: true })] followed by
    [writeFile(path, bytes, { flag: "wx" })]. *)
Fixpoint write_new (path : list str) (bytes : list N) (entries : directory) : outcome error directory :=
  match path with
  | [] => Throw (PlainError (js "EISDIR"))
  | [name] =>
      match assoc name entries with
      | None => Ok (entries ++ [(name, NFile bytes)])
      | Some _ => Throw ArtifactDuplicateError
      end
  | name :: path =>
      match assoc name entries with
      | None => inner ← write_new path bytes []; Ok (entries ++ [(name, NDir inner)])
      | Some (NDir inner) => inner' ← write_new path bytes inner; Ok (obj_set name (NDir inner') entries)
      | Some _ => Throw enotdir
      end
  end.

Section FileRepository.
Context `{L : Libs}.

Definition load_file (f : list str * list N) : outcome error ArtifactModel :=
  let displayPath := join [slash] f.1 in
  if isSupportedArtifactPath displayPath
  then parseArtifactMarkdown (utf8_decode f.2) displayPath
  else Throw (PlainError (displayPath ++ js ": unsupported artifact path.")).

Fixpoint try_map {A B} (f : A → outcome error B) (l : list A) : outcome error (list B) :=
  match l with
  | [] => Ok []
  | a :: l => b ← f a; bs ← try_map f l; Ok (b :: bs)
  end.

Definition file_list (root : directory) : outcome error (list ArtifactModel) :=
  files ← try_map (walkMarkdownFiles root) ARTIFACT_DIRECTORIES;
  artifacts ← try_map load_file (concat files);
  _ ← validateUniqueArtifactIds artifacts;
  Ok (by_title artifacts).

Definition file_findById (root : directory) (id : str) : outcome error (option ArtifactModel) :=
  artifacts ← file_list root;
  Ok (find_artifact id artifacts).

(** The operations that need revisions or direct writes. *)
Definition file_unsupported {A} : outcome error A := Throw ArtifactRepositoryConfigurationError.

(** The repository after the call, the identifier and the target below the repository
    directory. *)
Definition file_createVariation (root : directory) (source : ArtifactModel) (body : str)
    (title : option str) (now : Z) (bytes : list N) : outcome error (directory * str * str) :=
  '(id, metadata) ← prepareVariation source title now bytes;
  '(_, markdown) ← prepareArtifactWrite (metadata_js metadata) (trim body);
  target ← from_option_throw ArtifactWriteValidationError (canonicalArtifactWritePath (md_type metadata) id);
  artifacts ← file_list root;
  _ ← guard_throw (negb (existsb (λ a, str_eqb (md_id (am_meta a)) id || str_eqb (am_path a) target) artifacts))
        ArtifactDuplicateError;
  root' ← write_new (split_on slash target) (utf8_encode markdown) root;
  Ok (root', id, target).
End FileRepository.

(** The file at a path. *)
Fixpoint file_at (path : list str) (entries : directory) : option (list N) :=
  match path with
  | [] => None
  | [name] => match assoc name entries with Some (NFile b) => Some b | _ => None end
  | name :: path => match assoc name entries with Some (NDir inner) => file_at path inner | _ => None end
  end.

Lemma assoc_app {A} k (o o' : list (str * A)) :
  assoc k (o ++ o') = match assoc k o with Some v => Some v | None => assoc k o' end.
Proof. induction o as [|[k' v] o IH]; cbn; [done|]. by destruct (str_eqb k k'). Qed.

Section TryMap.
Context {A B : Type} (f : A → outcome error B).

Lemma try_map_perm l k bs :
  Permutation l k → try_map f l = Ok bs → ∃ bs', try_map f k = Ok bs' ∧ Permutation bs' bs.
Proof.
  intros Hp. revert bs. induction Hp as [|a l k Hp IH|a a' l|l k m Hp1 IH1 Hp2 IH2]; intros bs; cbn.
  - by exists bs.
  - destruct (f a) as [b|]; cbn; [|done]. destruct (try_map f l) as [x|]; cbn; [|done].
    intros [= <-]. destruct (IH x eq_refl) as (y & -> & Hy). exists (b :: y). cbn.
    split; [done|]. by constructor.
  - destruct (f a') as [b'|], (f a) as [b|]; cbn; try done. destruct (try_map f l) as [x|]; cbn; [|done].
    intros [= <-]. exists (b :: b' :: x). split; [done|]. apply Permutation_swap.
  - intros H. destruct (IH1 _ H) as (x & Hx & Px). destruct (IH2 _ Hx) as (y & Hy & Py).
    exists y. split; [done|]. by rewrite Py.
Qed.

Lemma try_map_forall (P : B → Prop) l bs :
  (∀ a b, f a = Ok b → P b) → try_map f l = Ok bs → Forall P bs.
Proof.
  intros HP. revert bs. induction l as [|a l IH]; cbn; intros bs; [by intros [= <-]|].
  destruct (f a) as [b|] eqn:E; cbn; [|done]. destruct (try_map f l) as [x|]; cbn; [|done].
  intros [= <-]. constructor; eauto.
Qed.
End TryMap.

(** One directory gains one file. *)
Lemma walk_one_more (f f' : str → outcome error (list (list str * list N))) d x dirs files :
  NoDup dirs → d ∈ dirs → (∀ d', d' ≠ d → f' d' = f d') →
  (∀ fs, f d = Ok fs → f' d = Ok (fs ++ [x])) →
  try_map f dirs = Ok files →
  ∃ files', try_map f' dirs = Ok files' ∧ Permutation (concat files') (x :: concat files).
Proof.
  intros Hnd Hd Hother Hsame. revert files. induction dirs as [|d' dirs IH]; [set_solver|].
  apply NoDup_cons in Hnd as [Hn Hnd]. intros files. cbn.
  destruct (f d') as [fs|] eqn:E; cbn; [|done].
  destruct (try_map f dirs) as [rest|] eqn:Er; cbn; [|done]. intros [= <-].
  destruct (decide (d' = d)) as [->|Hne].
  - rewrite (Hsame _ E). cbn.
    assert (try_map f' dirs = Ok rest) as ->.
    { clear IH Hd E. rewrite <- Er. clear Er. induction dirs as [|y dirs IH]; cbn; [done|].
      rewrite Hother by set_solver. apply NoDup_cons in Hnd as [? ?]. rewrite IH; [done|set_solver|done]. }
    exists ((fs ++ [x]) :: rest). split; [done|]. cbn. rewrite <- app_assoc. cbn.
    by rewrite Permutation_middle.
  - rewrite Hother, E by done. cbn.
    destruct (IH Hnd ltac:(set_solver) rest eq_refl) as (files' & -> & Hp). cbn.
    exists (fs :: files'). split; [done|]. cbn. rewrite Hp. by rewrite Permutation_middle.
Qed.

Lemma directories_nodup : NoDup ARTIFACT_DIRECTORIES.
Proof. eval_decide. Qed.

Lemma write_new_walk d name bytes root root' :
  write_new [d; name] bytes root = Ok root' → ends_with (js ".md") name = true →
  (∀ d', d' ≠ d → walkMarkdownFiles root' d' = walkMarkdownFiles root d') ∧
  (∀ fs, walkMarkdownFiles root d = Ok fs →
     walkMarkdownFiles root' d = Ok (fs ++ [([d; name], bytes)])) ∧
  file_at [d; name] root = None ∧ file_at [d; name] root' = Some bytes.
Proof.
  intros H Hmd. assert (Hne : ∀ d', d' ≠ d → str_eqb d' d = false)
    by (intros d' Hd; unfold str_eqb; by rewrite bool_decide_eq_false_2).
  cbn in H. unfold walkMarkdownFiles. cbn [file_at].
  destruct (assoc d root) as [[b|inner|]|] eqn:Ed; try done.
  - destruct (assoc name inner) as [n|] eqn:En; [done|]. cbn in H. injection H as <-.
    split; [|split; [|split]].
    + intros d' Hd. by rewrite assoc_obj_set, Hne.
    + intros fs [= <-]. rewrite assoc_obj_set, str_eqb_refl. unfold walk_entries.
      rewrite flat_map_app. cbn. by rewrite Hmd.
    + done.
    + rewrite assoc_obj_set, str_eqb_refl. rewrite assoc_app, En. cbn. by rewrite str_eqb_refl.
  - cbn in H. injection H as <-. split; [|split; [|split]].
    + intros d' Hd. rewrite assoc_app. destruct (assoc d' root); [done|]. cbn. by rewrite Hne.
    + intros fs [= <-]. rewrite assoc_app, Ed. cbn. rewrite str_eqb_refl. cbn. by rewrite Hmd.
    + done.
    + rewrite assoc_app, Ed. cbn. rewrite str_eqb_refl. cbn. by rewrite str_eqb_refl.
Qed.

Section FileFacts.
Context `{L : Libs} {LL : LibsLaws L}.

Lemma load_file_path f a : load_file f = Ok a → am_path a ≠ [].
Proof.
  unfold load_file. destruct (isSupportedArtifactPath _) eqn:E; [|done].
  intros H%parse_path. rewrite H. intros Hn. by rewrite Hn in E.
Qed.

(** A new readable file with a new identifier is one more artifact in the listing. *)
Lemma file_list_grows d name bytes root root' a old :
  write_new [d; name] bytes root = Ok root' → ends_with (js ".md") name = true →
  d ∈ ARTIFACT_DIRECTORIES → load_file ([d; name], bytes) = Ok a → file_list root = Ok old →
  md_id (am_meta a) ∉ map (λ b, md_id (am_meta b)) old →
  ∃ listed, file_list root' = Ok listed ∧ Permutation listed (a :: old).
Proof.
  intros Hnew Hmd Hd Ha Hold Hfresh.
  destruct (write_new_walk _ _ _ _ _ Hnew Hmd) as (Hother & Hsame & _ & _).
  unfold file_list in Hold |- *.
  apply outcome_bind_ok in Hold as (files & Hf & Hold).
  apply outcome_bind_ok in Hold as (artifacts & Hm & Hold).
  apply outcome_bind_ok in Hold as (u & Hu & [= <-]). destruct u.
  destruct (walk_one_more _ (walkMarkdownFiles root') _ _ _ _ directories_nodup Hd Hother Hsame Hf)
    as (files' & -> & Hp). cbn [mbind outcome_bind].
  assert (Hmap : try_map load_file (([d; name], bytes) :: concat files) = Ok (a :: artifacts))
    by (cbn [try_map]; rewrite Ha; cbn [mbind outcome_bind]; by rewrite Hm).
  destruct (try_map_perm load_file _ _ _ (symmetry Hp) Hmap) as (listed & Hl & Hpl). rewrite Hl.
  cbn [mbind outcome_bind].
  assert (Hpaths : Forall (λ b, am_path b ≠ []) listed)
    by (eapply try_map_forall; [apply load_file_path|exact Hl]).
  assert (Hpaths0 : Forall (λ b, am_path b ≠ []) artifacts)
    by (eapply try_map_forall; [apply load_file_path|exact Hm]).
  assert (validateUniqueArtifactIds listed = Ok ()) as ->.
  { apply unique_ids_spec; [done|]. change (NoDup ((λ b, md_id (am_meta b)) <$> listed)).
    rewrite Hpl. cbn. apply NoDup_cons. split; [|by apply unique_ids_spec].
    intros Hin. apply Hfresh. change (md_id (am_meta a) ∈ (λ b, md_id (am_meta b)) <$> by_title artifacts).
    unfold by_title. by rewrite (sort_list_perm _ artifacts). }
  cbn [mbind outcome_bind]. exists (by_title listed). split; [done|].
  unfold by_title. by rewrite !sort_list_perm.
Qed.

(** A variation in the file backend is added and nothing else happens: its file did not
    exist before and holds the serialised Markdown afterwards, and the next listing succeeds
    with exactly the previous artifacts and the new one, whose metadata and body are those
    that were prepared. *)
Theorem file_variation_listed root source body title now bytes root' id target old metadata m markdown :
  file_createVariation root source body title now bytes = Ok (root', id, target) →
  prepareVariation source title now bytes = Ok (id, metadata) →
  prepareArtifactWrite (metadata_js metadata) (trim body) = Ok (m, markdown) →
  file_list root = Ok old → fenced (trim body) = false → utf16_ok markdown = true →
  file_at (split_on slash target) root = None ∧
  file_at (split_on slash target) root' = Some (utf8_encode markdown) ∧
  ∃ listed, file_list root' = Ok listed ∧
    Permutation listed
      (Artifact m (trim (trim body)) (toExcerpt (trim (trim body) ++ [10%N])) target :: old).
Proof.
  intros Hc Hv Hw Hold Hb Hu. unfold file_createVariation in Hc. rewrite Hv in Hc. cbn [mbind outcome_bind] in Hc.
  rewrite Hw in Hc. cbn [mbind outcome_bind] in Hc. apply outcome_bind_ok in Hc as (t & Ht%from_option_throw_ok & Hc).
  rewrite Hold in Hc. cbn [mbind outcome_bind] in Hc. apply outcome_bind_ok in Hc as (u & Hdup%guard_throw_ok%existsb_find & Hc).
  apply outcome_bind_ok in Hc as (r & Hnew & Hc). simplify_eq.
  pose proof (write_path_shape _ _ _ Ht) as (Hid & Etarget & _ & _ & Hsplit).
  pose proof (prepare_inv _ _ _ _ Hw) as (Hn & _). apply normalize_js_id in Hn as [Hmid Hmt].
  pose proof Hv as Hvid.
  assert (md_id metadata = id) as Hmeta.
  { unfold prepareVariation in Hvid. inv_bind. by simplify_eq. }
  rewrite Hmeta, is_artifact_id_trim in Hmid by done.
  rewrite Hsplit in Hnew |- *.
  destruct (write_new_walk _ _ _ _ _ Hnew) as (_ & _ & H1 & H2); [apply ends_with_app|].
  split; [done|]. split; [done|].
  eapply file_list_grows; [exact Hnew|apply ends_with_app|apply directory_is_listed| |exact Hold|].
  - unfold load_file. cbn [fst snd]. rewrite <- Hsplit, join_split_on.
    rewrite (write_path_supported _ _ _ Ht), utf8_roundtrip by done.
    eapply prepared_parse; [exact Hw|apply metadata_js_dates|done|]. by eapply write_path_classified.
  - cbn [am_meta]. rewrite Hmid. intros [b [Hb' Hin]]%list_elem_of_fmap.
    apply list_elem_of_In in Hin. eapply find_none in Hdup; [|exact Hin].
    cbn in Hdup. rewrite <- Hb', str_eqb_refl in Hdup. done.
Qed.
End FileFacts.

(** ** Witnesses *)

Module FileExamples.
Import ToyLibs.

Definition root : directory :=
  [(js "prompts", NDir [(js "a-1.md", NFile (utf8_encode WriteExamples.written.2)); (js "notes.txt", NFile [])])].
Definition run : directory * str * str :=
  match file_createVariation root ContractExamples.artifact (js " New body ") None 1700000000000 [1; 2; 3; 4]%N with
  | Ok r => r | Throw _ => ([], [], []) end.
Definition old : list ArtifactModel := match file_list root with Ok l => l | Throw _ => [] end.
Definition metadata : ArtifactMetadata :=
  match prepareVariation ContractExamples.artifact None 1700000000000 [1; 2; 3; 4]%N with
  | Ok r => r.2 | Throw _ => ContractExamples.meta end.
Definition prepared : ArtifactMetadata * str :=
  match prepareArtifactWrite (metadata_js metadata) (trim (js " New body ")) with
  | Ok r => r | Throw _ => (ContractExamples.meta, []) end.

Lemma file_variation_listed_witness :
  length old = 1%nat ∧
  file_at (split_on slash run.2) root = None ∧
  file_at (split_on slash run.2) run.1.1 = Some (utf8_encode prepared.2) ∧
  ∃ listed, file_list run.1.1 = Ok listed ∧
    Permutation listed
      (Artifact prepared.1 (trim (trim (js " New body ")))
         (toExcerpt (trim (trim (js " New body ")) ++ [10%N])) run.2 :: old).
Proof.
  split; [vm_compute; reflexivity|].
  apply (file_variation_listed root ContractExamples.artifact (js " New body ") None 1700000000000
           [1; 2; 3; 4]%N run.1.1 run.1.2 run.2 old metadata prepared.1 prepared.2);
    vm_compute; reflexivity.
Defined.
End FileExamples.
