(* ===== verification/Catalogue.v ===== *)
(** * The artifact catalogue cache

    Models [src/lib/artifact-catalogue.ts]: the snapshot of a repository's
    artifacts kept in a key-value store, its generations, publication and
    invalidation. The store, the repository and the clock are an interface on an
    abstract world [W]; between two calls the world may change as it likes, so
    other isolates that read and write the same store are part of it. The
    module-level variables [localGenerations] and [invalidatedScopes] are a
    component of the world too.

    [Promise.all] runs its members in index order; a failure is reported after
    all writes, and for reads at the first failing chunk.

    Properties: what is published is what is read back; when each cache state is
    reported; an invalidated scope is never served from the cache; a
    publication is confirmed only at the repository's current revision. *)

From S2P Require Import Prelude JsString Encoding JsDate Json JsNumber Layout Libs Contract GithubClient ArtifactWrite Repository.

Definition schemaVersion : Z := 2.
Definition maxChunkBytes : Z := 1500000.
Definition DEFAULT_CATALOGUE_FRESHNESS_SECONDS : Z := 300.
Definition MIN_CATALOGUE_FRESHNESS_SECONDS : Z := 30.
Definition MAX_CATALOGUE_FRESHNESS_SECONDS : Z := 3600.

Record CatalogueIdentity := Identity {
  ci_repositoryId : Z; ci_owner : str; ci_repository : str; ci_branch : str; ci_root : str;
}.

Inductive CatalogueCacheState := Fresh | Refreshed | Stale | Degraded.
Inductive stale_reason := Repository_unavailable | Rate_limited.
#[export] Instance cache_state_eq_dec : EqDecision CatalogueCacheState.
Proof. solve_decision. Defined.
#[export] Instance stale_reason_eq_dec : EqDecision stale_reason.
Proof. solve_decision. Defined.

(** [StoredArtifact] and [Snapshot] *)
Definition StoredArtifact : Type := ArtifactModel * str.
Record Snapshot := MkSnapshot { sn_revision : str; sn_refreshedAt : str; sn_entries : list StoredArtifact }.

Record ResolvedCatalogue := Resolved {
  rc_artifacts : list ArtifactModel; rc_fileShas : list (str * str); rc_revision : str;
  rc_refreshedAt : str; rc_cacheState : CatalogueCacheState; rc_staleReason : option stale_reason;
}.

Inductive publication :=
| Published | CompetingPublication | AbortedGeneration | AbortedRevision | DegradedCache.
#[export] Instance publication_eq_dec : EqDecision publication.
Proof. solve_decision. Defined.

Record RefreshOptions := Refresh { ro_force : bool; ro_full : bool; ro_manual : bool }.

Definition catalogueFreshnessSeconds (value : option str) : Z :=
  match value with
  | Some ((_ :: _) as v) =>
      match js_number v with
      | NInt z => if is_safe_Z z
                  then Z.min MAX_CATALOGUE_FRESHNESS_SECONDS (Z.max MIN_CATALOGUE_FRESHNESS_SECONDS z)
                  else DEFAULT_CATALOGUE_FRESHNESS_SECONDS
      | _ => DEFAULT_CATALOGUE_FRESHNESS_SECONDS
      end
  | _ => DEFAULT_CATALOGUE_FRESHNESS_SECONDS
  end.

Definition scope (i : CatalogueIdentity) : option str :=
  owner ← encodeURIComponent (to_lower (ci_owner i));
  repository ← encodeURIComponent (to_lower (ci_repository i));
  branch ← encodeURIComponent (ci_branch i);
  root ← encodeURIComponent (ci_root i);
  Some (js "catalogue:v" ++ dec_of_Z schemaVersion ++ js ":repository:" ++ dec_of_Z (ci_repositoryId i)
        ++ js ":" ++ owner ++ js ":" ++ repository ++ js ":" ++ branch ++ js ":" ++ root).
(** [pointerKey] and [generationKey] of a scope *)
Definition pointerKey (key : str) : str := key ++ js ":current".
Definition generationKey (key : str) : str := key ++ js ":generation".

Definition requestLevel (o : RefreshOptions) : Z :=
  if ro_full o then 2 else if ro_force o then 1 else 0.

(** ** Schemas *)

Definition z_sha (v : jsval) : option str := s ← z_string v; if is_sha s then Some s else None.
(** [z.number().int()] with a lower bound *)
Definition z_int_ge (lo : Z) (v : jsval) : option Z :=
  match v with
  | JNum (NInt z) => if is_safe_Z z && (lo <=? z)%Z then Some z else None
  | _ => None
  end.
Definition z_literal (n : Z) (v : jsval) : option unit :=
  match v with JNum (NInt z) => if (z =? n)%Z then Some () else None | _ => None end.

(** The identity fields shared by pointers and chunks. *)
Definition z_identity (v : jsval) : option CatalogueIdentity :=
  _ ← z_field "schemaVersion" v ≫= z_literal schemaVersion;
  repositoryId ← z_field "repositoryId" v ≫= z_int_ge 1;
  owner ← z_field "owner" v ≫= z_string;
  repository ← z_field "repository" v ≫= z_string;
  branch ← z_field "branch" v ≫= z_string;
  root ← z_field "root" v ≫= z_string;
  Some (Identity repositoryId owner repository branch root).

Record pointer := Pointer {
  pt_identity : CatalogueIdentity; pt_revision : str; pt_refreshedAt : str;
  pt_generation : option str; pt_publicationId : option str; pt_chunks : list str;
}.
Record chunk := Chunk {
  ck_identity : CatalogueIdentity; ck_revision : str; ck_index : Z; ck_entries : list StoredArtifact;
}.

(** The object of an artifact, without its undefined properties. *)
Definition artifact_js (a : ArtifactModel) : jsval :=
  let m := am_meta a in
  JObj ([(js "id", JStr (md_id m)); (js "title", JStr (md_title m));
         (js "description", JStr (md_description m)); (js "type", JStr (type_name (md_type m)));
         (js "tags", JArr (map JStr (md_tags m))); (js "aliases", JArr (map JStr (md_aliases m)))] ++
        match md_sourceId m with Some s => [(js "sourceId", JStr s)] | None => [] end ++
        match md_createdAt m with Some s => [(js "createdAt", JStr s)] | None => [] end ++
        [(js "body", JStr (am_body a)); (js "excerpt", JStr (am_excerpt a));
         (js "path", JStr (am_path a)); (js "layout", JStr (js "canonical"))]).
Definition entry_js (e : StoredArtifact) : jsval :=
  JObj [(js "artifact", artifact_js e.1); (js "fileSha", JStr e.2)].

Definition identity_fields (i : CatalogueIdentity) : list (str * jsval) :=
  [(js "schemaVersion", JNum (NInt schemaVersion)); (js "repositoryId", JNum (NInt (ci_repositoryId i)));
   (js "owner", JStr (ci_owner i)); (js "repository", JStr (ci_repository i));
   (js "branch", JStr (ci_branch i)); (js "root", JStr (ci_root i))].

Definition chunk_js (i : CatalogueIdentity) (revision : str) (index : nat) (entries : list StoredArtifact) : jsval :=
  JObj (identity_fields i ++ [(js "revision", JStr revision); (js "index", JNum (NInt (Z.of_nat index)));
                              (js "entries", JArr (map entry_js entries))]).
Definition pointer_js (i : CatalogueIdentity) (s : Snapshot) (generation : option str)
    (publicationId : str) (keys : list str) : jsval :=
  JObj (identity_fields i ++ [(js "refreshedAt", JStr (sn_refreshedAt s)); (js "revision", JStr (sn_revision s))] ++
        match generation with Some g => [(js "generation", JStr g)] | None => [] end ++
        [(js "publicationId", JStr publicationId); (js "chunks", JArr (map JStr keys))]).
Definition generation_js (generation : str) : jsval :=
  JObj [(js "schemaVersion", JNum (NInt schemaVersion)); (js "generation", JStr generation)].

Section Schemas.
Context `{L : Libs}.

(** [artifactFrontMatterSchema.extend({ body, excerpt, path, layout })]; the lists keep
    their elements as they are. *)
Definition artifactSchema (v : jsval) : option ArtifactModel :=
  match artifactFrontMatterSchema v with
  | Throw _ => None
  | Ok d =>
      body ← z_field "body" v ≫= z_string;
      excerpt ← z_field "excerpt" v ≫= z_string;
      path ← z_field "path" v ≫= z_string;
      layout ← z_field "layout" v ≫= z_optional z_string;
      if match layout with Some l => str_eqb l (js "canonical") | None => true end
      then Some (Artifact (Metadata (md_id d) (md_title d) (md_description d) (md_type d) (md_tags d)
                             (md_aliases d) (md_sourceId d) (created_text <$> md_createdAt d))
                   body excerpt path)
      else None
  end.

Definition z_entry (v : jsval) : option StoredArtifact :=
  artifact ← z_field "artifact" v ≫= artifactSchema;
  fileSha ← z_field "fileSha" v ≫= z_sha;
  Some (artifact, fileSha).

(** [z.string().datetime()] *)
Definition z_datetime (v : jsval) : option str := s ← z_string v; if zod_datetime s then Some s else None.

Definition pointerSchema (v : jsval) : option pointer :=
  identity ← z_identity v;
  revision ← z_field "revision" v ≫= z_sha;
  refreshedAt ← z_field "refreshedAt" v ≫= z_datetime;
  generation ← z_field "generation" v ≫= z_optional z_string;
  publicationId ← z_field "publicationId" v ≫= z_optional z_string;
  chunks ← z_field "chunks" v ≫= z_array z_nonempty;
  match chunks with
  | [] => None
  | _ => Some (Pointer identity revision refreshedAt generation publicationId chunks)
  end.

Definition chunkSchema (v : jsval) : option chunk :=
  identity ← z_identity v;
  revision ← z_field "revision" v ≫= z_sha;
  index ← z_field "index" v ≫= z_int_ge 0;
  entries ← z_field "entries" v ≫= z_array z_entry;
  Some (Chunk identity revision index entries).

Definition generationSchema (v : jsval) : option str :=
  _ ← z_field "schemaVersion" v ≫= z_literal schemaVersion;
  z_field "generation" v ≫= z_nonempty.
End Schemas.

(** [a] and [b] name the same repository, branch and root. *)
Definition same_identity (a b : CatalogueIdentity) : bool :=
  (ci_repositoryId a =? ci_repositoryId b)%Z
  && str_eqb (to_lower (ci_owner a)) (to_lower (ci_owner b))
  && str_eqb (to_lower (ci_repository a)) (to_lower (ci_repository b))
  && str_eqb (ci_branch a) (ci_branch b) && str_eqb (ci_root a) (ci_root b).

(** ** The service *)

(** The module-level variables. *)
Record shared := Shared { sh_localGenerations : gmap str Z; sh_invalidatedScopes : gset str }.

(** What the service is given: the key-value binding, the repository, clock and randomness. *)
Class CatalogueEnv (W : Type) := {
  cache_get : str → W → W * outcome unit (option str);
  cache_put : str → str → W → W * outcome unit unit;
  cache_delete : str → W → W * outcome unit unit;
  repo_getBaseRevision : W → W * outcome error str;
  repo_loadCatalogue : str → W → W * outcome error catalogue;
  clock : W → Z;
  randomUUID : W → W * str;
  get_shared : W → shared;
  set_shared : shared → W → W;
}.

(** What [readSnapshot] returns. *)
Record snapshot_read := SnapshotRead {
  sr_snapshot : option Snapshot; sr_generation : option str; sr_publicationId : option str;
  sr_failed : bool; sr_corrupt : bool;
}.
Definition read_failed : snapshot_read := SnapshotRead None None None true false.
Definition read_missing : snapshot_read := SnapshotRead None None None false false.
Definition read_corrupt : snapshot_read := SnapshotRead None None None false true.

(** [readGeneration]: the value and whether reading failed *)
Record generation_read := GenerationRead { gr_value : option str; gr_failed : bool }.

(** Splitting the entries into chunks. *)
Fixpoint group_entries (current : list StoredArtifact) (entries : list StoredArtifact)
    : list (list StoredArtifact) :=
  match entries with
  | [] => [current]
  | entry :: rest =>
      let candidate := current ++ [entry] in
      if match current with [] => false | _ => true end
         && (maxChunkBytes <? byte_length (stringify (JArr (map entry_js candidate))))%Z
      then current :: group_entries [entry] rest
      else group_entries candidate rest
  end.

(** [CatalogueCacheDiagnostic] *)
Inductive cache_diagnostic :=
| CdDegraded | CdCorrupt | CdMissing | CdLocallyInvalidated | CdGenerationMismatch
| CdSnapshot (fresh : bool) (revision refreshedAt : str) (ageSeconds : option Z)
    (artifactCount : Z) (matches : option bool).

(** [a >= b] on times, false on NaN *)
Definition time_ge (a b : option Z) : bool :=
  match a, b with Some a, Some b => (b <=? a)%Z | _, _ => false end.
Definition time_gt (a b : option Z) : bool :=
  match a, b with Some a, Some b => (b <? a)%Z | _, _ => false end.

(** A number in base 36, as [toString(36)] prints it. *)
Definition digit36 (d : N) : N := (if d <? 10 then 48 + d else 87 + d)%N.
Fixpoint base36_digits (fuel : nat) (n : N) (acc : str) : str :=
  match fuel with
  | O => acc
  | S fuel => let acc := digit36 (n mod 36)%N :: acc in
              if (n <? 36)%N then acc else base36_digits fuel (n / 36)%N acc
  end.
Definition base36 (n : N) : str := base36_digits (S (N.to_nat (N.log2 n))) n [].

Section Service.
Context `{L : Libs} {W : Type} `{C : !CatalogueEnv W}.
Variable identity : CatalogueIdentity.
(** [freshnessSeconds ?? catalogueFreshnessSeconds()] *)
Variable freshness : Z.

Abbreviation M := (eff W error).

Definition kv_get (k : str) : M (outcome unit (option str)) := λ w,
  let '(w, r) := cache_get k w in (w, Ok r).
Definition kv_put (k v : str) : M (outcome unit unit) := λ w,
  let '(w, r) := cache_put k v w in (w, Ok r).
Definition kv_delete (k : str) : M (outcome unit unit) := λ w,
  let '(w, r) := cache_delete k w in (w, Ok r).
Definition getBaseRevision' : M str := repo_getBaseRevision.
Definition loadCatalogue' (revision : str) : M catalogue := repo_loadCatalogue revision.
Definition now_time : M Z := λ w, (w, Ok (clock w)).
Definition uuid : M str := λ w, let '(w, u) := randomUUID w in (w, Ok u).
Definition read_shared : M shared := λ w, (w, Ok (get_shared w)).
Definition write_shared (s : shared) : M unit := λ w, (set_shared s w, Ok ()).

(** [`${Date.now().toString(36)}-${crypto.randomUUID()}`] *)
Definition randomGeneration : M str :=
  t ← now_time; u ← uuid; mret (base36 (Z.to_N t) ++ js "-" ++ u).

Definition validate_entry (e : StoredArtifact) : outcome error unit :=
  parsed ← from_option_throw ZodError (artifactSchema (artifact_js e.1));
  _ ← guard_throw (is_sha e.2) ZodError;
  _ ← guard_throw (match classifyArtifactPath (am_path parsed) with Some _ => true | None => false end
                   && ends_with (js ".md") (replace_unit backslash slash (am_path parsed)))
        (PlainError (js "Invalid cached artifact path."));
  _ ← artifactFrontMatterSchema (artifact_js parsed);
  Ok ().
Fixpoint validate_entries (l : list StoredArtifact) : outcome error unit :=
  match l with [] => Ok () | e :: l => _ ← validate_entry e; validate_entries l end.

Definition validateSnapshot (s : Snapshot) : outcome error unit :=
  _ ← guard_throw (is_sha (sn_revision s)) ZodError;
  _ ← validate_entries (sn_entries s);
  validateUniqueArtifactIds (map fst (sn_entries s)).

Definition result (s : Snapshot) (state : CatalogueCacheState) : ResolvedCatalogue :=
  Resolved (map fst (sn_entries s))
    (foldl (λ o e, obj_set (md_id (am_meta e.1)) e.2 o) [] (sn_entries s))
    (sn_revision s) (sn_refreshedAt s) state None.

Section Scoped.
(** The value of [scope(identity)]. *)
Variable key : str.

Definition local_generation : M Z :=
  sh ← read_shared; mret (default 0%Z (sh_localGenerations sh !! key)).
Definition scope_invalidated : M bool :=
  sh ← read_shared; mret (bool_decide (key ∈ sh_invalidatedScopes sh)).
(** [localGenerations.set(key, … + 1); invalidatedScopes.add(key)] *)
Definition mark_invalidated : M unit :=
  sh ← read_shared;
  write_shared (Shared (<[key := (default 0 (sh_localGenerations sh !! key) + 1)%Z]> (sh_localGenerations sh))
                  ({[key]} ∪ sh_invalidatedScopes sh)).
Definition clear_invalidated : M unit :=
  sh ← read_shared;
  write_shared (Shared (sh_localGenerations sh) (sh_invalidatedScopes sh ∖ {[key]})).

Definition readGeneration : M generation_read :=
  raw ← kv_get (generationKey key);
  mret match raw with
       | Throw _ => GenerationRead None true
       | Ok (Some ((_ :: _) as raw)) =>
           match JSON_parse raw ≫= generationSchema with
           | Some g => GenerationRead (Some g) false
           | None => GenerationRead None true
           end
       | Ok _ => GenerationRead None false
       end.

(** Entries of the chunks, or whether the failure was a failed read ([true]) or an
    invalid chunk ([false]). *)
Fixpoint read_chunks (revision : str) (index : Z) (keys : list str)
    : M (outcome bool (list StoredArtifact)) :=
  match keys with
  | [] => mret (Ok [])
  | chunkKey :: keys =>
      raw ← kv_get chunkKey;
      match raw with
      | Throw _ => mret (Throw true)
      | Ok (Some ((_ :: _) as raw)) =>
          match JSON_parse raw ≫= chunkSchema with
          | Some c =>
              if same_identity (ck_identity c) identity && str_eqb (ck_revision c) revision
                 && (ck_index c =? index)%Z
              then rest ← read_chunks revision (index + 1) keys;
                   mret (outcome_map (app (ck_entries c)) rest)
              else mret (Throw false)
          | None => mret (Throw false)
          end
      | Ok _ => mret (Throw false)
      end
  end.

Definition readSnapshot : M snapshot_read :=
  raw ← kv_get (pointerKey key);
  match raw with
  | Throw _ => mret read_failed
  | Ok (Some ((_ :: _) as raw)) =>
      match JSON_parse raw ≫= pointerSchema with
      | Some p =>
          if same_identity (pt_identity p) identity then
            entries ← read_chunks (pt_revision p) 0 (pt_chunks p);
            match entries with
            | Throw true => mret read_failed
            | Throw false => mret read_corrupt
            | Ok entries =>
                let snapshot := MkSnapshot (pt_revision p) (pt_refreshedAt p) entries in
                match validateSnapshot snapshot with
                | Ok _ => mret (SnapshotRead (Some snapshot) (pt_generation p) (pt_publicationId p) false false)
                | Throw _ => mret read_corrupt
                end
            end
          else mret read_corrupt
      | None => mret read_corrupt
      end
  | Ok _ => mret read_missing
  end.

Definition cleanupUnverifiedPublication (snapshot : Snapshot) (publicationId : str) : M unit :=
  mark_invalidated ;;
  g ← randomGeneration;
  _ ← kv_put (generationKey key) (stringify (generation_js g));
  visible ← readSnapshot;
  let demonstrablyNewer :=
    negb (bool_decide (sr_publicationId visible = Some publicationId))
    && match sr_snapshot visible with
       | Some v => time_gt (date_parse (sn_refreshedAt v)) (date_parse (sn_refreshedAt snapshot))
       | None => false
       end in
  if demonstrablyNewer then mret () else _ ← kv_delete (pointerKey key); mret ().

Definition recoverCachePublication (snapshot : Snapshot) (generation : option str)
    (publicationId : str) (pointerAttempted : bool) : M publication :=
  competing ← readSnapshot;
  if negb (bool_decide (sr_publicationId competing = Some publicationId))
     && match sr_snapshot competing with
        | Some v => str_eqb (sn_revision v) (sn_revision snapshot)
                    && bool_decide (sr_generation competing = generation)
                    && time_ge (date_parse (sn_refreshedAt v)) (date_parse (sn_refreshedAt snapshot))
        | None => false
        end
  then mret CompetingPublication
  else when pointerAttempted (cleanupUnverifiedPublication snapshot publicationId) ;; mret DegradedCache.

(** [None] is [undefined]: the revision is still current. *)
Definition verifyBaseRevision (snapshot : Snapshot) (publicationId : str) (pointerPublished : bool)
    : M (option publication) :=
  answer ← attempt getBaseRevision';
  match answer with
  | Ok revision =>
      if str_eqb revision (sn_revision snapshot) then mret None
      else when pointerPublished (cleanupUnverifiedPublication snapshot publicationId) ;;
           mret (Some AbortedRevision)
  | Throw e =>
      when pointerPublished (cleanupUnverifiedPublication snapshot publicationId) ;;
      match e with
      | ArtifactRepositoryUnavailableError _ => mret (Some DegradedCache)
      | _ => throw e
      end
  end.

(** All writes are started; the first failure is reported at the end. *)
Fixpoint put_chunks (revision base : str) (index : nat) (groups : list (list StoredArtifact)) : M bool :=
  match groups with
  | [] => mret true
  | entries :: groups =>
      r ← kv_put (base ++ js ":chunk:" ++ dec_of_Z (Z.of_nat index))
            (stringify (chunk_js identity revision index entries));
      rest ← put_chunks revision base (S index) groups;
      mret (is_ok r && rest)
  end.
Definition chunk_keys (base : str) (n : nat) : list str :=
  map (λ i, base ++ js ":chunk:" ++ dec_of_Z (Z.of_nat i)) (seq 0 n).
Definition snapshot_base (snapshot : Snapshot) : str :=
  key ++ js ":snapshot:" ++ sn_revision snapshot.

Definition publish (snapshot : Snapshot) (startingGeneration : option str)
    (startingLocalGeneration : Z) : M publication :=
  let groups := group_entries [] (sn_entries snapshot) in
  let base := snapshot_base snapshot in
  let keys := chunk_keys base (length groups) in
  publicationId ← uuid;
  stored ← put_chunks (sn_revision snapshot) base 0 groups;
  if negb stored then recoverCachePublication snapshot startingGeneration publicationId false
  else
    currentGeneration ← readGeneration;
    localGeneration ← local_generation;
    if gr_failed currentGeneration then mret DegradedCache
    else if negb (bool_decide (gr_value currentGeneration = startingGeneration)
                  && (localGeneration =? startingLocalGeneration)%Z)
    then mret AbortedGeneration
    else
      preVerification ← verifyBaseRevision snapshot publicationId false;
      match preVerification with
      | Some p => mret p
      | None =>
          r ← kv_put (pointerKey key)
                (stringify (pointer_js identity snapshot startingGeneration publicationId keys));
          match r with
          | Throw _ => recoverCachePublication snapshot startingGeneration publicationId true
          | Ok _ =>
              postVerification ← verifyBaseRevision snapshot publicationId true;
              match postVerification with
              | Some p => mret p
              | None => clear_invalidated ;; mret Published
              end
          end
      end.

(** The [try] block of [load]. *)
Definition refresh (options : RefreshOptions) (now : Z) (cached : option Snapshot)
    (generation : option str) (localGeneration : Z) (degraded : bool) : M ResolvedCatalogue :=
  revision ← getBaseRevision';
  snapshot ← match cached with
             | Some c =>
                 if negb (ro_full options) && str_eqb revision (sn_revision c)
                 then mret (MkSnapshot (sn_revision c) (toISOString now) (sn_entries c))
                 else
                   loaded ← loadCatalogue' revision;
                   let s := MkSnapshot (cg_revision loaded) (toISOString now)
                     (map (λ a, (a, default [] (assoc (md_id (am_meta a)) (cg_fileShas loaded)))) (cg_artifacts loaded)) in
                   _ ← lift (validateSnapshot s); mret s
             | None =>
                 loaded ← loadCatalogue' revision;
                 let s := MkSnapshot (cg_revision loaded) (toISOString now)
                   (map (λ a, (a, default [] (assoc (md_id (am_meta a)) (cg_fileShas loaded)))) (cg_artifacts loaded)) in
                 _ ← lift (validateSnapshot s); mret s
             end;
  published ← publish snapshot generation localGeneration;
  let degraded := degraded || match published with
                              | DegradedCache | AbortedGeneration | AbortedRevision => true
                              | _ => false
                              end in
  mret (result snapshot (if degraded then Degraded else Refreshed)).

Definition with_reason (r : ResolvedCatalogue) (reason : stale_reason) : ResolvedCatalogue :=
  Resolved (rc_artifacts r) (rc_fileShas r) (rc_revision r) (rc_refreshedAt r) (rc_cacheState r) (Some reason).

Definition is_fresh (now : Z) (s : Snapshot) : bool :=
  match date_parse (sn_refreshedAt s) with
  | Some t => (now - t <? freshness * 1000)%Z
  | None => false
  end.

Definition load (options : RefreshOptions) : M ResolvedCatalogue :=
  now ← now_time;
  localGeneration ← local_generation;
  generation ← readGeneration;
  cachedRead ← readSnapshot;
  invalidated ← scope_invalidated;
  let generationMatches := bool_decide (sr_generation cachedRead = gr_value generation) in
  let cached := if invalidated || negb generationMatches then None else sr_snapshot cachedRead in
  let degraded := gr_failed generation || sr_failed cachedRead in
  match cached with
  | Some c =>
      if negb (ro_force options) && negb degraded && is_fresh now c then mret (result c Fresh)
      else try_catch (refresh options now cached (gr_value generation) localGeneration degraded) (λ e,
             match e with
             | ArtifactRepositoryUnavailableError status =>
                 mret (with_reason (result c Stale)
                         (if bool_decide (status = Some 429%Z) then Rate_limited else Repository_unavailable))
             | _ => throw e
             end)
  | None => refresh options now None (gr_value generation) localGeneration degraded
  end.

Definition invalidate_scope : M bool :=
  mark_invalidated ;;
  g ← randomGeneration;
  put ← kv_put (generationKey key) (stringify (generation_js g));
  match put with
  | Throw _ => mret false
  | Ok _ => del ← kv_delete (pointerKey key); mret (is_ok del)
  end.
End Scoped.

(** The public methods evaluate [scope(identity)] first. *)
Definition with_scope {A} (f : str → M A) : M A :=
  key ← lift (from_option_throw URIError (scope identity)); f key.
Definition invalidate : M bool := with_scope invalidate_scope.

Definition inspect (currentRevision : option str) : M cache_diagnostic :=
  with_scope (A := cache_diagnostic) (λ key,
    generation ← readGeneration key;
    cached ← readSnapshot key;
    invalidated ← scope_invalidated key;
    if gr_failed generation || sr_failed cached then mret CdDegraded
    else if sr_corrupt cached then mret CdCorrupt
    else match sr_snapshot cached with
         | None => mret CdMissing
         | Some snapshot =>
             if (invalidated : bool) then mret CdLocallyInvalidated
             else if negb (bool_decide (sr_generation cached = gr_value generation))
             then mret CdGenerationMismatch
             else
               now ← now_time;
               let ageSeconds := (λ t, Z.max 0 ((now - t) / 1000)) <$> date_parse (sn_refreshedAt snapshot) in
               let matches := match currentRevision with
                              | Some ((_ :: _) as r) => Some (str_eqb r (sn_revision snapshot))
                              | _ => None
                              end in
               let fresh := match ageSeconds with Some a => (a <? freshness)%Z | None => false end
                            && negb (bool_decide (matches = Some false)) in
               mret (CdSnapshot fresh (sn_revision snapshot) (sn_refreshedAt snapshot) ageSeconds
                       (Z.of_nat (length (sn_entries snapshot))) matches)
         end).
End Service.
