(* ===== verification/CatalogueFacts.v ===== *)
(** * Properties of the catalogue cache

    Theorems about the service of [Catalogue]. [KvLaws] is what a key-value
    binding promises to a client that nobody else disturbs. *)

From S2P Require Import Prelude JsString Encoding JsDate Json JsonText JsNumber Layout Libs Contract GithubClient ArtifactWrite Repository Catalogue.

(** A store that keeps what is put, answers every read, and is changed only by the service;
    the other calls leave it alone. *)
Class KvLaws (W : Type) `{C : !CatalogueEnv W} := {
  kv : W → gmap str str;
  get_law k w : ∃ w', cache_get k w = (w', Ok (kv w !! k)) ∧ kv w' = kv w;
  put_law k v w w' u : cache_put k v w = (w', Ok u) → kv w' = <[k := v]> (kv w);
  revision_law w : kv (repo_getBaseRevision w).1 = kv w;
  uuid_law w : kv (randomUUID w).1 = kv w ∧ units_ok (randomUUID w).2;
  shared_law s w : kv (set_shared s w) = kv w;
}.

(** ** Stored values *)

Lemma dec_of_nat_spec i :
  Forall (λ c, is_digit c = true) (dec_of_Z (Z.of_nat i)) ∧
  dec_val 0 (dec_of_Z (Z.of_nat i)) = Z.of_nat i ∧ dec_of_Z (Z.of_nat i) ≠ [].
Proof.
  assert (dec_of_Z (Z.of_nat i) = dec_of_N (Z.to_N (Z.of_nat i))) as -> by (by destruct i).
  destruct (dec_of_N_spec (Z.to_N (Z.of_nat i))) as (ds & -> & H1 & H2 & H3).
  split; [done|]. split; [rewrite H2; lia|]. destruct H3 as [[_ ->]|(c & ds' & -> & _)]; done.
Qed.

Lemma dec_of_nat_inj i j : dec_of_Z (Z.of_nat i) = dec_of_Z (Z.of_nat j) → i = j.
Proof.
  intros H. pose proof (dec_of_nat_spec i) as (_ & Hi & _). pose proof (dec_of_nat_spec j) as (_ & Hj & _).
  rewrite H in Hi. lia.
Qed.

Lemma digits_units ds : Forall (λ c, is_digit c = true) ds → units_ok ds.
Proof.
  intros H. eapply Forall_impl; [exact H|]. intros c Hc. unfold is_digit, in_range in Hc. to_prop.
  apply N.leb_le in H1. lia.
Qed.

(** A field after a prefix that does not have it. *)
Lemma assoc_app_fresh {A} k (o o' : list (str * A)) : k ∉ map fst o → assoc k (o ++ o') = assoc k o'.
Proof.
  induction o as [|[k' v] o IH]; cbn; [done|]. intros H. unfold str_eqb at 1.
  rewrite bool_decide_eq_false_2 by set_solver. apply IH. set_solver.
Qed.

Section SchemaFacts.
Context `{L : Libs} {LL : LibsLaws L}.

Lemma artifactSchema_roundtrip a :
  metadata_wf (am_meta a) → artifactSchema (artifact_js a) = Some a.
Proof.
  intros Hm. destruct a as [m body excerpt path]. unfold artifactSchema, artifact_js. cbn [am_meta] in *.
  rewrite (schema_fields _ m Hm).
  2-10: destruct (md_sourceId m), (md_createdAt m); reflexivity.
  destruct m as [i t d ty tg al src cr].
  destruct src, cr; reflexivity.
Qed.

Lemma entry_roundtrip e :
  metadata_wf (am_meta e.1) → is_sha e.2 = true → z_entry (entry_js e) = Some e.
Proof.
  intros Hm Hs. destruct e as [a sha]. unfold z_entry, entry_js. cbn [fst snd] in *.
  change (z_field "artifact" _) with (Some (artifact_js a)). cbn [mbind option_bind].
  rewrite artifactSchema_roundtrip by done. cbn [mbind option_bind].
  change (z_field "fileSha" _) with (Some (JStr sha)). cbn. by rewrite Hs.
Qed.

Definition identity_ok (i : CatalogueIdentity) : Prop :=
  is_safe_Z (ci_repositoryId i) = true ∧ (1 <= ci_repositoryId i)%Z ∧
  units_ok (ci_owner i) ∧ units_ok (ci_repository i) ∧ units_ok (ci_branch i) ∧ units_ok (ci_root i).

Lemma identity_roundtrip i o : identity_ok i → z_identity (JObj (identity_fields i ++ o)) = Some i.
Proof.
  intros (H1 & H2 & _). destruct i as [n ow re br ro]. unfold z_identity, identity_fields.
  cbn [ci_repositoryId] in *.
  change (z_field "repositoryId" _) with (Some (JNum (NInt n))).
  cbn [mbind option_bind z_int_ge]. rewrite H1, (proj2 (Z.leb_le _ _)) by done. reflexivity.
Qed.

Lemma same_identity_refl i : same_identity i i = true.
Proof. unfold same_identity. by rewrite Z.eqb_refl, !str_eqb_refl. Qed.
End SchemaFacts.

Section StoredForms.
Context `{L : Libs} {LL : LibsLaws L}.

Lemma identity_fields_json i : identity_ok i →
  Forall (λ kv, units_ok kv.1 ∧ json_ok kv.2) (identity_fields i).
Proof.
  intros (H1 & H2 & H3 & H4 & H5 & H6). unfold is_safe_Z in H1. apply Z.leb_le in H1.
  unfold identity_fields. repeat (apply Forall_cons_2; [split; [units_lit|]|]); [..|constructor];
    cbn [json_ok fst snd]; try done; lia.
Qed.

(** A chunk of the snapshot as it is stored and as it is read. *)
Definition entries_ok (l : list StoredArtifact) : Prop :=
  Forall (λ e, metadata_wf (am_meta e.1) ∧ is_sha e.2 = true ∧ json_ok (entry_js e)) l.

Lemma is_sha_units s : is_sha s = true → units_ok s.
Proof.
  unfold is_sha. intros H. to_prop. apply Forall_forall. intros c Hc.
  rewrite forallb_true_elem in H. specialize (H c Hc). unfold is_hex, is_digit, in_range in H.
  rewrite !orb_true_iff, !andb_true_iff, !N.leb_le in H. lia.
Qed.

Lemma mapM_entries l : entries_ok l → mapM z_entry (map entry_js l) = Some l.
Proof.
  induction 1 as [|e l (H1 & H2 & _) Hl IH]; [done|]. cbn [map mapM].
  rewrite entry_roundtrip by done. cbn [mbind option_bind]. cbn in IH. by rewrite IH.
Qed.

Lemma chunk_roundtrip i rev n l :
  identity_ok i → is_sha rev = true → is_safe_Z (Z.of_nat n) = true → entries_ok l →
  JSON_parse (stringify (chunk_js i rev n l)) ≫= chunkSchema = Some (Chunk i rev (Z.of_nat n) l).
Proof.
  intros Hi Hr Hn Hl. rewrite JSON_roundtrip.
  - cbn [mbind option_bind]. unfold chunkSchema, chunk_js. rewrite identity_roundtrip by done.
    cbn [mbind option_bind].
    change (z_field "revision" _) with (Some (JStr rev)). cbn [mbind option_bind z_sha z_string].
    unfold z_sha. cbn [mbind option_bind z_string]. rewrite Hr. cbn [mbind option_bind].
    change (z_field "index" _) with (Some (JNum (NInt (Z.of_nat n)))). cbn [mbind option_bind].
    unfold z_int_ge. rewrite Hn, (proj2 (Z.leb_le _ _)) by lia. cbn [andb mbind option_bind].
    change (z_field "entries" _) with (Some (JArr (map entry_js l))). cbn [mbind option_bind z_array].
    by rewrite mapM_entries.
  - apply json_ok_obj. split; [vm_compute; eval_decide|]. apply Forall_app.
    split; [by apply identity_fields_json|]. unfold is_safe_Z in Hn. apply Z.leb_le in Hn.
    repeat apply Forall_cons_2; [split; [units_lit|]..|constructor].
    + by apply is_sha_units.
    + cbn [json_ok snd]. lia.
    + cbn [snd]. apply json_ok_arr. apply Forall_fmap. eapply Forall_impl; [exact Hl|]. by intros e (_ & _ & H).
Qed.

Lemma pointer_roundtrip i s g u keys :
  identity_ok i → is_sha (sn_revision s) = true → zod_datetime (sn_refreshedAt s) = true →
  units_ok (sn_refreshedAt s) → (∀ x, g = Some x → units_ok x) → units_ok u →
  keys ≠ [] → Forall (λ k, k ≠ [] ∧ units_ok k) keys →
  JSON_parse (stringify (pointer_js i s g u keys)) ≫= pointerSchema
  = Some (Pointer i (sn_revision s) (sn_refreshedAt s) g (Some u) keys).
Proof.
  intros Hi Hr Ht Htu Hg Hu Hne Hk. rewrite JSON_roundtrip.
  - cbn [mbind option_bind]. unfold pointerSchema, pointer_js. rewrite identity_roundtrip by done.
    cbn [mbind option_bind].
    match goal with |- context [z_field "revision" ?o] => set (p := o) end.
    assert (z_field "revision" p = Some (JStr (sn_revision s)) ∧
            z_field "refreshedAt" p = Some (JStr (sn_refreshedAt s)) ∧
            z_field "generation" p = Some (from_option JStr JUndefined g) ∧
            z_field "publicationId" p = Some (JStr u) ∧
            z_field "chunks" p = Some (JArr (map JStr keys))) as (-> & -> & -> & -> & ->)
      by (unfold p; destruct g; split_and!; reflexivity).
    clearbody p. unfold z_sha, z_datetime. cbn [mbind option_bind z_string]. rewrite Hr, Ht.
    cbn [mbind option_bind z_array].
    assert (z_optional z_string (from_option JStr JUndefined g) = Some g) as -> by (by destruct g).
    cbn [mbind option_bind]. cbn [z_optional z_string fmap option_fmap option_map mbind option_bind].
    assert (mapM z_nonempty (map JStr keys) = Some keys) as ->.
    { clear -Hk. induction Hk as [|k keys [Hk _] _ IH]; [done|]. cbn. cbn in IH. rewrite IH. by destruct k. }
    cbn [mbind option_bind]. by destruct keys.
  - apply json_ok_obj. split; [destruct g; vm_compute; eval_decide|]. apply Forall_app.
    split; [by apply identity_fields_json|].
    repeat apply Forall_cons_2; [split; [units_lit|]..|].
    { done. }
    { by apply is_sha_units. }
    apply Forall_app. split.
    { destruct g as [g|]; [|constructor]. apply Forall_cons_2; [|constructor]. split; [units_lit|]. by apply Hg. }
    repeat apply Forall_cons_2; [split; [units_lit|]..|constructor]; [done|].
    cbn [snd]. apply json_ok_arr, Forall_fmap. eapply Forall_impl; [exact Hk|]. by intros k [_ ?].
Qed.
End StoredForms.

Lemma stringify_obj_cons v :
  match v with JObj _ => True | _ => False end → ∃ c t, stringify v = c :: t.
Proof. destruct v; try done. intros _. cbn. eauto. Qed.

Lemma group_entries_concat current l : concat (group_entries current l) = current ++ l.
Proof.
  revert current. induction l as [|e l IH]; intros current; cbn; [by rewrite app_nil_r|].
  destruct (_ && _); cbn; rewrite IH; [done|]. by rewrite <- app_assoc.
Qed.

Lemma group_entries_nonnil current l : group_entries current l ≠ [].
Proof. revert current. induction l as [|e l IH]; intros current; cbn; [done|]. by case_match. Qed.

Lemma group_entries_length current l : (length (group_entries current l) ≤ S (length l))%nat.
Proof.
  revert current. induction l as [|e l IH]; intros current; cbn; [done|].
  case_match; cbn; [specialize (IH [e])|specialize (IH (current ++ [e]))]; lia.
Qed.

Lemma groups_safe l :
  is_safe_Z (Z.of_nat (S (length l))) = true →
  is_safe_Z (Z.of_nat (0 + length (group_entries [] l))) = true.
Proof.
  pose proof (group_entries_length [] l). unfold is_safe_Z. rewrite !Z.leb_le. lia.
Qed.

Lemma snapshot_eta s : MkSnapshot (sn_revision s) (sn_refreshedAt s) (sn_entries s) = s.
Proof. by destruct s. Qed.

Section Verification.
Context `{L : Libs} {W : Type} `{C : !CatalogueEnv W}.
Variables (identity : CatalogueIdentity) (key : str).
Implicit Types w : W.

(** A revision that is still current is confirmed by one read. *)
Lemma verify_current s u b w w' :
  verifyBaseRevision identity key s u b w = (w', Ok None) →
  repo_getBaseRevision w = (w', Ok (sn_revision s)).
Proof.
  unfold verifyBaseRevision, attempt, getBaseRevision'. unfold mbind at 1, eff_bind at 1.
  destruct (repo_getBaseRevision w) as [w1 [rev|e]].
  - destruct (str_eqb rev (sn_revision s)) eqn:E.
    + intros [= <-]. by apply str_eqb_eq in E as ->.
    + intros [(w2 & u' & _ & H)|(e & _ & ?)]%bind_run; by simplify_eq.
  - intros [(w2 & u' & _ & H)|(e' & _ & ?)]%bind_run; [|done]. by destruct e; simplify_eq.
Qed.

Lemma verify_not_published s u b w w' :
  verifyBaseRevision identity key s u b w ≠ (w', Ok (Some Published)).
Proof.
  unfold verifyBaseRevision. intros [(w1 & a & _ & H)|(e & _ & ?)]%bind_run; [|done].
  destruct a as [rev|e].
  - destruct (str_eqb _ _); [done|]. by apply bind_run in H as [(w2 & x & _ & H)|(e & _ & ?)].
  - apply bind_run in H as [(w2 & x & _ & H)|(e' & _ & ?)]; [|done]. by destruct e.
Qed.

Lemma recover_not_published s g u b w w' :
  recoverCachePublication identity key s g u b w ≠ (w', Ok Published).
Proof.
  unfold recoverCachePublication. intros [(w1 & a & _ & H)|(e & _ & ?)]%bind_run; [|done].
  case_match; [done|]. by apply bind_run in H as [(w2 & x & _ & H)|(e & _ & ?)].
Qed.
End Verification.

Section Publication.
Context `{L : Libs} {LL : LibsLaws L} {W : Type} `{C : !CatalogueEnv W} {K : KvLaws W}.
Variables (identity : CatalogueIdentity) (key : str).
Implicit Types w : W.

Definition ckey (base : str) (i : nat) : str := base ++ js ":chunk:" ++ dec_of_Z (Z.of_nat i).

Lemma ckey_inj base i j : ckey base i = ckey base j → i = j.
Proof. unfold ckey. intros H%app_inv_head%app_inv_head. by apply dec_of_nat_inj. Qed.

Lemma ckey_not_pointer s i : ckey (snapshot_base key s) i ≠ pointerKey key.
Proof.
  unfold ckey, snapshot_base, pointerKey. rewrite <- app_assoc. intros H%app_inv_head. discriminate.
Qed.

Lemma put_chunks_spec rev base i groups w w' :
  put_chunks identity rev base i groups w = (w', Ok true) →
  (∀ j g, groups !! j = Some g →
     kv w' !! ckey base (i + j) = Some (stringify (chunk_js identity rev (i + j) g))) ∧
  (∀ k, (∀ j, k ≠ ckey base (i + j)) → kv w' !! k = kv w !! k).
Proof.
  revert i w. induction groups as [|g groups IH]; intros i w; cbn [put_chunks].
  { intros [= <-]. split; [done|]. done. }
  intros [(w1 & r & Hp & H)|(e & _ & ?)]%bind_run; [|done].
  apply bind_run in H as [(w2 & rest & Hr & H)|(e & _ & ?)]; [|done].
  injection H as <- E. apply andb_true_iff in E as [Hok ->].
  unfold kv_put in Hp. destruct (cache_put _ _ w) as [w1' r'] eqn:Eput. injection Hp as -> ->.
  destruct r as [u|]; [|done]. apply put_law in Eput.
  destruct (IH _ _ Hr) as [H1 H2]. split.
  - intros [|j] g' Hg; cbn in Hg.
    + injection Hg as <-. rewrite Nat.add_0_r. rewrite H2.
      * rewrite Eput. apply lookup_insert_eq.
      * intros j Hj%ckey_inj. lia.
    + rewrite Nat.add_succ_r. by apply (H1 j).
  - intros k Hk. rewrite H2.
    + rewrite Eput. apply lookup_insert_ne. intros Hk'. apply (Hk 0%nat). by rewrite Nat.add_0_r, <- Hk'.
    + intros j. specialize (Hk (S j)). by rewrite Nat.add_succ_r in Hk.
Qed.

Lemma read_chunks_spec rev base i groups w :
  identity_ok identity → is_sha rev = true →
  is_safe_Z (Z.of_nat (i + length groups)) = true → Forall entries_ok groups →
  (∀ j g, groups !! j = Some g →
     kv w !! ckey base (i + j) = Some (stringify (chunk_js identity rev (i + j) g))) →
  ∃ w', read_chunks identity rev (Z.of_nat i) (map (ckey base) (seq i (length groups))) w
        = (w', Ok (Ok (concat groups))).
Proof.
  intros Hi Hr. revert i w. induction groups as [|g groups IH]; intros i w Hn Hg Hkv; cbn [length seq map read_chunks].
  { by exists w. }
  apply Forall_cons in Hg as [Hg Hgs].
  destruct (get_law (ckey base i) w) as (w1 & Hget & Hkv1).
  unfold mbind at 1, eff_bind at 1. unfold kv_get. rewrite Hget.
  pose proof (Hkv 0%nat g eq_refl) as H0. rewrite Nat.add_0_r in H0. rewrite H0.
  assert (Hsafe : is_safe_Z (Z.of_nat i) = true).
  { unfold is_safe_Z in *. apply Z.leb_le in Hn. apply Z.leb_le. cbn [length] in Hn. lia. }
  pose proof (chunk_roundtrip identity rev i g Hi Hr Hsafe Hg) as Hc.
  destruct (stringify_obj_cons (chunk_js identity rev i g)) as (c & t & Es); [done|].
  rewrite Es in Hc |- *. cbv beta iota. rewrite Hc. cbn [ck_identity ck_revision ck_index].
  rewrite same_identity_refl, str_eqb_refl, Z.eqb_refl. cbn [andb].
  destruct (IH (S i) w1) as [w' Hw'].
  - rewrite <- Hn. f_equal. cbn [length]. lia.
  - done.
  - intros j g' Hj. rewrite Hkv1. replace (S i + j)%nat with (i + S j)%nat by lia. by apply Hkv.
  - unfold mbind, eff_bind. replace (Z.of_nat i + 1)%Z with (Z.of_nat (S i)) by lia.
    rewrite Hw'. by exists w'.
Qed.

Lemma readGeneration_kv w w' r : readGeneration key w = (w', r) → kv w' = kv w.
Proof.
  unfold readGeneration, mbind, eff_bind, kv_get.
  destruct (get_law (generationKey key) w) as (w1 & -> & Hkv). by intros [= <- _].
Qed.

Lemma local_generation_kv w w' r : local_generation (W := W) key w = (w', r) → w' = w.
Proof. by intros [= <- _]. Qed.

Lemma clear_invalidated_kv w w' r : clear_invalidated (W := W) key w = (w', r) → kv w' = kv w.
Proof. intros [= <- _]. apply shared_law. Qed.

(** A revision that is still current is confirmed without touching the store. *)
Lemma verify_none s u b w w' :
  verifyBaseRevision identity key s u b w = (w', Ok None) → kv w' = kv w.
Proof. intros H%verify_current. pose proof (revision_law w) as Hkv. by rewrite H in Hkv. Qed.

Record publishable (s : Snapshot) : Prop := {
  pb_valid : validateSnapshot s = Ok ();
  pb_entries : entries_ok (sn_entries s);
  pb_time : zod_datetime (sn_refreshedAt s) = true ∧ units_ok (sn_refreshedAt s);
  pb_count : is_safe_Z (Z.of_nat (S (length (sn_entries s)))) = true;
}.

Lemma valid_revision s : validateSnapshot s = Ok () → is_sha (sn_revision s) = true.
Proof. unfold validateSnapshot. intros (u & H%guard_throw_ok & _)%outcome_bind_ok. done. Qed.

Lemma groups_ok l current : entries_ok current → entries_ok l → Forall entries_ok (group_entries current l).
Proof.
  revert current. induction l as [|e l IH]; intros current Hc Hl; cbn; [by constructor|].
  apply Forall_cons in Hl as [He Hl]. case_match.
  - constructor; [done|]. apply IH; [by apply Forall_singleton|done].
  - apply IH; [|done]. apply Forall_app. split; [done|by apply Forall_singleton].
Qed.

Lemma ckeys_ok s n : units_ok key → is_sha (sn_revision s) = true →
  Forall (λ k, k ≠ [] ∧ units_ok k) (map (ckey (snapshot_base key s)) (seq 0 n)).
Proof.
  intros Hkey Hrev. apply Forall_fmap, Forall_forall. intros i _. unfold compose, ckey. split.
  - intros [_ [? _]%app_eq_nil]%app_eq_nil. discriminate.
  - unfold snapshot_base. rewrite !units_ok_app. pose proof (dec_of_nat_spec i) as (Hd & _).
    split_and!; [done|units_lit|by apply is_sha_units|units_lit|by apply digits_units].
Qed.

(** What a confirmed publication left in the store. *)
Lemma published_store s g lg w w1 :
  publish identity key s g lg w = (w1, Ok Published) →
  ∃ u, units_ok u ∧
    let groups := group_entries [] (sn_entries s) in
    let base := snapshot_base key s in
    kv w1 !! pointerKey key
      = Some (stringify (pointer_js identity s g u (map (ckey base) (seq 0 (length groups))))) ∧
    ∀ j l, groups !! j = Some l →
      kv w1 !! ckey base j = Some (stringify (chunk_js identity (sn_revision s) j l)).
Proof.
  unfold publish. cbv zeta. set (groups := group_entries [] (sn_entries s)). set (base := snapshot_base key s).
  intros [(v1 & u & Hu & H)|(e & _ & ?)]%bind_run; [|done].
  assert (Hunits : units_ok u).
  { unfold uuid in Hu. pose proof (uuid_law w) as [_ Hl].
    destruct (randomUUID w) as [v1' u']. by injection Hu as _ ->. }
  exists u. split; [done|].
  apply bind_run in H as [(v2 & stored & Hs & H)|(e & _ & ?)]; [|done].
  destruct stored; cbn [negb] in H.
  2: { by apply recover_not_published in H. }
  destruct (put_chunks_spec _ _ _ _ _ _ Hs) as [Hchunks _].
  apply bind_run in H as [(v3 & gen & Hg & H)|(e & _ & ?)]; [|done]. apply readGeneration_kv in Hg.
  apply bind_run in H as [(v4 & lgen & Hlg & H)|(e & _ & ?)]; [|done]. apply local_generation_kv in Hlg as ->.
  destruct (gr_failed gen); [done|]. destruct (negb _); [done|].
  apply bind_run in H as [(v5 & pre & Hpre & H)|(e & _ & ?)]; [|done].
  destruct pre as [p|].
  { injection H as -> ->. by apply verify_not_published in Hpre. }
  apply verify_none in Hpre.
  apply bind_run in H as [(v6 & r & Hput & H)|(e & _ & ?)]; [|done].
  unfold kv_put in Hput. destruct (cache_put _ _ v5) as [v6' r'] eqn:Eput. injection Hput as -> ->.
  destruct r as [x|]; [|by apply recover_not_published in H]. apply put_law in Eput.
  apply bind_run in H as [(v7 & post & Hpost & H)|(e & _ & ?)]; [|done].
  destruct post as [p|].
  { injection H as -> ->. by apply verify_not_published in Hpost. }
  apply verify_none in Hpost.
  apply bind_run in H as [(v8 & x' & Hclear & H)|(e & _ & ?)]; [|done].
  injection H as ->. apply clear_invalidated_kv in Hclear.
  rewrite Hclear, Hpost, Eput, Hpre, Hg. split; [apply lookup_insert_eq|].
  intros j l Hj. rewrite lookup_insert_ne by (intros E; by apply (ckey_not_pointer s j)).
  apply (Hchunks j l Hj).
Qed.

End Publication.

(** ** What is served *)

Section Serving.
Context `{L : Libs} {W : Type} `{C : !CatalogueEnv W}.
Variables (identity : CatalogueIdentity) (freshness : Z) (key : str).
Implicit Types w : W.

(** The cache holds the valid snapshot [c], written for this scope under the current
    generation, and the scope is not invalidated. [w] is the world of the reads and [w2] the
    one after them. *)
Definition cache_holds w w2 (c : Snapshot) (gen : generation_read) (read : snapshot_read) : Prop :=
  ∃ w1, readGeneration key w = (w1, Ok gen) ∧ readSnapshot identity key w1 = (w2, Ok read) ∧
    sr_snapshot read = Some c ∧ sr_generation read = gr_value gen ∧
    key ∉ sh_invalidatedScopes (get_shared w2).

Lemma readSnapshot_valid w w' read c :
  readSnapshot identity key w = (w', Ok read) → sr_snapshot read = Some c → validateSnapshot c = Ok ().
Proof.
  unfold readSnapshot. intros [(w1 & raw & _ & H)|(e & _ & ?)]%bind_run Hc; [|done].
  assert (Hno : ∀ x w1, sr_snapshot x = None → mret (M := eff W error) x w1 ≠ (w', Ok read)).
  { intros x v Hx [= _ ->]. congruence. }
  destruct raw as [[[|x raw]|]|]; [by apply Hno in H| |by apply Hno in H..].
  destruct (JSON_parse _ ≫= pointerSchema) as [p|]; [|by apply Hno in H].
  destruct (same_identity _ _); [|by apply Hno in H].
  apply bind_run in H as [(w2 & es & _ & H)|(e & _ & ?)]; [|done].
  destruct es as [es|[]]; [|by apply Hno in H..].
  destruct (validateSnapshot _) as [[]|] eqn:Ev; [|by apply Hno in H].
  injection H as _ <-. by injection Hc as <-.
Qed.

(** How a refresh ends: a valid snapshot of the base revision, the cached one or a loaded one. *)
Lemma refresh_run options now cached gen lg degraded w w' r :
  refresh identity key options now cached gen lg degraded w = (w', Ok r) →
  (∀ c, cached = Some c → validateSnapshot c = Ok ()) →
  ∃ s state, r = result s state ∧ (state = Refreshed ∨ state = Degraded) ∧ validateSnapshot s = Ok () ∧
    sn_refreshedAt s = toISOString now ∧
    ((∃ c w1, cached = Some c ∧ ro_full options = false ∧ sn_entries s = sn_entries c ∧
        repo_getBaseRevision w = (w1, Ok (sn_revision s)) ∧ sn_revision c = sn_revision s) ∨
     (∃ loaded rev w1 w2, repo_getBaseRevision w = (w1, Ok rev) ∧
        repo_loadCatalogue rev w1 = (w2, Ok loaded) ∧
        sn_revision s = cg_revision loaded ∧ map fst (sn_entries s) = cg_artifacts loaded)).
Proof.
  unfold refresh, getBaseRevision'. intros H Hcached.
  apply bind_run in H as [(w1 & rev & Hrev & H)|(e & _ & ?)]; [|done].
  apply bind_run in H as [(w2 & s & Hs & H)|(e & _ & ?)]; [|done].
  apply bind_run in H as [(w3 & p & _ & H)|(e & _ & ?)]; [|done].
  injection H as _ <-. exists s, (if degraded || match p with
    | DegradedCache | AbortedGeneration | AbortedRevision => true | _ => false end then Degraded else Refreshed).
  split; [done|]. split; [destruct (_ || _); auto|].
  assert (Hload : (loaded ← loadCatalogue' rev;
      let s := MkSnapshot (cg_revision loaded) (toISOString now)
        (map (λ a, (a, default [] (assoc (md_id (am_meta a)) (cg_fileShas loaded)))) (cg_artifacts loaded)) in
      _ ← lift (validateSnapshot s); mret s) w1 = (w2, Ok s) →
    validateSnapshot s = Ok () ∧ sn_refreshedAt s = toISOString now ∧
    ∃ loaded rev w1 w2, repo_getBaseRevision w = (w1, Ok rev) ∧ repo_loadCatalogue rev w1 = (w2, Ok loaded) ∧
      sn_revision s = cg_revision loaded ∧ map fst (sn_entries s) = cg_artifacts loaded).
  { clear Hs. intros [(w4 & loaded & Hl & Hs)|(e & _ & ?)]%bind_run; [|done]. cbv zeta in Hs.
    apply bind_run in Hs as [(w5 & u & Hv & Hs)|(e & _ & ?)]; [|done].
    apply lift_run in Hv as [-> Hv]. injection Hs as -> <-. destruct u. split; [done|].
    split; [done|]. exists loaded, rev, w1, w2. split; [done|]. split; [done|]. split; [done|].
    cbn. rewrite map_map. apply map_id. }
  destruct cached as [c|].
  2: { destruct (Hload Hs) as (? & ? & ?). auto. }
  destruct (negb (ro_full options) && str_eqb rev (sn_revision c)) eqn:E.
  2: { destruct (Hload Hs) as (? & ? & ?). auto. }
  to_prop. apply str_eqb_eq in H0 as ->. injection Hs as <- <-.
  split; [exact (Hcached c eq_refl)|]. split; [done|]. left. exists c, w1. auto.
Qed.

(** Why an answer was given: a valid snapshot, from the cache or from the repository. *)
Definition justified (options : RefreshOptions) w (r : ResolvedCatalogue) : Prop :=
  ∃ s, validateSnapshot s = Ok () ∧ rc_artifacts r = map fst (sn_entries s) ∧ rc_revision r = sn_revision s ∧
    rc_refreshedAt r = sn_refreshedAt s ∧
    match rc_cacheState r with
    | Fresh => ∃ w2 gen read, cache_holds w w2 s gen read ∧ ro_force options = false ∧
        gr_failed gen = false ∧ sr_failed read = false ∧ is_fresh freshness (clock w) s = true
    | Stale => ∃ w2 w3 gen read lg b status, cache_holds w w2 s gen read ∧
        refresh identity key options (clock w) (Some s) (gr_value gen) lg b w2
        = (w3, Throw (ArtifactRepositoryUnavailableError status)) ∧
        rc_staleReason r = Some (if bool_decide (status = Some 429%Z) then Rate_limited else Repository_unavailable)
    | _ => sn_refreshedAt s = toISOString (clock w) ∧
        ((∃ c w2 w3 gen read, cache_holds w w2 c gen read ∧ ro_full options = false ∧
            sn_entries s = sn_entries c ∧ sn_revision c = sn_revision s ∧
            repo_getBaseRevision w2 = (w3, Ok (sn_revision s))) ∨
         (∃ loaded rev w2 w3 w4, repo_getBaseRevision w2 = (w3, Ok rev) ∧
            repo_loadCatalogue rev w3 = (w4, Ok loaded) ∧ sn_revision s = cg_revision loaded ∧
            map fst (sn_entries s) = cg_artifacts loaded))
    end.

Lemma load_run options w w' r :
  load identity freshness key options w = (w', Ok r) → justified options w r.
Proof.
  unfold load. intros H.
  apply bind_run in H as [(v1 & now & Hn & H)|(e & _ & ?)]; [|done]. injection Hn as <- <-.
  apply bind_run in H as [(v2 & lg & Hlg & H)|(e & _ & ?)]; [|done]. injection Hlg as <- <-.
  apply bind_run in H as [(v3 & gen & Hg & H)|(e & _ & ?)]; [|done].
  apply bind_run in H as [(v4 & read & Hr & H)|(e & _ & ?)]; [|done].
  apply bind_run in H as [(v5 & inv & Hinv & H)|(e & _ & ?)]; [|done]. injection Hinv as <- <-.
  cbv zeta in H. set (lg := default 0%Z _) in H.
  destruct (bool_decide (key ∈ sh_invalidatedScopes (get_shared v4)) || negb (bool_decide _)) eqn:Euse.
  { apply refresh_run in H as (s & state & -> & Hst & Hv & Ht & [(c & ? & ? & _)|Hl]); [done| |done].
    exists s. split; [done|]. repeat (split; [done|]). destruct Hl as (loaded & rev & w1 & w2 & ?).
    destruct Hst as [-> | ->]; (split; [done|]; right; by exists loaded, rev, v4, w1, w2). }
  to_prop. destruct (sr_snapshot read) as [c|] eqn:Ec.
  2: { apply refresh_run in H as (s & state & -> & Hst & Hv & Ht & [(c & ? & ? & _)|Hl]); [done| |done].
    exists s. split; [done|]. repeat (split; [done|]). destruct Hl as (loaded & rev & w1 & w2 & ?).
    destruct Hst as [-> | ->]; (split; [done|]; right; by exists loaded, rev, v4, w1, w2). }
  pose proof (readSnapshot_valid _ _ _ _ Hr Ec) as Hvc.
  assert (Hholds : cache_holds w v4 c gen read) by (by exists v3).
  destruct (_ && _) eqn:Efresh.
  { injection H as _ <-. to_prop. exists c. split; [done|]. repeat (split; [done|]).
    exists v4, gen, read. auto. }
  unfold try_catch in H. destruct (refresh _ _ _ _ _ _ _ _ v4) as [v6 [r'|e]] eqn:Er.
  - injection H as _ <-.
    apply refresh_run in Er as (s & state & -> & Hst & Hv & Ht & Hcase); [|by intros ? [= <-]].
    exists s. split; [done|]. repeat (split; [done|]).
    destruct Hst as [-> | ->]; (split; [done|]; destruct Hcase as [(c' & w1 & [= <-] & ? & ? & ? & ?)|Hl];
      [left; exists c, v4, w1, gen, read; auto 8|right; destruct Hl as (loaded & rev & w1 & w2 & ?);
       by exists loaded, rev, v4, w1, w2]).
  - destruct e; try discriminate. injection H as _ <-. exists c. split; [done|]. repeat (split; [done|]).
    eexists v4, v6, gen, read, lg, _, status. split; [done|]. split; [exact Er|done].
Qed.

(** When the catalogue answers, and from where. Every answer is made of a valid snapshot.
    It is reported fresh only if the cache holds that snapshot under the current generation,
    nobody forced a refresh, both reads worked, and its age is below the limit; stale only if
    the cache holds it and the repository was temporarily unavailable, with the reason that
    matches the status; otherwise it is the repository's base revision, read in this call, with
    the entries loaded from it or the cached entries of the same revision. *)
Theorem load_answers options w w' r :
  load identity freshness key options w = (w', Ok r) → justified options w r.
Proof. apply load_run. Qed.

(** A publication is reported as done only at the repository's current revision and
    generation: its pointer, which records the generation the refresh started from, was stored
    after the generation had been read again unchanged, in the store and in the isolate, and
    between two reads of the base revision that both returned the snapshot's revision. *)
Theorem publish_confirmed s g lg w w1 :
  publish identity key s g lg w = (w1, Ok Published) →
  ∃ v2 v3 v5 v6 v7 u, 
    readGeneration key v2 = (v3, Ok (GenerationRead g false)) ∧
    default 0%Z (sh_localGenerations (get_shared v3) !! key) = lg ∧
    repo_getBaseRevision v3 = (v5, Ok (sn_revision s)) ∧
    cache_put (pointerKey key)
      (stringify (pointer_js identity s g u
         (chunk_keys (snapshot_base key s) (length (group_entries [] (sn_entries s)))))) v5 = (v6, Ok ()) ∧
    repo_getBaseRevision v6 = (v7, Ok (sn_revision s)) ∧
    w1 = (clear_invalidated key v7).1.
Proof.
  unfold publish. cbv zeta.
  intros [(v1 & u & _ & H)|(e & _ & ?)]%bind_run; [|done].
  apply bind_run in H as [(v2 & stored & _ & H)|(e & _ & ?)]; [|done].
  destruct stored; cbn [negb] in H; [|by apply recover_not_published in H].
  apply bind_run in H as [(v3 & gen & Hg & H)|(e & _ & ?)]; [|done].
  apply bind_run in H as [(v4 & lgen & Hlg & H)|(e & _ & ?)]; [|done]. injection Hlg as <- <-.
  destruct gen as [gv gf]. cbn [gr_failed gr_value] in H. destruct gf; [done|].
  destruct (negb _) eqn:Eg; [done|]. to_prop. apply Z.eqb_eq in H1. subst gv.
  apply bind_run in H as [(v5 & pre & Hpre & H)|(e & _ & ?)]; [|done].
  destruct pre as [p|]; [injection H as -> ->; by apply verify_not_published in Hpre|].
  apply bind_run in H as [(v6 & r & Hput & H)|(e & _ & ?)]; [|done].
  unfold kv_put in Hput. destruct (cache_put _ _ v5) as [v6' r'] eqn:Eput. injection Hput as -> ->.
  destruct r as [[]|]; [|by apply recover_not_published in H].
  apply bind_run in H as [(v7 & post & Hpost & H)|(e & _ & ?)]; [|done].
  destruct post as [p|]; [injection H as -> ->; by apply verify_not_published in Hpost|].
  apply bind_run in H as [(v8 & x' & Hclear & H)|(e & _ & ?)]; [|done]. injection H as ->.
  apply verify_current in Hpre, Hpost.
  exists v2, v3, v5, v6, v7, u. split_and!; try done. by rewrite Hclear.
Qed.
End Serving.

(** ** Invalidation *)

(** The module-level variables are a variable of the world that outside calls leave alone. *)
Class SharedLaws (W : Type) `{C : !CatalogueEnv W} := {
  set_get s w : get_shared (set_shared s w) = s;
  get_quiet k w : get_shared (cache_get k w).1 = get_shared w;
  put_quiet k v w : get_shared (cache_put k v w).1 = get_shared w;
  delete_quiet k w : get_shared (cache_delete k w).1 = get_shared w;
  revision_quiet w : get_shared (repo_getBaseRevision w).1 = get_shared w;
  load_quiet r w : get_shared (repo_loadCatalogue r w).1 = get_shared w;
  uuid_quiet w : get_shared (randomUUID w).1 = get_shared w;
}.

Definition same_shared {W} `{C : !CatalogueEnv W} (w w' : W) : Prop := get_shared w' = get_shared w.
#[export] Instance same_shared_preorder {W} `{C : !CatalogueEnv W} : PreOrder (same_shared (W := W)).
Proof. split; [done|]. intros x y z H1 H2. unfold same_shared in *. congruence. Qed.

Section Quiet.
Context `{L : Libs} {W : Type} `{C : !CatalogueEnv W} {S : SharedLaws W}.
Variables (identity : CatalogueIdentity) (key : str).

Lemma keeps_kv_get k : keeps same_shared (kv_get (W := W) k).
Proof. intros w. unfold kv_get. pose proof (get_quiet k w). by destruct (cache_get k w). Qed.
Lemma keeps_kv_put k v : keeps same_shared (kv_put (W := W) k v).
Proof. intros w. unfold kv_put. pose proof (put_quiet k v w). by destruct (cache_put k v w). Qed.
Lemma keeps_kv_delete k : keeps same_shared (kv_delete (W := W) k).
Proof. intros w. unfold kv_delete. pose proof (delete_quiet k w). by destruct (cache_delete k w). Qed.
Lemma keeps_uuid : keeps same_shared (uuid (W := W)).
Proof. intros w. unfold uuid. pose proof (uuid_quiet w). by destruct (randomUUID w). Qed.
Lemma keeps_now_time : keeps same_shared (now_time (W := W)).
Proof. intros w. reflexivity. Qed.
End Quiet.

#[export] Hint Resolve keeps_kv_get keeps_kv_put keeps_kv_delete keeps_uuid keeps_now_time : adt_keeps.

Section Invalidation.
Context `{L : Libs} {W : Type} `{C : !CatalogueEnv W} {S : SharedLaws W}.
Variables (identity : CatalogueIdentity) (freshness : Z) (key : str).

Lemma keeps_readGeneration : keeps same_shared (readGeneration (W := W) key).
Proof. unfold readGeneration. keeps_tac. Qed.

Lemma keeps_read_chunks rev i keys : keeps same_shared (read_chunks (W := W) identity rev i keys).
Proof. revert i. induction keys as [|k keys IH]; intros i; cbn [read_chunks]; keeps_tac. Qed.

Lemma keeps_readSnapshot : keeps same_shared (readSnapshot (W := W) identity key).
Proof. unfold readSnapshot. cbv zeta. keeps_tac; apply keeps_read_chunks. Qed.

Lemma mark_invalidated_run w w' r :
  mark_invalidated (W := W) key w = (w', r) →
  key ∈ sh_invalidatedScopes (get_shared w') ∧
  sh_localGenerations (get_shared w') !! key
  = Some (default 0 (sh_localGenerations (get_shared w) !! key) + 1)%Z.
Proof.
  intros [= <- _]. rewrite set_get. cbn. split; [set_solver|apply lookup_insert_eq].
Qed.

Lemma invalidate_marks w w' r :
  invalidate_scope (W := W) key w = (w', r) →
  key ∈ sh_invalidatedScopes (get_shared w') ∧
  sh_localGenerations (get_shared w') !! key
  = Some (default 0 (sh_localGenerations (get_shared w) !! key) + 1)%Z.
Proof.
  unfold invalidate_scope. intros [(w1 & u & Hm & H)|(e & Hm & ->)]%bind_run.
  2: { by apply mark_invalidated_run in Hm. }
  apply mark_invalidated_run in Hm. assert (Hk : same_shared w1 w').
  { eapply keeps_run; [|exact H]. unfold randomGeneration. keeps_tac. }
  unfold same_shared in Hk. by rewrite Hk.
Qed.

(** After an invalidation the cache is not trusted, even if the store could not be
    written. On an isolate whose variables nobody else changes, the first load after
    [invalidate] never answers fresh or stale: it reads the base revision and loads the
    catalogue from the repository, or fails. *)
Theorem invalidated_not_served w w1 ok options w' r :
  invalidate_scope key w = (w1, ok) →
  load identity freshness key options w1 = (w', Ok r) →
  (rc_cacheState r = Refreshed ∨ rc_cacheState r = Degraded) ∧
  ∃ loaded rev w2 w3 w4, repo_getBaseRevision w2 = (w3, Ok rev) ∧
    repo_loadCatalogue rev w3 = (w4, Ok loaded) ∧ rc_revision r = cg_revision loaded ∧
    rc_artifacts r = cg_artifacts loaded.
Proof.
  intros [Hin _]%invalidate_marks H.
  assert (Hno : ∀ w2 c gen read, ¬ cache_holds identity key w1 w2 c gen read).
  { intros w2 c gen read (v & Hg & Hr & _ & _ & Hn). apply Hn.
    apply (keeps_run _ _ _ _ _ keeps_readGeneration) in Hg.
    apply (keeps_run _ _ _ _ _ keeps_readSnapshot) in Hr. unfold same_shared in *. by rewrite Hr, Hg. }
  apply load_run in H as (s & _ & Ha & Hv & _ & Hs).
  destruct (rc_cacheState r).
  - destruct Hs as (? & ? & ? & ? & _). by exfalso; eapply Hno.
  - destruct Hs as [_ [(? & ? & ? & ? & ? & ? & _)|Hl]]; [by exfalso; eapply Hno|].
    split; [by left|]. rewrite Ha, Hv. destruct Hl as (loaded & rev & w2 & w3 & w4 & ? & ? & ? & ?).
    by exists loaded, rev, w2, w3, w4.
  - destruct Hs as (? & ? & ? & ? & ? & ? & ? & ? & _). by exfalso; eapply Hno.
  - destruct Hs as [_ [(? & ? & ? & ? & ? & ? & _)|Hl]]; [by exfalso; eapply Hno|].
    split; [by right|]. rewrite Ha, Hv. destruct Hl as (loaded & rev & w2 & w3 & w4 & ? & ? & ? & ?).
    by exists loaded, rev, w2, w3, w4.
Qed.
End Invalidation.

(** ** Witnesses *)

Module CatalogueExamples.
Import ToyLibs.

(** A store in memory beside a repository that stays at one revision. *)
Record toy_world := ToyWorld { tw_kv : gmap str str; tw_shared : shared }.
Definition at_revision : str := js "abc1234".
Definition toy_catalogue : catalogue :=
  Catalogue [ContractExamples.artifact] at_revision [(js "a-1", js "f00d123")].

#[export] Instance toy_env : CatalogueEnv toy_world := {
  cache_get := λ k w, (w, Ok (tw_kv w !! k));
  cache_put := λ k v w, (ToyWorld (<[k := v]> (tw_kv w)) (tw_shared w), Ok ());
  cache_delete := λ k w, (ToyWorld (base.delete k (tw_kv w)) (tw_shared w), Ok ());
  repo_getBaseRevision := λ w, (w, Ok at_revision);
  repo_loadCatalogue := λ _ w, (w, Ok toy_catalogue);
  clock := λ _, 1700000000000%Z;
  randomUUID := λ w, (w, js "0a1b2c3d");
  get_shared := tw_shared;
  set_shared := λ s w, ToyWorld (tw_kv w) s;
}.

#[export] Instance toy_kv_laws : KvLaws toy_world.
Proof.
  refine {| kv := tw_kv |}; cbn.
  - eauto.
  - by intros k v w w' u [= <- _].
  - done.
  - intros w. split; [done|units_lit].
  - done.
Defined.

#[export] Instance toy_shared_laws : SharedLaws toy_world.
Proof. by split. Qed.

Definition identity : CatalogueIdentity :=
  Identity 7 (js "Acme") (js "lib") (js "main") (js "canonical-root-v1").
Definition key : str := default [] (scope identity).
Definition empty : toy_world := ToyWorld ∅ (Shared ∅ ∅).
Definition snapshot : Snapshot :=
  MkSnapshot at_revision (js "2023-11-14T22:13:20.000Z") [(ContractExamples.artifact, js "f00d123")].
Definition options : RefreshOptions := Refresh false false false.

Lemma artifact_wf : metadata_wf (am_meta ContractExamples.artifact).
Proof.
  apply (normalized_wf ContractExamples.raw).
  - change (iso_time 1700000000000). unfold iso_time. lia.
  - vm_compute. reflexivity.
Qed.

Lemma snapshot_publishable : publishable snapshot.
Proof.
  split.
  - vm_compute. reflexivity.
  - apply Forall_singleton. split; [apply artifact_wf|]. split; [vm_compute; reflexivity|].
    apply json_okb_sound. vm_compute. reflexivity.
  - split; [vm_compute; reflexivity|units_lit].
  - vm_compute. reflexivity.
Qed.

Lemma identity_fine : identity_ok identity.
Proof. unfold identity_ok. split_and!; try units_lit; vm_compute; done. Qed.

Definition publish_run := publish identity key snapshot None 0 empty.
Definition load_run1 := load identity 300 key options empty.
Definition load_run2 := load identity 300 key options load_run1.1.
Definition served (r : outcome error ResolvedCatalogue) : ResolvedCatalogue :=
  match r with Ok r => r | Throw _ => result snapshot Degraded end.


Lemma publish_confirmed_witness :
  ∃ v2 v3 v5 v6 v7 u,
    readGeneration key v2 = (v3, Ok (GenerationRead None false)) ∧
    default 0%Z (sh_localGenerations (get_shared v3) !! key) = 0%Z ∧
    repo_getBaseRevision v3 = (v5, Ok (sn_revision snapshot)) ∧
    cache_put (pointerKey key)
      (stringify (pointer_js identity snapshot None u
         (chunk_keys (snapshot_base key snapshot) (length (group_entries [] (sn_entries snapshot)))))) v5 = (v6, Ok ()) ∧
    repo_getBaseRevision v6 = (v7, Ok (sn_revision snapshot)) ∧
    publish_run.1 = (clear_invalidated key v7).1.
Proof.
  apply (publish_confirmed identity key snapshot None 0 empty publish_run.1).
  vm_compute. reflexivity.
Defined.

(** The first load refreshes; the second one, from the world it left, is fresh. *)
Lemma load_answers_witness :
  rc_cacheState (served load_run1.2) = Refreshed ∧ rc_cacheState (served load_run2.2) = Fresh ∧
  justified identity 300 key options load_run1.1 (served load_run2.2).
Proof.
  split; [vm_compute; reflexivity|]. split; [vm_compute; reflexivity|].
  apply (load_answers identity 300 key options load_run1.1 load_run2.1 (served load_run2.2)).
  vm_compute. reflexivity.
Defined.

Definition invalidated_run := invalidate_scope key load_run1.1.
Definition load_run3 := load identity 300 key options invalidated_run.1.

Lemma invalidated_not_served_witness :
  (rc_cacheState (served load_run3.2) = Refreshed ∨ rc_cacheState (served load_run3.2) = Degraded) ∧
  ∃ loaded rev w2 w3 w4, repo_getBaseRevision w2 = (w3, Ok rev) ∧
    repo_loadCatalogue rev w3 = (w4, Ok loaded) ∧ rc_revision (served load_run3.2) = cg_revision loaded ∧
    rc_artifacts (served load_run3.2) = cg_artifacts loaded.
Proof.
  apply (invalidated_not_served identity 300 key load_run1.1 invalidated_run.1 invalidated_run.2
           options load_run3.1); vm_compute; reflexivity.
Defined.
End CatalogueExamples.
