(* ===== verification/Flights.v ===== *)
(** * Shared catalogue loads

    Models [ArtifactCatalogueService.resolve] of [src/lib/artifact-catalogue.ts]:
    the module-level map [flights] from a scope to the load in progress, with its
    refresh level. A promise is the index of its job; a job is queued behind
    another one, runs, and settles.

    Properties: a request joins or starts a load of at least its level, and a
    scope never has two loads running at once. *)

From S2P Require Import Prelude JsString Catalogue.

Record job := Job { jb_key : str; jb_level : Z; jb_after : option nat; jb_done : bool }.

Record flight_state := FlightState {
  flights : gmap str (Z * nat);
  jobs : list job;
}.

(** [resolve(options)] with its level: the new state and the promise returned. *)
Definition resolve (key : str) (level : Z) (s : flight_state) : flight_state * nat :=
  let new := length (jobs s) in
  match flights s !! key with
  | Some (existing, p) =>
      if (level <=? existing)%Z then (s, p)
      else (FlightState (<[key := (level, new)]> (flights s)) (jobs s ++ [Job key level (Some p) false]), new)
  | None =>
      (FlightState (<[key := (level, new)]> (flights s)) (jobs s ++ [Job key level None false]), new)
  end.

Definition pending (s : flight_state) (key : str) (p : nat) : Prop :=
  ∃ j, jobs s !! p = Some j ∧ jb_key j = key ∧ jb_done j = false.

(** The load of [p] is in progress: what it was queued behind has settled. *)
Definition running (s : flight_state) (key : str) (p : nat) : Prop :=
  ∃ j, jobs s !! p = Some j ∧ jb_key j = key ∧ jb_done j = false ∧
    match jb_after j with
    | None => True
    | Some q => ∃ jq, jobs s !! q = Some jq ∧ jb_done jq = true
    end.

(** A load settles, fulfilled or rejected; [finally] removes its own flight only. *)
Definition settle (p : nat) (j : job) (s : flight_state) : flight_state :=
  FlightState
    (match flights s !! jb_key j with
     | Some (_, q) => if decide (q = p) then delete (jb_key j) (flights s) else flights s
     | None => flights s
     end)
    (<[p := Job (jb_key j) (jb_level j) (jb_after j) true]> (jobs s)).

Inductive flight_step : flight_state → flight_state → Prop :=
| step_resolve key options s :
    flight_step s (resolve key (requestLevel options) s).1
| step_settle s p j :
    jobs s !! p = Some j → running s (jb_key j) p → flight_step s (settle p j s).

Definition flight_init : flight_state := FlightState ∅ [].
Definition flight_reachable : flight_state → Prop := rtc flight_step flight_init.

(** ** Invariant *)

Record flight_inv (s : flight_state) : Prop := {
  inv_flight key l p : flights s !! key = Some (l, p) →
    ∃ j, jobs s !! p = Some j ∧ jb_key j = key ∧ jb_level j = l ∧ jb_done j = false;
  inv_last key q : pending s key q → ∃ l p, flights s !! key = Some (l, p) ∧ (q ≤ p)%nat;
  inv_queue key q r : pending s key q → pending s key r → (r < q)%nat →
    ∃ j r', jobs s !! q = Some j ∧ jb_after j = Some r' ∧ pending s key r' ∧ (r ≤ r')%nat;
}.

Lemma pending_lt s key p : pending s key p → (p < length (jobs s))%nat.
Proof. intros (j & H & _). by apply lookup_lt_Some in H. Qed.

(** A running load is the first pending one of its scope. *)
Lemma running_first s key p q : flight_inv s → running s key p → pending s key q → (p ≤ q)%nat.
Proof.
  intros Hinv (j & Hj & Hk & Hd & Ha) Hq. destruct (decide (q < p)%nat) as [Hlt|]; [|lia].
  destruct (inv_queue s Hinv key p q) as (j' & r' & Hj' & Ha' & (jr & Hjr & _ & Hdr) & _); [by exists j|done|done|].
  simplify_eq. rewrite Ha' in Ha. destruct Ha as (jq & Hjq & Hdq). congruence.
Qed.

(** Adding a job of a scope that becomes its flight. *)
Lemma flight_inv_add s key l after :
  flight_inv s →
  match flights s !! key with Some (_, p) => after = Some p | None => after = None end →
  flight_inv (FlightState (<[key := (l, length (jobs s))]> (flights s))
                (jobs s ++ [Job key l after false])).
Proof.
  intros Hinv Hafter. set (n := length (jobs s)). set (s' := FlightState _ _).
  assert (Hnew : jobs s' !! n = Some (Job key l after false)).
  { cbn. unfold n. by rewrite lookup_app_r, Nat.sub_diag by lia. }
  assert (Hpend : ∀ k q, pending s' k q → (k = key ∧ q = n) ∨ pending s k q).
  { intros k q (j & Hj & Hk & Hd). cbn in Hj. apply lookup_app_Some in Hj as [Hj|[Hle Hj]].
    - right. by exists j.
    - left. apply list_lookup_singleton_Some in Hj as [Hq <-]. cbn in Hk. split; [done|]. unfold n. lia. }
  assert (Hmono : ∀ k q, pending s k q → pending s' k q).
  { intros k q (j & Hj & ?). exists j. split; [|done]. cbn. by apply lookup_app_l_Some. }
  split.
  - intros k l' p. cbn [flights s']. rewrite lookup_insert_Some. intros [[<- [= <- <-]]|[Hne H]].
    + by exists (Job key l after false).
    + destruct (inv_flight s Hinv _ _ _ H) as (j & Hj & ?). exists j. split; [|done].
      cbn. by apply lookup_app_l_Some.
  - intros k q Hq. cbn [flights s']. destruct (decide (k = key)) as [->|Hne].
    + exists l, n. rewrite lookup_insert_eq. split; [done|].
      apply Hpend in Hq as [[_ ->]|Hq]; [done|]. apply pending_lt in Hq. unfold n. lia.
    + apply Hpend in Hq as [[? _]|Hq]; [done|].
      destruct (inv_last s Hinv _ _ Hq) as (l' & p & ? & ?). exists l', p. by rewrite lookup_insert_ne.
  - intros k q r Hq Hr Hlt. apply Hpend in Hq as [[-> ->]|Hq]; apply Hpend in Hr as [[Hk ->]|Hr]; [lia| | |].
    + destruct (inv_last s Hinv _ _ Hr) as (l' & p & Hp & Hle). rewrite Hp in Hafter. subst after.
      exists (Job key l (Some p) false), p. split; [done|]. split; [done|]. split; [|done].
      apply Hmono. destruct (inv_flight s Hinv _ _ _ Hp) as (j & ? & ? & _ & ?). by exists j.
    + apply pending_lt in Hq. unfold n in Hlt. lia.
    + destruct (inv_queue s Hinv _ _ _ Hq Hr Hlt) as (j & r' & Hj & ? & ? & ?).
      exists j, r'. split; [cbn; by apply lookup_app_l_Some|]. auto.
Qed.

Lemma flight_inv_settle s p j :
  flight_inv s → jobs s !! p = Some j → running s (jb_key j) p → flight_inv (settle p j s).
Proof.
  intros Hinv Hj Hrun. set (s' := settle p j s).
  assert (Hlen : (p < length (jobs s))%nat) by (by eapply lookup_lt_Some).
  assert (Hother : ∀ q, q ≠ p → jobs s' !! q = jobs s !! q)
    by (intros q Hq; cbn; by rewrite list_lookup_insert_ne).
  assert (Hpend : ∀ k q, pending s' k q ↔ pending s k q ∧ q ≠ p).
  { intros k q. split.
    - intros (j' & Hj' & Hk & Hd). destruct (decide (q = p)) as [->|Hne].
      + cbn in Hj'. rewrite list_lookup_insert_eq in Hj' by done. by simplify_eq.
      + split; [|done]. exists j'. by rewrite <- Hother.
    - intros [(j' & Hj' & ?) Hne]. exists j'. by rewrite Hother. }
  assert (Hfl : ∀ k l q, flights s' !! k = Some (l, q) → flights s !! k = Some (l, q) ∧ q ≠ p).
  { intros k l q. cbn. destruct (flights s !! jb_key j) as [[l0 q0]|] eqn:E.
    - destruct (decide (q0 = p)) as [->|Hne].
      + rewrite lookup_delete_Some. intros [Hk H]. split; [done|]. intros ->. apply Hk.
        destruct (inv_flight s Hinv _ _ _ H) as (j' & Hj' & <- & _). by simplify_eq.
      + intros H. split; [done|]. intros ->. destruct (inv_flight s Hinv _ _ _ H) as (j' & Hj' & Hk & _).
        by simplify_eq.
    - intros H. split; [done|]. intros ->. destruct (inv_flight s Hinv _ _ _ H) as (j' & Hj' & <- & _).
      by simplify_eq. }
  split.
  - intros k l q [H Hne]%Hfl. rewrite Hother by done. by apply (inv_flight s Hinv).
  - intros k q [Hq Hne]%Hpend. destruct (inv_last s Hinv _ _ Hq) as (l & m & Hm & Hle).
    exists l, m. split; [|done]. cbn. destruct (flights s !! jb_key j) as [[l0 q0]|] eqn:E; [|done].
    destruct (decide (q0 = p)) as [->|]; [|done]. rewrite lookup_delete_ne; [done|]. intros <-.
    rewrite Hm in E. simplify_eq. pose proof (running_first _ _ _ _ Hinv Hrun Hq). lia.
  - intros k q r [Hq Hnq]%Hpend [Hr Hnr]%Hpend Hlt.
    destruct (inv_queue s Hinv _ _ _ Hq Hr Hlt) as (j' & r' & Hj' & Ha & Hr' & Hle).
    exists j', r'. rewrite Hother by done. split; [done|]. split; [done|]. split; [|done].
    apply Hpend. split; [done|]. intros ->.
    assert (k = jb_key j) as -> by (destruct Hr' as (j'' & ? & ? & _); by simplify_eq).
    pose proof (running_first _ _ _ _ Hinv Hrun Hr). lia.
Qed.

Lemma flight_reachable_inv s : flight_reachable s → flight_inv s.
Proof.
  revert s. unfold flight_reachable. refine (rtc_ind_r flight_inv flight_init _ _).
  - split; [done|by intros ? ? (j & ? & _)|by intros ? ? ? (j & ? & _)].
  - intros s1 s2 _ Hstep Hinv. destruct Hstep as [key options s1|s1 p j Hj Hrun].
    + unfold resolve. destruct (flights s1 !! key) as [[l p]|] eqn:E.
      * destruct (_ <=? _)%Z; [done|]. apply flight_inv_add; [done|]. by rewrite E.
      * apply flight_inv_add; [done|]. by rewrite E.
    + by apply flight_inv_settle.
Qed.

(** C31: loads of one scope never overlap: in every reachable state at most one load of a scope
    is in progress, whatever requests of whatever levels arrived and in whatever order loads
    settled. *)
Theorem single_flight s key p q :
  flight_reachable s → running s key p → running s key q → p = q.
Proof.
  intros Hinv%flight_reachable_inv Hp Hq.
  assert (Hpend : ∀ r, running s key r → pending s key r) by (intros r (j & ? & ? & ? & _); by exists j).
  pose proof (running_first _ _ _ _ Hinv Hp (Hpend _ Hq)).
  pose proof (running_first _ _ _ _ Hinv Hq (Hpend _ Hp)). lia.
Qed.

(** A request is answered by a load that has not settled yet, of the same scope and of at
    least the requested level: a forced or full refresh never joins a weaker load. *)
Theorem resolve_level s key options :
  flight_reachable s →
  ∃ j, jobs (resolve key (requestLevel options) s).1 !! (resolve key (requestLevel options) s).2 = Some j ∧
    jb_key j = key ∧ jb_done j = false ∧ (requestLevel options <= jb_level j)%Z.
Proof.
  intros Hinv%flight_reachable_inv. unfold resolve.
  destruct (flights s !! key) as [[l p]|] eqn:E; [destruct (Z.leb_spec (requestLevel options) l)|]; cbn.
  - destruct (inv_flight s Hinv _ _ _ E) as (j & ? & ? & ? & ?). exists j. subst l. auto.
  - eexists. rewrite lookup_app_r, Nat.sub_diag by lia. split; [done|]. cbn. repeat split; lia.
  - eexists. rewrite lookup_app_r, Nat.sub_diag by lia. split; [done|]. cbn. repeat split; lia.
Qed.

(** ** Witnesses *)

Module FlightExamples.
Definition plain := Refresh false false false.
Definition forced := Refresh true false true.
Definition k : str := js "scope".
(** A plain load, then a forced one queued behind it. *)
Definition s1 : flight_state := (resolve k (requestLevel plain) flight_init).1.
Definition s2 : flight_state := (resolve k (requestLevel forced) s1).1.

Lemma s2_reachable : flight_reachable s2.
Proof. eapply rtc_l; [apply (step_resolve k plain)|]. eapply rtc_once. apply (step_resolve k forced). Qed.

Lemma s2_running : running s2 k 0.
Proof. exists (Job k 0 None false). split; [reflexivity|]. by repeat split. Qed.

Lemma single_flight_witness : 0%nat = 0%nat.
Proof. apply (single_flight s2 k); [apply s2_reachable|apply s2_running..]. Defined.

Lemma resolve_level_witness :
  ∃ j, jobs (resolve k (requestLevel forced) s2).1 !! (resolve k (requestLevel forced) s2).2 = Some j ∧
    jb_key j = k ∧ jb_done j = false ∧ (requestLevel forced <= jb_level j)%Z.
Proof. apply resolve_level. apply s2_reachable. Defined.
End FlightExamples.
