(* ===== verification/Search.v ===== *)
(** * Artifact search

    Models [src/lib/search.ts] and [src/lib/artifact-search-tool.ts]: the text
    search, its bounded form for agents, the encrypted authority a call presents
    and the per-authority call budget. The cipher, the digest and zod's UUID
    format are parameters.

    Properties: the limits on a bounded search and what it returns, truncation at
    code point boundaries, the authority round trip, and the replay budget. *)

From S2P Require Import Prelude JsString Encoding JsDate Json JsonText Layout Libs Contract Repository Catalogue.

(** ** [searchArtifacts] *)

(** [s.split(/\s+/)] *)
Definition split_ws (s : str) : list str := split_on 32 (replace_runs is_ws [32%N] s).
Definition space : str := [32%N].

Definition haystack (a : ArtifactModel) : str :=
  let m := am_meta a in
  to_lower (join space [md_title m; md_description m; type_name (md_type m);
                        join space (md_tags m); join space (md_aliases m); am_body a]).

Definition matches_terms (terms : list str) (a : ArtifactModel) : bool :=
  forallb (λ term, includes term (haystack a)) terms.

Definition searchArtifacts (artifacts : list ArtifactModel) (query : str) : list ArtifactModel :=
  let normalized := to_lower (trim query) in
  if nonempty normalized then List.filter (matches_terms (split_ws normalized)) artifacts else artifacts.

(** ** [boundedArtifactSearch] *)

Definition limit_queryCharacters : nat := 500.
Definition limit_maxResults : Z := 10.
Definition limit_bodyBytes : Z := 32000.
Definition limit_totalBytes : Z := 128000.
Definition limit_maxCalls : nat := 4.

(** [.strict()]: no other keys. *)
Definition strict (keys : list str) (v : jsval) : bool :=
  match v with
  | JObj o => forallb (λ kv, bool_decide (kv.1 ∈ keys)) o
  | _ => false
  end.

Definition artifactSearchArgumentsSchema (v : jsval) : option (str * option Z) :=
  if strict [js "query"; js "limit"] v then
    query ← z_field "query" v ≫= z_trimmed;
    limit ← z_field "limit" v ≫= z_optional (z_int_ge 1);
    if (length query <=? limit_queryCharacters)%nat
       && match limit with Some n => (n <=? limit_maxResults)%Z | None => true end
    then Some (query, limit) else None
  else None.

(** [while (end && (bytes[end] & 0xc0) === 0x80) end--] *)
Fixpoint back_up (bytes : list N) (e : nat) : nat :=
  match e with
  | O => O
  | S e' => if is_cont (nth e bytes 0%N) then back_up bytes e' else e
  end.

Definition truncateUtf8 (value : str) (max : Z) : str * bool :=
  let bytes := utf8_encode value in
  if (Z.of_nat (length bytes) <=? max)%Z then (value, false)
  else (utf8_decode (take (back_up bytes (Z.to_nat max)) bytes), true).

Definition safe_result (a : ArtifactModel) : jsval :=
  let m := am_meta a in
  let '(body, truncated) := truncateUtf8 (am_body a) limit_bodyBytes in
  JObj [(js "id", JStr (md_id m)); (js "title", JStr (md_title m)); (js "description", JStr (md_description m));
        (js "type", JStr (type_name (md_type m))); (js "tags", JArr (map JStr (md_tags m)));
        (js "aliases", JArr (map JStr (md_aliases m))); (js "body", JStr body); (js "truncated", JBool truncated)].

Fixpoint collect_results (used : Z) (matches : list ArtifactModel) : list jsval :=
  match matches with
  | [] => []
  | artifact :: rest =>
      let safe := safe_result artifact in
      let size := byte_length (stringify safe) in
      if (limit_totalBytes <? used + size)%Z then [] else safe :: collect_results (used + size) rest
  end.

Definition empty_results : Z := byte_length (stringify (JObj [(js "results", JArr [])])).

Definition boundedArtifactSearch (artifacts : list ArtifactModel) (input : jsval)
    : outcome error (list jsval * bool) :=
  '(query, limit) ← from_option_throw ZodError (artifactSearchArgumentsSchema input);
  let allMatches := searchArtifacts artifacts query in
  let matches := take (Z.to_nat (default limit_maxResults limit)) allMatches in
  let results := collect_results empty_results matches in
  Ok (results, (length matches <? length allMatches)%nat || (length results <? length matches)%nat).

(** ** Properties of search *)

Lemma collect_results_prefix used l :
  ∃ n, collect_results used l = map safe_result (take n l).
Proof.
  revert used. induction l as [|a l IH]; intros used; cbn; [by exists O|].
  case_match; [by exists O|]. destruct (IH (used + byte_length (stringify (safe_result a)))%Z) as [n ->].
  by exists (S n).
Qed.

Definition total_bytes (l : list jsval) : Z := foldr (λ v acc, (byte_length (stringify v) + acc)%Z) 0%Z l.

Lemma collect_results_bytes used l :
  (used <= limit_totalBytes)%Z → (used + total_bytes (collect_results used l) <= limit_totalBytes)%Z.
Proof.
  unfold total_bytes. revert used. induction l as [|a l IH]; intros used Hu; cbn [collect_results foldr]; [lia|].
  cbv zeta. destruct (Z.ltb_spec limit_totalBytes (used + byte_length (stringify (safe_result a)))) as [|Hle];
    cbn [foldr]; [lia|].
  specialize (IH (used + byte_length (stringify (safe_result a)))%Z Hle). lia.
Qed.

(** What it means for an artifact to be found. *)
Definition found (query : str) (a : ArtifactModel) : Prop :=
  ∀ term, term ∈ split_ws (to_lower query) → includes term (haystack a) = true.

Lemma search_found artifacts query a :
  trim query = query → query ≠ [] →
  a ∈ searchArtifacts artifacts query ↔ a ∈ artifacts ∧ found query a.
Proof.
  intros Ht Hne. unfold searchArtifacts. rewrite Ht.
  assert (nonempty (to_lower query) = true) as ->.
  { destruct query as [|c q]; [done|]. cbn. unfold lower_unit. by repeat case_match. }
  rewrite !list_elem_of_In, filter_In. unfold matches_terms, found.
  by rewrite forallb_true_elem.
Qed.

(** A bounded search stays within its limits and is honest about them. It returns a prefix
    of the matching artifacts in catalogue order, at most ten and at most the requested number,
    whose serialised form stays within 128000 bytes in total; every returned artifact contains
    all terms of the query; and [truncated] is set exactly when some match was left out. *)
Theorem bounded_search artifacts input results truncated :
  boundedArtifactSearch artifacts input = Ok (results, truncated) →
  ∃ query limit n,
    artifactSearchArgumentsSchema input = Some (query, limit) ∧
    (Z.of_nat n <= default limit_maxResults limit <= limit_maxResults)%Z ∧
    results = map safe_result (take n (searchArtifacts artifacts query)) ∧
    (empty_results + total_bytes results <= limit_totalBytes)%Z ∧
    Forall (λ a, a ∈ artifacts ∧ found query a) (take n (searchArtifacts artifacts query)) ∧
    (truncated = true ↔ (length results < length (searchArtifacts artifacts query))%nat).
Proof.
  unfold boundedArtifactSearch. intros ([query limit] & Hs & H)%outcome_bind_ok.
  apply from_option_throw_ok in Hs. simplify_eq.
  assert (Hlim : (1 <= default limit_maxResults limit <= limit_maxResults)%Z ∧ trim query = query ∧ query ≠ []).
  { unfold artifactSearchArgumentsSchema in Hs. destruct (strict _ _); [|done].
    apply bind_Some in Hs as (q & Hq & Hs). apply bind_Some in Hs as (l & Hl & Hs).
    destruct (_ && _) eqn:E; [|done]. simplify_eq. to_prop.
    apply bind_Some in Hq as (v & _ & [H1 H2]%z_trimmed_clean). apply bind_Some in Hl as (v' & _ & Hl).
    split; [|done]. destruct limit as [n|]; cbn; [|unfold limit_maxResults; lia].
    apply Z.leb_le in H0. apply z_optional_Some in Hl. unfold z_int_ge in Hl.
    destruct v' as [| | |[z| | |]| | | |]; try done. destruct (is_safe_Z z && (1 <=? z)%Z) eqn:E'; [|done].
    simplify_eq. to_prop. lia. }
  destruct Hlim as (Hlim & Ht & Hne). set (all := searchArtifacts artifacts query) in *.
  set (k := Z.to_nat (default limit_maxResults limit)).
  destruct (collect_results_prefix empty_results (take k all)) as [n Hn].
  rewrite take_take in Hn.
  exists query, limit, (n `min` k)%nat. split; [done|]. split; [unfold k; lia|]. split; [done|].
  split; [apply collect_results_bytes; vm_compute; done|]. split.
  - apply Forall_forall. intros a Ha. apply search_found; [done|done|].
    eapply subseteq_take. exact Ha.
  - fold k all. rewrite Hn, length_map, !length_take, orb_true_iff, !Nat.ltb_lt. clearbody k all. lia.
Qed.

(** ** Truncation *)

Lemma nth_app_tail (pre post : list N) i : nth (length pre + i) (pre ++ post) 0%N = nth i post 0%N.
Proof. rewrite app_nth2 by lia. f_equal. lia. Qed.

(** The first byte of a code point is not a continuation byte, the others are. *)
Lemma utf8_bytes_shape c :
  (c < 1114112)%N → ∃ b r, utf8_bytes c = b :: r ∧ is_cont b = false ∧ Forall (λ x, is_cont x = true) r ∧
    (length r ≤ 3)%nat.
Proof.
  intros Hc. unfold utf8_bytes, is_cont.
  destruct (N.ltb_spec c 128); [|destruct (N.ltb_spec c 2048); [|destruct (N.ltb_spec c 65536)]];
    eexists _, _; (split; [reflexivity|]); (split; [unfold in_range; n_bool; lia|]);
    (split; [repeat constructor; unfold in_range; n_bool; lia|cbn; lia]).
Qed.

Lemma back_up_block pre b r rest e :
  is_cont b = false → Forall (λ x, is_cont x = true) r → (e ≤ length r)%nat →
  back_up (pre ++ (b :: r) ++ rest) (length pre + e) = length pre.
Proof.
  intros Hb Hr. induction e as [|e IH]; intros He.
  - rewrite Nat.add_0_r. destruct pre as [|x pre] using rev_ind; [done|]. clear IHpre.
    rewrite length_app, Nat.add_1_r. cbn [back_up].
    replace (S (length pre)) with (length (pre ++ [x]) + 0)%nat by (rewrite length_app; cbn; lia).
    rewrite nth_app_tail. cbn [app nth]. by rewrite Hb.
  - rewrite Nat.add_succ_r. cbn [back_up].
    replace (S (length pre + e)) with (length pre + S e)%nat by lia. rewrite nth_app_tail. cbn [app nth].
    rewrite app_nth1 by lia.
    assert (is_cont (nth e r 0%N) = true) as ->; [|apply IH; lia].
    rewrite Forall_forall in Hr. apply Hr. apply list_elem_of_In, nth_In. lia.
Qed.

(** Backing up from a position lands on the start of the code point that contains it. *)
Definition cut_at_boundary (s : str) : Prop := ∀ pre e,
  (e < length (utf8_encode s))%nat →
  ∃ p q, s = p ++ q ∧ utf16_ok p = true ∧ utf8_encode s = utf8_encode p ++ utf8_encode q ∧
    back_up (pre ++ utf8_encode s) (length pre + e) = (length pre + length (utf8_encode p))%nat ∧
    (length (utf8_encode p) ≤ e ≤ length (utf8_encode p) + 3)%nat.

Lemma cut_block u t c :
  (∀ p, utf16_ok p = true → utf16_ok (u ++ p) = true) →
  (∀ p, utf8_encode (u ++ p) = utf8_bytes c ++ utf8_encode p) → (c < 1114112)%N →
  cut_at_boundary t → cut_at_boundary (u ++ t).
Proof.
  intros Hok Henc Hc IH pre e. destruct (utf8_bytes_shape c Hc) as (b & r & Hu & Hb & Hr & Hlen).
  rewrite Henc, length_app. intros He. destruct (decide (e < length (utf8_bytes c))%nat) as [Hlt|Hge].
  - exists [], (u ++ t). rewrite Henc. split; [done|]. split; [done|]. split; [done|].
    rewrite Hu in Hlt |- *. cbn [length] in Hlt. split; [|cbn; lia].
    rewrite back_up_block by (done || lia). cbn. lia.
  - destruct (IH (pre ++ utf8_bytes c) (e - length (utf8_bytes c))%nat) as (p & q & -> & Hp & Hpq & Hbu & Hle); [lia|].
    exists (u ++ p), q. rewrite Henc, app_assoc, length_app, Hpq, app_assoc.
    split; [done|]. split; [by apply Hok|]. split; [done|]. split; [|lia].
    rewrite Hpq, length_app, <- app_assoc in Hbu.
    replace (length pre + e)%nat with (length pre + length (utf8_bytes c) + (e - length (utf8_bytes c)))%nat by lia.
    rewrite <- app_assoc, Hbu. lia.
Qed.

Lemma utf16_cut s : utf16_ok s = true → cut_at_boundary s.
Proof.
  assert (Hone : ∀ c t, is_hi c = false → is_lo c = false → (c < 65536)%N → cut_at_boundary t → cut_at_boundary (c :: t)).
  { intros c t Hh Hl Hc Ht. apply (cut_block [c] t c); [..|lia|done].
    - intros p Hp. cbn [app utf16_ok]. rewrite Hh, Hl, Hp. cbn. by rewrite (proj2 (N.ltb_lt _ _)).
    - intros p. cbn [app utf8_encode]. by rewrite Hh, Hl. }
  induction s as [|c|c d s IHs IHds] using str_pair_ind; intros Hs.
  - intros pre e He. cbn in He. lia.
  - cbn [utf16_ok] in Hs. destruct (is_hi c) eqn:Eh; [done|]. to_prop. apply Hone; [done..|by apply N.ltb_lt|].
    intros pre e He. cbn in He. lia.
  - cbn [utf16_ok] in Hs. destruct (is_hi c) eqn:Eh.
    + apply andb_true_iff in Hs as [Hd Hs]. apply (cut_block [c; d] s (code_point c d)); [..|by apply IHs].
      * intros p Hp. cbn [app utf16_ok]. by rewrite Eh, Hd, Hp.
      * intros p. cbn [app utf8_encode]. by rewrite Eh, Hd.
      * unfold code_point. unfold_ranges. n_bool. lia.
    + apply andb_true_iff in Hs as [Hc Hs]. to_prop. apply Hone; [done..|by apply N.ltb_lt|by apply IHds].
Qed.

(** Truncation of an artifact body keeps whole characters. For a well-formed string the
    result is a prefix of it of at most [max] bytes, it is the string itself unless that is
    longer, which is what the flag says, and otherwise at most three bytes of room are lost. *)
Theorem truncate_utf8 value max :
  utf16_ok value = true → (0 <= max)%Z →
  let '(v, truncated) := truncateUtf8 value max in
  (∃ rest, value = v ++ rest) ∧ (byte_length v <= max)%Z ∧
  (truncated = false → v = value) ∧
  (truncated = true → (max < byte_length value)%Z ∧ (max - 3 <= byte_length v)%Z).
Proof.
  intros Hok Hmax. unfold truncateUtf8. destruct (Z.leb_spec (Z.of_nat (length (utf8_encode value))) max) as [Hle|Hgt].
  - split; [exists []; by rewrite app_nil_r|]. by repeat split.
  - destruct (utf16_cut value Hok [] (Z.to_nat max)) as (p & q & -> & Hp & Hpq & Hbu & Hlen); [lia|].
    cbn [app length Nat.add] in Hbu. rewrite Hbu, Hpq, take_app_length, utf8_roundtrip by done.
    unfold byte_length. split; [by exists q|]. split; [lia|]. split; [done|]. intros _. lia.
Qed.

(** Evaluate the property accesses on object literals. *)
Ltac eval_fields :=
  repeat match goal with
         | |- context [z_field ?k (JObj ?o)] =>
             let v := eval vm_compute in (field (js k) o) in change (z_field k (JObj o)) with (Some v)
         end.

(** ** Authorities *)

Record ArtifactSearchAuthority := Authority {
  au_runId : str; au_stepId : str; au_iteration : Z; au_attempt : Z; au_repositoryId : Z;
  au_installationId : Z; au_owner : str; au_repository : str; au_branch : str; au_root : str;
  au_expiresAt : Z; au_nonce : str;
}.

Definition authority_js (a : ArtifactSearchAuthority) : jsval :=
  JObj [(js "version", JNum (NInt 1)); (js "runId", JStr (au_runId a)); (js "stepId", JStr (au_stepId a));
        (js "iteration", JNum (NInt (au_iteration a))); (js "attempt", JNum (NInt (au_attempt a)));
        (js "repositoryId", JNum (NInt (au_repositoryId a)));
        (js "installationId", JNum (NInt (au_installationId a)));
        (js "owner", JStr (au_owner a)); (js "repository", JStr (au_repository a));
        (js "branch", JStr (au_branch a)); (js "root", JStr (au_root a));
        (js "expiresAt", JNum (NInt (au_expiresAt a))); (js "nonce", JStr (au_nonce a))].

Definition authority_keys : list str :=
  [js "version"; js "runId"; js "stepId"; js "iteration"; js "attempt"; js "repositoryId";
   js "installationId"; js "owner"; js "repository"; js "branch"; js "root"; js "expiresAt"; js "nonce"].

(** [z.string().min(lo).max(hi)] *)
Definition z_string_len (lo hi : nat) (v : jsval) : option str :=
  s ← z_string v; if (lo <=? length s)%nat && (length s <=? hi)%nat then Some s else None.
(** [z.number().int()] *)
Definition z_int (v : jsval) : option Z :=
  match v with JNum (NInt z) => if is_safe_Z z then Some z else None | _ => None end.

Definition tool_authority_invalid : error := PlainError (js "tool_authority_invalid").

Section Authority.
(** SHA-256, AES-256-GCM (ciphertext and tag; decryption fails on a bad tag) and zod's UUID. *)
Variables (sha256 : list N → list N)
  (gcm_encrypt : list N → list N → list N → list N * list N)
  (gcm_decrypt : list N → list N → list N → list N → option (list N))
  (zod_uuid : str → bool).

Definition z_uuid (v : jsval) : option str := s ← z_string v; if zod_uuid s then Some s else None.

Definition authoritySchema (v : jsval) : option ArtifactSearchAuthority :=
  if strict authority_keys v then
    _ ← z_field "version" v ≫= z_literal 1;
    runId ← z_field "runId" v ≫= z_uuid;
    stepId ← z_field "stepId" v ≫= z_string_len 1 80;
    iteration ← z_field "iteration" v ≫= z_int_ge 1;
    attempt ← z_field "attempt" v ≫= z_int_ge 1;
    repositoryId ← z_field "repositoryId" v ≫= z_int_ge 1;
    installationId ← z_field "installationId" v ≫= z_int_ge 1;
    owner ← z_field "owner" v ≫= z_string_len 1 100;
    repository ← z_field "repository" v ≫= z_string_len 1 100;
    branch ← z_field "branch" v ≫= z_string_len 1 255;
    root ← z_field "root" v ≫= z_string_len 1 255;
    expiresAt ← z_field "expiresAt" v ≫= z_int;
    nonce ← z_field "nonce" v ≫= z_uuid;
    Some (Authority runId stepId iteration attempt repositoryId installationId owner repository
            branch root expiresAt nonce)
  else None.

Definition authorityKey (secret : str) : outcome error (list N) :=
  if (length secret <? 32)%nat then Throw (PlainError (js "tool_authority_secret_invalid"))
  else Ok (sha256 (utf8_encode (js "artifact-search-authority" ++ [0%N] ++ secret))).

Definition dot : N := 46.

(** [iv] is [randomBytes(12)]. *)
Definition issueArtifactSearchAuthority (value : ArtifactSearchAuthority) (secret : str) (iv : list N)
    : outcome error str :=
  key ← authorityKey secret;
  parsed ← from_option_throw ZodError (authoritySchema (authority_js value));
  let '(ciphertext, tag) := gcm_encrypt key iv (utf8_encode (stringify (authority_js parsed))) in
  Ok (base64url_encode iv ++ [dot] ++ base64url_encode ciphertext ++ [dot] ++ base64url_encode tag).

Definition verifyArtifactSearchAuthority (token secret expectedRunId : str) (now : Z)
    : outcome error ArtifactSearchAuthority :=
  match split_on dot token with
  | [(_ :: _) as nonce; (_ :: _) as ciphertext; (_ :: _) as tag] =>
      match (key ← authorityKey secret;
             bytes ← from_option_throw tool_authority_invalid
               (gcm_decrypt key (base64_decode nonce) (base64_decode ciphertext) (base64_decode tag));
             from_option_throw ZodError (JSON_parse (utf8_decode bytes) ≫= authoritySchema)) with
      | Throw _ => Throw tool_authority_invalid
      | Ok value =>
          if negb (str_eqb (au_runId value) expectedRunId) || (au_expiresAt value <=? now)%Z
          then Throw tool_authority_invalid else Ok value
      end
  | _ => Throw tool_authority_invalid
  end.

(** What the cipher promises: decryption inverts encryption, outputs are bytes, and tags and
    ciphertexts of non-empty messages are not empty. *)
Hypothesis gcm_roundtrip : ∀ key iv m, Forall byte_ok m →
  gcm_decrypt key iv (gcm_encrypt key iv m).1 (gcm_encrypt key iv m).2 = Some m.
Hypothesis gcm_bytes : ∀ key iv m, Forall byte_ok m → m ≠ [] →
  let '(c, t) := gcm_encrypt key iv m in
  Forall byte_ok c ∧ Forall byte_ok t ∧ c ≠ [] ∧ t ≠ [].

Lemma schema_authority a a' : authoritySchema (authority_js a) = Some a' → a' = a.
Proof.
  destruct a as [run step it att rep inst ow re br ro ex no]. unfold authoritySchema, authority_js.
  destruct (strict _ _); [|done]. cbn [au_runId au_stepId au_iteration au_attempt au_repositoryId
    au_installationId au_owner au_repository au_branch au_root au_expiresAt au_nonce]. eval_fields.
  cbn [mbind option_bind]. intros H. inv_bind.
  simplify_eq. unfold z_uuid, z_string_len, z_int_ge, z_int in *. cbn [z_string mbind option_bind] in *.
  repeat match goal with
         | H : (if ?b then _ else _) = Some _ |- _ => destruct b; [injection H as <-|discriminate]
         end.
  done.
Qed.

Definition authority_units (a : ArtifactSearchAuthority) : Prop :=
  Forall units_ok [au_runId a; au_stepId a; au_owner a; au_repository a; au_branch a; au_root a; au_nonce a].

Lemma base64url_nonempty l : Forall byte_ok l → l ≠ [] → ∃ c t, base64url_encode l = c :: t.
Proof.
  intros Hl Hne. destruct (base64url_encode l) as [|c t] eqn:E; [|eauto].
  pose proof (base64url_roundtrip l Hl) as H. rewrite E in H. by destruct l.
Qed.

Lemma authority_json a :
  authoritySchema (authority_js a) = Some a → authority_units a → json_ok (authority_js a).
Proof.
  intros Hs Hu. unfold authority_units in Hu. rewrite !Forall_cons in Hu. destruct Hu as (? & ? & ? & ? & ? & ? & ? & _).
  unfold authoritySchema in Hs. destruct (strict _ _); [|done]. revert Hs. unfold authority_js at 1 2 3 4 5 6 7 8 9 10 11 12 13.
  eval_fields. cbn [mbind option_bind]. intros Hs. inv_bind.
  unfold z_int_ge, z_int in *.
  repeat match goal with
         | H : (if ?b then _ else _) = Some _ |- _ => destruct b eqn:?; [clear H|discriminate]
         end. to_prop.
  apply json_ok_obj. split; [vm_compute; eval_decide|].
  repeat apply Forall_cons_2; [split; [apply units_ok_dec; vm_compute; reflexivity|]..|constructor];
    cbn [snd json_ok]; try done; try (by apply safe_abs); lia.
Qed.

(** An issued authority is accepted exactly for its own run and before it expires, and it
    carries back exactly what was issued: encryption, encoding and the strict schema lose
    nothing, and a different run or a later time is refused. *)
Theorem authority_roundtrip value secret iv token run now :
  issueArtifactSearchAuthority value secret iv = Ok token →
  authority_units value → Forall byte_ok iv → iv ≠ [] →
  verifyArtifactSearchAuthority token secret run now
  = if str_eqb (au_runId value) run && (now <? au_expiresAt value)%Z
    then Ok value else Throw tool_authority_invalid.
Proof.
  intros H Hu Hiv Hne. unfold issueArtifactSearchAuthority in H.
  apply outcome_bind_ok in H as (key & Hkey & H). apply outcome_bind_ok in H as (parsed & Hp & H).
  apply from_option_throw_ok in Hp. pose proof (schema_authority _ _ Hp) as ->.
  pose proof (authority_json value Hp Hu) as Hj.
  set (m := utf8_encode (stringify (authority_js value))) in H.
  assert (Hmb : Forall byte_ok m) by (apply utf8_encode_ok, utf16_ok_units, stringify_ok; done).
  pose proof (gcm_roundtrip key iv m Hmb) as Hrt. pose proof (gcm_bytes key iv m Hmb) as Hb.
  destruct (gcm_encrypt key iv m) as [c t]. cbn [fst snd] in Hrt. injection H as <-.
  assert (Hm : m ≠ []).
  { intros Hm. pose proof (json_bytes_roundtrip _ Hj) as Hr. fold m in Hr. rewrite Hm in Hr. by vm_compute in Hr. }
  destruct (Hb Hm) as (Hc & Ht & Hcn & Htn).
  unfold verifyArtifactSearchAuthority. cbn [app].
  rewrite !split_on_app, split_on_fresh by (by apply base64url_no_dot).
  destruct (base64url_nonempty iv Hiv Hne) as (x1 & y1 & E1), (base64url_nonempty c Hc Hcn) as (x2 & y2 & E2),
    (base64url_nonempty t Ht Htn) as (x3 & y3 & E3).
  rewrite E1, E2, E3. rewrite <- E1, <- E2, <- E3. rewrite !base64url_roundtrip by done.
  rewrite Hkey. cbn [mbind outcome_bind]. rewrite Hrt. cbn [from_option_throw mbind outcome_bind].
  unfold m. rewrite json_bytes_roundtrip by done. cbn [mbind option_bind]. rewrite Hp. cbn [from_option_throw].
  destruct (str_eqb _ _); cbn [negb orb andb]; [|done].
  destruct (Z.leb_spec (au_expiresAt value) now), (Z.ltb_spec now (au_expiresAt value)); (done || lia).
Qed.
End Authority.

(** ** The call budget *)

(** [uses]: the calls seen under each unexpired nonce *)
Abbreviation budget := (gmap str (Z * gset str)).

(** [/^[A-Za-z0-9_-]{1,128}$/] *)
Definition is_call_id (s : str) : bool :=
  forallb (λ c, is_alnum c || (c =? ch "_")%N || (c =? dash)%N) s
  && (1 <=? length s)%nat && (length s <=? 128)%nat.

(** The budget after the call, and whether it was accepted. *)
Definition accept (authority : ArtifactSearchAuthority) (callId : str) (now : Z) (uses : budget)
    : budget * outcome error unit :=
  if negb (is_call_id callId) then (uses, Throw (PlainError (js "tool_call_invalid")))
  else
    let uses := filter (λ e : str * (Z * gset str), (now < e.2.1)%Z) uses in
    let '(expiresAt, calls) := default (au_expiresAt authority, ∅) (uses !! au_nonce authority) in
    if bool_decide (callId ∈ calls) || (limit_maxCalls <=? size calls)%nat
    then (uses, Throw (PlainError (js "tool_authority_replayed")))
    else (<[au_nonce authority := (expiresAt, {[callId]} ∪ calls)]> uses, Ok ()).

Record call := Call { cl_authority : ArtifactSearchAuthority; cl_id : str; cl_now : Z }.

(** A sequence of calls; the accepted ones in order. *)
Fixpoint accept_all (calls : list call) (uses : budget) : list call :=
  match calls with
  | [] => []
  | c :: rest =>
      let '(uses', r) := accept (cl_authority c) (cl_id c) (cl_now c) uses in
      if is_ok r then c :: accept_all rest uses' else accept_all rest uses'
  end.

(** The identifiers of the accepted calls under a nonce. *)
Definition ids_under (nonce : str) (l : list call) : list str :=
  map cl_id (List.filter (λ c, str_eqb (au_nonce (cl_authority c)) nonce) l).

(** The entry of a nonce holds exactly the accepted identifiers. *)
Definition holds_calls (nonce : str) (expires : Z) (done : list str) (uses : budget) : Prop :=
  match uses !! nonce with
  | None => done = []
  | Some (e, calls) => e = expires ∧ calls = list_to_set done ∧ NoDup done ∧ (length done ≤ limit_maxCalls)%nat
  end.

Lemma holds_calls_purge nonce expires done now uses :
  (now < expires)%Z → holds_calls nonce expires done uses →
  holds_calls nonce expires done (filter (λ e : str * (Z * gset str), (now < e.2.1)%Z) uses).
Proof.
  unfold holds_calls. intros Hnow. destruct (uses !! nonce) as [[e calls]|] eqn:E.
  - intros (-> & Hrest).
    assert (filter (λ e : str * (Z * gset str), (now < e.2.1)%Z) uses !! nonce = Some (expires, calls)) as ->
      by (apply map_lookup_filter_Some; done). done.
  - intros ->.
    assert (filter (λ e : str * (Z * gset str), (now < e.2.1)%Z) uses !! nonce = None) as ->
      by (apply map_lookup_filter_None; by left). done.
Qed.

Lemma accept_holds nonce expires done c uses :
  (cl_now c < expires)%Z →
  (au_nonce (cl_authority c) = nonce → au_expiresAt (cl_authority c) = expires) →
  holds_calls nonce expires done uses →
  let '(uses', r) := accept (cl_authority c) (cl_id c) (cl_now c) uses in
  holds_calls nonce expires
    (if is_ok r && str_eqb (au_nonce (cl_authority c)) nonce then cl_id c :: done else done) uses'.
Proof.
  intros Hnow Hexp Hh. unfold accept. destruct (negb _); [done|].
  apply (holds_calls_purge _ _ _ _ _ Hnow) in Hh.
  set (uses1 := filter _ uses) in *. clearbody uses1. clear uses.
  destruct (str_eqb (au_nonce (cl_authority c)) nonce) eqn:En.
  - apply str_eqb_eq in En. specialize (Hexp En). rewrite En, Hexp.
    assert (∃ calls, default (expires, ∅) (uses1 !! nonce) = (expires, calls) ∧ calls = list_to_set done ∧
              NoDup done ∧ (length done ≤ limit_maxCalls)%nat) as (calls & -> & -> & Hnd & Hlen).
    { unfold holds_calls in Hh. destruct (uses1 !! nonce) as [[e calls]|]; cbn.
      - destruct Hh as (-> & ?). eauto.
      - subst done. exists ∅. split; [done|]. split; [done|]. split; [constructor|cbn; lia]. }
    rewrite size_list_to_set by done.
    destruct (bool_decide _) eqn:Ein; [done|]. to_prop. cbn [orb].
    destruct (Nat.leb_spec limit_maxCalls (length done)); [done|].
    unfold holds_calls. rewrite lookup_insert_eq. cbn [is_ok andb]. split; [done|]. split; [done|].
    split; [|cbn; lia]. constructor; [|done]. intros Hc. apply Ein. by apply elem_of_list_to_set.
  - destruct (default _ _) as [e calls]. destruct (_ || _); cbn [is_ok andb]; [done|].
    unfold holds_calls in *. rewrite lookup_insert_ne; [done|]. intros E. rewrite E, str_eqb_refl in En. done.
Qed.

Lemma accept_all_holds nonce expires calls done uses :
  Forall (λ c, (cl_now c < expires)%Z ∧
               (au_nonce (cl_authority c) = nonce → au_expiresAt (cl_authority c) = expires)) calls →
  holds_calls nonce expires done uses →
  NoDup (ids_under nonce (accept_all calls uses) ++ done) ∧
  (length (ids_under nonce (accept_all calls uses) ++ done) ≤ limit_maxCalls)%nat.
Proof.
  intros Hc. revert done uses. induction Hc as [|c calls [Hnow Hexp] Hcs IH]; intros done uses Hh; cbn [accept_all].
  - unfold ids_under. cbn [List.filter map app]. unfold holds_calls in Hh.
    destruct (uses !! nonce) as [[e x]|]; [by destruct Hh as (_ & _ & ?)|]. subst done.
    split; [constructor|cbn; lia].
  - pose proof (accept_holds nonce expires done c uses Hnow Hexp Hh) as Ha.
    destruct (accept _ _ _ uses) as [uses' r]. specialize (IH _ _ Ha).
    destruct (is_ok r); [|done]. unfold ids_under in *. cbn [List.filter].
    destruct (str_eqb _ nonce); cbn [andb] in IH; [|done]. cbn [map app]. destruct IH as [IH1 IH2]. split.
    + by rewrite Permutation_middle.
    + rewrite length_app in *. cbn [length] in *. rewrite length_app in *. cbn [length] in IH2. lia.
Qed.

(** An authority buys at most four tool calls and none twice. Over any sequence of calls, of
    any authorities in any order, as long as the authority with a given nonce has not expired,
    the calls accepted under it have distinct identifiers and are at most four. *)
Theorem replay_budget nonce expires calls :
  Forall (λ c, (cl_now c < expires)%Z ∧
               (au_nonce (cl_authority c) = nonce → au_expiresAt (cl_authority c) = expires)) calls →
  NoDup (ids_under nonce (accept_all calls ∅)) ∧
  (length (ids_under nonce (accept_all calls ∅)) ≤ limit_maxCalls)%nat.
Proof.
  intros Hc. destruct (accept_all_holds nonce expires calls [] ∅ Hc) as [H1 H2].
  - unfold holds_calls. by rewrite lookup_empty.
  - by rewrite app_nil_r in *.
Qed.

(** ** Witnesses *)

Module SearchExamples.
Import ToyLibs.

Definition input : jsval := JObj [(js "query", JStr (js " BODY x ")); (js "limit", JNum (NInt 1))].
Definition library : list ArtifactModel := [ContractExamples.artifact; ContractExamples.artifact].
Definition run : list jsval * bool :=
  match boundedArtifactSearch library input with Ok r => r | Throw _ => ([], false) end.

Lemma bounded_search_witness :
  length run.1 = 1%nat ∧
  ∃ query limit n,
    artifactSearchArgumentsSchema input = Some (query, limit) ∧
    (Z.of_nat n <= default limit_maxResults limit <= limit_maxResults)%Z ∧
    run.1 = map safe_result (take n (searchArtifacts library query)) ∧
    (empty_results + total_bytes run.1 <= limit_totalBytes)%Z ∧
    Forall (λ a, a ∈ library ∧ found query a) (take n (searchArtifacts library query)) ∧
    (run.2 = true ↔ (length run.1 < length (searchArtifacts library query))%nat).
Proof.
  split; [vm_compute; reflexivity|]. apply (bounded_search library input run.1 run.2).
  vm_compute. reflexivity.
Defined.

(** The byte limit falls inside the second, three-byte, character. *)
Lemma truncate_utf8_witness :
  let '(v, truncated) := truncateUtf8 [97; 8364; 98]%N 3 in
  (∃ rest, [97; 8364; 98]%N = v ++ rest) ∧ (byte_length v <= 3)%Z ∧
  (truncated = false → v = [97; 8364; 98]%N) ∧
  (truncated = true → (3 < byte_length [97; 8364; 98]%N)%Z ∧ (3 - 3 <= byte_length v)%Z).
Proof. apply (truncate_utf8 [97; 8364; 98]%N 3); [vm_compute; reflexivity|lia]. Defined.

(** A cipher that does nothing, with a constant tag. *)
Definition toy_encrypt (key iv m : list N) : list N * list N := (m, [7%N]).
Definition toy_decrypt (key iv c t : list N) : option (list N) := Some c.
Definition authority : ArtifactSearchAuthority :=
  Authority (js "run") (js "step") 1 1 7 8 (js "acme") (js "lib") (js "main") (js "root") 2000 (js "n").
Definition secret : str := replicate 32 (ch "k").

Definition token : str :=
  match issueArtifactSearchAuthority id toy_encrypt nonempty authority secret [1; 2; 3]%N with
  | Ok t => t | Throw _ => [] end.

Lemma authority_roundtrip_witness :
  verifyArtifactSearchAuthority id toy_decrypt nonempty token secret (js "run") 1000 = Ok authority.
Proof.
  rewrite (authority_roundtrip id toy_encrypt toy_decrypt nonempty ltac:(done)
             ltac:(intros key iv m Hm Hne; split_and!; [done|by repeat constructor|done|done])
             authority secret [1; 2; 3]%N token (js "run") 1000).
  - vm_compute. reflexivity.
  - vm_compute. reflexivity.
  - repeat (apply Forall_cons_2; [units_lit|]). apply Forall_nil_2.
  - by repeat constructor.
  - done.
Defined.

Definition call_at (id : string) : call := Call authority (js id) 1000.
Lemma replay_budget_witness :
  length (accept_all [call_at "a"; call_at "a"; call_at "b"] ∅) = 2%nat ∧
  NoDup (ids_under (js "n") (accept_all [call_at "a"; call_at "a"; call_at "b"] ∅)) ∧
  (length (ids_under (js "n") (accept_all [call_at "a"; call_at "a"; call_at "b"] ∅)) ≤ limit_maxCalls)%nat.
Proof.
  split; [vm_compute; reflexivity|].
  apply (replay_budget (js "n") 2000). repeat constructor.
Defined.
End SearchExamples.
