(* ===== verification/D1.v ===== *)
(** * A D1 database

    The tables of the Cloudflare D1 (SQLite) binding, as a value [T] that each
    statement reads and writes, with a script of faults: the binding is reached
    over the network, so that a statement can fail without having run, or run
    and lose its answer. *)

From S2P Require Import Prelude.

Inductive fault := NoFault | FaultBefore | FaultAfter.

Record d1 (T : Type) := D1 { d1_table : T; d1_faults : list fault }.
Arguments D1 {T}. Arguments d1_table {T}. Arguments d1_faults {T}.

Section D1.
Context {T E : Type}.
Variable rejected : E.

(** One statement; [stmt] is its effect on the table and its answer. *)
Definition d1_exec {A} (stmt : T → T * outcome E A) : eff (d1 T) E A := λ s,
  match d1_faults s with
  | FaultBefore :: fs => (D1 (d1_table s) fs, Throw rejected)
  | FaultAfter :: fs => (D1 (stmt (d1_table s)).1 fs, Throw rejected)
  | fs => let '(t, r) := stmt (d1_table s) in (D1 t (tail fs), r)
  end.

(** Whatever the faults, the table is as before or as the statement left it. *)
Lemma d1_exec_table {A} (stmt : T → T * outcome E A) s s' r :
  d1_exec stmt s = (s', r) →
  (d1_table s' = (stmt (d1_table s)).1 ∧ (r = (stmt (d1_table s)).2 ∨ r = Throw rejected)) ∨
  (d1_table s' = d1_table s ∧ r = Throw rejected).
Proof.
  unfold d1_exec. destruct (d1_faults s) as [|[] fs]; try (destruct (stmt (d1_table s)) as [t o]);
    intros [= <- <-]; cbn; auto.
Qed.

Lemma d1_exec_ok {A} (stmt : T → T * outcome E A) s s' a :
  d1_exec stmt s = (s', Ok a) → stmt (d1_table s) = (d1_table s', Ok a).
Proof.
  unfold d1_exec. destruct (d1_faults s) as [|[] fs]; try (destruct (stmt (d1_table s)) as [t o]);
    by intros [= <- <-].
Qed.

Lemma d1_exec_no_fault {A} (stmt : T → T * outcome E A) t :
  d1_exec stmt (D1 t []) = (D1 (stmt t).1 [], (stmt t).2).
Proof. unfold d1_exec. cbn. by destruct (stmt t). Qed.
End D1.
