(* ===== verification/AuthConfig.v ===== *)
(** * Sign-in configuration

    Models [src/lib/auth-configuration.ts] (except the production readiness
    check, which is in [GithubApp]) and the errors of the sign-in components.
    [process.env] is an association list. *)

From S2P Require Import Prelude JsString Encoding JsDate Json Libs GithubClient.

(** ** Errors *)

Inductive configuration_code :=
| Missing_configuration | Invalid_session_secret | Invalid_encryption_key_format
| Invalid_encryption_key_length | Invalid_repository_backend | Invalid_private_key.
#[export] Instance configuration_code_eq_dec : EqDecision configuration_code.
Proof. solve_decision. Defined.

(** [InstallationCredentialFailure] *)
Inductive credential_failure :=
| Authentication_failed | Installation_missing | Capability_request_rejected | Rate_limited_credential
| Temporarily_unavailable | Malformed_response | Request_failed.
#[export] Instance credential_failure_eq_dec : EqDecision credential_failure.
Proof. solve_decision. Defined.

(** The [category] property of [oauth_flow_failed]. *)
Inductive oauth_category := Token_exchange | Identity_lookup.
#[export] Instance oauth_category_eq_dec : EqDecision oauth_category.
Proof. solve_decision. Defined.

Inductive auth_error :=
| AuthenticationConfigurationError (code : configuration_code) (missingNames : option (list str))
| InstallationCredentialError (category : credential_failure) (c : capability) (status : option Z)
(** [Object.assign(new Error(...), { status })] *)
| HttpError (status : Z)
| OAuthFlowError (category : oauth_category)
| DatabaseRejected
(** the navigation that Next's [redirect] throws *)
| NextRedirect (location : str)
| OtherError (message : str).
#[export] Instance auth_error_eq_dec : EqDecision auth_error.
Proof. solve_decision. Defined.

Definition is_configuration_error (e : auth_error) : bool :=
  match e with AuthenticationConfigurationError _ _ => true | _ => false end.

(** [(error as { status?: number }).status] *)
Definition auth_error_status (e : auth_error) : option Z :=
  match e with
  | HttpError s => Some s
  | InstallationCredentialError _ _ s => s
  | _ => None
  end.

(** ** Environment *)

Abbreviation process_env := (list (str * str)).

(** [process.env[name]?.trim()], when it is truthy *)
Definition env_value (env : process_env) (name : str) : option str :=
  match trim <$> assoc name env with Some ((_ :: _) as v) => Some v | _ => None end.

Definition is_none {A} (o : option A) : bool := match o with None => true | Some _ => false end.

Definition requireAuthenticationValues (env : process_env) (names : list str)
    : outcome auth_error (list (str * str)) :=
  let missingNames := List.filter (λ name, is_none (env_value env name)) names in
  match missingNames with
  | [] => Ok (map (λ name, (name, trim (default [] (assoc name env)))) names)
  | _ => Throw (AuthenticationConfigurationError Missing_configuration
                  (Some (sort_list str_leb missingNames)))
  end.

(** [values.NAME] *)
Definition value_of (name : string) (values : list (str * str)) : str :=
  default [] (assoc (js name) values).

Definition getOAuthStartConfig (env : process_env) : outcome auth_error str :=
  values ← requireAuthenticationValues env [js "GITHUB_APP_CLIENT_ID"];
  Ok (value_of "GITHUB_APP_CLIENT_ID" values).

Definition getOAuthExchangeConfig (env : process_env) : outcome auth_error (str * str) :=
  values ← requireAuthenticationValues env [js "GITHUB_APP_CLIENT_ID"; js "GITHUB_APP_CLIENT_SECRET"];
  Ok (value_of "GITHUB_APP_CLIENT_ID" values, value_of "GITHUB_APP_CLIENT_SECRET" values).

(** ** Base64 *)

Definition is_b64 (c : N) : bool := is_alnum c || (c =? 43)%N || (c =? 47)%N.
(** [/^(?:[A-Za-z0-9+/]{4})*(?:[A-Za-z0-9+/]{2}==|[A-Za-z0-9+/]{3}=)?$/] *)
Fixpoint canonical_base64 (s : str) : bool :=
  match s with
  | [] => true
  | a :: b :: c :: d :: r =>
      if is_b64 a && is_b64 b && is_b64 c && is_b64 d then canonical_base64 r
      else negb (nonempty r) && is_b64 a && is_b64 b && (d =? 61)%N && ((c =? 61)%N || is_b64 c)
  | _ => false
  end.

(** [atob(s)]: ASCII whitespace goes, up to two padding units go when the length
    is a multiple of four, then every unit must be in the alphabet. *)
Definition is_ascii_ws (c : N) : bool := bool_decide (c ∈ [9; 10; 12; 13; 32]%N).
Definition drop_padding (s : str) : str :=
  match reverse s with
  | a :: b :: r => if (a =? 61)%N then (if (b =? 61)%N then reverse r else reverse (b :: r)) else s
  | _ => s
  end.
Definition atob (s : str) : option (list N) :=
  let s := List.filter (λ c, negb (is_ascii_ws c)) s in
  let s := if (length s mod 4 =? 0)%nat then drop_padding s else s in
  if (length s mod 4 =? 1)%nat then None
  else if forallb is_b64 s then Some (base64_decode s) else None.

(** [btoa] of a byte string *)
Definition btoa (bytes : list N) : str := base64_encode bytes.

Definition quoted_edge (q : N) (s : str) : bool := starts_with [q] s || ends_with [q] s.

Definition validateTokenEncryptionKey (value : str) : outcome auth_error (list N) :=
  let normalized := trim value in
  let format := AuthenticationConfigurationError Invalid_encryption_key_format None in
  _ ← guard_throw (nonempty normalized && negb (quoted_edge 34 normalized) && negb (quoted_edge 39 normalized))
        format;
  _ ← guard_throw (canonical_base64 normalized) format;
  bytes ← from_option_throw format (atob normalized);
  _ ← guard_throw (length bytes =? 32)%nat
        (AuthenticationConfigurationError Invalid_encryption_key_length None);
  Ok bytes.

Record session_security := SessionSecurity { ss_sessionSecret : str; ss_tokenEncryptionKey : str }.

Definition getSessionSecurityConfig (env : process_env) : outcome auth_error session_security :=
  values ← requireAuthenticationValues env [js "SESSION_SECRET"; js "GITHUB_TOKEN_ENCRYPTION_KEY"];
  let secret := value_of "SESSION_SECRET" values in
  let key := value_of "GITHUB_TOKEN_ENCRYPTION_KEY" values in
  _ ← guard_throw (32 <=? length secret)%nat (AuthenticationConfigurationError Invalid_session_secret None);
  _ ← validateTokenEncryptionKey key;
  Ok (SessionSecurity secret key).

Example atob_ex :
  map atob [js "QUJD"; js "QUI="; js " QQ= ="; js "QUI"; js "Q"; js "Q-=="; js "===="]
  = [Some [65; 66; 67]%N; Some [65; 66]%N; Some [65]%N; Some [65; 66]%N; None; None; None].
Proof. vm_compute. reflexivity. Qed.

(** ** Theorems *)

Lemma is_b64_char v : (v < 64)%N → is_b64 (b64_char v) = true.
Proof.
  intros Hv. assert (forallb (λ v, is_b64 (b64_char v)) (map N.of_nat (seq 0 64)) = true) as H by done.
  rewrite forallb_forall in H. apply H. apply in_map_iff. exists (N.to_nat v).
  split; [lia|]. apply in_seq. lia.
Qed.

(** The digits of an encoding, by their place in a group of three bytes. *)
Lemma sextet_a a : byte_ok a → is_b64 (b64_char (a / 4)) = true.
Proof. intros. apply is_b64_char, N.Div0.div_lt_upper_bound. unfold byte_ok in *. lia. Qed.
Lemma sextet_b a x : (x < 16)%N → is_b64 (b64_char (a mod 4 * 16 + x)) = true.
Proof. intros. apply is_b64_char. pose proof (N.mod_lt a 4). lia. Qed.
Lemma sextet_c b x : (x < 4)%N → is_b64 (b64_char (b mod 16 * 4 + x)) = true.
Proof. intros. apply is_b64_char. pose proof (N.mod_lt b 16). lia. Qed.
Lemma sextet_d c : is_b64 (b64_char (c mod 64)) = true.
Proof. apply is_b64_char. pose proof (N.mod_lt c 64). lia. Qed.
Lemma byte_div16 b : byte_ok b → (b / 16 < 16)%N.
Proof. intros. apply N.Div0.div_lt_upper_bound. unfold byte_ok in *. lia. Qed.
Lemma byte_div64 b : byte_ok b → (b / 64 < 4)%N.
Proof. intros. apply N.Div0.div_lt_upper_bound. unfold byte_ok in *. lia. Qed.

(** An encoding is digits followed by at most two padding units. *)
Lemma base64_shape l :
  Forall byte_ok l →
  ∃ body pad, base64_encode l = body ++ pad ∧ Forall (λ c, is_b64 c = true) body ∧
    pad ∈ [[]; [61%N]; [61%N; 61%N]] ∧ (length (base64_encode l) mod 4 = 0)%nat ∧
    canonical_base64 (base64_encode l) = true.
Proof.
  induction l as [|a|a b|a b c r IH] using list_triple_ind; intros Hl;
    repeat match goal with H : Forall _ (_ :: _) |- _ => apply Forall_cons_1 in H as [? H] end.
  - exists [], []. split_and!; try done. set_solver.
  - exists [b64_char (a / 4); b64_char (a mod 4 * 16)], [61%N; 61%N].
    pose proof (sextet_a a H) as Ha. pose proof (sextet_b a 0 eq_refl) as Hb. rewrite N.add_0_r in Hb.
    split_and!; [done|by repeat constructor|set_solver|done|].
    cbn. rewrite Ha, Hb. done.
  - exists [b64_char (a / 4); b64_char (a mod 4 * 16 + b / 16); b64_char (b mod 16 * 4)], [61%N].
    pose proof (sextet_a a H) as Ha. pose proof (sextet_b a _ (byte_div16 b H0)) as Hb.
    pose proof (sextet_c b 0 eq_refl) as Hc. rewrite N.add_0_r in Hc.
    split_and!; [done|by repeat constructor|set_solver|done|].
    cbn. rewrite Ha, Hb, Hc. by rewrite orb_true_r.
  - destruct (IH Hl) as (body & pad & E & Hbody & Hpad & Hlen & Hcan).
    pose proof (sextet_a a H) as Ha. pose proof (sextet_b a _ (byte_div16 b H0)) as Hb.
    pose proof (sextet_c b _ (byte_div64 c H1)) as Hc. pose proof (sextet_d c) as Hd.
    exists ([b64_char (a / 4); b64_char (a mod 4 * 16 + b / 16); b64_char (b mod 16 * 4 + c / 64);
             b64_char (c mod 64)] ++ body), pad.
    split_and!; [cbn; by rewrite E|by repeat constructor|done| |].
    + cbn [base64_encode]. rewrite length_app. cbn [length].
      rewrite (Nat.add_comm 4). by rewrite (Nat.Div0.mod_add _ 1 4).
    + cbn. by rewrite Ha, Hb, Hc, Hd.
Qed.

Lemma drop_padding_body body pad :
  Forall (λ c, is_b64 c = true) body → pad ∈ [[]; [61%N]; [61%N; 61%N]] →
  (length (body ++ pad) mod 4 = 0)%nat → drop_padding (body ++ pad) = body.
Proof.
  intros Hb Hp Hlen. unfold drop_padding. rewrite reverse_app.
  assert (∀ c r, reverse body = c :: r → (c =? 61)%N = false) as Hlast.
  { intros c r E. apply N.eqb_neq. intros ->. apply Forall_reverse in Hb. rewrite E in Hb.
    by apply Forall_cons_1 in Hb as [? _]. }
  rewrite !elem_of_cons in Hp. destruct Hp as [->|[->|[->|[]%not_elem_of_nil]]].
  - rewrite app_nil_r. cbn. destruct (reverse body) as [|c [|d r]] eqn:E; [done..|].
    by rewrite (Hlast _ _ eq_refl).
  - change (reverse [61%N]) with [61%N]. cbn [app].
    destruct (reverse body) as [|c r] eqn:E.
    + apply (f_equal reverse) in E. rewrite reverse_involutive in E. by subst.
    + cbn. rewrite (Hlast _ _ eq_refl). by rewrite <- (reverse_involutive body), E.
  - change (reverse [61%N; 61%N]) with [61%N; 61%N]. cbn [app].
    apply reverse_involutive.
Qed.

Lemma b64_not_ws c : is_b64 c = true → is_ascii_ws c = false ∧ is_ws c = false ∧ c ≠ 34%N ∧ c ≠ 39%N ∧ c ≠ 61%N.
Proof.
  intros H. unfold is_b64, is_alnum, is_alpha in H. unfold_ranges. n_bool.
  rewrite !andb_true_iff in H. n_bool. unfold is_ws, is_ascii_ws.
  split_and!; try lia.
  - apply bool_decide_eq_false. rewrite !elem_of_cons, elem_of_nil. lia.
  - unfold in_range. n_bool. n_bool. lia.
Qed.

(** [atob] undoes [btoa]. *)
Lemma atob_btoa l : Forall byte_ok l → atob (btoa l) = Some l.
Proof.
  intros Hl. unfold atob, btoa. destruct (base64_shape l Hl) as (body & pad & E & Hb & Hp & Hlen & _).
  assert (List.filter (λ c, negb (is_ascii_ws c)) (base64_encode l) = base64_encode l) as ->.
  { rewrite E, List.filter_app. f_equal.
    - clear -Hb. induction Hb as [|c s Hc Hs IH]; [done|]. cbn.
      destruct (b64_not_ws c Hc) as [-> _]. cbn. by rewrite IH.
    - rewrite !elem_of_cons in Hp. by destruct Hp as [->|[->|[->|[]%not_elem_of_nil]]]. }
  rewrite Hlen. change (0 =? 0)%nat with true. cbn iota. pose proof (base64_roundtrip l Hl) as Hr. rewrite E in Hlen, Hr |- *.
  rewrite drop_padding_body by done.
  assert (base64_decode body = l) as <-.
  { rewrite <- Hr. unfold base64_decode. rewrite omap_app. rewrite !elem_of_cons in Hp.
    destruct Hp as [->|[->|[->|[]%not_elem_of_nil]]]; cbn; by rewrite ?app_nil_r. }
  assert ((length body mod 4 =? 1)%nat = false) as ->.
  { apply Nat.eqb_neq. rewrite length_app in Hlen. rewrite !elem_of_cons in Hp.
    destruct Hp as [->|[->|[->|[]%not_elem_of_nil]]]; cbn [length] in Hlen;
      pose proof (Nat.div_mod_eq (length body) 4);
      match type of Hlen with (?n mod 4 = _)%nat => pose proof (Nat.div_mod_eq n 4) end; lia. }
  rewrite (proj2 (forallb_forall _ _)); [done|]. intros c Hc%list_elem_of_In.
  rewrite Forall_forall in Hb. auto.
Qed.

Lemma b64_text_units l : Forall byte_ok l →
  Forall (λ c, is_ws c = false ∧ c ≠ 34%N ∧ c ≠ 39%N) (btoa l).
Proof.
  intros Hl. unfold btoa. destruct (base64_shape l Hl) as (body & pad & -> & Hb & Hp & _).
  apply Forall_app. split.
  - eapply Forall_impl; [exact Hb|]. intros c Hc. by destruct (b64_not_ws c Hc) as (_ & ? & ? & ? & _).
  - rewrite !elem_of_cons in Hp. destruct Hp as [->|[->|[->|[]%not_elem_of_nil]]];
      by repeat apply Forall_cons_2.
Qed.

Lemma not_quoted_edge q s : Forall (λ c, c ≠ q) s → quoted_edge q s = false.
Proof.
  intros Hs. unfold quoted_edge. apply orb_false_iff. split; apply not_true_is_false.
  - intros [r ->]%starts_with_spec. by apply Forall_cons_1 in Hs as [? _].
  - intros [r ->]%ends_with_spec. apply Forall_app in Hs as [_ Hs]. by apply Forall_cons_1 in Hs as [? _].
Qed.

Lemma trim_padded w1 s w2 :
  Forall (λ c, is_ws c = true) w1 → Forall (λ c, is_ws c = true) w2 →
  Forall (λ c, is_ws c = false) s → trim (w1 ++ s ++ w2) = s.
Proof.
  intros H1 H2 Hs. unfold trim.
  assert (∀ w, Forall (λ c, is_ws c = true) w → ∀ k, drop_while is_ws (w ++ k) = drop_while is_ws k) as Hd.
  { induction 1 as [|c w Hc Hw IH]; intros k; [done|]. cbn. by rewrite Hc. }
  rewrite Hd by done. destruct s as [|c s].
  - cbn. unfold drop_while_end. rewrite (drop_while_all _ w2) by done. done.
  - apply Forall_cons_1 in Hs as [Hc Hs]. cbn [app]. rewrite drop_while_head by done.
    unfold drop_while_end. rewrite app_comm_cons, reverse_app, Hd by (by apply Forall_reverse).
    rewrite drop_while_none; [apply reverse_involutive|].
    intros x Hx. rewrite elem_of_reverse in Hx. rewrite elem_of_cons in Hx. rewrite Forall_forall in Hs.
    destruct Hx as [->|Hx]; auto.
Qed.

(** The encryption key is read back from its base64 form, whatever whitespace
    surrounds it, and it is accepted exactly when it has 32 bytes. *)
Theorem token_key_roundtrip (bytes : list N) (w1 w2 : str) :
  Forall byte_ok bytes → bytes ≠ [] →
  Forall (λ c, is_ws c = true) w1 → Forall (λ c, is_ws c = true) w2 →
  validateTokenEncryptionKey (w1 ++ btoa bytes ++ w2)
  = if (length bytes =? 32)%nat then Ok bytes
    else Throw (AuthenticationConfigurationError Invalid_encryption_key_length None).
Proof.
  intros Hb Hne H1 H2. pose proof (b64_text_units bytes Hb) as Hu.
  unfold validateTokenEncryptionKey. rewrite trim_padded; [|done|done|eapply Forall_impl; [exact Hu|by intros ? []]].
  rewrite !not_quoted_edge by (eapply Forall_impl; [exact Hu|by intros ? (? & ? & ?)]).
  rewrite atob_btoa by done.
  destruct (base64_shape bytes Hb) as (body & pad & _ & _ & _ & _ & Hcan).
  fold (btoa bytes) in Hcan. rewrite Hcan. assert (nonempty (btoa bytes) = true) as ->.
  { apply nonempty_true. unfold btoa. by destruct bytes as [|? [|? [|? ?]]]. }
  cbn. by destruct (length bytes =? 32)%nat.
Qed.

Lemma token_key_roundtrip_witness :
  validateTokenEncryptionKey (js " " ++ btoa (replicate 32 7%N) ++ [10%N]) = Ok (replicate 32 7%N) ∧
  validateTokenEncryptionKey (js "" ++ btoa (replicate 31 7%N) ++ js "")
  = Throw (AuthenticationConfigurationError Invalid_encryption_key_length None).
Proof.
  split; (etrans; [apply token_key_roundtrip; eval_decide|reflexivity]).
Defined.

Lemma requireAuthenticationValues_ok env names values :
  requireAuthenticationValues env names = Ok values →
  ∀ name, In name names → ∃ v, env_value env name = Some v ∧ assoc name values = Some v.
Proof.
  unfold requireAuthenticationValues. destruct (List.filter _ _) eqn:E; [|done]. intros [= <-].
  assert (∀ name, In name names → env_value env name = Some (trim (default [] (assoc name env)))) as Hv.
  { intros name Hin. unfold env_value. destruct (trim <$> assoc name env) as [[|c v]|] eqn:Ev.
    - exfalso. assert (In name []) as []. rewrite <- E. apply filter_In. unfold env_value. by rewrite Ev.
    - destruct (assoc name env); cbn in *; congruence.
    - exfalso. assert (In name []) as []. rewrite <- E. apply filter_In. unfold env_value. by rewrite Ev. }
  intros name Hin. eexists. split; [by apply Hv|].
  clear E Hv. induction names as [|n names IH]; [done|]. cbn.
  destruct (str_eqb name n) eqn:En; [by apply str_eqb_eq in En as ->|].
  destruct Hin as [->|Hin]; [by rewrite str_eqb_refl in En|auto].
Qed.
