(* ===== verification/AuthCore.v ===== *)
(** * Sign-in core

    Models [src/lib/auth-core.ts]: cookie names and options, tokens, the
    comparison of the OAuth state, the return path filter, the GitHub identity
    and the session record with its JSON form.

    Numbers that come from outside (times, identifiers) are [num]; an optional
    property of a parsed session is read at its declared type. The return path
    filter uses the URL parser of [Url]. *)

From S2P Require Import Prelude JsString Encoding JsDate Json JsonText JsNumber Contract GithubClient Url.

Definition productionSessionCookieName : str := js "__Host-adt_session".
Definition productionStateCookieName : str := js "__Host-adt_oauth_state".
Definition productionReturnCookieName : str := js "__Host-adt_oauth_return".
Definition productionPkceCookieName : str := js "__Host-adt_pkce_verifier".
Definition developmentSessionCookieName : str := js "adt_session".
Definition developmentStateCookieName : str := js "adt_oauth_state".
Definition developmentReturnCookieName : str := js "adt_oauth_return".
Definition developmentPkceCookieName : str := js "adt_pkce_verifier".
Definition sessionTtlSeconds : Z := 60 * 60 * 8.
Definition oauthStateTtlSeconds : Z := 60 * 10.

(** [AuthCookie]; [httpOnly], [sameSite] and [path] are constants of the type. *)
Record AuthCookie := MkAuthCookie {
  ck_httpOnly : bool; ck_secure : bool; ck_sameSite : str; ck_path : str; ck_maxAge : num;
}.

Record CookieNames := MkCookieNames {
  cn_session : str; cn_state : str; cn_returnTo : str; cn_pkce : str;
}.

Definition cookieNames (nodeEnv : option str) : CookieNames :=
  if bool_decide (nodeEnv = Some (js "production")) then
    MkCookieNames productionSessionCookieName productionStateCookieName
      productionReturnCookieName productionPkceCookieName
  else
    MkCookieNames developmentSessionCookieName developmentStateCookieName
      developmentReturnCookieName developmentPkceCookieName.

Definition cookieOptions (maxAge : num) (nodeEnv : option str) : AuthCookie :=
  MkAuthCookie true (bool_decide (nodeEnv = Some (js "production"))) (js "lax") (js "/") maxAge.

Definition noStoreHeaders : list (str * str) := [(js "cache-control", js "private, no-store, max-age=0")].

Inductive OAuthErrorCode :=
| Denied | Invalid_state | Missing_code | Github_exchange_failed | Github_identity_failed
| Session_creation_failed | Configuration_error | Oauth_start_failed.
#[export] Instance OAuthErrorCode_eq_dec : EqDecision OAuthErrorCode.
Proof. solve_decision. Defined.

(** The keys of [oauthErrorMessages], as they appear in the sign-in URL. *)
Definition oauth_error_text (c : OAuthErrorCode) : str :=
  match c with
  | Denied => js "denied" | Invalid_state => js "invalid_state" | Missing_code => js "missing_code"
  | Github_exchange_failed => js "github_exchange_failed"
  | Github_identity_failed => js "github_identity_failed"
  | Session_creation_failed => js "session_creation_failed"
  | Configuration_error => js "configuration" | Oauth_start_failed => js "oauth_start_failed"
  end.

(** [randomToken] on the bytes drawn from the platform. *)
Definition token_of_bytes (data : list N) : str := flat_map hex_byte data.

(** ** Comparison of secrets *)

(** The loop of [constantTimeEqual]: [result |= left[i] ^ right[i]]. *)
Fixpoint compare_units (result : N) (l r : str) : N :=
  match l, r with
  | a :: l, b :: r => compare_units (N.lor result (N.lxor a b)) l r
  | _, _ => result
  end.

Definition constantTimeEqual (l r : option str) : bool :=
  match l, r with
  | Some l, Some r =>
      if negb (nonempty l) || negb (nonempty r) || negb (length l =? length r)%nat then false
      else (compare_units 0 l r =? 0)%N
  | _, _ => false
  end.

(** ** Return path *)

Definition local_origin : str := js "https://artifact-dev-toolkit.local".

Section ReturnTo.
Context `{H : UrlHost}.

Definition safeReturnTo (value : option str) : str :=
  match value with
  | None | Some [] => js "/"
  | Some value =>
      match decodeURIComponent value with
      | None => js "/"
      | Some decoded =>
          if negb (starts_with (js "/") decoded) || starts_with (js "//") decoded then js "/"
          else if includes [92%N] decoded || includes [0%N] decoded then js "/"
          else if starts_with (js "/auth/") decoded || starts_with (js "/sign-in") decoded then js "/"
          else match resolve_reference (js "https") local_origin decoded with
               | Some parsed =>
                   if negb (str_eqb (url_origin parsed) local_origin) then js "/"
                   else url_pathname parsed ++ url_search parsed ++ url_hash parsed
               | None => js "/"
               end
      end
  end.
End ReturnTo.

(** ** Identity *)

Record GitHubUser := MkGitHubUser {
  gu_id : Z; gu_login : str; gu_name : option str; gu_avatar_url : option str;
}.

(** A string property that is present and not empty. *)
Definition nonempty_str (v : jsval) : option str :=
  match v with JStr ((_ :: _) as s) => Some s | _ => None end.

(** [None] is the error [github_identity_failed]. *)
Definition validateGitHubUser (value : jsval) : option GitHubUser :=
  match value with
  | JObj user =>
      match field (js "id") user, nonempty_str (field (js "login") user) with
      | JNum (NInt githubId), Some login =>
          if is_safe_Z githubId
          then Some (MkGitHubUser githubId login (nonempty_str (field (js "name") user))
                       (nonempty_str (field (js "avatar_url") user)))
          else None
      | _, _ => None
      end
  | _ => None
  end.

(** ** Sessions *)

Inductive authorization_state := Authorized | AuthDenied.
Inductive denial_reason :=
| DrConfiguration | DrAllowlist | DrAppAccess | DrUserAccess | DrTemporaryUnavailable.
#[export] Instance authorization_state_eq_dec : EqDecision authorization_state.
Proof. solve_decision. Defined.
#[export] Instance denial_reason_eq_dec : EqDecision denial_reason.
Proof. solve_decision. Defined.

Definition state_text (s : authorization_state) : str :=
  match s with Authorized => js "authorized" | AuthDenied => js "denied" end.
Definition reason_text (r : denial_reason) : str :=
  match r with
  | DrConfiguration => js "configuration" | DrAllowlist => js "allowlist"
  | DrAppAccess => js "app_access" | DrUserAccess => js "user_access"
  | DrTemporaryUnavailable => js "temporary_unavailable"
  end.
Definition all_reasons : list denial_reason :=
  [DrConfiguration; DrAllowlist; DrAppAccess; DrUserAccess; DrTemporaryUnavailable].
Definition read_state (v : jsval) : option authorization_state :=
  match v with
  | JStr s => List.find (λ x, str_eqb (state_text x) s) [Authorized; AuthDenied]
  | _ => None
  end.
Definition read_reason (v : jsval) : option denial_reason :=
  match v with
  | JStr s => List.find (λ x, str_eqb (reason_text x) s) all_reasons
  | _ => None
  end.

(** [SessionRecord["repositoryAuthorization"]] *)
Record Authorization := MkAuthorization {
  au_state : authorization_state;
  au_denialReason : option denial_reason;
  au_owner : str;
  au_repo : str;
  au_repositoryId : option num;
  au_installationId : option num;
  au_login : str;
  au_githubId : Z;
  au_checkedAt : num;
}.

Record SessionRecord := MkSession {
  se_id : str;
  se_githubId : Z;
  se_login : str;
  se_name : option str;
  se_avatarUrl : option str;
  se_createdAt : option num;
  se_expiresAt : num;
  se_revokedAt : option num;
  se_authorization : Authorization;
  se_encryptedUserAccessToken : option str;
  se_userAccessTokenExpiresAt : option num;
  se_tokenIv : option str;
}.

#[export] Instance num_eq_dec : EqDecision num.
Proof. solve_decision. Defined.
#[export] Instance Authorization_eq_dec : EqDecision Authorization.
Proof. solve_decision. Defined.
#[export] Instance SessionRecord_eq_dec : EqDecision SessionRecord.
Proof. solve_decision. Defined.

Definition opt_str (o : option str) : jsval := match o with Some s => JStr s | None => JUndefined end.
Definition opt_num (o : option num) : jsval := match o with Some n => JNum n | None => JUndefined end.
Definition int (z : Z) : jsval := JNum (NInt z).

Definition authorization_js (a : Authorization) : jsval :=
  JObj [(js "state", JStr (state_text (au_state a)));
        (js "denialReason", opt_str (reason_text <$> au_denialReason a));
        (js "owner", JStr (au_owner a)); (js "repo", JStr (au_repo a));
        (js "repositoryId", opt_num (au_repositoryId a));
        (js "installationId", opt_num (au_installationId a));
        (js "login", JStr (au_login a)); (js "githubId", int (au_githubId a));
        (js "checkedAt", JNum (au_checkedAt a))].
Definition session_js (s : SessionRecord) : jsval :=
  JObj [(js "id", JStr (se_id s)); (js "githubId", int (se_githubId s));
        (js "login", JStr (se_login s)); (js "name", opt_str (se_name s));
        (js "avatarUrl", opt_str (se_avatarUrl s)); (js "createdAt", opt_num (se_createdAt s));
        (js "expiresAt", JNum (se_expiresAt s)); (js "revokedAt", opt_num (se_revokedAt s));
        (js "repositoryAuthorization", authorization_js (se_authorization s));
        (js "encryptedUserAccessToken", opt_str (se_encryptedUserAccessToken s));
        (js "userAccessTokenExpiresAt", opt_num (se_userAccessTokenExpiresAt s));
        (js "tokenIv", opt_str (se_tokenIv s))].

Definition serializeSession (s : SessionRecord) : str := stringify (session_js s).

(** An optional property read at its declared type. *)
Definition read_str (v : jsval) : option str := match v with JStr s => Some s | _ => None end.
Definition read_num (v : jsval) : option num := match v with JNum n => Some n | _ => None end.
Definition read_safe (v : jsval) : option Z :=
  match v with JNum (NInt z) => if is_safe_Z z then Some z else None | _ => None end.
Definition read_finite (v : jsval) : option num :=
  match v with JNum n => if is_finite n then Some n else None | _ => None end.

Definition parse_authorization (v : jsval) : option Authorization :=
  match v with
  | JObj a =>
      owner ← nonempty_str (field (js "owner") a);
      repo ← nonempty_str (field (js "repo") a);
      login ← nonempty_str (field (js "login") a);
      state ← read_state (field (js "state") a);
      githubId ← read_safe (field (js "githubId") a);
      checkedAt ← read_finite (field (js "checkedAt") a);
      Some (MkAuthorization state (read_reason (field (js "denialReason") a)) owner repo
              (read_num (field (js "repositoryId") a)) (read_num (field (js "installationId") a))
              login githubId checkedAt)
  | _ => None
  end.

Definition parseSession (value : option str) (now : Z) : option SessionRecord :=
  match value with
  | None | Some [] => None
  | Some value =>
      match JSON_parse value with
      | Some (JObj p) =>
          id ← nonempty_str (field (js "id") p);
          githubId ← read_safe (field (js "githubId") p);
          login ← nonempty_str (field (js "login") p);
          expiresAt ← read_finite (field (js "expiresAt") p);
          if num_le_Z expiresAt now then None
          else
            authorization ← parse_authorization (field (js "repositoryAuthorization") p);
            Some (MkSession id githubId login (read_str (field (js "name") p))
                    (read_str (field (js "avatarUrl") p)) (read_num (field (js "createdAt") p))
                    expiresAt (read_num (field (js "revokedAt") p)) authorization
                    (read_str (field (js "encryptedUserAccessToken") p))
                    (read_num (field (js "userAccessTokenExpiresAt") p))
                    (read_str (field (js "tokenIv") p)))
      | _ => None
      end
  end.

(** ** Theorems *)

Lemma compare_units_0 acc l r :
  length l = length r → compare_units acc l r = 0%N ↔ acc = 0%N ∧ l = r.
Proof.
  revert acc r. induction l as [|a l IH]; intros acc [|b r] Hl; cbn in *; try done; [naive_solver|].
  rewrite IH, N.lor_eq_0_iff, N.lxor_eq_0_iff by lia. naive_solver.
Qed.

Lemma constant_time_equal_iff (l r : option str) :
  constantTimeEqual l r = true ↔ ∃ s, s ≠ [] ∧ l = Some s ∧ r = Some s.
Proof.
  unfold constantTimeEqual.
  destruct l as [[|a l]|], r as [[|b r]|]; try (split; [by cbn|]; intros (s & ? & ? & ?); by simplify_eq).
  cbn [nonempty negb orb]. destruct (Nat.eqb_spec (length (a :: l)) (length (b :: r))) as [Hl|Hl]; cbn [negb].
  - rewrite N.eqb_eq, compare_units_0 by done. split; [intros [_ [= -> ->]]; by exists (b :: r)|].
    intros (s & _ & [= <-] & [= <- <-]). done.
  - split; [done|]. intros (s & _ & H1 & H2). by simplify_eq.
Qed.

(** The comparison of the OAuth state accepts exactly two equal, present and
    non-empty strings: the accumulating loop is string equality. *)
Theorem constant_time_equal_spec (l r : option str) :
  constantTimeEqual l r = true ↔ ∃ s, s ≠ [] ∧ l = Some s ∧ r = Some s.
Proof. apply constant_time_equal_iff. Qed.

Section ReturnFacts.
Context `{H : UrlHost}.

(** How the filter answers something else than the root. *)
Lemma safeReturnTo_cases value :
  safeReturnTo value = js "/" ∨
  ∃ v d u, value = Some v ∧ decodeURIComponent v = Some d ∧
    starts_with (js "/") d = true ∧ starts_with (js "//") d = false ∧ (92%N ∉ d) ∧
    starts_with (js "/auth/") d = false ∧ starts_with (js "/sign-in") d = false ∧
    resolve_reference (js "https") local_origin d = Some u ∧ url_origin u = local_origin ∧
    safeReturnTo value = local_part u.
Proof.
  destruct value as [[|c v]|]; [by left| |by left]. unfold safeReturnTo.
  destruct (decodeURIComponent (c :: v)) as [d|] eqn:Ed; [|by left].
  destruct (negb (starts_with (js "/") d) || starts_with (js "//") d) eqn:E1; [by left|].
  destruct (includes [92%N] d || includes [0%N] d) eqn:E2; [by left|].
  destruct (starts_with (js "/auth/") d || starts_with (js "/sign-in") d) eqn:E3; [by left|].
  destruct (resolve_reference (js "https") local_origin d) as [u|] eqn:Eu; [|by left].
  destruct (str_eqb (url_origin u) local_origin) eqn:Eo; [|by left]. right.
  apply str_eqb_eq in Eo. to_prop. eexists _, _, _. split_and!; try done.
  intros Hin. apply list_elem_of_split in Hin as (a & b & ->).
  assert (includes [92%N] (a ++ 92%N :: b) = true) by (apply includes_spec; by eexists _, _). congruence.
Qed.

Lemma split_authority_sub s a r : split_authority s = (a, r) → Forall point_ok s → Forall point_ok r.
Proof.
  revert a r. induction s as [|c s IH]; intros a r E Hs; cbn in E; [by simplify_eq|].
  case_match; [by simplify_eq|]. destruct (split_authority s). simplify_eq.
  apply Forall_cons_1 in Hs as [_ Hs]. eauto.
Qed.

Lemma resolve_reference_plain scheme origin d u :
  units_ok d → 92%N ∉ d → resolve_reference scheme origin d = Some u → plain (local_part u).
Proof.
  intros Hd Hb Hr. assert (∃ o s, Forall point_ok s ∧ parse_path o s = u) as (o & s & Hs & Hu).
  { unfold resolve_reference in Hr. pose proof (url_input_ok d Hd Hb) as Hin.
    destruct (url_input d) as [|c s]; [done|]. apply Forall_cons_1 in Hin as [_ Hin].
    destruct (is_slash c); [|done]. destruct s as [|e s]; [simplify_eq; eauto|].
    destruct (is_slash e); [|simplify_eq; eauto]. unfold parse_authority in Hr.
    destruct (split_authority _) as [a r] eqn:Ea.
    apply bind_Some in Hr as (o & _ & [= <-]). eexists o, _. split; [|done].
    apply split_authority_sub in Ea; [|by apply drop_while_Forall].
    destruct r as [|x r]; [done|]. case_match; [|done]. by apply Forall_cons_1 in Ea as [_ ?]. }
  apply parse_path_plain in Hu as (? & ? & ?); [|done]. unfold local_part.
  repeat (apply Forall_app; split); done.
Qed.

Lemma resolve_reference_slash scheme origin d u :
  resolve_reference scheme origin d = Some u → ∃ rest, local_part u = 47%N :: rest.
Proof.
  intros Hr. assert (∃ o s, parse_path o s = u) as (o & s & <-).
  { unfold resolve_reference in Hr. repeat case_match; simplify_eq; eauto.
    unfold parse_authority in Hr. case_match. apply bind_Some in Hr as (? & _ & [= <-]). eauto. }
  unfold local_part, parse_path, pathname_of. repeat case_match; cbn; eauto.
Qed.

(** Whatever return path a request carries, the filter answers a path: it
    starts with a slash and holds only printable ASCII without spaces and
    backslashes, so it can be stored in a cookie and sent in a header. *)
Theorem safe_return_printable (value : option str) :
  (∀ v, value = Some v → units_ok v) →
  ∃ rest, safeReturnTo value = 47%N :: rest ∧ plain (safeReturnTo value).
Proof.
  intros Hv. destruct (safeReturnTo_cases value)
    as [->|(v & d & u & -> & Hd & _ & _ & Hb & _ & _ & Hu & _ & ->)].
  { exists []. split; [done|]. by apply Forall_singleton. }
  apply decode_component_units in Hd; [|by apply Hv].
  destruct (resolve_reference_slash _ _ _ _ Hu) as [rest Hrest].
  exists rest. split; [done|]. by eapply resolve_reference_plain.
Qed.

Lemma scalars_head s x : x ≠ replacement → (x < 65536)%N → head (scalars s) = Some x → head s = Some x.
Proof.
  destruct s as [|c s]; cbn; [done|]. intros. unfold code_point in *.
  repeat case_match; simplify_eq/=; try done. lia.
Qed.

Lemma elem_of_scalars x s : x ∈ scalars s → x ∈ s ∨ x = replacement ∨ (65536 <= x)%N.
Proof.
  induction s as [|c|c d s IHs IHds] using str_pair_ind; [by intros ?%not_elem_of_nil| |].
  - cbn. repeat case_match; set_solver.
  - rewrite scalars_cons2. unfold code_point.
    destruct (is_hi c); [destruct (is_lo d)|destruct (is_lo c)]; rewrite elem_of_cons; intros [->|Hx].
    all: try (first [apply IHs in Hx | apply IHds in Hx]; set_solver).
    + right. right. lia.
    + by right; left.
    + by right; left.
    + left. set_solver.
Qed.

Lemma filter_no_tabs s :
  (∀ x, x ∈ s → is_tab_newline x = false) → List.filter (λ c, negb (is_tab_newline c)) s = s.
Proof.
  induction s as [|c s IH]; intros Hs; [done|]. cbn. rewrite Hs by set_solver. cbn.
  by rewrite IH by set_solver.
Qed.

(** The parser's input for a text without tabs and newlines that starts with one slash. *)
Lemma url_input_one_slash d :
  Forall (λ c, is_tab_newline c = false) d → units_ok d → (92%N ∉ d) →
  starts_with (js "/") d = true → starts_with (js "//") d = false →
  ∃ s, url_input d = 47%N :: s ∧ head s ≠ Some 47%N ∧ (92%N ∉ s).
Proof.
  intros Ht Hu Hb H1 H2. apply starts_with_spec in H1 as [d' ->].
  change (js "/" ++ d') with (47%N :: d') in *.
  pose proof (url_input_ok _ Hu Hb) as Hok. revert Hok. unfold url_input. cbn [scalars].
  change (is_hi 47) with false. change (is_lo 47) with false. cbn [drop_while]. change (is_c0_space 47) with false.
  destruct (drop_while_end_prefix is_c0_space (47%N :: scalars d')) as (w & Hw & _). revert Hw. cbn iota.
  destruct (drop_while_end is_c0_space (47%N :: scalars d')) as [|c s] eqn:E; intros Hw Hok.
  { exfalso. unfold drop_while_end in E. rewrite reverse_cons in E.
    destruct (drop_while_suffix is_c0_space (reverse (scalars d') ++ [47%N])) as (r & Hr & Hall).
    apply (f_equal reverse) in E. rewrite reverse_involutive in E. rewrite E, app_nil_r in Hr.
    rewrite <- Hr in Hall. apply Forall_app in Hall as [_ Hall]. by apply Forall_cons_1 in Hall as [? _]. }
  injection Hw as <- Hw.
  assert (head s ≠ Some 47%N) as Hh.
  { intros Hs. destruct s as [|x s]; [done|]. injection Hs as ->.
    assert (head (scalars d') = Some 47%N) as Hd by (by rewrite Hw).
    apply scalars_head in Hd; [|done|done]. destruct d'; [done|]. by simplify_eq/=. }
  assert (∀ x, x ∈ 47%N :: s → is_tab_newline x = false) as Hn.
  { intros x Hx. rewrite elem_of_cons in Hx. rewrite Forall_forall in Ht.
    destruct Hx as [->|Hx]; [done|].
    assert (x ∈ scalars d') as [?|[->|?]]%elem_of_scalars by (rewrite Hw; set_solver); [|done|].
    + apply Ht. set_solver.
    + unfold is_tab_newline. n_bool. lia. }
  rewrite filter_no_tabs in Hok |- * by done.
  exists s. split_and!; [done|done|]. intros Hin. rewrite Forall_forall in Hok.
  destruct (Hok 92%N) as [_ ?]; [set_solver|done].
Qed.

(** A return path whose decoded form has no dot segment, tab or newline in
    its path is safe: wherever the callback redirects from, the browser stays on
    that origin. *)
Theorem safe_return_same_origin (v d : str) (scheme origin : str) :
  units_ok v → decodeURIComponent v = Some d →
  Forall (λ c, is_tab_newline c = false) d →
  (∀ w, In w (split_on 47 (path_part (tail (url_input d)))) → dot_segment w = false) →
  ∃ u, resolve_reference scheme origin (safeReturnTo (Some v)) = Some u ∧ url_origin u = origin.
Proof.
  intros Hv Hd Ht Hdot. pose proof (decode_component_units _ _ _ Hv Hd) as Hdu.
  destruct (safeReturnTo_cases (Some v))
    as [->|(v' & d' & u & [= <-] & Hd' & H1 & H2 & Hb & _ & _ & Hu & _ & ->)].
  { by eexists. }
  simplify_eq. pose proof (resolve_reference_plain _ _ _ _ Hdu Hb Hu) as Hp.
  destruct (url_input_one_slash d Ht Hdu Hb H1 H2) as (s & Hs & Hh & Hsb).
  unfold resolve_reference in Hu. rewrite Hs in *. cbn in Hdot.
  assert (u = parse_path local_origin s) as ->.
  { destruct s as [|c s]; cbn in Hu; [by injection Hu|].
    assert (is_slash c = false) as Hc; [|rewrite Hc in Hu; congruence].
    unfold is_slash. rewrite orb_false_iff, !N.eqb_neq. cbn in Hh. split; set_solver. }
  destruct (local_part_one_slash local_origin s Hsb Hh Hdot) as (rest & Hr & Hr').
  rewrite Hr in *. by apply one_slash_same_origin.
Qed.
End ReturnFacts.

(** ** The JSON form of a session *)

Definition time_ok (n : num) : bool :=
  match n with NInt z => (Z.abs z <? 10 ^ 21)%Z | _ => false end.
Definition all_opt {A} (p : A → bool) (o : option A) : bool :=
  match o with Some a => p a | None => true end.

(** The sessions the code builds: identifiers and names that are not empty,
    safe GitHub identifiers, integer times. *)
Definition authorization_ok (a : Authorization) : bool :=
  forallb (λ s, nonempty s && units_okb s) [au_owner a; au_repo a; au_login a]
  && forallb (all_opt time_ok) [au_repositoryId a; au_installationId a]
  && is_safe_Z (au_githubId a) && time_ok (au_checkedAt a).
Definition session_ok (s : SessionRecord) : bool :=
  forallb (λ s, nonempty s && units_okb s) [se_id s; se_login s]
  && forallb (all_opt units_okb)
       [se_name s; se_avatarUrl s; se_encryptedUserAccessToken s; se_tokenIv s]
  && forallb (all_opt time_ok) [se_createdAt s; se_revokedAt s; se_userAccessTokenExpiresAt s]
  && is_safe_Z (se_githubId s) && time_ok (se_expiresAt s)
  && authorization_ok (se_authorization s).

Lemma time_json n : time_ok n = true → json_ok (JNum n) ∧ is_finite n = true.
Proof. destruct n; [|done..]. intros H. cbn in *. split; [lia|done]. Qed.
Lemma opt_str_json o :
  all_opt units_okb o = true → is_undefined (opt_str o) = false → json_ok (defined_part (opt_str o)).
Proof. destruct o; [|done]. intros H _. by apply units_ok_dec. Qed.
Lemma opt_num_json o :
  all_opt time_ok o = true → is_undefined (opt_num o) = false → json_ok (defined_part (opt_num o)).
Proof. destruct o; [|done]. intros H _. by apply time_json. Qed.
Lemma str_json s : nonempty s && units_okb s = true → json_ok (JStr s).
Proof. intros [_ H]%andb_true_iff. by apply units_ok_dec. Qed.
Lemma safe_json z : is_safe_Z z = true → json_ok (int z).
Proof. apply safe_abs. Qed.
Lemma state_json a : units_ok (state_text a). Proof. apply units_ok_dec. by destruct a. Qed.
Lemma reason_json r : all_opt units_okb (reason_text <$> r) = true.
Proof. by destruct r as [[]|]. Qed.

(** The properties of an object literal, one by one. *)
Ltac each_member :=
  repeat apply Forall_cons_2; [split; [apply units_ok_dec; vm_compute; reflexivity|cbn [snd]]..|constructor].

Lemma authorization_json a : authorization_ok a = true → json_ok (defined_part (authorization_js a)).
Proof.
  unfold authorization_ok. intros Ha. cbn [forallb] in Ha. rewrite !andb_true_r in Ha. to_prop.
  apply json_ok_defined_obj; [eval_decide|]. each_member;
    auto using opt_str_json, opt_num_json, reason_json; intros _; cbn [defined_part];
    solve [apply state_json | apply str_json; apply andb_true_iff; done | by apply safe_json | by apply time_json].
Qed.

Lemma session_json s : session_ok s = true → json_ok (defined_part (session_js s)).
Proof.
  unfold session_ok. intros Hs. cbn [forallb] in Hs. rewrite !andb_true_r in Hs. to_prop.
  apply json_ok_defined_obj; [eval_decide|]. each_member;
    auto using opt_str_json, opt_num_json, authorization_json; intros _; cbn [defined_part];
    solve [apply str_json; apply andb_true_iff; done | by apply safe_json | by apply time_json].
Qed.

Lemma defined_int z : defined_part (int z) = int z.
Proof. done. Qed.
Lemma defined_str z : defined_part (JStr z) = JStr z.
Proof. done. Qed.
Lemma defined_num z : defined_part (JNum z) = JNum z.
Proof. done. Qed.
Lemma read_opt_str o : read_str (defined_part (opt_str o)) = o.
Proof. by destruct o. Qed.
Lemma read_opt_num o : read_num (defined_part (opt_num o)) = o.
Proof. by destruct o. Qed.
Lemma read_opt_reason r : read_reason (defined_part (opt_str (reason_text <$> r))) = r.
Proof. by destruct r as [[]|]. Qed.
Lemma read_state_text a : read_state (JStr (state_text a)) = Some a.
Proof. by destruct a. Qed.
Lemma nonempty_str_some s : nonempty s = true → nonempty_str (JStr s) = Some s.
Proof. by destruct s. Qed.
Lemma read_safe_int z : is_safe_Z z = true → read_safe (int z) = Some z.
Proof. cbn. by intros ->. Qed.
Lemma read_finite_time n : time_ok n = true → read_finite (JNum n) = Some n.
Proof. by destruct n. Qed.

Lemma parse_authorization_js a :
  authorization_ok a = true → parse_authorization (defined_part (authorization_js a)) = Some a.
Proof.
  unfold authorization_ok. intros Ha. cbn [forallb] in Ha. rewrite !andb_true_r in Ha. to_prop.
  unfold parse_authorization, authorization_js.
  rewrite defined_part_obj.
  rewrite !field_defined by eval_decide. lookup_fields.
  rewrite !defined_int, !defined_num, !defined_str.
  rewrite !nonempty_str_some, read_state_text, read_safe_int, read_finite_time by done. cbn [mbind option_bind].
  rewrite read_opt_reason, !read_opt_num. by destruct a.
Qed.

(** What is stored of a session comes back as it was, until it expires. *)
Lemma session_json_roundtrip s now :
  session_ok s = true →
  parseSession (Some (serializeSession s)) now = if num_le_Z (se_expiresAt s) now then None else Some s.
Proof.
  intros Hs. pose proof (session_json s Hs) as Hj. unfold parseSession, serializeSession.
  pose proof (JSON_defined_roundtrip (session_js s) Hj) as Hp.
  destruct (stringify (session_js s)) as [|c t] eqn:E; [done|]. rewrite Hp. clear Hp Hj E.
  unfold session_ok in Hs. cbn [forallb] in Hs. rewrite !andb_true_r in Hs. to_prop.
  unfold session_js. rewrite defined_part_obj.
  rewrite !field_defined by eval_decide. lookup_fields.
  rewrite !defined_int, !defined_num, !defined_str.
  rewrite !nonempty_str_some, read_safe_int, read_finite_time by done. cbn [mbind option_bind].
  destruct (num_le_Z (se_expiresAt s) now); [done|]. rewrite parse_authorization_js by done. cbn [mbind option_bind].
  rewrite !read_opt_str, !read_opt_num. by destruct s.
Qed.

Lemma nonempty_str_ne v s : nonempty_str v = Some s → s ≠ [].
Proof. unfold nonempty_str. by repeat case_match; intros [= <-]. Qed.
Lemma read_safe_safe v z : read_safe v = Some z → is_safe_Z z = true.
Proof. unfold read_safe. intros H. by repeat case_match; simplify_eq. Qed.
Lemma read_finite_finite v n : read_finite v = Some n → is_finite n = true.
Proof. unfold read_finite. intros H. by repeat case_match; simplify_eq. Qed.

(** Every parsed session satisfies what the rest of the code assumes of it. *)
Lemma parseSession_sound v now s :
  parseSession v now = Some s →
  se_id s ≠ [] ∧ se_login s ≠ [] ∧ is_safe_Z (se_githubId s) = true ∧
  is_finite (se_expiresAt s) = true ∧ num_le_Z (se_expiresAt s) now = false ∧
  au_owner (se_authorization s) ≠ [] ∧ au_repo (se_authorization s) ≠ [] ∧
  is_safe_Z (au_githubId (se_authorization s)) = true ∧ is_finite (au_checkedAt (se_authorization s)) = true.
Proof.
  unfold parseSession. intros H. destruct v as [[|c v]|]; try done.
  destruct (JSON_parse (c :: v)) as [[]|]; try done.
  repeat (apply bind_Some in H as (? & ? & H)). case_match; [done|].
  apply bind_Some in H as (a & Ha & [= <-]). unfold parse_authorization in Ha.
  case_match; try done. repeat (apply bind_Some in Ha as (? & ? & Ha)). simplify_eq. cbn.
  split_and!; eauto using nonempty_str_ne, read_safe_safe, read_finite_finite.
Qed.
