(* ===== verification/SessionStore.v ===== *)
(** * Session store

    Models [src/lib/auth-session-store.ts] over the [auth_sessions] table of
    [src/migrations/0002_rebuild_auth_sessions.sql]. Rows are keyed by the HMAC
    of the session identifier, so that the identifier itself is never stored.

    The theorems follow a row through any sequence of operations and faults:
    once revoked it is never served again, its identity and its expiry are
    fixed at sign-in, and a fresh session is read back as it was stored. *)

From S2P Require Import Prelude JsString Encoding JsDate Json JsonText JsNumber D1 AuthConfig AuthCore.

(** The Web Crypto primitives the sign-in code calls. *)
Class WebCrypto := {
  hmac_sha256 : list N → list N → list N;
  sha256 : list N → list N;
  (** [importKey("pkcs8", ...)]; [None] when the key is refused *)
  rsa_key : Type;
  import_pkcs8 : list N → option rsa_key;
  rsa_sign : rsa_key → list N → list N;
  (** AES-GCM under a 32-byte key: key, initialisation vector, text *)
  aes_encrypt : list N → list N → list N → list N;
  aes_decrypt : list N → list N → list N → option (list N);
}.

(** Documented behaviour: digests, signatures and ciphertexts are bytes, and
    AES-GCM decrypts what it encrypted. *)
Class WebCryptoLaws (C : WebCrypto) := {
  hmac_bytes k m : Forall byte_ok (hmac_sha256 k m);
  sha256_bytes m : Forall byte_ok (sha256 m);
  rsa_sign_bytes k m : Forall byte_ok (rsa_sign k m);
  aes_encrypt_bytes k iv m : Forall byte_ok (aes_encrypt k iv m);
  (** the authentication tag is appended *)
  aes_encrypt_tag k iv m : aes_encrypt k iv m ≠ [];
  aes_roundtrip k iv m : Forall byte_ok m → aes_decrypt k iv (aes_encrypt k iv m) = Some m;
}.

(** A row of [auth_sessions]; SQL NULL is [None]. *)
Record session_row := SessionRow {
  row_github_id : Z;
  row_login : str;
  row_name : option str;
  row_avatar_url : option str;
  row_expires_at : num;
  row_created_at : num;
  row_revoked_at : option num;
  row_authorization_state : authorization_state;
  row_denial_reason : option denial_reason;
  row_repository_owner : str;
  row_repository_name : str;
  row_repository_id : option num;
  row_installation_id : option num;
  row_authorization_checked_at : num;
  row_encrypted_user_access_token : option str;
  row_user_access_token_expires_at : option num;
  row_token_iv : option str;
}.

Abbreviation session_table := (gmap (list N) session_row).
Abbreviation session_db := (d1 session_table).
Abbreviation StoreM := (eff session_db auth_error).

Section Store.
Context `{C : WebCrypto}.

Definition hashSessionId (id sessionSecret : str) : str :=
  flat_map hex_byte (hmac_sha256 (utf8_encode sessionSecret) (utf8_encode id)).

Definition row_session (id : str) (r : session_row) : SessionRecord :=
  MkSession id (row_github_id r) (row_login r) (row_name r) (row_avatar_url r)
    (Some (row_created_at r)) (row_expires_at r) (row_revoked_at r)
    (MkAuthorization (row_authorization_state r) (row_denial_reason r) (row_repository_owner r)
       (row_repository_name r) (row_repository_id r) (row_installation_id r) (row_login r)
       (row_github_id r) (row_authorization_checked_at r))
    (row_encrypted_user_access_token r) (row_user_access_token_expires_at r) (row_token_iv r).

Definition rowToSession (id : str) (r : session_row) (now : Z) : option SessionRecord :=
  parseSession (Some (serializeSession (row_session id r))) now.

Definition insert_row (s : SessionRecord) (now : Z) : session_row :=
  let auth := se_authorization s in
  SessionRow (se_githubId s) (se_login s) (se_name s) (se_avatarUrl s) (se_expiresAt s)
    (default (NInt now) (se_createdAt s)) None (au_state auth) (au_denialReason auth) (au_owner auth)
    (au_repo auth) (au_repositoryId auth) (au_installationId auth) (au_checkedAt auth)
    (se_encryptedUserAccessToken s) (se_userAccessTokenExpiresAt s) (se_tokenIv s).

(** The INSERT: the primary key is unique, and NaN is stored as NULL, which the
    NOT NULL columns refuse. *)
Definition insert_statement (storedId : str) (r : session_row) (t : session_table)
    : session_table * outcome auth_error unit :=
  match t !! storedId with
  | Some _ => (t, Throw DatabaseRejected)
  | None =>
      if bool_decide (row_expires_at r = NNaN ∨ row_created_at r = NNaN ∨ row_authorization_checked_at r = NNaN)
      then (t, Throw DatabaseRejected)
      else (<[storedId := r]> t, Ok ())
  end.

Definition insertSession (sessionSecret : str) (s : SessionRecord) (now : Z) : StoreM str :=
  let storedId := hashSessionId (se_id s) sessionSecret in
  d1_exec DatabaseRejected (insert_statement storedId (insert_row s now)) ;;
  mret storedId.

Definition update_row (s : SessionRecord) (r : session_row) : session_row :=
  let auth := se_authorization s in
  SessionRow (row_github_id r) (row_login r) (row_name r) (row_avatar_url r) (row_expires_at r)
    (row_created_at r) (row_revoked_at r) (au_state auth) (au_denialReason auth) (au_owner auth)
    (au_repo auth) (au_repositoryId auth) (au_installationId auth) (au_checkedAt auth)
    (se_encryptedUserAccessToken s) (se_userAccessTokenExpiresAt s) (se_tokenIv s).

Definition is_active (r : session_row) : bool := is_none (row_revoked_at r).

(** [UPDATE ... WHERE id = ? AND revoked_at IS NULL]; answers [meta.changes]. *)
Definition update_active (storedId : str) (f : session_row → session_row) (t : session_table)
    : session_table * outcome auth_error Z :=
  match t !! storedId with
  | Some r => if is_active r then (<[storedId := f r]> t, Ok 1%Z) else (t, Ok 0%Z)
  | None => (t, Ok 0%Z)
  end.

Definition updateSessionAuthorization (sessionSecret : str) (s : SessionRecord) : StoreM unit :=
  let storedId := hashSessionId (se_id s) sessionSecret in
  changes ← d1_exec DatabaseRejected (update_active storedId (update_row s));
  lift (guard_throw (changes =? 1)%Z (OtherError (js "active_session_update_failed"))).

(** [SELECT * FROM auth_sessions WHERE id = ?] *)
Definition select_row (storedId : str) (t : session_table)
    : session_table * outcome auth_error (option session_row) := (t, Ok (t !! storedId)).

(** The session of an unrevoked, unexpired row. *)
Definition live_session (id : str) (now : Z) (row : option session_row) : option SessionRecord :=
  match row with
  | None => None
  | Some r => if negb (is_active r) || num_le_Z (row_expires_at r) now then None
              else rowToSession id r now
  end.

Definition findSession (sessionSecret id : str) (now : Z) : StoreM (option SessionRecord) :=
  let storedId := hashSessionId id sessionSecret in
  row ← d1_exec DatabaseRejected (select_row storedId);
  mret (live_session id now row).

Definition revoke_row (now : Z) (r : session_row) : session_row :=
  SessionRow (row_github_id r) (row_login r) (row_name r) (row_avatar_url r) (row_expires_at r)
    (row_created_at r) (Some (NInt now)) (row_authorization_state r) (row_denial_reason r)
    (row_repository_owner r) (row_repository_name r) (row_repository_id r) (row_installation_id r)
    (row_authorization_checked_at r) (row_encrypted_user_access_token r)
    (row_user_access_token_expires_at r) (row_token_iv r).

Definition revokeSessionId (sessionSecret id : str) (now : Z) : StoreM str :=
  let storedId := hashSessionId id sessionSecret in
  d1_exec DatabaseRejected (update_active storedId (revoke_row now)) ;;
  mret storedId.

(** ** Rows over time *)

(** What never changes in a row, and that a revocation stays. *)
Definition row_extends (r r' : session_row) : Prop :=
  row_github_id r' = row_github_id r ∧ row_login r' = row_login r ∧
  row_name r' = row_name r ∧ row_avatar_url r' = row_avatar_url r ∧
  row_expires_at r' = row_expires_at r ∧ row_created_at r' = row_created_at r ∧
  (is_active r = false → r' = r).

Definition table_extends (t t' : session_table) : Prop :=
  ∀ k r, t !! k = Some r → ∃ r', t' !! k = Some r' ∧ row_extends r r'.

#[export] Instance row_extends_preorder : PreOrder row_extends.
Proof.
  split; [intros r; unfold row_extends; by split_and!|]. intros a b c (? & ? & ? & ? & ? & ? & Hb) (? & ? & ? & ? & ? & ? & Hc).
  unfold row_extends. split_and!; try congruence. intros Ha. specialize (Hb Ha). subst. auto.
Qed.
#[export] Instance table_extends_preorder : PreOrder table_extends.
Proof.
  split; [intros t k r Hr; exists r; by split|]. intros a b c Hab Hbc k r Hr.
  destruct (Hab _ _ Hr) as (r1 & H1 & E1). destruct (Hbc _ _ H1) as (r2 & H2 & E2).
  exists r2. split; [done|]. by etrans.
Qed.

Definition db_extends (s s' : session_db) : Prop := table_extends (d1_table s) (d1_table s').
#[export] Instance db_extends_preorder : PreOrder db_extends.
Proof. split; [intros s; unfold db_extends; reflexivity|]. intros a b c. unfold db_extends. by etrans. Qed.

Lemma keeps_exec {A} (stmt : session_table → session_table * outcome auth_error A) :
  (∀ t, table_extends t (stmt t).1) → keeps db_extends (d1_exec DatabaseRejected stmt).
Proof.
  intros Hs s. destruct (d1_exec _ _ s) as [s' r] eqn:E. unfold db_extends. cbn.
  by destruct (d1_exec_table _ _ _ _ _ E) as [[-> _]|[-> _]].
Qed.

Lemma insert_extends k r t : table_extends t (insert_statement k r t).1.
Proof.
  unfold insert_statement. destruct (t !! k) eqn:E; [done|]. case_match; [done|].
  intros k' r' H'. exists r'. split; [|done]. cbn. rewrite lookup_insert_ne by congruence. done.
Qed.

Lemma update_extends k f t :
  (∀ r, is_active r = true → row_extends r (f r)) → table_extends t (update_active k f t).1.
Proof.
  intros Hf. unfold update_active. destruct (t !! k) as [r|] eqn:E; [|done].
  destruct (is_active r) eqn:Ea; [|done]. intros k' r' H'. cbn.
  destruct (decide (k = k')) as [<-|Hk].
  - rewrite lookup_insert_eq. simplify_eq. eauto.
  - rewrite lookup_insert_ne by done. by exists r'.
Qed.

Lemma update_row_extends s r : is_active r = true → row_extends r (update_row s r).
Proof. intros. split_and!; try done. congruence. Qed.
Lemma revoke_row_extends now r : is_active r = true → row_extends r (revoke_row now r).
Proof. intros. split_and!; try done. congruence. Qed.

(** The calls the program makes of the store. *)
Inductive store_call :=
| CallInsert (s : SessionRecord) (now : Z)
| CallUpdate (s : SessionRecord)
| CallFind (id : str) (now : Z)
| CallRevoke (id : str) (now : Z).

Definition run_call (secret : str) (c : store_call) : StoreM unit :=
  match c with
  | CallInsert s now => insertSession secret s now ;; mret ()
  | CallUpdate s => updateSessionAuthorization secret s
  | CallFind id now => findSession secret id now ;; mret ()
  | CallRevoke id now => revokeSessionId secret id now ;; mret ()
  end.

(** Any interleaving: a call that throws does not stop the others. *)
Definition run_calls (secret : str) (l : list store_call) (s : session_db) : session_db :=
  foldl (λ s c, (run_call secret c s).1) s l.

Lemma run_call_extends secret c : keeps db_extends (run_call secret c).
Proof.
  destruct c; unfold run_call, insertSession, updateSessionAuthorization, findSession, revokeSessionId;
    repeat keeps_step; apply keeps_exec; intros t;
    [apply insert_extends|apply update_extends, update_row_extends|done|apply update_extends, revoke_row_extends].
Qed.

Lemma run_calls_extends secret l s : db_extends s (run_calls secret l s).
Proof.
  revert s. induction l as [|c l IH]; intros s; [reflexivity|]. cbn.
  etrans; [apply run_call_extends|apply IH].
Qed.

Lemma live_session_some id now row se :
  live_session id now row = Some se →
  ∃ r, row = Some r ∧ is_active r = true ∧ num_le_Z (row_expires_at r) now = false ∧
    rowToSession id r now = Some se.
Proof.
  unfold live_session. destruct row as [r|]; [|done].
  destruct (is_active r) eqn:Ea; [|done]. destruct (num_le_Z _ _) eqn:El; [done|].
  intros H. by exists r.
Qed.

(** What a lookup says of the table it read. *)
Lemma findSession_ok secret id now s se :
  (findSession secret id now s).2 = Ok se →
  se = live_session id now (d1_table s !! hashSessionId id secret).
Proof.
  destruct (findSession secret id now s) as [s' r] eqn:E. intros Hr. cbn in Hr. subst r.
  unfold findSession in E. apply bind_run in E as [(s1 & row & H & H')|(e & _ & ?)]; [|done].
  apply d1_exec_ok in H. unfold select_row in H. injection H as _ <-.
  apply (f_equal snd) in H'. cbn in H'. congruence.
Qed.

(** C9: a revoked session is never served again: after a revocation that
    answered, no sequence of sign-ins, refreshes, lookups and revocations, and no
    database fault, makes a lookup of that session answer it. *)
Theorem revocation_is_final (secret id storedId : str) (now now' : Z) (s s1 : session_db)
    (row : session_row) (calls : list store_call) :
  d1_table s !! hashSessionId id secret = Some row →
  revokeSessionId secret id now s = (s1, Ok storedId) →
  ∀ se, (findSession secret id now' (run_calls secret calls s1)).2 ≠ Ok (Some se).
Proof.
  intros Hrow Hrev se Hfind. unfold revokeSessionId in Hrev.
  apply bind_run in Hrev as [(s2 & n & H & [= <- _])|(e & _ & ?)]; [|done].
  apply d1_exec_ok in H. unfold update_active in H. rewrite Hrow in H.
  assert (∃ r1, d1_table s2 !! hashSessionId id secret = Some r1 ∧ is_active r1 = false) as (r1 & H1 & Hr1).
  { destruct (is_active row) eqn:Ea; injection H as H _; rewrite <- H; [|by eauto].
    rewrite lookup_insert_eq. by eexists. }
  destruct (run_calls_extends secret calls s2 _ _ H1) as (r2 & H2 & (_ & _ & _ & _ & _ & _ & Hfix)).
  apply findSession_ok in Hfind. symmetry in Hfind.
  apply live_session_some in Hfind as (row' & Hrow' & Ha & _).
  rewrite (Hfix Hr1) in H2. congruence.
Qed.

(** The identity, the profile and the expiry of a session are fixed when it
    is created: whatever calls and faults follow, a lookup answers it only while
    it is active and before that expiry, with the stored identity. *)
Theorem session_identity_fixed (secret id : str) (now : Z) (s : session_db) (row : session_row)
    (calls : list store_call) (se : SessionRecord) :
  d1_table s !! hashSessionId id secret = Some row →
  (findSession secret id now (run_calls secret calls s)).2 = Ok (Some se) →
  ∃ row', d1_table (run_calls secret calls s) !! hashSessionId id secret = Some row' ∧
    row_github_id row' = row_github_id row ∧ row_login row' = row_login row ∧
    is_active row = true ∧ is_active row' = true ∧
    row_expires_at row' = row_expires_at row ∧ num_le_Z (row_expires_at row) now = false ∧
    (session_ok (row_session id row') = true → se = row_session id row').
Proof.
  intros Hrow Hfind. apply findSession_ok in Hfind. symmetry in Hfind.
  apply live_session_some in Hfind as (row' & Hrow' & Ha & Hexp & Hse).
  destruct (run_calls_extends secret calls s _ _ Hrow) as (r2 & H2 & (? & ? & ? & ? & Hx & ? & Hfix)).
  assert (r2 = row') as -> by congruence. exists row'. split_and!; try done.
  - destruct (is_active row) eqn:Ea; [done|]. rewrite (Hfix eq_refl) in Ha. congruence.
  - by rewrite <- Hx.
  - intros Hok. unfold rowToSession in Hse. rewrite session_json_roundtrip in Hse by done.
    destruct (num_le_Z (se_expiresAt (row_session id row')) now); [done|]. by injection Hse.
Qed.

Lemma findSession_no_fault secret id now t :
  findSession secret id now (D1 t [])
  = (D1 t [], Ok (live_session id now (t !! hashSessionId id secret))).
Proof. unfold findSession, mbind, eff_bind. by rewrite d1_exec_no_fault. Qed.

Lemma insertSession_no_fault secret s now t :
  t !! hashSessionId (se_id s) secret = None →
  bool_decide (row_expires_at (insert_row s now) = NNaN ∨ row_created_at (insert_row s now) = NNaN
    ∨ row_authorization_checked_at (insert_row s now) = NNaN) = false →
  insertSession secret s now (D1 t [])
  = (D1 (<[hashSessionId (se_id s) secret := insert_row s now]> t) [], Ok (hashSessionId (se_id s) secret)).
Proof.
  intros Hf Hn. unfold insertSession, mbind, eff_bind. rewrite d1_exec_no_fault.
  unfold insert_statement. by rewrite Hf, Hn.
Qed.

(** A stored session is read back as it was: creating a session and looking
    its identifier up before it expires answers that very session, and nothing
    once it has expired. *)
Theorem session_store_roundtrip (secret : str) (s : SessionRecord) (t : session_table) (now now' : Z) :
  session_ok s = true → se_revokedAt s = None → se_createdAt s ≠ None →
  au_login (se_authorization s) = se_login s → au_githubId (se_authorization s) = se_githubId s →
  t !! hashSessionId (se_id s) secret = None →
  (findSession secret (se_id s) now' (insertSession secret s now (D1 t [])).1).2
  = Ok (if num_le_Z (se_expiresAt s) now' then None else Some s).
Proof.
  intros Hok Hrev Hcr Hl Hg Hfresh.
  assert (row_session (se_id s) (insert_row s now) = s) as Hrow.
  { destruct s as [id gi lo na av [cr|] ex rv [] et ue iv]; [|done]. cbn in *. by subst. }
  assert (bool_decide (row_expires_at (insert_row s now) = NNaN ∨ row_created_at (insert_row s now) = NNaN
    ∨ row_authorization_checked_at (insert_row s now) = NNaN) = false) as Hnan.
  { apply bool_decide_eq_false. unfold session_ok, authorization_ok in Hok. cbn [forallb] in Hok. to_prop.
    destruct s as [id gi lo na av [cr|] ex rv [] et ue iv]; [|done]. cbn in *.
    intros [->|[->| ->]]; done. }
  rewrite insertSession_no_fault by done. cbn [fst]. rewrite findSession_no_fault. cbn [snd].
  rewrite lookup_insert_eq. unfold live_session, rowToSession. rewrite Hrow.
  rewrite session_json_roundtrip by done. f_equal. unfold is_active, insert_row. cbn.
  by destruct (num_le_Z (se_expiresAt s) now').
Qed.
End Store.

(** ** Examples *)

Module StoreExamples.
(** Toy primitives: a keyed checksum, a key that must start with a SEQUENCE tag,
    and a cipher that shifts bytes behind a tag byte. *)
#[export] Instance toy_crypto : WebCrypto := {|
  hmac_sha256 k m := [foldl (λ a b, (a * 31 + b) mod 256) 7 (k ++ m)]%N;
  sha256 m := [foldl (λ a b, (a * 17 + b) mod 256) 3 m]%N;
  rsa_key := list N;
  import_pkcs8 k := match k with 48%N :: _ => Some k | _ => None end;
  rsa_sign k m := [foldl (λ a b, (a * 13 + b) mod 256) 5 (k ++ m)]%N;
  aes_encrypt k iv m := 0%N :: map (λ b, (b + 1) mod 256)%N m;
  aes_decrypt k iv m := match m with _ :: m => Some (map (λ b, (b + 255) mod 256)%N m) | [] => None end;
|}.

#[export] Instance toy_crypto_laws : WebCryptoLaws toy_crypto.
Proof.
  assert (∀ b, byte_ok (b mod 256)%N) as Hmod by (intros b; unfold byte_ok; apply N.mod_lt; done).
  assert (∀ k m a, byte_ok a → byte_ok (foldl (λ a b, (a * k + b) mod 256) a m)%N) as Hfold.
  { intros k m. induction m; intros; cbn; auto. }
  split; cbn.
  - intros. apply Forall_singleton, Hfold. done.
  - intros. apply Forall_singleton, Hfold. done.
  - intros. apply Forall_singleton, Hfold. done.
  - intros. constructor; [done|]. apply Forall_fmap, Forall_true. intros; apply Hmod.
  - done.
  - intros k iv m Hm. f_equal. induction Hm as [|b m Hb Hm IH]; [done|]. cbn. f_equal; [|done].
    unfold byte_ok in Hb. rewrite N.Div0.add_mod_idemp_l.
    replace (b + 1 + 255)%N with (b + 1 * 256)%N by lia. rewrite N.Div0.mod_add. by apply N.mod_small.
Qed.

Definition secret : str := js "secret".
Definition authorization : Authorization :=
  MkAuthorization Authorized None (js "acme") (js "lib") (Some (NInt 7)) (Some (NInt 8)) (js "ada") 42 (NInt 1000).
Definition session : SessionRecord :=
  MkSession (js "id-1") 42 (js "ada") (Some (js "Ada")) None (Some (NInt 1000)) (NInt 9000) None authorization
    (Some (js "QUJD")) (Some (NInt 9000)) (Some (js "QQ==")).
Definition stored : session_db := (insertSession secret session 1000 (D1 ∅ [])).1.
Definition row : session_row := insert_row session 1000.
Definition later : list store_call :=
  [CallInsert session 3000; CallUpdate session; CallFind (js "id-1") 3000; CallRevoke (js "id-1") 3000].

Lemma session_store_roundtrip_witness :
  (findSession secret (js "id-1") 2000 (insertSession secret session 1000 (D1 ∅ [])).1).2 = Ok (Some session).
Proof. apply (session_store_roundtrip secret session ∅ 1000 2000); vm_compute; try reflexivity; discriminate. Defined.

Lemma revocation_is_final_witness :
  (findSession secret (js "id-1") 2000
     (run_calls secret later (revokeSessionId secret (js "id-1") 2000 stored).1)).2 ≠ Ok (Some session).
Proof.
  apply (revocation_is_final secret (js "id-1") (hashSessionId (js "id-1") secret) 2000 2000 stored
           (revokeSessionId secret (js "id-1") 2000 stored).1 row later); vm_compute; reflexivity.
Defined.

Lemma session_identity_fixed_witness :
  ∃ row', d1_table (run_calls secret [CallUpdate session] stored) !! hashSessionId (js "id-1") secret = Some row' ∧
    row_github_id row' = 42%Z.
Proof.
  destruct (session_identity_fixed secret (js "id-1") 2000 stored row [CallUpdate session] session)
    as (row' & ? & ? & _); [vm_compute; reflexivity..|]. exists row'. split; [done|etrans; [eassumption|reflexivity]].
Defined.
End StoreExamples.
