(* ===== verification/GithubApp.v ===== *)
(** * GitHub App client

    Models [src/lib/github-app.ts] and the readiness check of
    [src/lib/auth-configuration.ts]: base64url, the DER wrapping of private keys,
    the App's JSON web token, and the REST calls of the sign-in code.

    [AuthEnv] is what the sign-in code calls outside the repository: [fetch], the
    clock and the random source, acting on an abstract world. The state of the
    sign-in components ([auth_state]) adds the session database, the cookies of
    the request and a trace of the requests and log lines. *)

From S2P Require Import Prelude JsString Encoding JsDate Json JsonText JsNumber GithubClient D1 Url.
From S2P Require Import AuthConfig AuthCore SessionStore.

(** ** World *)

Class AuthEnv (W : Type) := {
  auth_fetch : request → W → W * fetch_result;
  auth_now : W → W * Z;
  auth_random : nat → W → W * list N;
}.

(** The random source gives the bytes it is asked for. *)
Class AuthEnvLaws (W : Type) `{AuthEnv W} := {
  random_bytes n w : Forall byte_ok (auth_random n w).2;
  random_length n w : length (auth_random n w).2 = n;
}.

Inductive auth_event :=
| AvFetch (r : request)
| AvLog (message : str).

Record auth_state (W : Type) := AuthState {
  as_world : W;
  as_db : session_db;
  as_cookies : list (str * (str * AuthCookie));
  as_trace : list auth_event;
}.
Arguments AuthState {W}. Arguments as_world {W}. Arguments as_db {W}.
Arguments as_cookies {W}. Arguments as_trace {W}.

(** ** Encodings *)

(** [base64Url(bytes)]: padding is cut at the end only. *)
Definition base64Url (bytes : list N) : str :=
  drop_while_end (λ c, (c =? 61)%N) (map b64url_unit (btoa bytes)).

(** The loop of [derLength], most significant byte first; four rounds are enough
    for a length below 2^32. *)
Fixpoint der_length_bytes (fuel : nat) (value : N) (acc : list N) : list N :=
  match fuel with
  | O => acc
  | S fuel => if (value =? 0)%N then acc
              else der_length_bytes fuel (N.shiftr value 8) (N.land value 255 :: acc)
  end.
Definition derLength (length : N) : list N :=
  if (length <? 128)%N then [length]
  else let bytes := der_length_bytes 4 length [] in N.lor 128 (N.of_nat (List.length bytes)) :: bytes.
Definition der (tag : N) (content : list N) : list N :=
  tag :: derLength (N.of_nat (length content)) ++ content.

(** The AlgorithmIdentifier of rsaEncryption. *)
Definition rsa_algorithm : list N :=
  [48; 13; 6; 9; 42; 134; 72; 134; 247; 13; 1; 1; 1; 5; 0]%N.
Definition pkcs1ToPkcs8 (pkcs1 : list N) : list N :=
  der 48 ([2; 1; 0]%N ++ rsa_algorithm ++ der 4 pkcs1).

(** ** Private keys *)

Definition is_label (c : N) : bool := is_upper c || is_digit c || (c =? 32)%N.
Definition is_pem_unit (c : N) : bool := is_b64 c || (c =? 61)%N || (c =? 13)%N || (c =? 10)%N.
Fixpoint span (p : N → bool) (s : str) : str * str :=
  match s with
  | c :: s' => if p c then let '(a, r) := span p s' in (c :: a, r) else ([], s)
  | [] => ([], [])
  end.
Definition strip (p s : str) : option str :=
  if starts_with p s then Some (drop (length p) s) else None.
Definition strip_newline (s : str) : option str :=
  match s with
  | c :: s' => if (c =? 10)%N then Some s'
               else if (c =? 13)%N then strip [10%N] s' else None
  | [] => None
  end.
(** Cut the newline that ends the body, which must not be empty. *)
Definition cut_newline (s : str) : option str :=
  match reverse s with
  | c :: ((_ :: _) as r) => if (c =? 10)%N then Some (reverse r) else None
  | _ => None
  end.

(** The label and body of
    [/^-----BEGIN ([A-Z0-9 ]+)-----\r?\n([A-Za-z0-9+/=\r\n]+)\r?\n-----END \1-----$/].
    Neither class holds a dash, so that the label and the body are the longest
    runs of their class; the body's greedy run gives back its last newline. *)
Definition pem_match (s : str) : option (str * str) :=
  s ← strip (js "-----BEGIN ") s;
  let '(label, s) := span is_label s in
  _ ← (if nonempty label then Some () else None);
  s ← strip (js "-----") s;
  s ← strip_newline s;
  let '(body, s) := span is_pem_unit s in
  body ← cut_newline body;
  if str_eqb s (js "-----END " ++ label ++ js "-----") then Some (label, body) else None.

Definition invalid_private_key : auth_error := AuthenticationConfigurationError Invalid_private_key None.

Definition parsePrivateKeyPem (pem : str) : outcome auth_error (list N) :=
  '(label, body) ← from_option_throw invalid_private_key (pem_match (trim pem));
  _ ← guard_throw (str_eqb label (js "PRIVATE KEY") || str_eqb label (js "RSA PRIVATE KEY")) invalid_private_key;
  let payload := replace_runs is_ws [] body in
  _ ← guard_throw (nonempty payload && canonical_base64 payload) invalid_private_key;
  bytes ← from_option_throw invalid_private_key (atob payload);
  _ ← guard_throw (match bytes with [] => false | _ => true end) invalid_private_key;
  Ok (if str_eqb label (js "RSA PRIVATE KEY") then pkcs1ToPkcs8 bytes else bytes).

Section App.
Context `{C : WebCrypto} {W : Type} `{A : !AuthEnv W}.
Abbreviation AuthM := (eff (auth_state W) auth_error).

Definition validateGitHubAppPrivateKey (pem : str) : outcome auth_error rsa_key :=
  bytes ← parsePrivateKeyPem pem;
  from_option_throw invalid_private_key (import_pkcs8 bytes).

Definition createPkceChallenge (verifier : str) : str := base64Url (sha256 (utf8_encode verifier)).

Definition jwt_header : jsval := JObj [(js "alg", JStr (js "RS256")); (js "typ", JStr (js "JWT"))].
Definition jwt_payload (appId : str) (now : Z) : jsval :=
  JObj [(js "iat", int (now - 60)); (js "exp", int (now + 540)); (js "iss", JStr appId)].
Definition jwt_input (appId : str) (now : Z) : str :=
  base64Url (utf8_encode (stringify jwt_header)) ++ js "." ++
  base64Url (utf8_encode (stringify (jwt_payload appId now))).
Definition create_jwt (appId pem : str) (now : Z) : outcome auth_error str :=
  key ← validateGitHubAppPrivateKey pem;
  let input := jwt_input appId now in
  Ok (input ++ js "." ++ base64Url (rsa_sign key (utf8_encode input))).

(** ** Effects *)

Definition get_now : AuthM Z := λ s,
  let '(w, t) := auth_now (as_world s) in
  (AuthState w (as_db s) (as_cookies s) (as_trace s), Ok t).

Definition get_random (n : nat) : AuthM (list N) := λ s,
  let '(w, b) := auth_random n (as_world s) in
  (AuthState w (as_db s) (as_cookies s) (as_trace s), Ok b).

Definition log_line (message : str) : AuthM unit :=
  modify_world (λ s, AuthState (as_world s) (as_db s) (as_cookies s) (as_trace s ++ [AvLog message])).

(** [fetch]; a rejection is thrown. *)
Definition fetch (r : request) : AuthM response := λ s,
  let '(w, res) := auth_fetch r (as_world s) in
  (AuthState w (as_db s) (as_cookies s) (as_trace s ++ [AvFetch r]),
   match res with Fetched r => Ok r | FetchRejected => Throw (OtherError (js "fetch failed")) end).

(** [response.json()] *)
Definition response_json (r : response) : AuthM jsval :=
  lift match rs_json r with
       | BodyJson v => Ok v
       | BodyTypeError => Throw (OtherError (js "TypeError"))
       | BodySyntaxError => Throw (OtherError (js "SyntaxError"))
       end.

(** [randomToken(bytes)] *)
Definition randomToken (bytes : nat) : AuthM str :=
  data ← get_random bytes; mret (token_of_bytes data).

Definition createGitHubAppJwt (appId pem : str) : AuthM str :=
  t ← get_now;
  lift (create_jwt appId pem (t / 1000)).

(** ** REST calls *)

Definition githubHeaders (token : option str) : list (str * str) :=
  [(js "accept", js "application/vnd.github+json")]
  ++ match token with Some ((_ :: _) as t) => [(js "authorization", js "Bearer " ++ t)] | _ => [] end
  ++ [(js "user-agent", js "artifact-dev-toolkit"); (js "x-github-api-version", js "2022-11-28")].

Definition app_githubJson (r : request) : AuthM jsval :=
  response ← fetch r;
  _ ← lift (guard_throw (rs_ok response) (HttpError (rs_status response)));
  response_json response.

Definition encode_component (s : str) : AuthM str :=
  lift (from_option_throw (OtherError (js "URIError")) (encodeURIComponent s)).

Definition repository_url (owner repo : str) : AuthM str :=
  o ← encode_component owner;
  r ← encode_component repo;
  mret (githubApiBaseUrl ++ js "/repos/" ++ o ++ js "/" ++ r).

Definition getConfiguredRepository (owner repo token : str) : AuthM jsval :=
  url ← repository_url owner repo;
  app_githubJson (Request GET url (githubHeaders (Some token)) None).

Definition getRepositoryInstallation (owner repo appJwt : str) : AuthM jsval :=
  url ← repository_url owner repo;
  app_githubJson (Request GET (url ++ js "/installation") (githubHeaders (Some appJwt)) None).

Record RepositoryCredential := MkCredential {
  rc_token : str; rc_contents : option str; rc_pullRequests : option str; rc_expiresAt : option str;
}.

Definition capability_permissions (c : capability) : jsval :=
  match c with
  | CapRead => JObj [(js "contents", JStr (js "read"))]
  | CapWrite => JObj [(js "contents", JStr (js "write"))]
  | CapPullRequests => JObj [(js "pull_requests", JStr (js "write"))]
  end.

Definition credential_category (status : Z) : credential_failure :=
  (if status =? 401 then Authentication_failed
   else if (status =? 403) || (status =? 404) then Installation_missing
   else if status =? 422 then Capability_request_rejected
   else if status =? 429 then Rate_limited_credential
   else if 500 <=? status then Temporarily_unavailable else Request_failed)%Z.

Definition nonempty_opt (o : option str) : option str :=
  match o with Some ((_ :: _) as s) => Some s | _ => None end.

(** The answer of the token endpoint. *)
Definition app_credential (payload : jsval) : option RepositoryCredential :=
  match payload with
  | JObj p =>
      match field (js "token") p with
      | JStr token =>
          if nonempty (trim token) then
            let permission k := nonempty_opt (get_str k (field (js "permissions") p)) in
            Some (MkCredential token (permission "contents"%string) (permission "pull_requests"%string)
                    (nonempty_opt (read_str (field (js "expires_at") p))))
          else None
      | _ => None
      end
  | _ => None
  end.

Definition mintRestrictedInstallationToken (installationId : num) (restriction : list (str * jsval))
    (appJwt : str) (c : capability) : AuthM RepositoryCredential :=
  let failure category status := InstallationCredentialError category c status in
  response ← try_catch
    (fetch (Request POST
       (githubApiBaseUrl ++ js "/app/installations/" ++ num_text installationId ++ js "/access_tokens")
       (githubHeaders (Some appJwt) ++ [(js "content-type", js "application/json")])
       (Some (JObj (restriction ++ [(js "permissions", capability_permissions c)])))))
    (λ _, throw (failure Temporarily_unavailable None));
  if negb (rs_ok response)
  then throw (failure (credential_category (rs_status response)) (Some (rs_status response)))
  else
    payload ← try_catch (response_json response) (λ _, throw (failure Malformed_response (Some (rs_status response))));
    match app_credential payload with
    | Some credential => mret credential
    | None => throw (failure Malformed_response (Some (rs_status response)))
    end.

Definition mintInstallationToken (installationId repositoryId : num) (appJwt : str) (c : capability)
    : AuthM RepositoryCredential :=
  mintRestrictedInstallationToken installationId [(js "repository_ids", JArr [JNum repositoryId])] appJwt c.

Definition mintInstallationTokenForRepositoryName (installationId : num) (repository appJwt : str)
    (c : capability) : AuthM RepositoryCredential :=
  mintRestrictedInstallationToken installationId [(js "repositories", JArr [JStr repository])] appJwt c.

(** ** Readiness *)

Definition readiness_names : list str :=
  map js ["ARTIFACT_REPOSITORY"; "GITHUB_APP_ID"; "GITHUB_APP_CLIENT_ID"; "GITHUB_APP_CLIENT_SECRET";
          "GITHUB_APP_PRIVATE_KEY"; "GITHUB_TOKEN_ENCRYPTION_KEY"; "GITHUB_ARTIFACT_REPOSITORY_OWNER";
          "GITHUB_ARTIFACT_REPOSITORY_NAME"; "SESSION_SECRET"]%string.

(** Answers the OAuth client identifier. *)
Definition validateProductionAuthReadiness (env : process_env) : outcome auth_error str :=
  values ← requireAuthenticationValues env readiness_names;
  _ ← guard_throw (str_eqb (value_of "ARTIFACT_REPOSITORY" values) (js "github"))
        (AuthenticationConfigurationError Invalid_repository_backend None);
  _ ← getOAuthExchangeConfig env;
  _ ← getSessionSecurityConfig env;
  _ ← validateGitHubAppPrivateKey (value_of "GITHUB_APP_PRIVATE_KEY" values);
  getOAuthStartConfig env.
End App.

Definition pem_text (label : string) : str :=
  js "-----BEGIN " ++ js label ++ js "-----" ++ [13; 10]%N ++ js "MAMC" ++ [10]%N
  ++ js "AQU=" ++ [13; 10]%N ++ js "-----END " ++ js label ++ js "-----" ++ [10]%N.
Example pem_ex :
  [parsePrivateKeyPem (pem_text "PRIVATE KEY"); parsePrivateKeyPem (pem_text "PUBLIC KEY")]
  = [Ok [48; 3; 2; 1; 5]%N; Throw invalid_private_key].
Proof. vm_compute. reflexivity. Qed.

(** ** Theorems *)

Lemma base64Url_eq l : Forall byte_ok l → base64Url l = base64url_encode l.
Proof.
  intros Hl. unfold base64Url, base64url_encode, btoa.
  destruct (base64_shape l Hl) as (body & pad & -> & Hb & Hp & _).
  rewrite map_app, List.filter_app, map_app.
  assert (Forall (λ c, (c =? 61)%N = false) (map b64url_unit body)) as Hm.
  { apply Forall_fmap. eapply Forall_impl; [exact Hb|]. intros c Hc. cbn. unfold b64url_unit.
    destruct (b64_not_ws c Hc) as (_ & _ & _ & _ & ?). repeat case_match; n_bool; lia. }
  assert (List.filter (λ c, negb (c =? 61)%N) body = body) as ->.
  { clear Hm. induction Hb as [|c s Hc Hs IH]; [done|]. cbn.
    destruct (b64_not_ws c Hc) as (_ & _ & _ & _ & H%N.eqb_neq). rewrite H. cbn. by rewrite IH. }
  assert (∀ w, Forall (λ c, (c =? 61)%N = true) w →
     drop_while_end (λ c, (c =? 61)%N) (map b64url_unit body ++ w) = map b64url_unit body) as Hd.
  { intros w Hw. unfold drop_while_end. rewrite reverse_app, drop_while_app.
    rewrite (drop_while_all _ (reverse w)) by (by apply Forall_reverse).
    rewrite drop_while_none; [apply reverse_involutive|].
    intros c Hc. rewrite elem_of_reverse in Hc. rewrite Forall_forall in Hm. auto. }
  rewrite !elem_of_cons in Hp. destruct Hp as [->|[->|[->|[]%not_elem_of_nil]]]; cbn [map List.filter];
    rewrite Hd by (by repeat apply Forall_cons_2); cbn; by rewrite app_nil_r.
Qed.

(** A DER reader: tag, length in its short or long form, content, rest. *)
Definition bytes_value (l : list N) : N := foldl (λ a b, a * 256 + b)%N 0%N l.
Definition der_read (l : list N) : option (N * list N * list N) :=
  match l with
  | tag :: n :: r =>
      let '(len, r) :=
        if (n <? 128)%N then (n, r)
        else let k := N.to_nat (n - 128) in (bytes_value (take k r), drop k r) in
      if (N.of_nat (length r) <? len)%N then None
      else Some (tag, take (N.to_nat len) r, drop (N.to_nat len) r)
  | _ => None
  end.

Lemma foldl_value l a : foldl (λ a b, a * 256 + b)%N a l = (a * 256 ^ N.of_nat (length l) + bytes_value l)%N.
Proof.
  unfold bytes_value. revert a. induction l as [|b l IH]; intros a; cbn [foldl length]; [cbn; lia|].
  rewrite IH, (IH (0 * 256 + b)%N), Nat2N.inj_succ, N.pow_succ_r'. nia.
Qed.

Lemma der_length_bytes_value fuel v acc :
  (v < 256 ^ N.of_nat fuel)%N →
  bytes_value (der_length_bytes fuel v acc) = (v * 256 ^ N.of_nat (length acc) + bytes_value acc)%N ∧
  (length (der_length_bytes fuel v acc) <= fuel + length acc)%nat.
Proof.
  revert v acc. induction fuel as [|fuel IH]; intros v acc Hv; cbn [der_length_bytes].
  { cbn in Hv. assert (v = 0%N) as -> by lia. split; lia. }
  destruct (N.eqb_spec v 0) as [->|Hnz]; [split; lia|].
  rewrite N.shiftr_div_pow2. change (2 ^ 8)%N with 256%N. change 255%N with (N.ones 8). rewrite N.land_ones.
  change (2 ^ 8)%N with 256%N. rewrite Nat2N.inj_succ, N.pow_succ_r' in Hv.
  destruct (IH (v / 256)%N ((v mod 256)%N :: acc)) as [E L]; [by apply N.Div0.div_lt_upper_bound|].
  split; [|cbn in L; lia]. rewrite E. cbn [length]. rewrite Nat2N.inj_succ, N.pow_succ_r'.
  unfold bytes_value at 1. cbn [foldl]. rewrite foldl_value.
  pose proof (N.div_mod v 256 ltac:(done)). nia.
Qed.

Lemma der_roundtrip tag content rest :
  (N.of_nat (length content) < 2 ^ 32)%N →
  der_read (der tag content ++ rest) = Some (tag, content, rest).
Proof.
  intros Hlen. unfold der, derLength. set (n := N.of_nat (length content)) in *.
  destruct (N.ltb_spec n 128) as [Hs|Hl].
  - cbn [app der_read]. rewrite (proj2 (N.ltb_lt n 128)) by done. cbn iota zeta.
    rewrite (proj2 (N.ltb_ge _ n)) by (rewrite length_app; lia).
    subst n. rewrite Nat2N.id. by rewrite take_app_length, drop_app_length.
  - pose proof (der_length_bytes_value 4 n [] Hlen) as [Hv Hk]. cbn [length] in Hv, Hk.
    set (bytes := der_length_bytes 4 n []) in *.
    assert (N.lor 128 (N.of_nat (length bytes)) = 128 + N.of_nat (length bytes))%N as ->.
    { assert (length bytes = 0 ∨ length bytes = 1 ∨ length bytes = 2 ∨ length bytes = 3 ∨ length bytes = 4)%nat
        as [->|[->|[->|[->| ->]]]] by lia; done. }
    cbn [app der_read]. rewrite (proj2 (N.ltb_ge (128 + N.of_nat (length bytes)) 128)) by lia. cbn iota zeta.
    replace (N.to_nat (128 + N.of_nat (length bytes) - 128)) with (length bytes) by lia.
    rewrite <- app_assoc, take_app_length, drop_app_length, Hv. cbn -[N.of_nat N.to_nat].
    rewrite N.mul_1_r, N.add_0_r.
    rewrite (proj2 (N.ltb_ge _ n)) by (rewrite length_app; lia).
    subst n. rewrite Nat2N.id. by rewrite take_app_length, drop_app_length.
Qed.

(** A PKCS#1 key is wrapped as a PKCS#8 PrivateKeyInfo: a DER reader finds one
    SEQUENCE holding the version 0, the rsaEncryption algorithm and the key,
    unchanged, in an OCTET STRING, whatever the length of the key. *)
Theorem pkcs8_wraps (key : list N) :
  (N.of_nat (length key) < 2 ^ 31)%N →
  ∃ body version algorithm oid_and_null,
    der_read (pkcs1ToPkcs8 key) = Some (48%N, body, []) ∧
    der_read body = Some (2%N, [0%N], version) ∧
    der_read version = Some (48%N, oid_and_null, algorithm) ∧
    48%N :: N.of_nat (length oid_and_null) :: oid_and_null = rsa_algorithm ∧
    der_read algorithm = Some (4%N, key, []).
Proof.
  intros Hk. set (info := [2; 1; 0]%N ++ rsa_algorithm ++ der 4 key).
  assert (length (derLength (N.of_nat (length key))) <= 5)%nat as Hd.
  { unfold derLength. case_match; [cbn; lia|].
    destruct (der_length_bytes_value 4 (N.of_nat (length key)) []) as [_ ?]; cbn [length] in *; [|lia].
    change (256 ^ N.of_nat 4)%N with (2 ^ 32)%N. lia. }
  exists info, (rsa_algorithm ++ der 4 key), (der 4 key), (drop 2 rsa_algorithm). split_and!.
  - rewrite <- (app_nil_r (pkcs1ToPkcs8 key)). unfold pkcs1ToPkcs8. apply der_roundtrip.
    unfold info. rewrite !length_app. unfold der. cbn [length]. rewrite length_app.
    change (length rsa_algorithm) with 15%nat. lia.
  - apply (der_roundtrip 2 [0%N]). done.
  - apply (der_roundtrip 48 (drop 2 rsa_algorithm)). done.
  - done.
  - rewrite <- (app_nil_r (der 4 key)). apply der_roundtrip. lia.
Qed.

Lemma pkcs8_wraps_witness :
  ∃ body, der_read (pkcs1ToPkcs8 (replicate 200 9%N)) = Some (48%N, body, []).
Proof. destruct (pkcs8_wraps (replicate 200 9%N)) as (body & ? & ? & ? & H & _); [done|]. by exists body. Defined.

Lemma split_three h p s :
  46%N ∉ h → 46%N ∉ p → 46%N ∉ s → split_on 46 ((h ++ js "." ++ p) ++ js "." ++ s) = [h; p; s].
Proof.
  intros. change (js ".") with [46%N]. rewrite <- !app_assoc. cbn [app].
  by rewrite !split_on_app, split_on_fresh by done.
Qed.

(** The App's token is a well-formed JSON web token: three base64url parts
    whose second part says it was issued a minute ago and lives for ten minutes
    in all, and whose third part signs the first two with the configured key. *)
Theorem app_jwt_wellformed `{C : WebCrypto} `{CL : !WebCryptoLaws C} (appId pem : str) (now : Z) (token : str) :
  units_ok appId → (Z.abs now < 10 ^ 20)%Z → create_jwt appId pem now = Ok token →
  ∃ header payload signature key,
    split_on 46 token = [header; payload; signature] ∧
    JSON_parse (utf8_decode (base64_decode header)) = Some jwt_header ∧
    JSON_parse (utf8_decode (base64_decode payload)) = Some (jwt_payload appId now) ∧
    validateGitHubAppPrivateKey pem = Ok key ∧
    base64_decode signature = rsa_sign key (utf8_encode (header ++ 46%N :: payload)).
Proof.
  intros Hid Hnow Ht. unfold create_jwt in Ht. apply outcome_bind_ok in Ht as (key & Hkey & Ht).
  assert (token = jwt_input appId now ++ js "." ++ base64Url (rsa_sign key (utf8_encode (jwt_input appId now))))
    as -> by congruence. clear Ht.
  assert (json_ok jwt_header) as Hh by (by apply json_okb_sound).
  assert (json_ok (jwt_payload appId now)) as Hp.
  { apply json_ok_obj. split; [eval_decide|]. each_member; [cbn; lia|cbn; lia|done]. }
  assert (∀ v, json_ok v → Forall byte_ok (utf8_encode (stringify v))) as Hb.
  { intros v Hv. apply utf8_encode_ok, utf16_ok_units, stringify_ok, Hv. }
  unfold jwt_input. rewrite !base64Url_eq by first [apply rsa_sign_bytes | by apply Hb].
  exists (base64url_encode (utf8_encode (stringify jwt_header))),
    (base64url_encode (utf8_encode (stringify (jwt_payload appId now)))).
  eexists _, key. split_and!.
  - apply split_three; apply base64url_no_dot; first [apply rsa_sign_bytes | by apply Hb].
  - rewrite base64url_roundtrip by (by apply Hb). by apply json_bytes_roundtrip.
  - rewrite base64url_roundtrip by (by apply Hb). by apply json_bytes_roundtrip.
  - done.
  - by rewrite base64url_roundtrip by apply rsa_sign_bytes.
Qed.

Module AppExamples.
Import StoreExamples.
Lemma app_jwt_wellformed_witness :
  ∃ header payload signature,
    split_on 46 (match create_jwt (js "12") (pem_text "PRIVATE KEY") 1700000000 with Ok t => t | Throw _ => [] end)
    = [header; payload; signature].
Proof.
  destruct (app_jwt_wellformed (js "12") (pem_text "PRIVATE KEY") 1700000000
              (match create_jwt (js "12") (pem_text "PRIVATE KEY") 1700000000 with Ok t => t | Throw _ => [] end))
    as (h & p & s & _ & H & _); [by apply units_ok_dec|lia|vm_compute; reflexivity|].
  by exists h, p, s.
Defined.
End AppExamples.
