(* ===== verification/RepoAuth.v ===== *)
(** * Repository authorisation

    Models [src/lib/repository-authorization.ts] and
    [src/lib/public-repository-configuration.ts]: who may use the configured
    repository, decided by the allowlist, by what GitHub answers to the user's own
    token, and by the App's installation.

    A credential provider is its captured values ([provider]) together with the
    map of the credentials it has asked for. *)

From S2P Require Import Prelude JsString Encoding JsDate Json JsonText JsNumber Layout Libs Contract GithubClient Repository D1 Url.
From S2P Require Import AuthConfig AuthCore SessionStore GithubApp.

Definition authorizationFreshnessMs : Z := 7 * 60 * 1000.

Definition repositoryAccessDeniedMessages (r : denial_reason) : str :=
  match r with
  | DrConfiguration => js "Artifact repository access is not configured. Contact an administrator."
  | DrAllowlist => js "Your GitHub account is not on the artifact library allowlist."
  | DrAppAccess => js "The GitHub App is not installed with access to the configured artifact repository."
  | DrUserAccess => js "Your GitHub account is not authorised for the configured artifact repository."
  | DrTemporaryUnavailable => js "Artifact repository authorisation is temporarily unavailable. Please try again later."
  end.

(** ** Configuration *)

Record GitHubAppConfig := MkAppConfig {
  gc_appId : str; gc_clientId : str; gc_clientSecret : str; gc_privateKey : str;
  gc_owner : str; gc_repo : str; gc_branch : str; gc_rootPath : str; gc_allowedLogins : list str;
}.

Definition parseAllowedGitHubLogins (value : str) : list str :=
  List.filter nonempty (map (λ login, to_lower (trim login)) (split_on (ch ",") value)).

Definition authorization_names : list str :=
  map js ["GITHUB_APP_ID"; "GITHUB_APP_CLIENT_ID"; "GITHUB_APP_CLIENT_SECRET"; "GITHUB_APP_PRIVATE_KEY";
          "GITHUB_TOKEN_ENCRYPTION_KEY"; "GITHUB_ARTIFACT_REPOSITORY_OWNER";
          "GITHUB_ARTIFACT_REPOSITORY_NAME"]%string.

Definition getRepositoryAuthorizationConfig (env : process_env) : outcome auth_error GitHubAppConfig :=
  values ← requireAuthenticationValues env authorization_names;
  Ok (MkAppConfig (value_of "GITHUB_APP_ID" values) (value_of "GITHUB_APP_CLIENT_ID" values)
        (value_of "GITHUB_APP_CLIENT_SECRET" values) (value_of "GITHUB_APP_PRIVATE_KEY" values)
        (value_of "GITHUB_ARTIFACT_REPOSITORY_OWNER" values)
        (value_of "GITHUB_ARTIFACT_REPOSITORY_NAME" values)
        (default (js "main") (env_value env (js "GITHUB_ARTIFACT_REPOSITORY_BRANCH")))
        DEFAULT_ARTIFACT_ROOT
        (parseAllowedGitHubLogins (default [] (assoc (js "GITHUB_ARTIFACT_ALLOWED_LOGINS") env)))).

Definition getGitHubAppIdentityConfig (env : process_env) : outcome auth_error (str * str) :=
  config ← getRepositoryAuthorizationConfig env;
  Ok (gc_appId config, gc_privateKey config).

(** ** Public configuration *)

Inductive public_backend := PbGithub | PbFile | PbInvalid.
#[export] Instance public_backend_eq_dec : EqDecision public_backend.
Proof. solve_decision. Defined.
Record PublicRepositoryConfiguration := MkPublic {
  pc_backend : public_backend; pc_owner : option str; pc_repository : option str;
  pc_branch : str; pc_root : str; pc_identityValid : bool;
}.

Definition getPublicRepositoryConfiguration (env : process_env) : PublicRepositoryConfiguration :=
  let lookup name := assoc (js name) env in
  let backend :=
    match getArtifactRepositoryBackend
            (RepositoryEnv (lookup "ARTIFACT_REPOSITORY"%string) (lookup "NODE_ENV"%string) None None None) with
    | Ok GithubBackend => PbGithub | Ok FileBackend => PbFile | Throw _ => PbInvalid
    end in
  let owner := env_value env (js "GITHUB_ARTIFACT_REPOSITORY_OWNER") in
  let repository := env_value env (js "GITHUB_ARTIFACT_REPOSITORY_NAME") in
  MkPublic backend owner repository
    (default (js "main") (env_value env (js "GITHUB_ARTIFACT_REPOSITORY_BRANCH")))
    DEFAULT_ARTIFACT_ROOT
    (bool_decide (backend = PbFile)
     || (bool_decide (backend = PbGithub) && negb (is_none owner) && negb (is_none repository))).

(** [None] is the answer ["unknown"]. *)
Definition storedRepositoryMatchesPublicConfiguration (owner repo : str) (config : PublicRepositoryConfiguration)
    : option bool :=
  match pc_owner config, pc_repository config with
  | Some o, Some r => Some (str_eqb (to_lower owner) (to_lower o) && str_eqb (to_lower repo) (to_lower r))
  | _, _ => None
  end.

(** ** Status *)

Record provider := Provider {
  pv_appId : str; pv_privateKey : str; pv_installationId : option num; pv_repositoryId : option num;
}.

Record access_status := Access {
  ac_owner : str; ac_repo : str; ac_login : str; ac_githubId : Z; ac_repositoryId : option num;
  ac_installationId : option num; ac_checkedAt : num; ac_provider : provider;
}.

(** [RepositoryAuthorizationStatus]; [access_status] is its [ok: true] case, the
    [RepositoryAccessContext]. *)
Inductive authorization_status :=
| StatusOk (a : access_status)
| StatusFailed (reason : denial_reason) (message : str) (temporary : option bool).

Definition authorizationRequiresRevalidation (a : Authorization) (now : Z) : bool :=
  bool_decide (au_denialReason a = Some DrTemporaryUnavailable)
  || num_le_Z (au_checkedAt a) (now - authorizationFreshnessMs).

Definition shouldRetainUserToken (status : authorization_status) : bool :=
  match status with
  | StatusOk _ => true
  | StatusFailed reason _ _ => bool_decide (reason = DrTemporaryUnavailable)
  end.

Definition classify (e : auth_error) : denial_reason :=
  match auth_error_status e with
  | Some status =>
      (if (status =? 401) || (status =? 403) || (status =? 404) then DrAppAccess
       else if (status =? 429) || (500 <=? status) || (status =? 0) then DrTemporaryUnavailable
       else DrConfiguration)%Z
  | None => DrTemporaryUnavailable
  end.

Definition denied (r : denial_reason) : authorization_status :=
  StatusFailed r (repositoryAccessDeniedMessages r) None.

Section Verify.
Context `{C : WebCrypto} {W : Type} `{A : !AuthEnv W}.
Abbreviation AuthM := (eff (auth_state W) auth_error).

(** Property access and [toLowerCase]: a TypeError where JavaScript throws one. *)
Definition type_error : auth_error := OtherError (js "TypeError").
Definition prop (k : string) (v : jsval) : outcome auth_error jsval :=
  match v with
  | JObj o => Ok (field (js k) o)
  | JNull | JUndefined => Throw type_error
  | _ => Ok JUndefined
  end.
Definition lower_of (v : jsval) : outcome auth_error str :=
  match v with JStr s => Ok (to_lower s) | _ => Throw type_error end.

(** What the user's token may read: [None] is an answer 401, 403 or 404. *)
Definition user_repository (config : GitHubAppConfig) (token : str) : AuthM (option jsval) :=
  try_catch (repo ← getConfiguredRepository (gc_owner config) (gc_repo config) token; mret (Some repo))
    (λ e, if status_in (auth_error_status e) [401; 403; 404]%Z then mret None else throw e).

(** [repo.name] and [repo.owner.login] are those of the configuration. *)
Definition same_repository (config : GitHubAppConfig) (repo : jsval) : outcome auth_error bool :=
  n ← prop "name" repo;
  name ← lower_of n;
  if negb (str_eqb name (to_lower (gc_repo config))) then Ok false
  else
    o ← prop "owner" repo;
    l ← prop "login" o;
    owner ← lower_of l;
    Ok (str_eqb owner (to_lower (gc_owner config))).

(** The body of the outer [try]. *)
Definition verify_with_github (githubId : Z) (userLogin token : str) (config : GitHubAppConfig) (now : Z)
    : AuthM authorization_status :=
  found ← user_repository config token;
  match found with
  | None => mret (denied DrUserAccess)
  | Some repo =>
      same ← lift (same_repository config repo);
      if negb same then mret (denied DrUserAccess)
      else
        appJwt ← createGitHubAppJwt (gc_appId config) (gc_privateKey config);
        installation ← getRepositoryInstallation (gc_owner config) (gc_repo config) appJwt;
        repositoryId ← lift (prop "id" repo);
        installationId ← lift (prop "id" installation);
        mret (StatusOk (Access (gc_owner config) (gc_repo config) userLogin githubId
                (read_num repositoryId) (read_num installationId) (NInt now)
                (Provider (gc_appId config) (gc_privateKey config)
                   (read_num installationId) (read_num repositoryId))))
  end.

Definition verifyRepositoryAuthorization (githubId : Z) (userLogin token : str) (config : GitHubAppConfig)
    (now : Z) : AuthM authorization_status :=
  let login := to_lower userLogin in
  if match gc_allowedLogins config with [] => false | l => negb (existsb (str_eqb login) l) end
  then mret (denied DrAllowlist)
  else try_catch (verify_with_github githubId userLogin token config now) (λ e,
         if is_configuration_error e then throw e
         else let reason := classify e in
              mret (StatusFailed reason (repositoryAccessDeniedMessages reason)
                      (Some (bool_decide (reason = DrTemporaryUnavailable))))).

(** ** Credential provider *)

Abbreviation credential_map := (list (capability * outcome auth_error RepositoryCredential)).
Fixpoint lookup_capability (c : capability) (l : credential_map) : option (outcome auth_error RepositoryCredential) :=
  match l with
  | [] => None
  | (c', o) :: l => if decide (c = c') then Some o else lookup_capability c l
  end.

(** The promise of one capability: a new App token, then the installation token. *)
Definition request_credential (p : provider) (c : capability) : AuthM RepositoryCredential :=
  capabilityJwt ← createGitHubAppJwt (pv_appId p) (pv_privateKey p);
  mintInstallationToken (default NNaN (pv_installationId p)) (default NNaN (pv_repositoryId p)) capabilityJwt c.

(** One call of [installationCredentialProvider]: the map after the call, and how
    the promise settles. *)
Definition provide (p : provider) (c : capability) (m : credential_map)
    : AuthM (credential_map * outcome auth_error RepositoryCredential) :=
  match lookup_capability c m with
  | Some o => mret (m, o)
  | None => o ← attempt (request_credential p c); mret ((c, o) :: m, o)
  end.

(** ** Records *)

Definition createRepositoryAuthorizationRecord (a : access_status) (now : num) : Authorization :=
  MkAuthorization Authorized None (ac_owner a) (ac_repo a) (ac_repositoryId a) (ac_installationId a)
    (ac_login a) (ac_githubId a) now.

Definition createDeniedAuthorizationRecord (githubId : Z) (login : str) (reason : denial_reason)
    (config : GitHubAppConfig) (now : Z) : Authorization :=
  MkAuthorization AuthDenied (Some reason) (gc_owner config) (gc_repo config) None None login githubId (NInt now).

Definition storedAuthorizationMatchesConfig (s : SessionRecord) (config : GitHubAppConfig) : bool :=
  let auth := se_authorization s in
  (au_githubId auth =? se_githubId s)%Z
  && str_eqb (to_lower (au_login auth)) (to_lower (se_login s))
  && str_eqb (to_lower (au_owner auth)) (to_lower (gc_owner config))
  && str_eqb (to_lower (au_repo auth)) (to_lower (gc_repo config)).

(** ** Runs *)

(** The REST address of the configured repository. *)
Definition encodes_repository (config : GitHubAppConfig) (url : str) : Prop :=
  ∃ o r, encodeURIComponent (gc_owner config) = Some o ∧ encodeURIComponent (gc_repo config) = Some r ∧
    url = githubApiBaseUrl ++ js "/repos/" ++ o ++ js "/" ++ r.

Definition with_world (s : auth_state W) (w : W) (l : list auth_event) : auth_state W :=
  AuthState w (as_db s) (as_cookies s) (as_trace s ++ l).

Lemma with_world_app s w l w' l' : with_world (with_world s w l) w' l' = with_world s w' (l ++ l').
Proof. unfold with_world. cbn. by rewrite app_assoc. Qed.

Lemma fetch_run r s s' x :
  fetch r s = (s', x) → ∃ w res, auth_fetch r (as_world s) = (w, res) ∧ s' = with_world s w [AvFetch r] ∧
    x = match res with Fetched r => Ok r | FetchRejected => Throw (OtherError (js "fetch failed")) end.
Proof. unfold fetch. destruct (auth_fetch _ _) as [w res]. intros [= <- <-]. by eexists _, _. Qed.

(** An answer used: the request went out, and GitHub answered it with success. *)
Definition answered (r : request) (w w' : W) (v : jsval) : Prop :=
  ∃ res, auth_fetch r w = (w', Fetched res) ∧ rs_ok res = true ∧ rs_json res = BodyJson v.

Lemma app_githubJson_ok r s s' v :
  app_githubJson r s = (s', Ok v) →
  ∃ w, answered r (as_world s) w v ∧ s' = with_world s w [AvFetch r].
Proof.
  unfold app_githubJson. intros [(s1 & res & H1 & H)|(e & _ & ?)]%bind_run; [|done].
  apply fetch_run in H1 as (w & fr & Hf & -> & Hres). destruct fr as [|res']; [done|]. injection Hres as ->.
  apply bind_run in H as [(s2 & u & [-> H2]%lift_run & H)|(e & _ & ?)]; [|done].
  symmetry in H2. apply guard_throw_ok in H2. unfold response_json in H. apply lift_run in H as [-> H].
  destruct (rs_json res') eqn:E; [|done..]. injection H as ->. exists w. split; [|done]. by exists res'.
Qed.

Lemma repository_url_ok owner repo (s s' : auth_state W) url :
  repository_url owner repo s = (s', Ok url) → s' = s ∧
  ∃ o r, encodeURIComponent owner = Some o ∧ encodeURIComponent repo = Some r ∧
    url = githubApiBaseUrl ++ js "/repos/" ++ o ++ js "/" ++ r.
Proof.
  unfold repository_url, encode_component.
  intros [(s1 & o & [-> Ho]%lift_run & H)|(e & _ & ?)]%bind_run; [|done].
  apply bind_run in H as [(s2 & r & [-> Hr]%lift_run & H)|(e & _ & ?)]; [|done].
  symmetry in Ho, Hr. apply from_option_throw_ok in Ho, Hr.
  apply ret_run in H as [-> H]. split; [done|]. exists o, r. split_and!; [done..|congruence].
Qed.

Lemma createGitHubAppJwt_ok appId pem s s' jwt :
  createGitHubAppJwt appId pem s = (s', Ok jwt) →
  ∃ w t, auth_now (as_world s) = (w, t) ∧ create_jwt appId pem (t / 1000) = Ok jwt ∧ s' = with_world s w [].
Proof.
  unfold createGitHubAppJwt. intros [(s1 & t & H1 & H)|(e & _ & ?)]%bind_run; [|done].
  unfold get_now in H1. destruct (auth_now (as_world s)) as [w t'] eqn:E.
  apply lift_run in H as [-> H]. exists w, t'.
  assert (s1 = with_world s w [] ∧ t = t') as [-> ->].
  { unfold with_world. rewrite app_nil_r. split; congruence. }
  done.
Qed.

Lemma verify_cases githubId login token config now s s' r :
  verifyRepositoryAuthorization githubId login token config now s = (s', r) →
  (s' = s ∧ r = Ok (denied DrAllowlist)) ∨
  ((gc_allowedLogins config = [] ∨ to_lower login ∈ gc_allowedLogins config) ∧
   ∃ r', verify_with_github githubId login token config now s = (s', r') ∧
     match r' with
     | Ok st => r = Ok st
     | Throw e => if is_configuration_error e then r = Throw e
                  else r = Ok (StatusFailed (classify e) (repositoryAccessDeniedMessages (classify e))
                                 (Some (bool_decide (classify e = DrTemporaryUnavailable))))
     end).
Proof.
  unfold verifyRepositoryAuthorization.
  destruct (match gc_allowedLogins config with [] => false | _ => _ end) eqn:E.
  { intros [= <- <-]. by left. }
  intros H. right. split.
  - destruct (gc_allowedLogins config) as [|a l]; [by left|right]. to_prop.
    apply existsb_exists in E as (x & Hx & ->%str_eqb_eq). by apply list_elem_of_In.
  - unfold try_catch in H. destruct (verify_with_github _ _ _ _ _ s) as [s1 [st|e]] eqn:Ev.
    + injection H as <- <-. by exists (Ok st).
    + destruct (is_configuration_error e) eqn:Ee; injection H as <- <-; exists (Throw e); rewrite ?Ee; done.
Qed.

Lemma user_repository_some config token s s' repo :
  user_repository config token s = (s', Ok (Some repo)) →
  ∃ url w, encodes_repository config url ∧
    answered (Request GET url (githubHeaders (Some token)) None) (as_world s) w repo ∧
    s' = with_world s w [AvFetch (Request GET url (githubHeaders (Some token)) None)].
Proof.
  unfold user_repository. intros [(a & E & [= <-])|(s1 & e & _ & H)]%try_run.
  2: { destruct (status_in _ _); by injection H. }
  apply bind_run in E as [(s2 & v & H1 & [-> [= ->]]%ret_run)|(e & _ & ?)]; [|done].
  unfold getConfiguredRepository in H1. apply bind_run in H1 as [(s3 & url & [-> Hu]%repository_url_ok & H1)|(e & _ & ?)]; [|done].
  apply app_githubJson_ok in H1 as (w & Ha & ->). exists url, w. done.
Qed.

Lemma verify_with_github_ok githubId login token config now s s' a :
  verify_with_github githubId login token config now s = (s', Ok (StatusOk a)) →
  ∃ url w1 w2 w3 t repo jwt installation,
    encodes_repository config url ∧
    answered (Request GET url (githubHeaders (Some token)) None) (as_world s) w1 repo ∧
    same_repository config repo = Ok true ∧
    auth_now w1 = (w2, t) ∧ create_jwt (gc_appId config) (gc_privateKey config) (t / 1000) = Ok jwt ∧
    answered (Request GET (url ++ js "/installation") (githubHeaders (Some jwt)) None) w2 w3 installation ∧
    s' = with_world s w3 [AvFetch (Request GET url (githubHeaders (Some token)) None);
                          AvFetch (Request GET (url ++ js "/installation") (githubHeaders (Some jwt)) None)] ∧
    ac_owner a = gc_owner config ∧ ac_repo a = gc_repo config ∧ ac_login a = login ∧
    ac_githubId a = githubId ∧ ac_checkedAt a = NInt now.
Proof.
  unfold verify_with_github. intros [(s1 & found & H1 & H)|(e & _ & ?)]%bind_run; [|done].
  destruct found as [repo|]; [|by apply ret_run in H as [_ ?]].
  apply user_repository_some in H1 as (url & w1 & Hurl & Ha & ->).
  apply bind_run in H as [(s2 & same & [-> Hs]%lift_run & H)|(e & _ & ?)]; [|done].
  destruct same; [|by apply ret_run in H as [_ ?]]. cbn [negb] in H.
  apply bind_run in H as [(s3 & jwt & (w2 & t & Ht & Hj & ->)%createGitHubAppJwt_ok & H)|(e & _ & ?)]; [|done].
  apply bind_run in H as [(s4 & installation & H4 & H)|(e & _ & ?)]; [|done].
  unfold getRepositoryInstallation in H4.
  apply bind_run in H4 as [(s5 & url' & [-> Hu']%repository_url_ok & H4)|(e & _ & ?)]; [|done].
  assert (url' = url) as ->.
  { destruct Hurl as (o & r & Ho & Hr & ->). destruct Hu' as (o' & r' & Ho' & Hr' & ->). congruence. }
  apply app_githubJson_ok in H4 as (w3 & Ha' & ->).
  apply bind_run in H as [(s6 & rid & [-> _]%lift_run & H)|(e & _ & ?)]; [|done].
  apply bind_run in H as [(s7 & iid & [-> _]%lift_run & H)|(e & _ & ?)]; [|done].
  apply ret_run in H as [-> [= ->]]. rewrite !with_world_app.
  exists url, w1, w2, w3, t, repo, jwt, installation. by split_and!.
Qed.

(** C8: access to the repository is granted only on GitHub's word, twice: the
    login is on the allowlist when there is one; GitHub answered the user's own
    token with the configured repository; then it answered a token signed with the
    App's key with the installation. Nothing else was requested, and neither the
    session database nor the cookies were touched. *)
Theorem authorization_sound (githubId : Z) (login token : str) (config : GitHubAppConfig) (now : Z)
    (s s' : auth_state W) (a : access_status) :
  verifyRepositoryAuthorization githubId login token config now s = (s', Ok (StatusOk a)) →
  (gc_allowedLogins config = [] ∨ to_lower login ∈ gc_allowedLogins config) ∧
  ac_owner a = gc_owner config ∧ ac_repo a = gc_repo config ∧ ac_login a = login ∧
  ac_githubId a = githubId ∧ ac_checkedAt a = NInt now ∧
  as_db s' = as_db s ∧ as_cookies s' = as_cookies s ∧
  ∃ url w1 w2 w3 t repo jwt installation,
    encodes_repository config url ∧
    answered (Request GET url (githubHeaders (Some token)) None) (as_world s) w1 repo ∧
    same_repository config repo = Ok true ∧
    auth_now w1 = (w2, t) ∧ create_jwt (gc_appId config) (gc_privateKey config) (t / 1000) = Ok jwt ∧
    answered (Request GET (url ++ js "/installation") (githubHeaders (Some jwt)) None) w2 w3 installation ∧
    as_trace s' = as_trace s ++
      [AvFetch (Request GET url (githubHeaders (Some token)) None);
       AvFetch (Request GET (url ++ js "/installation") (githubHeaders (Some jwt)) None)].
Proof.
  intros [[_ ?]|(Hal & r' & Hv & Hr)]%verify_cases; [done|].
  destruct r' as [st|e]; [|by destruct (is_configuration_error e)]. injection Hr as <-.
  apply verify_with_github_ok in Hv
    as (url & w1 & w2 & w3 & t & repo & jwt & inst & ? & ? & ? & ? & ? & ? & -> & ? & ? & ? & ? & ?).
  split_and!; [done..|]. exists url, w1, w2, w3, t, repo, jwt, inst. by split_and!.
Qed.

(** The verification always answers: whatever GitHub does, its failures become
    a denial with a reason (temporary exactly for rate limits, server errors and
    network failures), and the only error that escapes is a configuration error. *)
Theorem verification_answers (githubId : Z) (login token : str) (config : GitHubAppConfig) (now : Z)
    (s : auth_state W) :
  match (verifyRepositoryAuthorization githubId login token config now s).2 with
  | Ok (StatusOk a) => ac_login a = login
  | Ok (StatusFailed reason message temporary) =>
      message = repositoryAccessDeniedMessages reason ∧
      (temporary = None ↔ (reason = DrAllowlist ∨ reason = DrUserAccess)) ∧
      (reason = DrTemporaryUnavailable → temporary = Some true)
  | Throw e => is_configuration_error e = true
  end.
Proof.
  destruct (verifyRepositoryAuthorization _ _ _ _ _ s) as [s' r] eqn:E. cbn.
  apply verify_cases in E as [[_ ->]|(_ & r' & Hv & Hr)].
  { cbn. split_and!; [done| |done]. naive_solver. }
  destruct r' as [st|e].
  - subst r. destruct st as [a|reason message temporary].
    + by apply verify_with_github_ok in Hv as (? & ? & ? & ? & ? & ? & ? & ? & ? & ? & ? & ? & ? & ? & ? & ? & ? & ? & _).
    + enough (StatusFailed reason message temporary = denied DrUserAccess) as [= -> -> ->] by naive_solver.
      unfold verify_with_github in Hv. apply bind_run in Hv as [(s1 & found & _ & H)|(e & _ & ?)]; [|done].
      destruct found as [repo|]; [|apply ret_run in H as [_ ?]; congruence].
      apply bind_run in H as [(s2 & same & _ & H)|(e & _ & ?)]; [|done].
      destruct same; [|apply ret_run in H as [_ ?]; congruence]. cbn [negb] in H.
      do 4 (apply bind_run in H as [(? & ? & _ & H)|(e & _ & ?)]; [|done]). by apply ret_run in H as [_ ?].
  - destruct (is_configuration_error e) eqn:Ee; subst r; [done|].
    split_and!; [done| |]; [|intros ->; by rewrite bool_decide_eq_true_2].
    split; [done|]. unfold classify. intros H. repeat case_match; naive_solver.
Qed.

(** ** Credentials are requested once per capability *)

Fixpoint provide_all (p : provider) (l : list capability) (m : credential_map)
    : AuthM (credential_map * list (outcome auth_error RepositoryCredential)) :=
  match l with
  | [] => mret (m, [])
  | c :: l => '(m, o) ← provide p c m; '(m, os) ← provide_all p l m; mret (m, o :: os)
  end.

Definition posts (l : list auth_event) : list request :=
  omap (λ e, match e with AvFetch r => if decide (rq_method r = POST) then Some r else None | _ => None end) l.

Lemma posts_app l k : posts (l ++ k) = posts l ++ posts k.
Proof. apply omap_app. Qed.

(** A computation that sends at most [n] POST requests. *)
Definition posts_at_most (n : nat) (s s' : auth_state W) : Prop :=
  ∃ evs, as_trace s' = as_trace s ++ evs ∧ (length (posts evs) <= n)%nat.

Lemma posts_0 s s' : as_trace s' = as_trace s → posts_at_most 0 s s'.
Proof. intros E. unfold posts_at_most. rewrite E. exists []. by rewrite app_nil_r. Qed.
Lemma posts_trans n k s1 s2 s3 :
  posts_at_most n s1 s2 → posts_at_most k s2 s3 → posts_at_most (n + k) s1 s3.
Proof.
  intros (e1 & E1 & L1) (e2 & E2 & L2). exists (e1 ++ e2). rewrite E2, E1, app_assoc. split; [done|].
  rewrite posts_app, length_app. lia.
Qed.

Lemma posts_one r : (length (posts [AvFetch r]) <= 1)%nat.
Proof. unfold posts. cbn. by case_decide; cbn; lia. Qed.

Lemma mint_posts iid restriction jwt c s s' r :
  mintRestrictedInstallationToken iid restriction jwt c s = (s', r) → posts_at_most 1 s s'.
Proof.
  unfold mintRestrictedInstallationToken. intros H.
  assert (∃ s1, posts_at_most 1 s s1 ∧ as_trace s' = as_trace s1) as (s1 & (evs & E & L) & Et).
  { apply bind_run in H as [(s1 & res & H1 & H)|(e & H1 & _)].
    - exists s1. split.
      + apply try_run in H1 as [(a & (w & fr & _ & -> & _)%fetch_run & _)|(s2 & e & _ & [_ ?]%throw_run)]; [|done].
        eexists. split; [done|]. apply posts_one.
      + destruct (negb (rs_ok res)); [by apply throw_run in H as [-> _]|].
        apply bind_run in H as [(s2 & payload & H2 & H)|(e & H2 & _)].
        * assert (s2 = s1) as ->.
          { apply try_run in H2 as [(a & [-> _]%lift_run & _)|(s3 & e & _ & [_ ?]%throw_run)]; done. }
          destruct (app_credential payload); [by apply ret_run in H as [-> _]|by apply throw_run in H as [-> _]].
        * apply try_run in H2 as [(a & _ & ?)|(s3 & e' & [-> _]%lift_run & [-> _]%throw_run)]; done.
    - exists s'. split; [|done].
      apply try_run in H1 as [(a & _ & ?)|(s2 & e' & (w & fr & _ & -> & _)%fetch_run & [-> _]%throw_run)]; [done|].
      eexists. split; [done|]. apply posts_one. }
  exists evs. by rewrite Et.
Qed.

Lemma request_credential_posts p c s s' r : request_credential p c s = (s', r) → posts_at_most 1 s s'.
Proof.
  unfold request_credential. intros [(s1 & jwt & H1 & H)|(e & H1 & _)]%bind_run.
  - apply createGitHubAppJwt_ok in H1 as (w & t & _ & _ & ->). apply mint_posts in H.
    destruct H as (evs & E & L). exists evs. split; [|done]. rewrite E. cbn. by rewrite app_nil_r.
  - exists []. rewrite app_nil_r. split; [|cbn; lia]. unfold createGitHubAppJwt in H1.
    apply bind_run in H1 as [(s1 & t & H1 & [-> _]%lift_run)|(e' & H1 & _)];
      unfold get_now in H1; destruct (auth_now (as_world s)); by injection H1 as <- _.
Qed.

Lemma lookup_capability_keys c m : lookup_capability c m = None ↔ c ∉ map fst m.
Proof.
  induction m as [|[c' o] m IH]; cbn; [set_solver|]. case_decide; [set_solver|]. rewrite IH. set_solver.
Qed.

Lemma provide_run p c m s s' m' o :
  provide p c m s = (s', Ok (m', o)) →
  lookup_capability c m' = Some o ∧
  (∀ c' o', lookup_capability c' m = Some o' → lookup_capability c' m' = Some o') ∧
  (if decide (c ∈ map fst m) then m' = m ∧ posts_at_most 0 s s'
   else map fst m' = c :: map fst m ∧ posts_at_most 1 s s').
Proof.
  unfold provide. destruct (lookup_capability c m) as [o'|] eqn:E.
  - intros [-> [= -> ->]]%ret_run. split_and!; [done|done|]. case_decide as Hd; [by split; [|apply posts_0]|].
    apply lookup_capability_keys in Hd. congruence.
  - intros [(s1 & o' & H1 & [-> [= -> ->]]%ret_run)|(e & _ & ?)]%bind_run; [|done].
    apply attempt_run in H1 as (o2 & H1 & [= ->]).
    split_and!; [cbn; by rewrite decide_True| |].
    + intros c' o' Hc. cbn. rewrite decide_False; [done|]. congruence.
    + apply lookup_capability_keys in E. rewrite decide_False by done. split; [done|].
      by eapply request_credential_posts.
Qed.

(** A credential provider asks GitHub at most once for each capability, however
    often and in whatever order it is called, and every call of a capability
    gets the same answer, a failure included. *)
Theorem provider_memoizes (p : provider) (l : list capability) (s s' : auth_state W)
    (m : credential_map) (os : list (outcome auth_error RepositoryCredential)) :
  provide_all p l [] s = (s', Ok (m, os)) →
  map Some os = map (λ c, lookup_capability c m) l ∧ posts_at_most (length (dedup l)) s s'.
Proof.
  enough (∀ m0, provide_all p l m0 s = (s', Ok (m, os)) →
    (∀ c o, lookup_capability c m0 = Some o → lookup_capability c m = Some o) ∧
    map Some os = map (λ c, lookup_capability c m) l ∧
    posts_at_most (length (dedup_from (map fst m0) l)) s s') as H by (intros Hp; by destruct (H _ Hp) as (_ & ? & ?)).
  revert s os. induction l as [|c l IH]; intros s os m0 H; cbn in H.
  { apply ret_run in H as [-> [= -> ->]]. split_and!; [done|done|]. by apply posts_0. }
  apply bind_run in H as [(s1 & [m1 o] & H1 & H)|(e & _ & ?)]; [|done].
  apply bind_run in H as [(s2 & [m2 os'] & H2 & H)|(e & _ & ?)]; [|done].
  apply ret_run in H as [-> [= -> ->]].
  apply provide_run in H1 as (Hc & Hext & Hposts). apply IH in H2 as (Hm & Hos & Hp).
  split_and!; [by eauto|cbn; by rewrite Hos, (Hm _ _ Hc)|]. cbn [dedup_from].
  destruct (decide (c ∈ map fst m0)); destruct Hposts as [Hk Hpo].
  - rewrite Hk in Hp. exact (posts_trans _ _ _ _ _ Hpo Hp).
  - rewrite Hk in Hp. exact (posts_trans _ _ _ _ _ Hpo Hp).
Qed.
End Verify.

(** A JSON answer of the application. *)
Record api_response := ApiResponse { ar_status : Z; ar_headers : list (str * str); ar_body : jsval }.

Definition authorizationDeniedResponse (reason : denial_reason) : api_response :=
  ApiResponse (if decide (reason = DrTemporaryUnavailable) then 503 else 403)%Z noStoreHeaders
    (JObj [(js "error", JStr (js "Repository authorisation required")); (js "reason", JStr (reason_text reason));
           (js "message", JStr (repositoryAccessDeniedMessages reason))]).
