(* ===== verification/Auth.v ===== *)
(** * Sign-in, sessions and access gates

    Models [src/lib/auth.ts] over the session store, the GitHub App client and the
    repository authorisation. The state is [auth_state]: the session database, the
    cookies of the request (Next's [cookies()]), the outside world and the trace.
    Next's [redirect] is the thrown [NextRedirect]. *)

From S2P Require Import Prelude JsString Encoding JsDate Json JsonText JsNumber GithubClient D1 Url.
From S2P Require Import AuthConfig AuthCore SessionStore GithubApp RepoAuth.

(** ** Numbers *)

(** [Math.max(1, n)] *)
Definition num_max_1 (n : num) : num :=
  match n with NNaN => NNaN | _ => if num_le_Z n 1 then NInt 1 else n end.
(** [z + n] *)
Definition num_add_Z (z : Z) (n : num) : num :=
  match n with
  | NInt m => NInt (z + m)
  | NDec m e => NDec (z * 10 ^ Zpos e + m) e
  | n => n
  end.
(** [Math.min(z, n)] *)
Definition num_min_Z (z : Z) (n : num) : num :=
  match n with NNaN => NNaN | _ => if num_le_Z n z then n else NInt z end.
(** [Math.floor((n - z) / 1000)] *)
Definition num_floor_1000 (n : num) (z : Z) : num :=
  match n with
  | NInt m => NInt ((m - z) / 1000)
  | NDec m e => NInt ((m - z * 10 ^ Zpos e) / (1000 * 10 ^ Zpos e))
  | n => n
  end.
(** [!n] for an optional number *)
Definition falsy_num (n : option num) : bool :=
  match n with None | Some NNaN => true | Some (NInt z) => (z =? 0)%Z | _ => false end.

(** ** Requests and URLs *)

(** An incoming request: the parts of its URL the code reads. *)
Record http_request := HttpRequest {
  hr_scheme : str; hr_origin : str; hr_pathname : str; hr_search : str; hr_params : list (str * str);
}.

(** The application/x-www-form-urlencoded serialiser. *)
Definition is_form_unit (c : N) : bool := is_alnum c || bool_decide (c ∈ [42; 45; 46; 95]%N).
Definition form_point (c : N) : str :=
  if (c =? 32)%N then [43%N] else if is_form_unit c then [c] else flat_map percent (utf8_bytes c).
Definition form_encode (s : str) : str := flat_map form_point (scalars s).
Definition form_query (l : list (str * str)) : str :=
  join [38%N] (map (λ kv, form_encode kv.1 ++ 61%N :: form_encode kv.2) l).

(** [/sign-in] of the request's origin with a return path. *)
Definition sign_in_url (request : http_request) (returnTo : str) : str :=
  hr_origin request ++ js "/sign-in?" ++ form_query [(js "returnTo", returnTo)].

(** ** Cookies *)

Section Auth.
Context `{C : WebCrypto} `{U : UrlHost} {W : Type} `{A : !AuthEnv W}.
Abbreviation AuthM := (eff (auth_state W) auth_error).

(** [process.env], and whether the worker has its database binding. *)
Variables (env : process_env) (bound : bool).

Definition node_env : option str := assoc (js "NODE_ENV") env.

Definition cookie_get (name : str) : AuthM (option str) := λ s,
  (s, Ok (fst <$> assoc name (as_cookies s))).
Definition cookie_set (name value : str) (options : AuthCookie) : AuthM unit :=
  modify_world (λ s, AuthState (as_world s) (as_db s) (obj_set name (value, options) (as_cookies s)) (as_trace s)).
Definition cookie_delete (name : str) : AuthM unit :=
  modify_world (λ s, AuthState (as_world s) (as_db s)
    (List.filter (λ kv, negb (str_eqb kv.1 name)) (as_cookies s)) (as_trace s)).

(** ** Database *)

Definition on_db {B} (m : StoreM B) : AuthM B := λ s,
  let '(d, r) := m (as_db s) in (AuthState (as_world s) d (as_cookies s) (as_trace s), r).

Definition getSessionDatabase : AuthM unit :=
  lift (guard_throw bound (OtherError (js "Missing Cloudflare D1 binding: AUTH_SESSIONS_DB"))).

Record auth_config := AuthConfigValue {
  cv_clientId : str; cv_clientSecret : str; cv_sessionSecret : str; cv_tokenEncryptionKey : str;
}.
Definition getAuthConfig : outcome auth_error auth_config :=
  '(clientId, clientSecret) ← getOAuthExchangeConfig env;
  security ← getSessionSecurityConfig env;
  Ok (AuthConfigValue clientId clientSecret (ss_sessionSecret security) (ss_tokenEncryptionKey security)).

Definition storeSession (session : SessionRecord) : AuthM unit :=
  getSessionDatabase ;;
  config ← lift getAuthConfig;
  now ← get_now;
  on_db (insertSession (cv_sessionSecret config) session now) ;;
  mret ().

Definition loadSession (id : str) : AuthM (option SessionRecord) :=
  getSessionDatabase ;;
  config ← lift getAuthConfig;
  now ← get_now;
  on_db (findSession (cv_sessionSecret config) id now).

Definition revokeSession (id : str) : AuthM unit :=
  getSessionDatabase ;;
  config ← lift getAuthConfig;
  now ← get_now;
  on_db (revokeSessionId (cv_sessionSecret config) id now) ;;
  mret ().

Definition persistAuthorization (session : SessionRecord) : AuthM unit :=
  getSessionDatabase ;;
  config ← lift getAuthConfig;
  on_db (updateSessionAuthorization (cv_sessionSecret config) session).

(** ** User token *)

Definition importTokenEncryptionKey : outcome auth_error (list N) :=
  config ← getAuthConfig;
  validateTokenEncryptionKey (cv_tokenEncryptionKey config).

Definition encryptUserAccessToken (token : str) : AuthM (str * str) :=
  iv ← get_random 12;
  key ← lift importTokenEncryptionKey;
  let encrypted := aes_encrypt key iv (utf8_encode token) in
  mret (btoa encrypted, btoa iv).

(** [new TextDecoder().decode(bytes)] drops a byte order mark. *)
Definition text_decode (bytes : list N) : str :=
  match bytes with
  | 239%N :: 187%N :: 191%N :: r => utf8_decode r
  | _ => utf8_decode bytes
  end.

Definition decryptUserAccessToken (session : SessionRecord) : outcome auth_error str :=
  match nonempty_opt (se_encryptedUserAccessToken session), nonempty_opt (se_tokenIv session) with
  | Some encrypted, Some tokenIv =>
      data ← from_option_throw (OtherError (js "InvalidCharacterError")) (atob encrypted);
      iv ← from_option_throw (OtherError (js "InvalidCharacterError")) (atob tokenIv);
      key ← importTokenEncryptionKey;
      plain ← from_option_throw (OtherError (js "OperationError")) (aes_decrypt key iv data);
      Ok (text_decode plain)
  | _, _ => Throw (OtherError (js "missing_user_token"))
  end.

(** ** OAuth *)

(** The URL of [createOAuthStart] is GitHub's authorisation page with these parameters. *)
Definition createOAuthStart (returnTo : option str) : AuthM (list (str * str)) :=
  clientId ← lift (validateProductionAuthReadiness env);
  state ← randomToken 32;
  verifier ← randomToken 48;
  let challenge := createPkceChallenge verifier in
  let names := cookieNames node_env in
  let options := cookieOptions (NInt oauthStateTtlSeconds) node_env in
  cookie_set (cn_state names) state options ;;
  cookie_set (cn_returnTo names) (safeReturnTo returnTo) options ;;
  cookie_set (cn_pkce names) verifier options ;;
  mret [(js "client_id", clientId); (js "state", state); (js "code_challenge", challenge);
        (js "code_challenge_method", js "S256")].

Record OAuthState := MkOAuthState { os_valid : bool; os_returnTo : str; os_pkceVerifier : option str }.

Definition consumeOAuthState (state : option str) : AuthM OAuthState :=
  let names := cookieNames node_env in
  expected ← cookie_get (cn_state names);
  r ← cookie_get (cn_returnTo names);
  let returnTo := safeReturnTo r in
  cookie_delete (cn_state names) ;;
  pkceVerifier ← cookie_get (cn_pkce names);
  cookie_delete (cn_returnTo names) ;;
  cookie_delete (cn_pkce names) ;;
  mret (MkOAuthState (constantTimeEqual state expected && match pkceVerifier with Some v => nonempty v | None => false end)
          returnTo pkceVerifier).

Record exchange_result := ExchangeResult {
  er_user : GitHubUser; er_authorization : authorization_status; er_userAccessToken : str;
  er_userTokenExpiresAt : num;
}.

Definition token_request (clientId clientSecret code verifier : str) : request :=
  Request POST (js "https://github.com/login/oauth/access_token")
    [(js "accept", js "application/json"); (js "content-type", js "application/json")]
    (Some (JObj [(js "client_id", JStr clientId); (js "client_secret", JStr clientSecret);
                 (js "code", JStr code); (js "code_verifier", JStr verifier)])).

Definition user_request (token : str) : request :=
  Request GET (js "https://api.github.com/user")
    [(js "authorization", js "Bearer " ++ token); (js "accept", js "application/vnd.github+json");
     (js "user-agent", js "artifact-dev-toolkit")] None.

Definition exchangeGitHubCode (code pkceVerifier : str) : AuthM exchange_result :=
  auth ← lift getAuthConfig;
  config ← lift (getRepositoryAuthorizationConfig env);
  tokenResponse ← fetch (token_request (cv_clientId auth) (cv_clientSecret auth) code pkceVerifier);
  _ ← lift (guard_throw (rs_ok tokenResponse) (OAuthFlowError Token_exchange));
  tokenPayload ← response_json tokenResponse;
  accessToken ← lift (prop "access_token" tokenPayload);
  token ← lift (from_option_throw (OAuthFlowError Token_exchange) (nonempty_opt (read_str accessToken)));
  now ← get_now;
  expiresIn ← lift (prop "expires_in" tokenPayload);
  let userTokenExpiresAt :=
    num_add_Z now (num_mul_1000 (num_max_1 (default (NInt 28800) (read_num expiresIn)))) in
  userResponse ← fetch (user_request token);
  _ ← lift (guard_throw (rs_ok userResponse) (OAuthFlowError Identity_lookup));
  user ← try_catch
    (v ← response_json userResponse;
     lift (from_option_throw (OtherError (js "github_identity_failed")) (validateGitHubUser v)))
    (λ _, throw (OAuthFlowError Identity_lookup));
  checked ← get_now;
  repositoryAuthorization ← verifyRepositoryAuthorization (gu_id user) (gu_login user) token config checked;
  mret (ExchangeResult user repositoryAuthorization token userTokenExpiresAt).

(** ** Sessions *)

Definition session_authorization (user : GitHubUser) (status : authorization_status)
    (config : GitHubAppConfig) (now : Z) : Authorization :=
  match status with
  | StatusOk a => createRepositoryAuthorizationRecord a (ac_checkedAt a)
  | StatusFailed reason _ _ => createDeniedAuthorizationRecord (gu_id user) (gu_login user) reason config now
  end.

Definition createSession (user : GitHubUser) (status : authorization_status) (userAccessToken : option str)
    (userTokenExpiresAt : num) : AuthM SessionRecord :=
  config ← lift (getRepositoryAuthorizationConfig env);
  let retainUserToken := shouldRetainUserToken status in
  tokenFields ← match retainUserToken, nonempty_opt userAccessToken with
                | true, Some token => f ← encryptUserAccessToken token; mret (Some f)
                | _, _ => mret None
                end;
  t0 ← get_now;
  let expiresAt := num_min_Z (t0 + sessionTtlSeconds * 1000) userTokenExpiresAt in
  id ← randomToken 48;
  createdAt ← get_now;
  now ← match status with StatusOk _ => mret 0%Z | StatusFailed _ _ _ => get_now end;
  let session := MkSession id (gu_id user) (gu_login user) (gu_name user) (gu_avatar_url user)
    (Some (NInt createdAt)) expiresAt None (session_authorization user status config now)
    (fst <$> tokenFields) (if retainUserToken then Some userTokenExpiresAt else None)
    (snd <$> tokenFields) in
  storeSession session ;;
  t1 ← get_now;
  cookie_set (cn_session (cookieNames node_env)) (se_id session)
    (cookieOptions (num_floor_1000 expiresAt t1) node_env) ;;
  mret session.

Definition getSession : AuthM (option SessionRecord) :=
  id ← cookie_get (cn_session (cookieNames node_env));
  match nonempty_opt id with
  | None => mret None
  | Some id => loadSession id
  end.

(** Next's [redirect]: it throws. *)
Definition redirect {B} (location : str) : AuthM B := throw (NextRedirect location).
Definition redirect_sign_in {B} (returnTo : str) : AuthM B :=
  r ← encode_component returnTo;
  redirect (js "/sign-in?returnTo=" ++ r).

Definition requireAuth (returnTo : str) : AuthM SessionRecord :=
  session ← getSession;
  match session with
  | None => redirect_sign_in returnTo
  | Some session => mret session
  end.

Definition destroySession : AuthM unit :=
  id ← cookie_get (cn_session (cookieNames node_env));
  match nonempty_opt id with Some id => revokeSession id | None => mret () end ;;
  cookie_delete (cn_session (cookieNames node_env)).

(** ** Repository access *)

Record access_result := AccessResult {
  rr_session : SessionRecord;
  rr_access : option access_status;
  rr_failure : option (denial_reason * str);
  rr_reauthenticate : bool;
  rr_refreshed : bool;
}.

Definition with_authorization (s : SessionRecord) (a : Authorization) : SessionRecord :=
  MkSession (se_id s) (se_githubId s) (se_login s) (se_name s) (se_avatarUrl s) (se_createdAt s)
    (se_expiresAt s) (se_revokedAt s) a (se_encryptedUserAccessToken s) (se_userAccessTokenExpiresAt s)
    (se_tokenIv s).

Definition not_authorised : str := js "Repository access is not authorised.".
Definition unavailable_result (s : SessionRecord) (refreshed : bool) : access_result :=
  AccessResult s None
    (Some (DrTemporaryUnavailable, js "Repository authorisation is temporarily unavailable.")) false refreshed.

Definition safe_num (n : option num) : bool :=
  match n with Some n => is_safe_integer (JNum n) | None => false end.

Definition refresh_log (config : GitHubAppConfig) (s : SessionRecord) (status : authorization_status) : str :=
  stringify (JObj [(js "event", JStr (js "repository_authorization_refreshed"));
    (js "owner", JStr (gc_owner config)); (js "repository", JStr (gc_repo config));
    (js "authorizationState", JStr (state_text (au_state (se_authorization s)))); (js "refreshed", JBool true);
    (js "reason", match status with StatusOk _ => JUndefined | StatusFailed r _ _ => JStr (reason_text r) end)]).

(** Stored credentials that can no longer be used: the session ends. *)
Definition end_session (s : SessionRecord) : AuthM access_result :=
  revokeSession (se_id s) ;;
  mret (AccessResult s None None true false).

Definition usable_token (s : SessionRecord) (now : Z) : bool :=
  negb (is_none (nonempty_opt (se_encryptedUserAccessToken s)))
  && negb (is_none (nonempty_opt (se_tokenIv s)))
  && negb (falsy_num (se_userAccessTokenExpiresAt s))
  && match se_userAccessTokenExpiresAt s with Some e => negb (num_le_Z e now) | None => false end.

(** The branch of a stale authorisation: verify again with the user's own token. *)
Definition refresh_access (s : SessionRecord) (config : GitHubAppConfig) (now : Z) : AuthM access_result :=
  if negb (usable_token s now) then end_session s
  else match decryptUserAccessToken s with
       | Throw _ => end_session s
       | Ok token =>
           status ← verifyRepositoryAuthorization (se_githubId s) (se_login s) token config now;
           let session := with_authorization s
             match status with
             | StatusOk a => createRepositoryAuthorizationRecord a (NInt now)
             | StatusFailed reason _ _ =>
                 createDeniedAuthorizationRecord (se_githubId s) (se_login s) reason config now
             end in
           persisted ← attempt (persistAuthorization session);
           match persisted with
           | Throw _ => mret (unavailable_result session true)
           | Ok _ =>
               log_line (refresh_log config session status) ;;
               match status with
               | StatusOk a => mret (AccessResult session (Some a) None false true)
               | StatusFailed reason message _ =>
                   mret (AccessResult session None (Some (reason, message)) false true)
               end
           end
       end.

(** The access context of a fresh stored authorisation. *)
Definition stored_access (s : SessionRecord) (config : GitHubAppConfig) : access_status :=
  let auth := se_authorization s in
  Access (au_owner auth) (au_repo auth) (to_lower (se_login s)) (se_githubId s) (au_repositoryId auth)
    (au_installationId auth) (au_checkedAt auth)
    (Provider (gc_appId config) (gc_privateKey config) (au_installationId auth) (au_repositoryId auth)).

Definition resolveRepositoryAccess (s : SessionRecord) (now : Z) : AuthM access_result :=
  config ← lift (getRepositoryAuthorizationConfig env);
  let auth := se_authorization s in
  let stale := authorizationRequiresRevalidation auth now in
  if negb (storedAuthorizationMatchesConfig s config) then
    let session := with_authorization s
      (createDeniedAuthorizationRecord (se_githubId s) (se_login s) DrConfiguration config now) in
    persisted ← attempt (persistAuthorization session);
    match persisted with
    | Throw _ => mret (unavailable_result session false)
    | Ok _ => mret (AccessResult session None (Some (DrConfiguration, not_authorised)) false false)
    end
  else if negb stale && (negb (bool_decide (au_state auth = Authorized))
                         || negb (safe_num (au_repositoryId auth)) || negb (safe_num (au_installationId auth)))
  then mret (AccessResult s None (Some (default DrConfiguration (au_denialReason auth), not_authorised)) false false)
  else if stale then refresh_access s config now
  else mret (AccessResult s (Some (stored_access s config)) None false false).

(** ** Gates *)

Definition requireRepositoryAccess (returnTo : str) : AuthM (SessionRecord * access_status) :=
  session ← requireAuth returnTo;
  now ← get_now;
  result ← resolveRepositoryAccess session now;
  if rr_reauthenticate result then redirect_sign_in returnTo
  else match rr_access result with
       | None => redirect (js "/access-denied")
       | Some access => mret (rr_session result, access)
       end.

Definition requireRepositoryAuthorization (returnTo : str) : AuthM SessionRecord :=
  r ← requireRepositoryAccess returnTo; mret r.1.

(** The stored authorisation is valid for the configured repository. *)
Definition positive_id (n : option num) : bool :=
  match n with Some (NInt z) => is_safe_Z z && (0 <? z)%Z | _ => false end.
Definition diagnostics_valid (s : SessionRecord) : bool :=
  let auth := se_authorization s in
  bool_decide (au_state auth = Authorized)
  && positive_id (au_repositoryId auth) && positive_id (au_installationId auth)
  && (au_githubId auth =? se_githubId s)%Z
  && str_eqb (to_lower (au_login auth)) (to_lower (se_login s))
  && negb (bool_decide (storedRepositoryMatchesPublicConfiguration (au_owner auth) (au_repo auth)
                          (getPublicRepositoryConfiguration env) = Some false)).

Definition requireDiagnosticsAccess (returnTo : str) : AuthM SessionRecord :=
  session ← requireAuth returnTo;
  if negb (diagnostics_valid session) then redirect (js "/access-denied") else mret session.

Definition requireApiDiagnosticsAccess (request : http_request) : AuthM (SessionRecord + api_response) :=
  session ← getSession;
  match session with
  | None => mret (inr (ApiResponse 401 noStoreHeaders
      (JObj [(js "error", JStr (js "Authentication required")); (js "code", JStr (js "authentication_required"));
             (js "signInUrl", JStr (sign_in_url request (js "/diagnostics")))])))
  | Some session =>
      if negb (diagnostics_valid session)
      then mret (inr (ApiResponse 403 noStoreHeaders
             (JObj [(js "error", JStr (js "Repository authorisation required"));
                    (js "code", JStr (js "repository_authorization_denied"))])))
      else mret (inl session)
  end.

Definition authentication_required (request : http_request) : api_response :=
  ApiResponse 401 noStoreHeaders
    (JObj [(js "error", JStr (js "Authentication required"));
           (js "signInUrl", JStr (sign_in_url request (hr_pathname request ++ hr_search request)))]).

Definition requireApiRepositoryAccess (request : http_request)
    : AuthM ((access_status * SessionRecord) + api_response) :=
  session ← getSession;
  match session with
  | Some session =>
      now ← get_now;
      result ← resolveRepositoryAccess session now;
      match rr_access result with
      | Some access => mret (inl (access, rr_session result))
      | None =>
          if negb (rr_reauthenticate result)
          then mret (inr (authorizationDeniedResponse (default DrConfiguration (fst <$> rr_failure result))))
          else mret (inr (authentication_required request))
      end
  | None => mret (inr (authentication_required request))
  end.

Definition requireApiAuth (request : http_request) : AuthM (option api_response) :=
  result ← requireApiRepositoryAccess request;
  mret match result with inr response => Some response | inl _ => None end.
End Auth.
