(* ===== verification/AuthFacts.v ===== *)
(** * What the gates guarantee

    Theorems on [Auth]: who gets access to the repository, that sessions and user
    tokens come back as they were stored, that the OAuth state is single-use, and
    that the diagnostics gate only reads. *)

From S2P Require Import Prelude JsString Encoding JsDate Json JsonText JsNumber GithubClient D1 Url.
From S2P Require Import AuthConfig AuthCore SessionStore GithubApp RepoAuth Auth.

Section Facts.
Context `{C : WebCrypto} `{U : UrlHost} {W : Type} `{A : !AuthEnv W}.
Variables (env : process_env) (bound : bool).
Abbreviation AuthM := (eff (auth_state W) auth_error).
Implicit Types s : auth_state W.

Lemma on_db_run {B} (m : StoreM B) s s' r :
  on_db m s = (s', r) → ∃ d, m (as_db s) = (d, r) ∧ s' = AuthState (as_world s) d (as_cookies s) (as_trace s).
Proof. unfold on_db. destruct (m (as_db s)) as [d x]. intros [= <- <-]. by exists d. Qed.

Lemma get_now_run s s' r :
  get_now s = (s', r) → ∃ w t, auth_now (as_world s) = (w, t) ∧ s' = with_world s w [] ∧ r = Ok t.
Proof.
  unfold get_now, with_world. destruct (auth_now (as_world s)) as [w t]. intros [= <- <-].
  exists w, t. by rewrite app_nil_r.
Qed.

(** Take the next step of a run apart. *)
Ltac step H :=
  let s := fresh "s" in let x := fresh "x" in let H1 := fresh "Hx" in
  apply bind_run in H as [(s & x & H1 & H)|(? & _ & ?)]; [|done].
Ltac step_lift H :=
  let s := fresh "s" in let x := fresh "x" in let H1 := fresh "Hx" in
  apply bind_run in H as [(s & x & H1 & H)|(? & _ & ?)]; [|done];
  apply lift_run in H1 as [-> H1]; symmetry in H1.

(** ** Persisting an authorisation needs an active row *)

Lemma persist_ok se s s' u :
  persistAuthorization env bound se s = (s', Ok u) →
  ∃ config row, getAuthConfig env = Ok config ∧
    d1_table (as_db s) !! hashSessionId (se_id se) (cv_sessionSecret config) = Some row ∧
    is_active row = true ∧
    d1_table (as_db s') = <[hashSessionId (se_id se) (cv_sessionSecret config) := update_row se row]>
                            (d1_table (as_db s)).
Proof.
  unfold persistAuthorization. intros H. step_lift H. step_lift H.
  apply on_db_run in H as (d & H & ->). unfold updateSessionAuthorization in H. cbn [as_db].
  step H. apply lift_run in H as [-> Hc]. symmetry in Hc. apply guard_throw_ok, Z.eqb_eq in Hc as ->.
  apply d1_exec_ok in Hx1. unfold update_active in Hx1. rename x0 into config.
  exists config. destruct (d1_table (as_db s) !! _) as [row|] eqn:E; [|congruence]. exists row.
  destruct (is_active row) eqn:Ea; [|congruence]. split_and!; [done..|congruence].
Qed.

(** What a granted access rests on. *)
Definition grant_basis (se : SessionRecord) (config : GitHubAppConfig) (now : Z) (s s' : auth_state W)
    (r : access_result) (a : access_status) : Prop :=
  (** a fresh stored authorisation, used as it is *)
  (rr_refreshed r = false ∧ s' = s ∧ rr_session r = se ∧
   au_state (se_authorization se) = Authorized ∧
   num_le_Z (au_checkedAt (se_authorization se)) (now - authorizationFreshnessMs) = false ∧
   au_denialReason (se_authorization se) ≠ Some DrTemporaryUnavailable ∧
   safe_num (ac_repositoryId a) = true ∧ safe_num (ac_installationId a) = true ∧
   a = stored_access se config) ∨
  (** or a verification just made with the user's own unexpired token, stored in an active row *)
  (rr_refreshed r = true ∧ usable_token se now = true ∧
   ∃ token s1 auth row,
     decryptUserAccessToken env se = Ok token ∧
     verifyRepositoryAuthorization (se_githubId se) (se_login se) token config now s = (s1, Ok (StatusOk a)) ∧
     as_db s1 = as_db s ∧
     rr_session r = with_authorization se (createRepositoryAuthorizationRecord a (NInt now)) ∧
     getAuthConfig env = Ok auth ∧
     d1_table (as_db s) !! hashSessionId (se_id se) (cv_sessionSecret auth) = Some row ∧
     is_active row = true ∧
     d1_table (as_db s') !! hashSessionId (se_id se) (cv_sessionSecret auth)
     = Some (update_row (rr_session r) row)).

Lemma verify_keeps_db githubId login token config now s s' r :
  verifyRepositoryAuthorization githubId login token config now s = (s', Ok (StatusOk r)) → as_db s' = as_db s.
Proof.
  intros [[_ ?]|(_ & r' & Hv & Hr)]%verify_cases; [done|].
  destruct r' as [st|e]; [|by destruct (is_configuration_error e)]. injection Hr as <-.
  by apply verify_with_github_ok in Hv as (? & ? & ? & ? & ? & ? & ? & ? & ? & ? & ? & ? & ? & ? & -> & _).
Qed.

Lemma end_session_no_access se s s' r : end_session env bound se s = (s', Ok r) → rr_access r = None.
Proof. unfold end_session. intros H. step H. by apply ret_run in H as [_ [= ->]]. Qed.

Lemma refresh_grants se config now s s' r a :
  refresh_access env bound se config now s = (s', Ok r) → rr_access r = Some a →
  grant_basis se config now s s' r a.
Proof.
  unfold refresh_access. intros H Ha. destruct (usable_token se now) eqn:Eu; cbn [negb] in H.
  2: { apply end_session_no_access in H. congruence. }
  destruct (decryptUserAccessToken env se) as [token|e] eqn:Ed.
  2: { apply end_session_no_access in H. congruence. }
  step H. rename x into status. step H. apply attempt_run in Hx0 as (o & Hp & [= ->]).
  destruct o as [u|e]; [|by apply ret_run in H as [_ [= ->]]].
  step H. assert (as_db s2 = as_db s1) as Hdb by (by injection Hx0 as <- _).
  destruct status as [a'|reason message temporary]; [|by apply ret_run in H as [_ [= ->]]].
  apply ret_run in H as [-> [= ->]]. injection Ha as ->.
  pose proof (verify_keeps_db _ _ _ _ _ _ _ _ Hx) as Hdb1.
  apply persist_ok in Hp as (auth & row & Hauth & Hrow & Hact & Htab). right.
  split_and!; [done..|]. exists token, s0, auth, row. cbn in Hrow, Htab. rewrite Hdb1 in Hrow.
  split_and!; try done. rewrite Hdb, Htab. by rewrite lookup_insert_eq.
Qed.

Lemma resolve_grants se now s s' r a :
  resolveRepositoryAccess env bound se now s = (s', Ok r) → rr_access r = Some a →
  ∃ config, getRepositoryAuthorizationConfig env = Ok config ∧
    storedAuthorizationMatchesConfig se config = true ∧ grant_basis se config now s s' r a.
Proof.
  unfold resolveRepositoryAccess. intros H Ha. step_lift H. rename x into config. exists config. split; [done|].
  destruct (storedAuthorizationMatchesConfig se config) eqn:Em; cbn [negb] in H.
  2: { step H. destruct x; by apply ret_run in H as [_ [= ->]]. }
  split; [done|]. destruct (authorizationRequiresRevalidation _ _) eqn:Es; cbn [negb andb] in H.
  { by eapply refresh_grants. }
  unfold authorizationRequiresRevalidation in Es. to_prop.
  case_bool_decide as Hauth; cbn [negb orb] in H; [|by apply ret_run in H as [_ [= ->]]].
  destruct (safe_num (au_repositoryId _)) eqn:Er; cbn [negb orb] in H; [|by apply ret_run in H as [_ [= ->]]].
  destruct (safe_num (au_installationId _)) eqn:Ei; cbn [negb orb] in H; [|by apply ret_run in H as [_ [= ->]]].
  apply ret_run in H as [-> [= ->]]. injection Ha as <-. left. by split_and!.
Qed.

(** ** Loading the session of a request *)

Lemma loadSession_some id s s' se :
  loadSession env bound id s = (s', Ok (Some se)) →
  ∃ config row w t, getAuthConfig env = Ok config ∧ auth_now (as_world s) = (w, t) ∧
    d1_table (as_db s) !! hashSessionId id (cv_sessionSecret config) = Some row ∧
    is_active row = true ∧ num_le_Z (row_expires_at row) t = false ∧
    rowToSession id row t = Some se ∧ d1_table (as_db s') = d1_table (as_db s) ∧
    as_trace s' = as_trace s ∧ as_cookies s' = as_cookies s.
Proof.
  unfold loadSession. intros H. step_lift H. step_lift H. rename x0 into config.
  step H. apply get_now_run in Hx1 as (w & t & Hw & -> & [= ->]).
  apply on_db_run in H as (d & H & ->). cbn [as_db with_world] in H.
  assert (d1_table d = d1_table (as_db s)) as Hd.
  { unfold findSession in H. step H. apply ret_run in H as [-> _]. by apply d1_exec_ok in Hx1 as [= ->]. }
  assert ((findSession (cv_sessionSecret config) id t (as_db s)).2 = Ok (Some se)) as Hf by (by rewrite H).
  apply findSession_ok in Hf. symmetry in Hf. apply live_session_some in Hf as (row & ? & ? & ? & ?).
  exists config, row, w, t. split_and!; try done. cbn. by rewrite app_nil_r.
Qed.

Lemma getSession_some s s' se :
  getSession env bound s = (s', Ok (Some se)) →
  ∃ id options, assoc (cn_session (cookieNames (node_env env))) (as_cookies s) = Some (id, options) ∧
    loadSession env bound id s = (s', Ok (Some se)).
Proof.
  unfold getSession. intros H. step H. injection Hx as <- <-.
  destruct (assoc _ (as_cookies s)) as [[[|c id] options]|]; cbn in H;
    try (by apply ret_run in H as [_ ?]). by exists (c :: id), options.
Qed.


(** ** The diagnostics gate *)

Definition observes (s s' : auth_state W) : Prop :=
  d1_table (as_db s') = d1_table (as_db s) ∧ as_trace s' = as_trace s ∧ as_cookies s' = as_cookies s.
#[local] Instance observes_preorder : PreOrder observes.
Proof.
  split; [by intros s|]. unfold observes. intros a b c (? & ? & ?) (? & ? & ?). split_and!; congruence.
Qed.

Lemma findSession_table secret id now d : d1_table (findSession secret id now d).1 = d1_table d.
Proof.
  destruct (findSession secret id now d) as [d' r] eqn:E. unfold findSession in E.
  apply bind_run in E as [(d1 & row & H & [-> _]%ret_run)|(e & H & _)];
    cbn; by apply d1_exec_table in H as [[-> _]|[-> _]].
Qed.

Lemma getSession_observes : keeps observes (getSession env bound).
Proof.
  unfold getSession, loadSession. repeat keeps_step.
  - by intros s.
  - by intros s.
  - intros s. unfold get_now. destruct (auth_now (as_world s)). by split_and!.
  - intros s. pose proof (findSession_table (cv_sessionSecret a1) l a2 (as_db s)) as Hd. unfold on_db, observes.
    by destruct (findSession _ _ _ (as_db s)) as [d r].
Qed.

(** The diagnostics gates are observational: whatever they answer, they send no
    request, write no log, set no cookie and leave the session table as it was;
    and they let through only a session whose stored authorisation is valid. *)
Theorem diagnostics_gate_reads_only (returnTo : str) (request : http_request) (s : auth_state W) :
  observes s (requireDiagnosticsAccess env bound returnTo s).1 ∧
  observes s (requireApiDiagnosticsAccess env bound request s).1 ∧
  (∀ se, (requireDiagnosticsAccess env bound returnTo s).2 = Ok se → diagnostics_valid env se = true) ∧
  (∀ se, (requireApiDiagnosticsAccess env bound request s).2 = Ok (inl se) → diagnostics_valid env se = true).
Proof.
  assert (∀ B r, keeps observes (redirect_sign_in r : AuthM B)) as Hr.
  { intros. unfold redirect_sign_in, encode_component, redirect. by repeat keeps_step. }
  split_and!.
  - revert s. change (keeps observes (requireDiagnosticsAccess env bound returnTo)).
    unfold requireDiagnosticsAccess, requireAuth, redirect.
    repeat keeps_step; first [apply getSession_observes|apply Hr].
  - revert s. change (keeps observes (requireApiDiagnosticsAccess env bound request)).
    unfold requireApiDiagnosticsAccess. repeat keeps_step. apply getSession_observes.
  - intros se H. destruct (requireDiagnosticsAccess _ _ _ s) as [s' r] eqn:E. cbn in H. subst r.
    unfold requireDiagnosticsAccess in E. step E. destruct (diagnostics_valid env x) eqn:Ev; cbn in E; [|done].
    by apply ret_run in E as [_ [= ->]].
  - intros se H. destruct (requireApiDiagnosticsAccess _ _ _ s) as [s' r] eqn:E. cbn in H. subst r.
    unfold requireApiDiagnosticsAccess in E. step E. destruct x as [x|]; [|by apply ret_run in E as [_ ?]].
    destruct (diagnostics_valid env x) eqn:Ev; cbn in E; [|by apply ret_run in E as [_ ?]].
    by apply ret_run in E as [_ [= ->]].
Qed.

(** ** The OAuth state *)

Lemma assoc_filter {B} name (l : list (str * B)) : assoc name (List.filter (λ kv, negb (str_eqb kv.1 name)) l) = None.
Proof.
  induction l as [|[k v] l IH]; [done|]. cbn. destruct (str_eqb k name) eqn:E; cbn; [done|].
  destruct (str_eqb name k) eqn:E'; [|done]. apply str_eqb_eq in E' as ->. by rewrite str_eqb_refl in E.
Qed.
Lemma assoc_filter_ne {B} name other (l : list (str * B)) :
  name ≠ other → assoc name (List.filter (λ kv, negb (str_eqb kv.1 other)) l) = assoc name l.
Proof.
  intros Hn. induction l as [|[k v] l IH]; [done|]. cbn.
  destruct (str_eqb k other) eqn:E; cbn.
  - apply str_eqb_eq in E as ->. destruct (str_eqb name other) eqn:E'; [|done]. by apply str_eqb_eq in E'.
  - by rewrite IH.
Qed.

Definition cookie_value (name : str) (s : auth_state W) : option str := fst <$> assoc name (as_cookies s).

Lemma cookie_names_distinct ne :
  let n := cookieNames ne in
  cn_state n ≠ cn_returnTo n ∧ cn_state n ≠ cn_pkce n ∧ cn_returnTo n ≠ cn_pkce n.
Proof. unfold cookieNames. case_bool_decide; cbn; split_and!; by eval_decide. Qed.

Lemma consume_run state s :
  ∃ s', consumeOAuthState env state s
    = (s', Ok (MkOAuthState
        (constantTimeEqual state (cookie_value (cn_state (cookieNames (node_env env))) s)
         && match cookie_value (cn_pkce (cookieNames (node_env env))) s with Some v => nonempty v | None => false end)
        (safeReturnTo (cookie_value (cn_returnTo (cookieNames (node_env env))) s))
        (cookie_value (cn_pkce (cookieNames (node_env env))) s))) ∧
    cookie_value (cn_state (cookieNames (node_env env))) s' = None ∧
    as_db s' = as_db s ∧ as_trace s' = as_trace s.
Proof.
  destruct (cookie_names_distinct (node_env env)) as (H1 & H2 & H3).
  unfold consumeOAuthState, cookie_get, cookie_delete, modify_world, mbind, eff_bind, cookie_value. cbn.
  eexists. split.
  - unfold mret, eff_ret. rewrite (assoc_filter_ne (cn_pkce _)) by done. reflexivity.
  - cbn. split; [|done]. rewrite !assoc_filter_ne by done. by rewrite assoc_filter.
Qed.

(** The OAuth state is checked and single-use: a callback is valid only when
    its state equals the non-empty state cookie of the same browser and a PKCE
    verifier is there, and once a callback has been handled, valid or not, no
    later callback with any state is valid. *)
Theorem oauth_state_single_use (state state' : option str) (s : auth_state W) :
  ∃ s1 o1 s2 o2,
    consumeOAuthState env state s = (s1, Ok o1) ∧ consumeOAuthState env state' s1 = (s2, Ok o2) ∧
    (os_valid o1 = true ↔
       (∃ v, v ≠ [] ∧ state = Some v ∧ cookie_value (cn_state (cookieNames (node_env env))) s = Some v) ∧
       (∃ p, p ≠ [] ∧ os_pkceVerifier o1 = Some p ∧
             cookie_value (cn_pkce (cookieNames (node_env env))) s = Some p)) ∧
    os_valid o2 = false.
Proof.
  destruct (consume_run state s) as (s1 & E1 & Hgone & _).
  destruct (consume_run state' s1) as (s2 & E2 & _). eexists s1, _, s2, _.
  split_and!; [exact E1|exact E2| |].
  - cbn. rewrite andb_true_iff, constant_time_equal_iff. apply and_iff_compat_l.
    destruct (cookie_value (cn_pkce _) s) as [p|]; [|naive_solver].
    rewrite nonempty_true. naive_solver.
  - cbn. rewrite Hgone. by destruct state'.
Qed.

(** ** The user's token *)

Lemma utf8_ascii t : Forall (λ c, (c < 128)%N) t → utf8_encode t = t.
Proof.
  induction 1 as [|c t Hc Ht IH]; [done|]. cbn.
  assert (is_hi c = false ∧ is_lo c = false) as [-> ->] by (unfold_ranges; n_bool; lia).
  unfold utf8_bytes. rewrite (proj2 (N.ltb_lt c 128)) by done. cbn. by rewrite IH.
Qed.

Lemma btoa_nonempty l : l ≠ [] → nonempty_opt (Some (btoa l)) = Some (btoa l).
Proof. by destruct l as [|a [|b [|c l]]]. Qed.

(** The user's token survives its storage: what is encrypted into the session
    at sign-in is decrypted from it later, unchanged. *)
Theorem user_token_roundtrip `{CL : !WebCryptoLaws C} `{AL : !AuthEnvLaws W} (token : str)
    (s s' : auth_state W) (encrypted iv : str) (se : SessionRecord) :
  Forall (λ c, (c < 128)%N) token →
  encryptUserAccessToken env token s = (s', Ok (encrypted, iv)) →
  se_encryptedUserAccessToken se = Some encrypted → se_tokenIv se = Some iv →
  decryptUserAccessToken env se = Ok token.
Proof.
  intros Ht H Hs1 Hs2. unfold encryptUserAccessToken in H. step H. step_lift H. rename x0 into key.
  apply ret_run in H as [-> [= -> ->]].
  assert (Forall byte_ok x ∧ x ≠ []) as [Hb Hne].
  { unfold get_random in Hx. pose proof (random_bytes 12 (as_world s)) as Hr.
    pose proof (random_length 12 (as_world s)) as Hl. destruct (auth_random 12 (as_world s)) as [w b].
    injection Hx as _ <-. split; [done|]. by intros ->. }
  rewrite utf8_ascii in Hs1 by done.
  unfold decryptUserAccessToken. rewrite Hs1, Hs2, !btoa_nonempty by (done || apply aes_encrypt_tag).
  rewrite !atob_btoa by (done || apply aes_encrypt_bytes). cbn. rewrite Hx0. cbn.
  rewrite aes_roundtrip by (eapply Forall_impl; [exact Ht|]; unfold byte_ok; cbn; intros; lia). cbn.
  f_equal. transitivity (utf8_decode token).
  - unfold text_decode. destruct Ht as [|c t Hc Ht]; [done|].
    destruct (decide (c = 239%N)) as [->|]; [lia|]. by repeat case_match.
  - rewrite <- (utf8_ascii token) by done. rewrite utf8_roundtrip; [by rewrite utf8_ascii|]. by apply utf16_ok_ascii.
Qed.

(** ** Signing in *)

Lemma storeSession_ok se s s' u :
  storeSession env bound se s = (s', Ok u) →
  ∃ config now, getAuthConfig env = Ok config ∧
    d1_table (as_db s') !! hashSessionId (se_id se) (cv_sessionSecret config) = Some (insert_row se now) ∧
    as_cookies s' = as_cookies s.
Proof.
  unfold storeSession. intros H. step_lift H. step_lift H. rename x0 into config.
  step H. apply get_now_run in Hx1 as (w & now & Hw & -> & [= ->]).
  step H. apply ret_run in H as [-> _]. apply on_db_run in Hx1 as (d & Hd & ->).
  unfold insertSession in Hd. step Hd. apply ret_run in Hd as [-> _]. apply d1_exec_ok in Hx1.
  exists config, now. split_and!; [done| |done]. cbn [as_db]. unfold insert_statement in Hx1. cbn in Hx1.
  destruct (d1_table (as_db s) !! _); [congruence|]. destruct (bool_decide _); [congruence|].
  injection Hx1 as Hx1 _. cbn. rewrite <- Hx1. apply lookup_insert_eq.
Qed.

(** A status that speaks of the user who signs in. *)
Definition status_of_user (user : GitHubUser) (status : authorization_status) : Prop :=
  match status with
  | StatusOk a => ac_login a = gu_login user ∧ ac_githubId a = gu_id user
  | StatusFailed _ _ _ => True
  end.

Lemma createSession_ok user status token expires s s' se :
  createSession env bound user status token expires s = (s', Ok se) →
  se_revokedAt se = None ∧ se_createdAt se ≠ None ∧ se_login se = gu_login user ∧ se_githubId se = gu_id user ∧
  (∃ config now, se_authorization se = session_authorization user status config now) ∧
  ∃ config now options, getAuthConfig env = Ok config ∧
    d1_table (as_db s') !! hashSessionId (se_id se) (cv_sessionSecret config) = Some (insert_row se now) ∧
    assoc (cn_session (cookieNames (node_env env))) (as_cookies s') = Some (se_id se, options).
Proof.
  unfold createSession. intros H. step_lift H. step H. step H. step H. step H. step H. step H.
  apply storeSession_ok in Hx5 as (config & now & Hc & Hrow & _).
  step H. apply get_now_run in Hx5 as (w & t & _ & -> & [= ->]). step H. apply ret_run in H as [-> Hse].
  assert (se = _) as Hs by (injection Hse as Hse; exact Hse). clear Hse.
  injection Hx5 as <- _. rewrite Hs. split_and!; [done..| |].
  - eexists _, _. done.
  - exists config, now, (cookieOptions (num_floor_1000 (num_min_Z (x1 + sessionTtlSeconds * 1000) expires) t) (node_env env)).
    split_and!; [done|exact Hrow|]. cbn. by rewrite assoc_obj_set, str_eqb_refl.
Qed.

(** Signing in works: when a session has been created, the next request of the
    same browser is answered that very session, with its identity, authorisation
    and token fields, until the session expires. *)
Theorem sign_in_then_session (user : GitHubUser) (status : authorization_status) (token : option str)
    (expires : num) (s s' : auth_state W) (se : SessionRecord) (w : W) (t : Z) :
  createSession env bound user status token expires s = (s', Ok se) →
  status_of_user user status → session_ok se = true → bound = true →
  d1_faults (as_db s') = [] → auth_now (as_world s') = (w, t) →
  (getSession env bound s').2 = Ok (if num_le_Z (se_expiresAt se) t then None else Some se).
Proof.
  intros Hcreate Huser Hok Hbound Hfaults Hnow.
  apply createSession_ok in Hcreate
    as (Hrev & Hcr & Hlog & Hgid & (config' & now' & Hauth) & config & now & options & Hc & Hrow & Hcookie).
  assert (row_session (se_id se) (insert_row se now) = se) as Hse.
  { assert (au_login (se_authorization se) = se_login se ∧ au_githubId (se_authorization se) = se_githubId se) as [Hl Hg].
    { rewrite Hauth, Hlog, Hgid. destruct status as [a|]; cbn in *; [done|done]. }
    clear Hauth. destruct se as [id gi lo na av [cr|] ex rv [] et ue iv]; [|done]. cbn in *. by subst. }
  assert (se_id se ≠ []) as Hid.
  { unfold session_ok in Hok. cbn [forallb] in Hok. to_prop. by apply nonempty_true. }
  unfold getSession, cookie_get, mbind, eff_bind. rewrite Hcookie. cbn [fmap option_fmap option_map fst].
  destruct (se_id se) as [|c id] eqn:Eid; [done|]. cbn [nonempty_opt].
  unfold loadSession, getSessionDatabase, mbind, eff_bind, lift. rewrite Hbound, Hc. cbn [guard_throw].
  unfold get_now. rewrite Hnow. unfold on_db. cbn [as_db].
  destruct (as_db s') as [table faults]. cbn in Hfaults, Hrow. subst faults.
  rewrite findSession_no_fault, Hrow. cbn [snd]. f_equal.
  unfold live_session, rowToSession. rewrite Hse, session_json_roundtrip by done.
  cbn. by destruct (num_le_Z (se_expiresAt se) t).
Qed.
End Facts.

(** ** Examples *)

Module AuthExamples.
Import StoreExamples.

(** Hosts are taken as they are written. *)
#[export] Instance toy_host : UrlHost := {|
  authority_origin scheme authority :=
    match authority with [] => None | _ => Some (scheme ++ js "://" ++ authority) end;
|}.

(** A world that answers requests from a script and whose clock ticks. *)
Record script := Script { sc_answers : list fetch_result; sc_clock : Z }.
#[export] Instance script_env : AuthEnv script := {|
  auth_fetch r w := match sc_answers w with
                    | a :: l => (Script l (sc_clock w), a)
                    | [] => (w, FetchRejected)
                    end;
  auth_now w := (Script (sc_answers w) (sc_clock w + 1), sc_clock w);
  auth_random n w := (w, replicate n 5%N);
|}.
#[export] Instance script_laws : AuthEnvLaws script.
Proof. split; intros; cbn; [by apply Forall_replicate|apply length_replicate]. Qed.

Definition environment : process_env :=
  [(js "ARTIFACT_REPOSITORY", js "github"); (js "GITHUB_APP_ID", js "12"); (js "GITHUB_APP_CLIENT_ID", js "client");
   (js "GITHUB_APP_CLIENT_SECRET", js "hush"); (js "GITHUB_APP_PRIVATE_KEY", pem_text "PRIVATE KEY");
   (js "GITHUB_TOKEN_ENCRYPTION_KEY", btoa (replicate 32 7%N));
   (js "GITHUB_ARTIFACT_REPOSITORY_OWNER", js "Acme"); (js "GITHUB_ARTIFACT_REPOSITORY_NAME", js "lib");
   (js "GITHUB_ARTIFACT_ALLOWED_LOGINS", js "ada, Bob"); (js "SESSION_SECRET", js "0123456789abcdef0123456789abcdef")].
Definition config : GitHubAppConfig :=
  match getRepositoryAuthorizationConfig environment with
  | Ok c => c | Throw _ => MkAppConfig [] [] [] [] [] [] [] [] []
  end.

Definition ok (v : jsval) : fetch_result := Fetched (Response 200 None (BodyJson v)).
Definition repository_answer : jsval :=
  JObj [(js "id", int 7); (js "name", JStr (js "lib")); (js "owner", JObj [(js "login", JStr (js "acme"))])].
Definition answers : list fetch_result := [ok repository_answer; ok (JObj [(js "id", int 8)])].

Definition start : auth_state script := AuthState (Script answers 1000000) (D1 ∅ []) [] [].
Definition user : GitHubUser := MkGitHubUser 42 (js "Ada") None None.
Definition verified := verifyRepositoryAuthorization 42 (js "Ada") (js "gho_x") config 999999 start.
Definition granted : access_status :=
  match verified.2 with
  | Ok (StatusOk a) => a
  | _ => Access [] [] [] 0 None None (NInt 0) (Provider [] [] None None)
  end.

Lemma authorization_sound_witness : ac_owner granted = js "Acme" ∧ as_db verified.1 = as_db start.
Proof.
  destruct (authorization_sound 42 (js "Ada") (js "gho_x") config 999999 start verified.1 granted)
    as (_ & H & _ & _ & _ & _ & H' & _); [vm_compute; reflexivity|]. by rewrite H.
Defined.

Definition two_reads := provide_all (ac_provider granted) [CapRead; CapRead] [] start.
Lemma provider_memoizes_witness : posts_at_most 1 start two_reads.1.
Proof.
  destruct (provider_memoizes (ac_provider granted) [CapRead; CapRead] start two_reads.1
              (match two_reads.2 with Ok (m, _) => m | Throw _ => [] end)
              (match two_reads.2 with Ok (_, os) => os | Throw _ => [] end)) as [_ H]; [vm_compute; reflexivity|].
  exact H.
Defined.

Definition signed_in := createSession environment true user (StatusOk granted) (Some (js "gho_x")) (NInt 9000000) start.
Definition the_session : SessionRecord :=
  match signed_in.2 with Ok se => se | Throw _ => session end.

Lemma sign_in_then_session_witness :
  (getSession environment true signed_in.1).2 = Ok (Some the_session).
Proof.
  refine (sign_in_then_session environment true user (StatusOk granted) (Some (js "gho_x")) (NInt 9000000) start
    signed_in.1 the_session (auth_now (as_world signed_in.1)).1 (auth_now (as_world signed_in.1)).2 _ _ _ _ _ _);
    vm_compute; split || reflexivity; reflexivity.
Defined.

Definition encrypted := encryptUserAccessToken environment (js "gho_x") start.
Lemma user_token_roundtrip_witness : decryptUserAccessToken environment the_session = Ok (js "gho_x").
Proof.
  refine (user_token_roundtrip environment (js "gho_x") start encrypted.1
    (match encrypted.2 with Ok (e, _) => e | Throw _ => [] end)
    (match encrypted.2 with Ok (_, iv) => iv | Throw _ => [] end) the_session _ _ _ _);
    [by repeat constructor|vm_compute; reflexivity..].
Defined.

(** A request with the cookie of the session: fresh, then stale. *)
Definition page : http_request := HttpRequest (js "https") (js "https://app") (js "/library") [] [].
Definition gate := requireApiRepositoryAccess environment true page signed_in.1.
Definition stale_state : auth_state script :=
  AuthState (Script answers 1600000) (as_db signed_in.1) (as_cookies signed_in.1) [].
Definition stale_gate := requireApiRepositoryAccess environment true page stale_state.
Definition gate_session (r : outcome auth_error ((access_status * SessionRecord) + api_response)) :=
  match r with Ok (inl p) => p | _ => (granted, session) end.


Lemma safe_return_printable_witness :
  ∃ rest, safeReturnTo (Some (js "/a%20b?x=%22")) = 47%N :: rest ∧ plain (safeReturnTo (Some (js "/a%20b?x=%22"))).
Proof. apply safe_return_printable. intros v [= <-]. by apply units_ok_dec. Defined.

Lemma safe_return_same_origin_witness :
  ∃ u, resolve_reference (js "https") (js "https://app") (safeReturnTo (Some (js "/library%2Fx?y=1"))) = Some u ∧
    url_origin u = js "https://app".
Proof.
  refine (safe_return_same_origin (js "/library%2Fx?y=1") (js "/library/x?y=1") (js "https") (js "https://app") _ _ _ _);
    [by apply units_ok_dec|vm_compute; reflexivity|by repeat constructor|].
  intros w Hw. vm_compute in Hw. repeat destruct Hw as [<-|Hw]; done.
Defined.
End AuthExamples.
