(* ===== verification/OAuthRoutes.v ===== *)
(** * OAuth routes

    Models [src/lib/oauth-route-handlers.ts]: the two GET handlers of the sign-in
    flow, with the functions of [Auth] as their dependencies (as
    [src/app/auth/github] wires them). A handler answers a redirect; the error
    categories go to the log.

    The theorems: a callback signs in only behind a valid state, every failure of
    a callback is answered by a redirect to the sign-in page, and the flow as a
    whole can be made to leave the site (a finding on [safeReturnTo]). *)

From S2P Require Import Prelude JsString Encoding JsDate Json JsonText JsNumber GithubClient D1 Url.
From S2P Require Import AuthConfig AuthCore SessionStore GithubApp RepoAuth Auth AuthFacts.

(** A 307 response: its [location] and the no-store headers. *)
Record redirect_response := RedirectResponse { rd_status : Z; rd_headers : list (str * str); rd_location : str }.

Section Routes.
Context `{C : WebCrypto} `{U : UrlHost} {W : Type} `{A : !AuthEnv W}.
Variables (env : process_env) (bound : bool).
Abbreviation AuthM := (eff (auth_state W) auth_error).

Definition search_param (request : http_request) (name : string) : option str := assoc (js name) (hr_params request).

(** [url.toString()] with the parameters set: they replace the query. *)
Definition url_text (u : url) (parameters : list (str * str)) : str :=
  url_origin u ++ url_pathname u
  ++ match parameters with [] => url_search u | _ => 63%N :: form_query parameters end ++ url_hash u.

Definition redirect_to (request : http_request) (pathname : str) (parameters : list (str * str))
    : AuthM redirect_response :=
  target ← lift (from_option_throw type_error (resolve_reference (hr_scheme request) (hr_origin request) pathname));
  mret (RedirectResponse 307 noStoreHeaders (url_text target parameters)).

Definition configuration_code_text (c : configuration_code) : str :=
  match c with
  | Missing_configuration => js "missing_configuration" | Invalid_session_secret => js "invalid_session_secret"
  | Invalid_encryption_key_format => js "invalid_encryption_key_format"
  | Invalid_encryption_key_length => js "invalid_encryption_key_length"
  | Invalid_repository_backend => js "invalid_repository_backend" | Invalid_private_key => js "invalid_private_key"
  end.

(** [log(logger, event, category, error?)]: only the code and the missing names of a
    configuration error are written. *)
Definition log_event (event category : string) (error : option auth_error) : AuthM unit :=
  let details :=
    match error with
    | Some (AuthenticationConfigurationError code missing) =>
        [(js "configurationCode", JStr (configuration_code_text code))]
        ++ match missing with Some names => [(js "missingNames", JArr (map JStr names))] | None => [] end
    | _ => []
    end in
  log_line (stringify (JObj ([(js "event", JStr (js event)); (js "category", JStr (js category))] ++ details))).

Definition authorize_url (parameters : list (str * str)) : str :=
  js "https://github.com/login/oauth/authorize?" ++ form_query parameters.

(** [createOAuthStartRouteHandler({ createOAuthStart })] *)
Definition start_handler (request : http_request) : AuthM redirect_response :=
  let returnTo := safeReturnTo (search_param request "returnTo") in
  try_catch
    (parameters ← createOAuthStart env (Some returnTo);
     mret (RedirectResponse 307 noStoreHeaders (authorize_url parameters)))
    (λ error,
       let configuration := is_configuration_error error in
       log_event "github_oauth_start_failed" (if configuration then "configuration" else "unexpected")
         (if configuration then Some error else None) ;;
       redirect_to request (js "/sign-in")
         ((js "error", oauth_error_text (if configuration then Configuration_error else Oauth_start_failed))
          :: if str_eqb returnTo (js "/") then [] else [(js "returnTo", returnTo)])).

Definition error_redirect (request : http_request) (code : OAuthErrorCode) : AuthM redirect_response :=
  redirect_to request (js "/sign-in") [(js "error", oauth_error_text code)].

(** A logged failure of the callback and its answer. *)
Definition callback_failure (request : http_request) (category : string) (error : option auth_error)
    (code : OAuthErrorCode) : AuthM redirect_response :=
  log_event "github_oauth_callback_failed" category error ;;
  error_redirect request code.

(** The [catch] of the exchange. *)
Definition exchange_failure (request : http_request) (error : auth_error) : AuthM redirect_response :=
  match error with
  | AuthenticationConfigurationError _ _ =>
      callback_failure request "repository_configuration" (Some error) Configuration_error
  | OAuthFlowError Identity_lookup => callback_failure request "identity_lookup" None Github_identity_failed
  | OAuthFlowError Token_exchange => callback_failure request "token_exchange" None Github_exchange_failed
  | _ => callback_failure request "unexpected" None Github_exchange_failed
  end.

(** The exchange, the session and the final redirect. *)
Definition complete_sign_in (request : http_request) (state : OAuthState) (code : str) : AuthM redirect_response :=
  try_catch
    (result ← exchangeGitHubCode env code (default [] (os_pkceVerifier state));
     created ← attempt (createSession env bound (er_user result) (er_authorization result)
                          (Some (er_userAccessToken result)) (er_userTokenExpiresAt result));
     match created with
     | Throw error =>
         if is_configuration_error error
         then callback_failure request "session_configuration" (Some error) Configuration_error
         else callback_failure request "session_persistence" None Session_creation_failed
     | Ok _ =>
         redirect_to request
           match er_authorization result with
           | StatusOk _ => os_returnTo state
           | StatusFailed _ _ _ => js "/access-denied"
           end []
     end)
    (exchange_failure request).

(** [createOAuthCallbackRouteHandler({ consumeOAuthState, exchangeGitHubCode, createSession })] *)
Definition callback_handler (request : http_request) : AuthM redirect_response :=
  consumed ← attempt (consumeOAuthState env (search_param request "state"));
  match consumed with
  | Throw error =>
      if is_configuration_error error
      then callback_failure request "configuration" (Some error) Configuration_error
      else callback_failure request "unexpected" None Github_exchange_failed
  | Ok state =>
      if negb (os_valid state) then callback_failure request "invalid_state" None Invalid_state
      else match search_param request "error" with
           | Some _ => callback_failure request "authorization_denied" None Denied
           | None =>
               match nonempty_opt (search_param request "code") with
               | None => callback_failure request "missing_code" None Missing_code
               | Some code => complete_sign_in request state code
               end
           end
  end.

(** ** Theorems *)

(** A computation that leaves the session table alone. *)
Definition same_table (s s' : auth_state W) : Prop := as_db s' = as_db s.
#[local] Instance same_table_preorder : PreOrder same_table.
Proof. split; [by intros s|]. unfold same_table. intros a b c. congruence. Qed.

Lemma failure_same_table request category error code : keeps same_table (callback_failure request category error code).
Proof.
  unfold callback_failure, log_event, error_redirect, redirect_to, log_line. repeat keeps_step. by intros s.
Qed.

(** A redirect to the sign-in page never fails: the path is a constant. *)
Lemma error_redirect_ok request code s :
  error_redirect request code s
  = (s, Ok (RedirectResponse 307 noStoreHeaders
              (hr_origin request ++ js "/sign-in?" ++ form_query [(js "error", oauth_error_text code)]))).
Proof.
  unfold error_redirect, redirect_to.
  assert (resolve_reference (hr_scheme request) (hr_origin request) (js "/sign-in")
          = Some (Url (hr_origin request) (js "/sign-in") [] [])) as -> by (vm_compute; reflexivity).
  unfold mbind, eff_bind, lift, mret, eff_ret, url_text. cbn [from_option_throw]. rewrite app_nil_r. done.
Qed.

Lemma callback_failure_ok request category error code s :
  ∃ s', callback_failure request category error code s
  = (s', Ok (RedirectResponse 307 noStoreHeaders
              (hr_origin request ++ js "/sign-in?" ++ form_query [(js "error", oauth_error_text code)]))) ∧
    as_db s' = as_db s.
Proof.
  unfold callback_failure, log_event, log_line, modify_world, mbind, eff_bind.
  rewrite error_redirect_ok. by eexists.
Qed.

(** C25: no forged callback signs in: a callback that changes the session database
    carried the non-empty state of this browser's state cookie, came with its PKCE
    verifier and a code, and was not an error answer of GitHub. *)
Theorem callback_needs_state (request : http_request) (s : auth_state W) :
  as_db (callback_handler request s).1 ≠ as_db s →
  (∃ v, v ≠ [] ∧ search_param request "state" = Some v ∧
        cookie_value (cn_state (cookieNames (node_env env))) s = Some v) ∧
  (∃ p, p ≠ [] ∧ cookie_value (cn_pkce (cookieNames (node_env env))) s = Some p) ∧
  (∃ code, code ≠ [] ∧ search_param request "code" = Some code) ∧
  search_param request "error" = None.
Proof.
  destruct (consume_run env (search_param request "state") s) as (s1 & E1 & _ & Hdb & _).
  unfold callback_handler, mbind, eff_bind, attempt. rewrite E1. cbn [os_valid].
  assert (∀ category error code, as_db (callback_failure request category error code s1).1 = as_db s) as Hf.
  { intros. rewrite <- Hdb. apply failure_same_table. }
  destruct (constantTimeEqual _ _ && _) eqn:Ev; cbn [negb]; [|by rewrite Hf].
  destruct (search_param request "error"); [by rewrite Hf|].
  destruct (search_param request "code") as [[|c code]|]; cbn [nonempty_opt]; [by rewrite Hf| |by rewrite Hf].
  intros _. apply andb_true_iff in Ev as [H1%constant_time_equal_iff H2].
  destruct (cookie_value (cn_pkce _) s) as [p|]; [|done]. apply nonempty_true in H2.
  split_and!; [naive_solver|by exists p|by exists (c :: code)|done].
Qed.

(** The answer to a failed callback. *)
Definition is_error_redirect (request : http_request) (r : redirect_response) : Prop :=
  ∃ code, r = RedirectResponse 307 noStoreHeaders
                (hr_origin request ++ js "/sign-in?" ++ form_query [(js "error", oauth_error_text code)]).

Lemma exchange_failure_redirects request error s :
  ∃ s' r, exchange_failure request error s = (s', Ok r) ∧ is_error_redirect request r.
Proof.
  unfold exchange_failure, is_error_redirect.
  destruct error as [c m|? ? ?|?|[]| |?|?];
    match goal with |- context [callback_failure request ?a ?b ?c s] =>
      destruct (callback_failure_ok request a b c s) as (s' & E & _); rewrite E end; eauto.
Qed.

(** The answer of a callback whose state cookie holds the return path [returnTo]. *)
Definition is_callback_answer (request : http_request) (returnTo : str) (r : redirect_response) : Prop :=
  rd_status r = 307%Z ∧ rd_headers r = noStoreHeaders ∧
  (is_error_redirect request r ∨
   ∃ path u result session s0 s1,
     (path = js "/access-denied" ∨ path = returnTo) ∧
     createSession env bound (er_user result) (er_authorization result) (Some (er_userAccessToken result))
       (er_userTokenExpiresAt result) s0 = (s1, Ok session) ∧
     resolve_reference (hr_scheme request) (hr_origin request) path = Some u ∧ rd_location r = url_text u []).

Lemma error_is_answer request returnTo r : is_error_redirect request r → is_callback_answer request returnTo r.
Proof. intros Hr. pose proof Hr as [code ->]. split_and!; [done|done|by left]. Qed.

Lemma failure_is_answer request returnTo category error code s :
  ∃ s' r, callback_failure request category error code s = (s', Ok r) ∧ is_callback_answer request returnTo r.
Proof.
  destruct (callback_failure_ok request category error code s) as (s' & E & _). rewrite E.
  eexists _, _. split; [done|]. apply error_is_answer. by exists code.
Qed.

Lemma complete_sign_in_answers request state code s :
  ∃ s' r, complete_sign_in request state code s = (s', Ok r) ∧ is_callback_answer request (os_returnTo state) r.
Proof.
  destruct (complete_sign_in request state code s) as [s' x] eqn:E. unfold complete_sign_in in E.
  apply try_run in E as [(r & E & ->)|(s1 & e & _ & E)].
  2: { destruct (exchange_failure_redirects request e s1) as (s2 & r & E2 & Hr). rewrite E2 in E.
       injection E as -> <-. exists s', r. split; [done|]. by apply error_is_answer. }
  exists s', r. split; [done|].
  apply bind_run in E as [(s1 & result & _ & E)|(e & _ & ?)]; [|done].
  apply bind_run in E as [(s2 & created & H & E)|(e & _ & ?)]; [|done].
  apply attempt_run in H as (o & H & [= ->]). destruct o as [session|error].
  - unfold redirect_to in E. apply bind_run in E as [(s3 & u & [-> Hu]%lift_run & E)|(e & _ & ?)]; [|done].
    symmetry in Hu. apply from_option_throw_ok in Hu. apply ret_run in E as [-> [= ->]].
    split_and!; [done|done|right]. eexists _, u, result, session, s1, _. split_and!; [|done|exact Hu|done].
    destruct (er_authorization result); auto.
  - destruct (is_configuration_error error);
      match type of E with callback_failure _ ?a ?b ?c _ = _ =>
        destruct (failure_is_answer request (os_returnTo state) a b c s2) as (s3 & r' & E' & Hr) end;
      rewrite E' in E; by injection E as _ <-.
Qed.

(** A callback always answers: whatever the request carries and whatever GitHub
    and the database do, the handler answers an uncached redirect, to the sign-in page
    with an error code, or, once a session has been created, to the return path of
    the state cookie or to the access denied page. *)
Theorem callback_answers (request : http_request) (s : auth_state W) :
  ∃ s' r, callback_handler request s = (s', Ok r) ∧
    is_callback_answer request (safeReturnTo (cookie_value (cn_returnTo (cookieNames (node_env env))) s)) r.
Proof.
  destruct (consume_run env (search_param request "state") s) as (s1 & E1 & _ & _ & _).
  unfold callback_handler, mbind, eff_bind, attempt. rewrite E1. cbn [os_valid].
  destruct (constantTimeEqual _ _ && _); cbn [negb]; [|by apply failure_is_answer].
  destruct (search_param request "error"); [by apply failure_is_answer|].
  destruct (nonempty_opt _) as [code|]; [|by apply failure_is_answer].
  apply (complete_sign_in_answers request (MkOAuthState _ _ _)).
Qed.
End Routes.

Module RouteExamples.
Import StoreExamples AuthExamples.

Definition start_request (returnTo : string) : http_request :=
  HttpRequest (js "https") (js "https://app") (js "/auth/github") [] [(js "returnTo", js returnTo)].
Definition oauth_answers : list fetch_result :=
  [ok (JObj [(js "access_token", JStr (js "gho_x"))]); ok (JObj [(js "id", int 42); (js "login", JStr (js "ada"))])]
  ++ answers.
Definition begin : auth_state script := AuthState (Script oauth_answers 1000000) (D1 ∅ []) [] [].
Definition after_start (returnTo : string) : auth_state script :=
  (start_handler environment (start_request returnTo) begin).1.
(** GitHub sends the browser back with the state it was given. *)
Definition callback_request (returnTo : string) : http_request :=
  HttpRequest (js "https") (js "https://app") (js "/auth/github/callback") []
    [(js "code", js "c0de");
     (js "state", default [] (cookie_value (cn_state (cookieNames (node_env environment))) (after_start returnTo)))].
Definition location_after (returnTo : string) : option str :=
  match (callback_handler environment true (callback_request returnTo) (after_start returnTo)).2 with
  | Ok r => Some (rd_location r)
  | Throw _ => None
  end.

Example stays : location_after "/library?x=1" = Some (js "https://app/library?x=1").
Proof. vm_compute. reflexivity. Qed.

(** The return path can lead off the site. The filter checks the decoded text
    but answers the normalised path, and it decodes again each time it is applied:
    a dot segment whose slash is percent-encoded three times passes the sign-in
    route, the cookie and the callback, and the signed-in user is sent to the other
    host. *)
Theorem sign_in_can_leave_site :
  location_after "/..%25252F/evil.example" = Some (js "https://evil.example/").
Proof. vm_compute. reflexivity. Qed.

Lemma callback_needs_state_witness :
  ∃ code, code ≠ [] ∧ search_param (callback_request "/library") "code" = Some code.
Proof.
  destruct (callback_needs_state environment true (callback_request "/library") (after_start "/library"))
    as (_ & _ & H & _); [|exact H].
  intros H. apply (f_equal (λ d, length (map_to_list (d1_table d)))) in H. vm_compute in H. discriminate.
Defined.
End RouteExamples.
