(* ===== verification/Hoare.v ===== *)
(** * Triples for effectful code

    [hoare P m Q X]: from a state of [P], [m] either returns an [a] in a state
    of [Q a] or throws an [e] in a state of [X e]. The rules follow the
    combinators of the prelude; [hoare_for_each] takes an invariant that is
    indexed by the elements already visited. *)

From S2P Require Import Prelude.

Section Hoare.
Context {W E : Type}.
Implicit Types P : W → Prop.

Definition hoare {A} P (m : eff W E A) (Q : A → W → Prop) (X : E → W → Prop) : Prop :=
  ∀ w, P w → match m w with (w', Ok a) => Q a w' | (w', Throw e) => X e w' end.

Lemma hoare_run {A} P (m : eff W E A) Q X w w' r :
  hoare P m Q X → P w → m w = (w', r) → match r with Ok a => Q a w' | Throw e => X e w' end.
Proof. intros H Hw Hr. specialize (H w Hw). rewrite Hr in H. by destruct r. Qed.

Lemma hoare_conseq {A} P P' (m : eff W E A) Q Q' X X' :
  (∀ w, P w → P' w) → hoare P' m Q' X' → (∀ a w, Q' a w → Q a w) → (∀ e w, X' e w → X e w) → hoare P m Q X.
Proof.
  intros HP H HQ HX w Hw. specialize (H w (HP w Hw)). destruct (m w) as [w' [a|e]]; auto.
Qed.

Lemma hoare_pre {A} P P' (m : eff W E A) Q X : (∀ w, P w → P' w) → hoare P' m Q X → hoare P m Q X.
Proof. intros HP H. eapply hoare_conseq; eauto. Qed.

Lemma hoare_post {A} P (m : eff W E A) Q Q' X : hoare P m Q' X → (∀ a w, Q' a w → Q a w) → hoare P m Q X.
Proof. intros H HQ. eapply hoare_conseq; eauto. Qed.
Lemma hoare_exn {A} P (m : eff W E A) Q X X' : hoare P m Q X' → (∀ e w, X' e w → X e w) → hoare P m Q X.
Proof. intros H HX. eapply hoare_conseq; eauto. Qed.

Lemma hoare_ret {A} (a : A) (Q : A → W → Prop) X : hoare (Q a) (mret a) Q X.
Proof. by intros w Hw. Qed.
Lemma hoare_throw {A} e (Q : A → W → Prop) (X : E → W → Prop) : hoare (X e) (throw e) Q X.
Proof. by intros w Hw. Qed.
Lemma hoare_modify f (Q : unit → W → Prop) X : hoare (λ w, Q () (f w)) (modify_world f) Q X.
Proof. by intros w Hw. Qed.

Lemma hoare_bind {A B} P (m : eff W E A) (k : A → eff W E B) R Q X :
  hoare P m R X → (∀ a, hoare (R a) (k a) Q X) → hoare P (m ≫= k) Q X.
Proof.
  intros Hm Hk w Hw. unfold mbind, eff_bind. specialize (Hm w Hw).
  destruct (m w) as [w' [a|e]]; [exact (Hk a w' Hm)|exact Hm].
Qed.

Lemma hoare_assoc {A B C} P (m : eff W E A) (k : A → eff W E B) (h : B → eff W E C) Q X :
  hoare P ((m ≫= k) ≫= h) Q X → hoare P (m ≫= λ a, k a ≫= h) Q X.
Proof. intros H w Hw. rewrite <- bind_bind. exact (H w Hw). Qed.

Lemma hoare_try {A} P (m : eff W E A) h Q R X :
  hoare P m Q R → (∀ e, hoare (R e) (h e) Q X) → hoare P (try_catch m h) Q X.
Proof.
  intros Hm Hk w Hw. unfold try_catch. specialize (Hm w Hw).
  destruct (m w) as [w' [a|e]]; [exact Hm|exact (Hk e w' Hm)].
Qed.

Lemma hoare_attempt {A} P (m : eff W E A) Q X :
  hoare P m (λ a, Q (Ok a)) (λ e, Q (Throw e)) → hoare P (attempt m) Q X.
Proof. intros Hm w Hw. unfold attempt. specialize (Hm w Hw). by destruct (m w) as [w' [a|e]]. Qed.

Lemma hoare_lift {A} P (o : outcome E A) (Q : A → W → Prop) (X : E → W → Prop) :
  (∀ w, P w → match o with Ok a => Q a w | Throw e => X e w end) → hoare P (lift o) Q X.
Proof. intros H w Hw. specialize (H w Hw). unfold lift. by destruct o. Qed.

Lemma hoare_guard (b : bool) (e : E) (Q : W → Prop) (X : E → W → Prop) :
  hoare (λ w, if b then Q w else X e w) (lift (guard_throw b e)) (λ _, Q) X.
Proof. intros w Hw. unfold lift. by destruct b. Qed.

(** A fact that does not depend on the state. *)
Lemma hoare_pure {A} (φ : Prop) P (m : eff W E A) Q X : (φ → hoare P m Q X) → hoare (λ w, φ ∧ P w) m Q X.
Proof. intros H w [Hφ Hw]. exact (H Hφ w Hw). Qed.

Lemma hoare_exists {A C} (P : C → W → Prop) (m : eff W E A) Q X :
  (∀ c, hoare (P c) m Q X) → hoare (λ w, ∃ c, P c w) m Q X.
Proof. intros H w [c Hw]. exact (H c w Hw). Qed.

Lemma hoare_for_each {A B} (f : A → eff W E B) (I : list A → W → Prop) (X : E → W → Prop) l :
  (∀ done a todo, l = done ++ a :: todo → hoare (I done) (f a) (λ _, I (done ++ [a])) X) →
  hoare (I []) (for_each f l) (λ _, I l) X.
Proof.
  intros Hf. assert (∀ todo done, l = done ++ todo → hoare (I done) (for_each f todo) (λ _, I l) X) as H.
  - induction todo as [|a todo IH]; intros done El.
    + rewrite app_nil_r in El. subst. apply (hoare_ret [] (λ _, I done)).
    + cbn [for_each]. eapply hoare_bind; [by eapply Hf|]. intros b.
      eapply hoare_bind; [apply IH; by rewrite <- app_assoc|]. intros bs. apply (hoare_ret _ (λ _, I l)).
  - by apply (H l []).
Qed.

(** With an invariant that does not look at the elements. *)
Lemma hoare_for_each_inv {A B} (f : A → eff W E B) (I : W → Prop) (X : E → W → Prop) l :
  (∀ a, a ∈ l → hoare I (f a) (λ _, I) X) → hoare I (for_each f l) (λ _, I) X.
Proof.
  intros Hf. apply (hoare_for_each f (λ _, I)). intros done a todo ->. apply Hf. set_solver.
Qed.

(** The results of the iterations, each with what its iteration established. *)
Lemma hoare_for_each_results {A B} (f : A → eff W E B) (I : W → Prop) (Φ : A → B → Prop) (X : E → W → Prop) l :
  (∀ a, a ∈ l → hoare I (f a) (λ b w, I w ∧ Φ a b) X) →
  hoare I (for_each f l) (λ bs w, I w ∧ Forall2 Φ l bs) X.
Proof.
  induction l as [|a l IH]; intros Hf; cbn [for_each].
  - intros w Hw. split; [done|constructor].
  - eapply hoare_bind; [apply Hf; set_solver|]. intros b.
    eapply (hoare_bind _ _ _ (λ bs w, (I w ∧ Forall2 Φ l bs) ∧ Φ a b)).
    + intros w [Hw Hφ]. pose proof (IH (λ a Ha, Hf a ltac:(set_solver)) w Hw) as H.
      destruct (for_each f l w) as [w' [bs|e]]; auto.
    + intros bs w [[Hw Hbs] Hφ]. cbn. auto.
Qed.
End Hoare.
