(* ===== verification/NodeFs.v ===== *)
(** * A file system

    What the sources use of [node:fs/promises], on a map from directories to
    the files in them. A path is the list of its segments, a file is a
    directory and a name in it; symbolic links, permissions and timestamps are
    left out. Every call takes one entry of a script of faults: it can fail
    without effect, leave a truncated file behind (copies and writes), or stop
    in the middle of a recursive removal.

    The lemmas say what each operation does to every directory. *)

From S2P Require Import Prelude JsString.

Abbreviation bytes := (list N).
Abbreviation dpath := (list str).
Abbreviation files := (gmap str (list N)).
Abbreviation tree := (gmap (list str) (gmap str (list N))).

(** The errors of [node:fs]; [EIO] stands for a fault. *)
Inductive errno := ENOENT | EEXIST | EISDIR | ENOTDIR | ENOTEMPTY | EIO.
#[export] Instance errno_eq_dec : EqDecision errno.
Proof. solve_decision. Defined.

Inductive io_fault :=
| IoDone
| IoFail
(** a copy or a write that leaves the first [n] bytes *)
| IoShort (n : nat)
(** a recursive removal that stops after [n] files *)
| IoPartialRm (n : nat).

(** ** Paths *)

Fixpoint strip_prefix (a p : dpath) : option dpath :=
  match a, p with
  | [], _ => Some p
  | x :: a, y :: p => if decide (x = y) then strip_prefix a p else None
  | _ :: _, [] => None
  end.
Definition below (a p : dpath) : bool := match strip_prefix a p with Some _ => true | None => false end.

(** The name of a child of [d]. *)
Definition child_of (d p : dpath) : option str :=
  match strip_prefix d p with Some [n] => Some n | _ => None end.

Section Operations.
Implicit Types (t : tree) (d : dpath) (n : str).

Definition is_directory d t : bool := bool_decide (is_Some (t !! d)).
Definition file_at d n t : option bytes := fs ← t !! d; fs !! n.
Definition is_file d n t : bool := match file_at d n t with Some _ => true | None => false end.
Definition occupied d n t : bool := is_file d n t || is_directory (d ++ [n]) t.

Definition put d n (b : bytes) t : tree := alter (insert n b) d t.
Definition drop_file d n t : tree := alter (delete n) d t.

(** [readdir]: the files and the subdirectories, in no particular order. *)
Definition subdirectories d t : list str := omap (child_of d) (elements (dom t)).
Definition file_names d t : list str := match t !! d with Some fs => (map_to_list fs).*1 | None => [] end.
Definition fs_readdir d t : outcome errno (list str * list str) :=
  if is_directory d t then Ok (file_names d t, subdirectories d t) else Throw ENOENT.

Definition fs_readFile d n t : outcome errno bytes :=
  match file_at d n t with
  | Some b => Ok b
  | None => Throw (if is_directory (d ++ [n]) t then EISDIR else ENOENT)
  end.

(** [mkdir(path)] *)
Definition fs_mkdir d n t : tree * outcome errno unit :=
  if occupied d n t then (t, Throw EEXIST)
  else if negb (is_directory d t) then (t, Throw ENOENT)
  else (<[d ++ [n] := ∅]> t, Ok ()).

(** [mkdir(path, { recursive: true })]: the missing directories on the way are made. *)
Fixpoint fs_mkdirp (done todo : dpath) t : tree * outcome errno unit :=
  match todo with
  | [] => (t, Ok ())
  | n :: todo =>
      if is_file done n t then (t, Throw (if todo is [] then EEXIST else ENOTDIR))
      else fs_mkdirp (done ++ [n]) todo
             (if is_directory (done ++ [n]) t then t else <[done ++ [n] := ∅]> t)
  end.

(** [copyFile(source, destination, COPYFILE_EXCL)] *)
Definition fs_copyFile d n d' n' t : tree * outcome errno unit :=
  match fs_readFile d n t with
  | Throw e => (t, Throw e)
  | Ok b => if occupied d' n' t then (t, Throw EEXIST)
            else if negb (is_directory d' t) then (t, Throw ENOENT)
            else (put d' n' b t, Ok ())
  end.

(** [writeFile(path, b, { flag })] with the flag ["wx"] or ["w"]. *)
Definition fs_writeFile (exclusive : bool) d n (b : bytes) t : tree * outcome errno unit :=
  if is_directory (d ++ [n]) t then (t, Throw EISDIR)
  else if exclusive && is_file d n t then (t, Throw EEXIST)
  else if negb (is_directory d t) then (t, Throw ENOENT)
  else (put d n b t, Ok ()).

(** The directories below [a] move below [b]. *)
Definition moved_entries (a b : dpath) t : list (dpath * files) :=
  omap (λ kv, r ← strip_prefix a kv.1; Some (b ++ r, kv.2)) (map_to_list t).
Definition outside (a b : dpath) (kv : dpath * files) : Prop := below a kv.1 = false ∧ below b kv.1 = false.
#[global] Instance outside_dec a b kv : Decision (outside a b kv).
Proof. unfold outside. apply _. Defined.
Definition move_tree (a b : dpath) t : tree :=
  list_to_map (moved_entries a b t) ∪ filter (outside a b) t.

(** [rename]: files and directories; an empty directory in the way is replaced. *)
Definition fs_rename d n d' n' t : tree * outcome errno unit :=
  match file_at d n t with
  | Some b =>
      if is_directory (d' ++ [n']) t then (t, Throw EISDIR)
      else if negb (is_directory d' t) then (t, Throw ENOENT)
      else (put d' n' b (drop_file d n t), Ok ())
  | None =>
      if negb (is_directory (d ++ [n]) t) then (t, Throw ENOENT)
      else if is_file d' n' t then (t, Throw ENOTDIR)
      else if negb (is_directory d' t) then (t, Throw ENOENT)
      else if is_directory (d' ++ [n']) t
              && negb (match fs_readdir (d' ++ [n']) t with Ok ([], []) => true | _ => false end)
      then (t, Throw ENOTEMPTY)
      else (move_tree (d ++ [n]) (d' ++ [n']) t, Ok ())
  end.

(** [rm(path, { force: true })] on a file *)
Definition fs_rm_file d n t : tree * outcome errno unit :=
  if is_directory (d ++ [n]) t then (t, Throw EISDIR) else (drop_file d n t, Ok ()).

(** [rm(path, { recursive: true, force })] on a directory *)
Definition not_below (a : dpath) (kv : dpath * files) : Prop := below a kv.1 = false.
#[global] Instance not_below_dec a kv : Decision (not_below a kv).
Proof. unfold not_below. apply _. Defined.
Definition fs_rm_tree (force : bool) d t : tree * outcome errno unit :=
  if negb force && negb (is_directory d t) then (t, Throw ENOENT)
  else (filter (not_below d) t, Ok ()).

(** A recursive removal that stops after [k] files of [d]. *)
Definition rm_some (k : nat) d t : tree := foldr (drop_file d) t (take k (file_names d t)).
End Operations.

(** ** What the operations do to each directory *)

Lemma strip_prefix_spec a p r : strip_prefix a p = Some r ↔ p = a ++ r.
Proof.
  revert p. induction a as [|x a IH]; intros p; cbn; [naive_solver|].
  destruct p as [|y p]; [naive_solver|]. case_decide; rewrite ?IH; naive_solver.
Qed.
Lemma below_spec a p : below a p = true ↔ ∃ r, p = a ++ r.
Proof.
  unfold below. destruct (strip_prefix a p) as [r|] eqn:E.
  - apply strip_prefix_spec in E. naive_solver.
  - split; [done|]. intros [r Hr%strip_prefix_spec]. congruence.
Qed.
Lemma not_below_parent d n : below (d ++ [n]) d = false.
Proof.
  apply not_true_iff_false. intros [r Hr]%below_spec. apply (f_equal length) in Hr.
  rewrite !length_app in Hr. cbn in Hr. lia.
Qed.
Lemma not_below_sibling d n n' : n ≠ n' → below (d ++ [n]) (d ++ [n']) = false.
Proof.
  intros Hn. apply not_true_iff_false. intros [r Hr]%below_spec. rewrite <- app_assoc in Hr.
  apply app_inv_head in Hr. cbn in Hr. congruence.
Qed.
Lemma child_ne (d : dpath) (n : str) : d ≠ d ++ [n].
Proof. intros H. apply (f_equal length) in H. rewrite length_app in H. cbn in H. lia. Qed.

Lemma is_directory_spec d t : is_directory d t = true ↔ ∃ fs, t !! d = Some fs.
Proof. unfold is_directory. by rewrite bool_decide_eq_true. Qed.
Lemma not_directory d t : is_directory d t = false ↔ t !! d = None.
Proof. unfold is_directory. by rewrite bool_decide_eq_false, eq_None_not_Some. Qed.

Lemma file_names_spec d t n : n ∈ file_names d t ↔ is_Some (file_at d n t).
Proof.
  unfold file_names, file_at. destruct (t !! d) as [fs|]; cbn.
  - rewrite list_elem_of_fmap. split.
    + intros ([k v] & -> & Hk%elem_of_map_to_list). cbn. eauto.
    + intros [b Hb]. exists (n, b). by rewrite elem_of_map_to_list.
  - split; [set_solver|]. intros [? ?]. done.
Qed.
Lemma NoDup_file_names d t : NoDup (file_names d t).
Proof. unfold file_names. destruct (t !! d); [apply NoDup_fst_map_to_list|constructor]. Qed.
Lemma subdirectories_spec d t n : n ∈ subdirectories d t ↔ is_Some (t !! (d ++ [n])).
Proof.
  unfold subdirectories. rewrite list_elem_of_omap. split.
  - intros (p & Hp%elem_of_elements & Hc). unfold child_of in Hc.
    destruct (strip_prefix d p) as [[|x [|]]|] eqn:E; try done. apply strip_prefix_spec in E.
    injection Hc as ->. subst. by apply elem_of_dom.
  - intros Hn. exists (d ++ [n]). rewrite elem_of_elements, elem_of_dom. split; [done|].
    unfold child_of. by rewrite (proj2 (strip_prefix_spec d (d ++ [n]) [n])).
Qed.

(** [mkdir -p] only adds empty directories on the path. *)
Definition grown (p : dpath) (t t' : tree) : Prop :=
  ∀ d, t' !! d = t !! d ∨ (t !! d = None ∧ t' !! d = Some ∅ ∧ below d p = true).
Lemma fs_mkdirp_grown todo done t : grown (done ++ todo) t (fs_mkdirp done todo t).1.
Proof.
  revert done t. induction todo as [|n todo IH]; intros done t d; cbn; [by left|].
  destruct (is_file done n t); [by left|]. specialize (IH (done ++ [n])).
  replace ((done ++ [n]) ++ todo) with (done ++ n :: todo) in IH by by rewrite <- app_assoc.
  destruct (is_directory (done ++ [n]) t) eqn:Ed; [apply IH|].
  apply not_directory in Ed. destruct (IH (<[done ++ [n]:=∅]> t) d) as [->|(H1 & -> & H3)].
  - destruct (decide (d = done ++ [n])) as [->|Hd].
    + right. rewrite lookup_insert_eq. split_and!; [done|done|]. apply below_spec. exists todo. by rewrite <- app_assoc.
    + left. by rewrite lookup_insert_ne by done.
  - right. split_and!; try done. destruct (decide (d = done ++ [n])) as [->|Hd]; [done|].
    by rewrite lookup_insert_ne in H1 by done.
Qed.

Lemma put_same d n b t fs : t !! d = Some fs → put d n b t !! d = Some (<[n := b]> fs).
Proof. intros H. unfold put. by rewrite lookup_alter_eq, H. Qed.
Lemma put_other d n b t d' : d ≠ d' → put d n b t !! d' = t !! d'.
Proof. intros. by apply lookup_alter_ne. Qed.
Lemma drop_same d n t fs : t !! d = Some fs → drop_file d n t !! d = Some (delete n fs).
Proof. intros H. unfold drop_file. by rewrite lookup_alter_eq, H. Qed.
Lemma drop_other d n t d' : d ≠ d' → drop_file d n t !! d' = t !! d'.
Proof. intros. by apply lookup_alter_ne. Qed.
Lemma put_none d n b t d' : t !! d' = None → put d n b t !! d' = None.
Proof. intros H. unfold put. rewrite lookup_alter_None. done. Qed.
Lemma drop_none d n t d' : t !! d' = None → drop_file d n t !! d' = None.
Proof. intros H. unfold drop_file. rewrite lookup_alter_None. done. Qed.
Lemma rm_tree_other force d t d' : below d d' = false → (fs_rm_tree force d t).1 !! d' = t !! d'.
Proof.
  intros H. unfold fs_rm_tree. case_match; [done|]. cbn. rewrite map_lookup_filter.
  destruct (t !! d') as [fs|]; cbn; [|done]. by rewrite option_guard_True.
Qed.
Lemma rm_tree_none force d t d' : t !! d' = None → (fs_rm_tree force d t).1 !! d' = None.
Proof.
  intros H. unfold fs_rm_tree. case_match; [done|]. cbn. by rewrite map_lookup_filter, H.
Qed.

(** The calls that succeed, as changes of the tree. *)
Lemma fs_mkdir_ok d n t t' u :
  fs_mkdir d n t = (t', Ok u) → t' = <[d ++ [n] := ∅]> t ∧ t !! (d ++ [n]) = None ∧ is_directory d t = true.
Proof.
  unfold fs_mkdir, occupied. destruct (is_file d n t || is_directory (d ++ [n]) t) eqn:E; [done|].
  destruct (is_directory d t); [|done]. intros [= <- <-]. to_prop.
  split_and!; [done|by apply not_directory|done].
Qed.
Lemma fs_mkdir_throw d n t t' e : fs_mkdir d n t = (t', Throw e) → t' = t.
Proof. unfold fs_mkdir. repeat case_match; naive_solver. Qed.
Lemma fs_copyFile_ok d n d' n' t t' u :
  fs_copyFile d n d' n' t = (t', Ok u) →
  ∃ b fs, file_at d n t = Some b ∧ t !! d' = Some fs ∧ fs !! n' = None ∧ t' = put d' n' b t.
Proof.
  unfold fs_copyFile, fs_readFile. destruct (file_at d n t) as [b|]; [|done].
  destruct (occupied d' n' t) eqn:Eo; [done|].
  destruct (is_directory d' t) eqn:Ed; [|done]. intros [= <- <-].
  apply is_directory_spec in Ed as [fs Hfs]. exists b, fs. split_and!; try done.
  unfold occupied, is_file, file_at in Eo. to_prop. rewrite Hfs in *. cbn in *. by destruct (fs !! n').
Qed.
Lemma fs_copyFile_throw d n d' n' t t' e : fs_copyFile d n d' n' t = (t', Throw e) → t' = t.
Proof. unfold fs_copyFile. repeat case_match; naive_solver. Qed.
Lemma fs_writeFile_new d n b t t' r :
  fs_writeFile true d n b t = (t', r) →
  t' = t ∨ ∃ fs, t !! d = Some fs ∧ fs !! n = None ∧ t' = put d n b t.
Proof.
  unfold fs_writeFile. destruct (is_directory (d ++ [n]) t); [naive_solver|]. cbn.
  destruct (is_file d n t) eqn:Ef; [naive_solver|]. destruct (is_directory d t) eqn:Ed; [|naive_solver].
  intros [= <- <-]. right. apply is_directory_spec in Ed as [fs Hfs]. exists fs. split_and!; try done.
  unfold is_file, file_at in Ef. rewrite Hfs in Ef. cbn in Ef. by destruct (fs !! n).
Qed.
Lemma fs_writeFile_ok x d n b t t' u :
  fs_writeFile x d n b t = (t', Ok u) → t' = put d n b t ∧ is_Some (t !! d).
Proof.
  unfold fs_writeFile. destruct (is_directory (d ++ [n]) t); [done|]. destruct (x && is_file d n t); [done|].
  destruct (is_directory d t) eqn:E; [|done]. apply is_directory_spec in E as [fs Hfs]. intros [= <- <-]. eauto.
Qed.
Lemma fs_writeFile_cases x d n b t t' r : fs_writeFile x d n b t = (t', r) → t' = t ∨ t' = put d n b t.
Proof. unfold fs_writeFile. repeat case_match; naive_solver. Qed.
Lemma fs_rename_file d n d' n' b t :
  file_at d n t = Some b →
  fs_rename d n d' n' t
  = if is_directory (d' ++ [n']) t then (t, Throw EISDIR)
    else if negb (is_directory d' t) then (t, Throw ENOENT)
    else (put d' n' b (drop_file d n t), Ok ()).
Proof. unfold fs_rename. by intros ->. Qed.
Lemma fs_rename_throw d n d' n' t t' e : fs_rename d n d' n' t = (t', Throw e) → t' = t.
Proof. unfold fs_rename. repeat case_match; naive_solver. Qed.

(** A moved directory is found under its new path. *)
Lemma move_tree_target a b t fs : t !! a = Some fs → move_tree a b t !! b = Some fs.
Proof.
  intros Ha. unfold move_tree. apply lookup_union_Some_l, elem_of_list_to_map_1'.
  - intros fs' ([k v] & Hk & Hm)%list_elem_of_omap. cbn in Hm. apply bind_Some in Hm as (r & Hr & [= Hb ->]).
    apply strip_prefix_spec in Hr. assert (r = []) as -> by (apply (app_inv_head b); by rewrite app_nil_r).
    rewrite app_nil_r in Hr. subst k. apply elem_of_map_to_list in Hk. congruence.
  - apply list_elem_of_omap. exists (a, fs). split; [by apply elem_of_map_to_list|]. cbn.
    rewrite (proj2 (strip_prefix_spec a a [])) by by rewrite app_nil_r. cbn. by rewrite app_nil_r.
Qed.
Lemma fs_rename_directory d n d' n' t t' u :
  is_file d n t = false → fs_rename d n d' n' t = (t', Ok u) →
  t' = move_tree (d ++ [n]) (d' ++ [n']) t ∧ is_Some (t !! (d ++ [n])).
Proof.
  unfold fs_rename, is_file. destruct (file_at d n t); [done|]. intros _.
  destruct (is_directory (d ++ [n]) t) eqn:E; [|done]. apply is_directory_spec in E as [fs Hfs]. cbn.
  repeat case_match; intros [=]; subst; eauto.
Qed.
Lemma rm_tree_cases force d t d' : (fs_rm_tree force d t).1 !! d' = t !! d' ∨ (fs_rm_tree force d t).1 !! d' = None.
Proof.
  unfold fs_rm_tree. case_match; [by left|]. cbn. rewrite map_lookup_filter.
  destruct (t !! d') as [fs|]; cbn; [|by left]. case_guard; [by left|by right].
Qed.
