(* ===== verification/BackupMetadata.v ===== *)
(** * Backup identifiers, manifests and mounts

    The pure part of [src/codex-runner/src/sqlite-storage.ts]: the patterns of
    backup identifiers and database file names, [parseMountInfo] and
    [classifyFilesystem], the errors, and [parseBackupMetadata], which checks
    the manifest of a backup set.

    Properties: an accepted manifest is well formed ([metadata_ok]), a
    well-formed one is read back as it was written, and a path has the class of
    the deepest mount that holds it. *)

From S2P Require Import Prelude JsString JsDate Json JsonText Libs.

(** ** Errors of the runner *)

Inductive storage_error :=
(** [SafeError(code, status)] *)
| SafeError (code : str) (status : Z)
(** [Error(message)], and the errors of the language *)
| RunnerError (message : str)
(** an error of [node:fs] or of a child process *)
| HostError.
#[export] Instance storage_error_eq_dec : EqDecision storage_error.
Proof. solve_decision. Defined.

Definition type_error : storage_error := RunnerError (js "TypeError").

(** ** Patterns *)

Definition is_hex_lower (c : N) : bool := is_digit c || in_range 97 102 c.
(** [p{n}] at the head of [s]: what is left. *)
Fixpoint take_class (p : N → bool) (n : nat) (s : str) : option str :=
  match n, s with
  | O, _ => Some s
  | S n, c :: s => if p c then take_class p n s else None
  | S _, [] => None
  end.
Definition take_literal (w s : str) : option str :=
  if starts_with w s then Some (drop (length w) s) else None.

Lemma take_class_app g k s r : take_class g k s = Some r → ∃ u, s = u ++ r ∧ length u = k ∧ forallb g u = true.
Proof.
  revert s. induction k as [|k IH]; intros s; cbn; [intros [= ->]; by exists []|].
  destruct s as [|c s]; [done|]. destruct (g c) eqn:E; [|done]. intros (u & -> & Hl & Hu)%IH.
  exists (c :: u). cbn. by rewrite E, Hl.
Qed.
Lemma take_class_ok g u r : forallb g u = true → take_class g (length u) (u ++ r) = Some r.
Proof. induction u as [|c u IH]; cbn; [done|]. intros [-> Hu]%andb_true_iff. auto. Qed.

(** [/^b-[0-9]{8}T[0-9]{6}Z-[a-f0-9]{12}$/] *)
Definition BACKUP_ID (s : str) : bool :=
  bool_decide ((s ← take_literal (js "b-") s; s ← take_class is_digit 8 s; s ← take_literal (js "T") s;
                s ← take_class is_digit 6 s; s ← take_literal (js "Z-") s;
                take_class is_hex_lower 12 s) = Some []).

Definition lower_ascii (s : str) : str := map (λ c, if is_upper c then (c + 32)%N else c) s.
Definition is_name_unit (c : N) : bool := is_alnum c || (c =? 46)%N || (c =? 95)%N || (c =? 45)%N.
(** [s] without the extension [ext], whatever its case *)
Definition strip_extension (ext s : str) : option str :=
  let stem := take (length s - length ext) s in
  if str_eqb (lower_ascii (drop (length s - length ext) s)) ext then Some stem else None.
Definition is_stem (s : str) : bool :=
  match s with c :: r => is_alnum c && forallb is_name_unit r && (length r <=? 127)%nat | [] => false end.
(** [/^[A-Za-z0-9][A-Za-z0-9._-]{0,127}\.(?:sqlite|db)$/i] *)
Definition DATABASE_FILENAME (s : str) : bool :=
  existsb (λ ext, match strip_extension ext s with Some stem => is_stem stem | None => false end)
    [js ".sqlite"; js ".db"].

Definition MANIFEST : str := js "manifest.json".
Definition BOOTSTRAP_MARKER : str := js ".adt-bootstrap-v1".
Definition BACKUP_SCHEMA : Z := 1.
Definition MAX_DATABASES : nat := 64.
Definition MAX_DATABASE_SIZE : Z := 16 * 1024 * 1024 * 1024.

(** ** Mounts *)

Inductive FilesystemClass := FsLocal | FsNetwork | FsUnknown.
#[export] Instance FilesystemClass_eq_dec : EqDecision FilesystemClass.
Proof. solve_decision. Defined.

Record Mount := { mountPoint : str; filesystemType : str }.

(** [s.replace(/\\040/g, " ")] *)
Fixpoint unescape_space (s : str) : str :=
  match s with
  | 92%N :: 48%N :: 52%N :: 48%N :: r => 32%N :: unescape_space r
  | c :: r => c :: unescape_space r
  | [] => []
  end.

Fixpoint index_of (w : str) (l : list str) : option nat :=
  match l with
  | [] => None
  | x :: l => if str_eqb x w then Some O else S <$> index_of w l
  end.
Definition nonempty_field (i : nat) (fields : list str) : option str :=
  match fields !! i with Some ((_ :: _) as f) => Some f | _ => None end.

Definition parse_mount_line (line : str) : list Mount :=
  let fields := split_on 32 line in
  match index_of (js "-") fields with
  | None => []
  | Some separator =>
      match nonempty_field 4 fields, nonempty_field (S separator) fields with
      | Some point, Some type => [{| mountPoint := unescape_space point; filesystemType := type |}]
      | _, _ => []
      end
  end.
Definition parseMountInfo (text : str) : list Mount := flat_map parse_mount_line (split_on 10 text).

(** [s.replace(/\/$/, "")] *)
Definition strip_slash (s : str) : str := if ends_with (js "/") s then take (length s - 1) s else s.
Definition mount_holds (path : str) (m : Mount) : bool :=
  str_eqb path (mountPoint m) || starts_with (strip_slash (mountPoint m) ++ js "/") path.
Definition networkFilesystems : list str :=
  [js "nfs"; js "nfs4"; js "cifs"; js "smb"; js "smbfs"; js "9p"; js "ceph"; js "glusterfs"; js "fuse.sshfs"].
Definition deeper (a b : Mount) : bool := (length (mountPoint b) <=? length (mountPoint a))%nat.

Definition classifyFilesystem (path : str) (mounts : list Mount) : FilesystemClass :=
  match sort_list deeper (List.filter (mount_holds path) mounts) with
  | [] => FsUnknown
  | m :: _ => if existsb (str_eqb (lower_ascii (filesystemType m))) networkFilesystems then FsNetwork else FsLocal
  end.

(** ** Manifests *)

Record DatabaseRecord := { db_filename : str; db_size : Z; db_sha256 : str }.
Record BackupMetadata := {
  bm_backupId : str;
  bm_createdAt : str;
  bm_runnerVersion : str;
  bm_codexVersion : str;
  bm_databases : list DatabaseRecord;
}.

(** [String(v)] on the values [JSON.parse] returns (no dates); an object with a property
    [toString] of its own has no string. *)
Fixpoint js_string (v : jsval) : option str :=
  match v with
  | JUndefined => Some (js "undefined")
  | JNull => Some (js "null")
  | JBool true => Some (js "true")
  | JBool false => Some (js "false")
  | JNum n => Some (num_text n)
  | JStr s => Some s
  | JDate _ => None
  | JArr l => join [ch ","] <$> mapM (λ v, match v with JNull | JUndefined => Some [] | _ => js_string v end) l
  | JObj o => match assoc (js "toString") o with Some _ => None | None => Some (js "[object Object]") end
  end.
Definition string_of (v : jsval) : outcome storage_error str := from_option_throw type_error (js_string v).

Definition exactKeys (value : list (str * jsval)) (required optional : list str) : bool :=
  forallb (λ k, match assoc k value with Some _ => true | None => false end) required
  && forallb (λ kv, existsb (str_eqb kv.1) required || existsb (str_eqb kv.1) optional) value.

(** [/^\d+\.\d+\.\d+$/] *)
Definition is_number (s : str) : bool := nonempty s && forallb is_digit s.
Definition is_version (s : str) : bool :=
  match split_on 46 s with [a; b; c] => is_number a && is_number b && is_number c | _ => false end.
(** [/^[a-f0-9]{64}$/] *)
Definition is_sha256 (s : str) : bool := bool_decide (take_class is_hex_lower 64 s = Some []).

Section Parser.
Context `{L : Libs}.

Definition validTimestamp (value : jsval) : bool :=
  match value with
  | JStr s => (length s <=? 32)%nat && match date_parse s with Some _ => true | None => false end
  | _ => false
  end.
Definition invalid_backup : storage_error := RunnerError (js "invalid_backup").

(** One entry of [databases]; [seen] holds the names before it. *)
Definition parse_database (seen : list str) (raw : jsval) : outcome storage_error DatabaseRecord :=
  match raw with
  | JObj database =>
      _ ← guard_throw (exactKeys database [js "filename"; js "size"; js "sha256"] []) invalid_backup;
      filename ← string_of (field (js "filename") database);
      _ ← guard_throw (DATABASE_FILENAME filename) invalid_backup;
      _ ← guard_throw (negb (existsb (str_eqb filename) seen)) invalid_backup;
      match field (js "size") database, field (js "sha256") database with
      | JNum (NInt size), JStr sha256 =>
          _ ← guard_throw (is_safe_Z size && (0 <=? size)%Z && (size <=? MAX_DATABASE_SIZE)%Z
                           && is_sha256 sha256) invalid_backup;
          Ok {| db_filename := filename; db_size := size; db_sha256 := sha256 |}
      | _, _ => Throw invalid_backup
      end
  | _ => Throw invalid_backup
  end.
Fixpoint parse_databases (seen : list str) (l : list jsval) : outcome storage_error (list DatabaseRecord) :=
  match l with
  | [] => Ok []
  | raw :: l =>
      d ← parse_database seen raw;
      ds ← parse_databases (db_filename d :: seen) l;
      Ok (d :: ds)
  end.

(** [expectedId && item.backupId !== expectedId] *)
Definition unexpected_id (id : jsval) (expectedId : option str) : bool :=
  match expectedId with
  | Some ((_ :: _) as e) => match id with JStr s => negb (str_eqb s e) | _ => true end
  | _ => false
  end.

Definition metadata_keys : list str :=
  [js "backupId"; js "createdAt"; js "runnerVersion"; js "codexVersion"; js "databases"].

Definition parseBackupMetadata (value : jsval) (expectedId : option str) : outcome storage_error BackupMetadata :=
  match value with
  | JObj item =>
      _ ← guard_throw (exactKeys item metadata_keys [js "schemaVersion"]) invalid_backup;
      backupId ← string_of (field (js "backupId") item);
      _ ← guard_throw (BACKUP_ID backupId) invalid_backup;
      _ ← guard_throw (negb (unexpected_id (field (js "backupId") item) expectedId)) invalid_backup;
      _ ← guard_throw (validTimestamp (field (js "createdAt") item)) invalid_backup;
      match field (js "createdAt") item, field (js "runnerVersion") item,
            field (js "codexVersion") item, field (js "databases") item with
      | JStr createdAt, JStr runnerVersion, JStr codexVersion, JArr databases =>
          _ ← guard_throw ((length runnerVersion <=? 64)%nat && is_version codexVersion
                           && (1 <=? length databases)%nat
                           && (length databases <=? MAX_DATABASES)%nat) invalid_backup;
          parsed ← parse_databases [] databases;
          Ok {| bm_backupId := backupId; bm_createdAt := createdAt; bm_runnerVersion := runnerVersion;
                bm_codexVersion := codexVersion; bm_databases := parsed |}
      | _, _, _, _ => Throw invalid_backup
      end
  | _ => Throw invalid_backup
  end.

(** What [createBackup] writes: the manifest with its schema version. *)
Definition database_json (d : DatabaseRecord) : jsval :=
  JObj [(js "filename", JStr (db_filename d)); (js "size", JNum (NInt (db_size d)));
        (js "sha256", JStr (db_sha256 d))].
Definition manifest_json (m : BackupMetadata) : jsval :=
  JObj [(js "schemaVersion", JNum (NInt BACKUP_SCHEMA)); (js "backupId", JStr (bm_backupId m));
        (js "createdAt", JStr (bm_createdAt m)); (js "runnerVersion", JStr (bm_runnerVersion m));
        (js "codexVersion", JStr (bm_codexVersion m)); (js "databases", JArr (map database_json (bm_databases m)))].

(** ** What a manifest promises *)

Definition database_ok (d : DatabaseRecord) : Prop :=
  DATABASE_FILENAME (db_filename d) = true ∧ (0 <= db_size d <= MAX_DATABASE_SIZE)%Z ∧ is_sha256 (db_sha256 d) = true.
Record metadata_ok (m : BackupMetadata) : Prop := {
  mo_id : BACKUP_ID (bm_backupId m) = true;
  mo_created : validTimestamp (JStr (bm_createdAt m)) = true;
  mo_runner : (length (bm_runnerVersion m) <= 64)%nat;
  mo_codex : is_version (bm_codexVersion m) = true;
  mo_count : (1 <= length (bm_databases m) <= MAX_DATABASES)%nat;
  mo_names : NoDup (map db_filename (bm_databases m));
  mo_databases : Forall database_ok (bm_databases m);
}.

Lemma existsb_str_eqb s l : existsb (str_eqb s) l = bool_decide (s ∈ l).
Proof.
  apply eq_true_iff_eq. rewrite bool_decide_eq_true, existsb_exists. split.
  - intros (x & Hx & ->%str_eqb_eq). by apply list_elem_of_In.
  - intros H. exists s. rewrite str_eqb_refl. by rewrite <- list_elem_of_In.
Qed.

Lemma parse_database_sound seen raw d :
  parse_database seen raw = Ok d → database_ok d ∧ db_filename d ∉ seen.
Proof.
  unfold parse_database. intros H. destruct raw; try done.
  repeat (apply outcome_bind_ok in H as (? & ? & H)).
  repeat match goal with Hg : guard_throw _ _ = Ok _ |- _ => apply guard_throw_ok in Hg end.
  repeat (case_match; try done). apply outcome_bind_ok in H as ([] & Hg%guard_throw_ok & [= <-]).
  to_prop. rewrite existsb_str_eqb in *. to_prop. unfold database_ok. cbn. split_and!; auto; lia.
Qed.

Lemma parse_databases_sound seen l ds :
  parse_databases seen l = Ok ds →
  Forall database_ok ds ∧ NoDup (map db_filename ds) ∧ (∀ f, f ∈ map db_filename ds → f ∉ seen) ∧
  length ds = length l.
Proof.
  revert seen ds. induction l as [|raw l IH]; intros seen ds; cbn.
  { intros [= <-]. cbn. repeat split; [constructor|constructor|set_solver]. }
  intros (d & [Hok Hd]%parse_database_sound & H)%outcome_bind_ok.
  apply outcome_bind_ok in H as (ds' & (H1 & H2 & H3 & H4)%IH & [= <-]). cbn.
  split_and!; [by constructor| |set_solver|lia]. constructor; [|done]. intros Hin. eapply H3; [exact Hin|]. set_solver.
Qed.

Lemma parse_metadata_spec (value : jsval) (expectedId : option str) (m : BackupMetadata) :
  parseBackupMetadata value expectedId = Ok m →
  metadata_ok m ∧ (∀ id, expectedId = Some id → id ≠ [] → bm_backupId m = id).
Proof.
  unfold parseBackupMetadata. intros H. destruct value as [ | | | | | |item| ]; try done.
  apply outcome_bind_ok in H as ([] & Hk%guard_throw_ok & H).
  apply outcome_bind_ok in H as (id & Hs%from_option_throw_ok & H).
  do 3 (apply outcome_bind_ok in H as ([] & ?Hg%guard_throw_ok & H)).
  destruct (field (js "createdAt") item) as [ | | | |createdAt| | | ]; try done.
  do 3 (case_match; try done).
  apply outcome_bind_ok in H as ([] & ?%guard_throw_ok & H). to_prop.
  apply outcome_bind_ok in H as (ds & (? & ? & _ & Hl)%parse_databases_sound & [= <-]).
  split.
  - constructor; cbn; auto; repeat match goal with Hb : (_ <=? _)%nat = true |- _ => apply Nat.leb_le in Hb end; lia.
  - cbn. intros e -> He. destruct e as [|c e]; [done|]. unfold unexpected_id in *.
    destruct (field (js "backupId") item); try done. to_prop. cbn in Hs. apply str_eqb_eq in Hg0. congruence.
Qed.
Lemma parse_metadata_ok value expectedId m : parseBackupMetadata value expectedId = Ok m → metadata_ok m.
Proof. by intros [? _]%parse_metadata_spec. Qed.

(** C30: A manifest that the parser accepts is well formed: the identifier has the backup pattern (and
    is the expected one, when one is expected), the timestamp is a date, there are 1 to 64
    databases with distinct plain file names, bounded sizes and SHA-256 digests. *)
Theorem parse_metadata_sound (value : jsval) (expectedId : option str) (m : BackupMetadata) :
  parseBackupMetadata value expectedId = Ok m →
  metadata_ok m ∧ (∀ id, expectedId = Some id → id ≠ [] → bm_backupId m = id).
Proof. apply parse_metadata_spec. Qed.

Lemma parse_database_json seen d :
  database_ok d → db_filename d ∉ seen → parse_database seen (database_json d) = Ok d.
Proof.
  intros (Hf & Hs & Hh) Hn. unfold parse_database, database_json. lookup_fields.
  assert (∀ f z h, exactKeys [(js "filename", f); (js "size", z); (js "sha256", h)]
            [js "filename"; js "size"; js "sha256"] [] = true) as -> by (intros; vm_compute; reflexivity).
  unfold string_of. cbn [js_string from_option_throw guard_throw mbind outcome_bind].
  rewrite Hf, existsb_str_eqb, bool_decide_false by done. cbn [guard_throw negb mbind outcome_bind].
  rewrite Hh. assert (is_safe_Z (db_size d) = true) as -> by (unfold is_safe_Z, MAX_DATABASE_SIZE in *; lia).
  rewrite (proj2 (Z.leb_le _ _)) by lia. rewrite (proj2 (Z.leb_le _ _)) by lia. by destruct d.
Qed.

Lemma parse_databases_json seen ds :
  Forall database_ok ds → NoDup (map db_filename ds) → (∀ f, f ∈ map db_filename ds → f ∉ seen) →
  parse_databases seen (map database_json ds) = Ok ds.
Proof.
  revert seen. induction ds as [|d ds IH]; intros seen Hok Hnd Hs; [done|].
  inversion Hok as [|?? Hd Hds]. apply NoDup_cons in Hnd as [Hin Hnd]. cbn [map parse_databases].
  rewrite parse_database_json by (auto; apply Hs; set_solver).
  unfold mbind at 1, outcome_bind at 1. rewrite IH; [done|done|done|].
  intros f Hf. apply not_elem_of_cons. split; [set_solver|]. apply Hs. set_solver.
Qed.

(** The manifest written for well-formed metadata is accepted and read back. *)
Lemma parse_manifest_json (m : BackupMetadata) (expectedId : option str) :
  metadata_ok m → (∀ id, expectedId = Some id → id = bm_backupId m) →
  parseBackupMetadata (manifest_json m) expectedId = Ok m.
Proof.
  intros [Hid Ht Hr Hc Hn Hnd Hdb] He. unfold parseBackupMetadata, manifest_json.
  assert (∀ o, exactKeys [(js "schemaVersion", JNum (NInt BACKUP_SCHEMA)); (js "backupId", JStr (bm_backupId m));
     (js "createdAt", JStr (bm_createdAt m)); (js "runnerVersion", JStr (bm_runnerVersion m));
     (js "codexVersion", JStr (bm_codexVersion m)); (js "databases", o)] metadata_keys [js "schemaVersion"] = true)
    as -> by (intros; vm_compute; reflexivity).
  lookup_fields. unfold string_of. cbn [js_string from_option_throw guard_throw mbind outcome_bind].
  rewrite Hid, Ht. assert (unexpected_id (JStr (bm_backupId m)) expectedId = false) as ->.
  { destruct expectedId as [[|c e]|]; try done. cbn. by rewrite <- (He _ eq_refl), str_eqb_refl. }
  cbn [guard_throw negb mbind outcome_bind]. rewrite Hc, length_map.
  rewrite !(proj2 (Nat.leb_le _ _)) by lia. cbn [guard_throw andb mbind outcome_bind].
  rewrite parse_databases_json; [by destruct m|done|done|set_solver].
Qed.

(** A manifest that parses does so to the metadata it was written for. *)
Lemma parse_database_fields seen d d' : parse_database seen (database_json d) = Ok d' → d' = d.
Proof.
  unfold parse_database, database_json. lookup_fields. intros H.
  apply outcome_bind_ok in H as ([] & _ & H). apply outcome_bind_ok in H as (f & [= <-] & H).
  do 3 (apply outcome_bind_ok in H as ([] & _ & H)). injection H as <-. by destruct d.
Qed.
Lemma parse_databases_fields seen ds ds' : parse_databases seen (map database_json ds) = Ok ds' → ds' = ds.
Proof.
  revert seen ds'. induction ds as [|d ds IH]; intros seen ds'; cbn [map parse_databases]; [by intros [= <-]|].
  intros (d' & ->%parse_database_fields & H)%outcome_bind_ok.
  by apply outcome_bind_ok in H as (l & ->%IH & [= <-]).
Qed.
Lemma parse_manifest_fields m expectedId m' : parseBackupMetadata (manifest_json m) expectedId = Ok m' → m' = m.
Proof.
  unfold parseBackupMetadata, manifest_json. lookup_fields. intros H.
  apply outcome_bind_ok in H as ([] & _ & H). apply outcome_bind_ok in H as (i & [= <-] & H).
  do 4 (apply outcome_bind_ok in H as ([] & _ & H)).
  apply outcome_bind_ok in H as (ds & ->%parse_databases_fields & [= <-]). by destruct m.
Qed.
End Parser.

(** ** Mounts *)

(** The first element of a sorted list is before all others. *)
Lemma insert_sorted_head {A} (le : A → A → bool) x l :
  (∀ a b c, le a b = true → le b c = true → le a c = true) → (∀ a b, le a b = true ∨ le b a = true) →
  (∀ y r, l = y :: r → ∀ z, z ∈ l → le y z = true) →
  ∀ y r, insert_sorted le x l = y :: r → ∀ z, z ∈ x :: l → le y z = true.
Proof.
  intros Ht Htot Hl y r H z Hz. destruct l as [|a l]; cbn in H.
  - injection H as <- <-. assert (z = x) as -> by set_solver. destruct (Htot x x); done.
  - destruct (le x a) eqn:E; injection H as <- <-; apply elem_of_cons in Hz as [->|Hz].
    + destruct (Htot x x); done.
    + eapply Ht; [exact E|]. by eapply Hl.
    + destruct (Htot a x); [done|congruence].
    + by eapply Hl.
Qed.
Lemma sort_list_head {A} (le : A → A → bool) l :
  (∀ a b c, le a b = true → le b c = true → le a c = true) → (∀ a b, le a b = true ∨ le b a = true) →
  ∀ y r, sort_list le l = y :: r → ∀ z, z ∈ l → le y z = true.
Proof.
  intros Ht Htot. induction l as [|x l IH]; intros y r H z Hz; [set_solver|]. cbn in H.
  eapply insert_sorted_head; [exact Ht|exact Htot|exact (λ y r E z Hz, IH y r E z ltac:(by rewrite <- (sort_list_perm le l)))|exact H|].
  rewrite sort_list_perm. done.
Qed.

(** A path has the class of a deepest mount that holds it (whole path segments, the root
    included), ["network"] exactly for the listed network file systems whatever their case, and
    is unknown exactly when no mount holds it. *)
Theorem classify_deepest (path : str) (mounts : list Mount) :
  match classifyFilesystem path mounts with
  | FsUnknown => ∀ m, m ∈ mounts → mount_holds path m = false
  | c => ∃ m, m ∈ mounts ∧ mount_holds path m = true ∧
              (∀ m', m' ∈ mounts → mount_holds path m' = true → (length (mountPoint m') <= length (mountPoint m))%nat) ∧
              (c = FsNetwork ↔ lower_ascii (filesystemType m) ∈ networkFilesystems)
  end.
Proof.
  unfold classifyFilesystem. assert (∀ m, m ∈ List.filter (mount_holds path) mounts ↔ m ∈ mounts ∧ mount_holds path m = true) as Hf.
  { intros m. rewrite !list_elem_of_In. apply List.filter_In. }
  destruct (sort_list deeper (List.filter (mount_holds path) mounts)) as [|m r] eqn:E.
  - intros m Hm. apply not_true_iff_false. intros Hh.
    assert (m ∈ sort_list deeper (List.filter (mount_holds path) mounts)) as Hin by by rewrite sort_list_perm, Hf.
    rewrite E in Hin. set_solver.
  - assert (m ∈ List.filter (mount_holds path) mounts) as [Hm Hh]%Hf.
    { rewrite <- (sort_list_perm deeper), E. set_solver. }
    assert (∀ m', m' ∈ mounts → mount_holds path m' = true → (length (mountPoint m') <= length (mountPoint m))%nat) as Hd.
    { intros m' H1 H2. apply Nat.leb_le. refine (sort_list_head deeper _ _ _ m r E m' _); [| |by apply Hf];
        unfold deeper; intros *; rewrite !Nat.leb_le; lia. }
    rewrite existsb_str_eqb. case_bool_decide; exists m; split_and!; try done.
Qed.
