(* ===== verification/SqliteStorage.v ===== *)
(** * SQLite backups and restore

    The operations of [src/codex-runner/src/sqlite-storage.ts] on a file system:
    [databases], [safeBackupDirectory], [bootstrapLegacySqlite] and the class
    [SqliteStorageManager]. The world holds the tree, the script of faults of
    [node:fs], what else the host answers (mounts, free bytes, clock, names of
    temporary directories, random bytes), the private fields of the manager and
    the mutable local variables of the running call, so that a [catch] or a
    [finally] sees them as they were at the [throw].

    Parameters: SHA-256, the [sqlite3] command and the order of a directory
    listing ([SqliteHost]); [closeAndWait] and [ready] are arguments of
    [restore], as in the source. *)

From S2P Require Import Prelude JsString Encoding JsDate Json JsonText Libs NodeFs BackupMetadata.

Class SqliteHost := {
  (** the hex digest of SHA-256 *)
  sha256_hex : bytes → str;
  (** [sqlite3 source ".backup destination"]: the directory of the source afterwards, and the
      snapshot unless the command fails *)
  sqlite3_backup : files → str → files * option bytes;
  (** the order in which [readdir] lists names *)
  readdir_order : list str → list str;
}.
Class SqliteHostLaws (S : SqliteHost) := {
  sha256_hex_format b : is_sha256 (sha256_hex b) = true;
  readdir_order_perm l : Permutation (readdir_order l) l;
}.

Inductive operation := OpIdle | OpBackup | OpRestore.
#[export] Instance operation_eq_dec : EqDecision operation.
Proof. solve_decision. Defined.

Record RunnerConfiguration := {
  rc_sqliteHome : option dpath;
  rc_codexHome : dpath;
  rc_sqliteBackupRoot : dpath;
  rc_sqliteBackupRetention : nat;
  rc_runnerVersion : str;
}.

(** What the host answers besides the tree. *)
Record host := Host {
  ho_mountinfo : str;
  ho_freeBytes : Z;
  ho_clock : Z;
  ho_suffixes : list str;
  ho_random : list bytes;
  (** the script of the App Server of the examples *)
  ho_app : list bool;
}.
(** The fields of the manager. *)
Record manager := Manager {
  mg_operation : operation;
  mg_lastFailure : option str;
  mg_recoveryRequired : bool;
}.
(** The local variables a [catch] or [finally] reads: [local], [durableStage], [stage],
    [safety], [movedCurrent], and [movedNames] or [promoted]. *)
Record frame := Frame {
  fr_local : option dpath;
  fr_durable : option dpath;
  fr_stage : option dpath;
  fr_safety : option dpath;
  fr_movedCurrent : bool;
  fr_names : list str;
}.
Definition empty_frame : frame := Frame None None None None false [].

Record storage := Storage {
  st_tree : tree;
  st_faults : list io_fault;
  st_host : host;
  st_manager : manager;
  st_frame : frame;
}.
Abbreviation StorageM := (eff storage storage_error).

Definition with_tree (t : tree) (w : storage) : storage :=
  Storage t (st_faults w) (st_host w) (st_manager w) (st_frame w).
Definition with_host (h : host) (w : storage) : storage :=
  Storage (st_tree w) (st_faults w) h (st_manager w) (st_frame w).
Definition on_manager (f : manager → manager) : StorageM unit :=
  modify_world (λ w, Storage (st_tree w) (st_faults w) (st_host w) (f (st_manager w)) (st_frame w)).
Definition on_frame (f : frame → frame) : StorageM unit :=
  modify_world (λ w, Storage (st_tree w) (st_faults w) (st_host w) (st_manager w) (f (st_frame w))).
Definition get_manager : StorageM manager := λ w, (w, Ok (st_manager w)).
Definition get_frame : StorageM frame := λ w, (w, Ok (st_frame w)).
Definition get_host : StorageM host := λ w, (w, Ok (st_host w)).

Definition set_operation (o : operation) : StorageM unit :=
  on_manager (λ m, Manager o (mg_lastFailure m) (mg_recoveryRequired m)).
Definition set_lastFailure (f : option str) : StorageM unit :=
  on_manager (λ m, Manager (mg_operation m) f (mg_recoveryRequired m)).
Definition set_recoveryRequired : StorageM unit :=
  on_manager (λ m, Manager (mg_operation m) (mg_lastFailure m) true).
Definition set_local (o : option dpath) : StorageM unit :=
  on_frame (λ f, Frame o (fr_durable f) (fr_stage f) (fr_safety f) (fr_movedCurrent f) (fr_names f)).
Definition set_durable (o : option dpath) : StorageM unit :=
  on_frame (λ f, Frame (fr_local f) o (fr_stage f) (fr_safety f) (fr_movedCurrent f) (fr_names f)).
Definition set_stage (o : option dpath) : StorageM unit :=
  on_frame (λ f, Frame (fr_local f) (fr_durable f) o (fr_safety f) (fr_movedCurrent f) (fr_names f)).
Definition set_safety (o : option dpath) : StorageM unit :=
  on_frame (λ f, Frame (fr_local f) (fr_durable f) (fr_stage f) o (fr_movedCurrent f) (fr_names f)).
Definition set_movedCurrent : StorageM unit :=
  on_frame (λ f, Frame (fr_local f) (fr_durable f) (fr_stage f) (fr_safety f) true (fr_names f)).
Definition push_name (n : str) : StorageM unit :=
  on_frame (λ f, Frame (fr_local f) (fr_durable f) (fr_stage f) (fr_safety f) (fr_movedCurrent f) (fr_names f ++ [n])).

(** [try { m } finally { f }]: an exception of [f] replaces the outcome. *)
Definition finally {A} (m : StorageM A) (f : StorageM unit) : StorageM A :=
  r ← attempt m; f ;; lift r.

(** ** Calls of the host *)

Definition host_outcome {A} (o : outcome errno A) : outcome storage_error A :=
  match o with Ok a => Ok a | Throw _ => Throw HostError end.

(** One call; [short] and [partial] are its effects when a fault stops it half-way. *)
Definition io_call {A} (op : tree → tree * outcome errno A) (short partial : nat → tree → tree) : StorageM A := λ w,
  let next t fs := Storage t fs (st_host w) (st_manager w) (st_frame w) in
  match st_faults w with
  | IoFail :: fs => (next (st_tree w) fs, Throw HostError)
  | IoShort k :: fs => (next (short k (st_tree w)) fs, Throw HostError)
  | IoPartialRm k :: fs => (next (partial k (st_tree w)) fs, Throw HostError)
  | fs => let '(t, r) := op (st_tree w) in (next t (tail fs), host_outcome r)
  end.
Definition unchanged (_ : nat) (t : tree) : tree := t.
Definition io_read {A} (op : tree → outcome errno A) : StorageM A := io_call (λ t, (t, op t)) unchanged unchanged.
Definition io_write (op : tree → tree * outcome errno unit) : StorageM unit := io_call op unchanged unchanged.

Section Sqlite.
Context `{L : Libs} `{S : SqliteHost}.

Definition readFile (d : dpath) (n : str) : StorageM bytes := io_read (fs_readFile d n).
(** files and subdirectories, as [withFileTypes] tells them apart *)
Definition readdir_types (d : dpath) : StorageM (list str * list str) :=
  r ← io_read (fs_readdir d); mret (readdir_order r.1, readdir_order r.2).
Definition readdir (d : dpath) : StorageM (list str) :=
  r ← io_read (fs_readdir d); mret (readdir_order (r.1 ++ r.2)).
Definition mkdirp (d : dpath) : StorageM unit := io_write (fs_mkdirp [] d).
Definition mkdir (d : dpath) (n : str) : StorageM unit := io_write (fs_mkdir d n).
Definition rename (d : dpath) (n : str) (d' : dpath) (n' : str) : StorageM unit := io_write (fs_rename d n d' n').
(** a copy or write that fails half-way leaves a truncated file, when it could be created *)
Definition truncated (op : bytes → tree → tree * outcome errno unit) (b : bytes) (k : nat) (t : tree) : tree :=
  (op (take k b) t).1.
Definition copyFile (d : dpath) (n : str) (d' : dpath) (n' : str) : StorageM unit :=
  io_call (fs_copyFile d n d' n')
    (λ k t, match file_at d n t with
            | Some b => truncated (fs_writeFile true d' n') b k t
            | None => t
            end) unchanged.
Definition writeFile (exclusive : bool) (d : dpath) (n : str) (b : bytes) : StorageM unit :=
  io_call (fs_writeFile exclusive d n b) (truncated (fs_writeFile exclusive d n) b) unchanged.
Definition rm_file (d : dpath) (n : str) : StorageM unit := io_write (fs_rm_file d n).
Definition rm_tree (force : bool) (d : dpath) : StorageM unit :=
  io_call (fs_rm_tree force d) unchanged (λ k t, rm_some k d t).
(** [access(join(d, n))] and [access(d)] *)
Definition usable (d : dpath) (n : str) : StorageM bool :=
  try_catch (io_read (λ t, if occupied d n t then Ok true else Throw ENOENT)) (λ _, mret false).
Definition usable_directory (d : dpath) : StorageM bool :=
  try_catch (io_read (λ t, if is_directory d t then Ok true else Throw ENOENT)) (λ _, mret false).
Definition stat_size (d : dpath) (n : str) : StorageM Z :=
  b ← readFile d n; mret (Z.of_nat (length b)).
Definition checksum (d : dpath) (n : str) : StorageM str :=
  b ← readFile d n; mret (sha256_hex b).

(** [mkdtemp(localStagingPrefix(home, purpose))]: the host appends six characters. *)
Inductive LocalStagePurpose := Bootstrap | Backup | Restore | PreRestore.
Definition purpose_text (p : LocalStagePurpose) : str :=
  match p with Bootstrap => js "bootstrap" | Backup => js "backup" | Restore => js "restore" | PreRestore => js "pre-restore" end.
Definition localStagingPrefix (p : LocalStagePurpose) : str := js ".adt-" ++ purpose_text p ++ js "-".
Definition take_suffix : StorageM str := λ w,
  let h := st_host w in
  (with_host (Host (ho_mountinfo h) (ho_freeBytes h) (ho_clock h) (tail (ho_suffixes h)) (ho_random h) (ho_app h)) w,
   Ok (default (js "XXXXXX") (head (ho_suffixes h)))).
Definition mkdtemp (home : dpath) (p : LocalStagePurpose) : StorageM dpath :=
  suffix ← take_suffix;
  mkdir home (localStagingPrefix p ++ suffix) ;;
  mret (home ++ [localStagingPrefix p ++ suffix]).
Definition randomBytes : StorageM bytes := λ w,
  let h := st_host w in
  (with_host (Host (ho_mountinfo h) (ho_freeBytes h) (ho_clock h) (ho_suffixes h) (tail (ho_random h)) (ho_app h)) w,
   Ok (default [] (head (ho_random h)))).
(** [readFile("/proc/self/mountinfo").catch(() => "")] *)
Definition read_mounts : StorageM (list Mount) :=
  h ← get_host;
  text ← try_catch (io_read (λ _, Ok (ho_mountinfo h))) (λ _, mret []);
  mret (parseMountInfo text).
Definition path_text (d : dpath) : str := flat_map (λ n, js "/" ++ n) d.

(** ** Listing databases and backups *)

Definition databases (d : dpath) : StorageM (list str) :=
  try_catch (r ← readdir_types d;
             mret (take (MAX_DATABASES + 1) (sort_list str_leb (List.filter DATABASE_FILENAME r.1))))
            (λ _, mret []).

(** [spawn("sqlite3", ...)] *)
Definition sqliteBackup (home : dpath) (name : str) (local : dpath) : StorageM unit :=
  b ← io_call (λ t, match t !! home with
                    | None => (t, Throw ENOENT)
                    | Some fs => let '(fs', snapshot) := sqlite3_backup fs name in
                                 (<[home := fs']> t, from_option_throw EIO snapshot)
                    end) unchanged unchanged;
  writeFile false local name b.

Definition safe (code : string) (status : Z) : storage_error := SafeError (js code) status.

(** In a tree without links [realpath] is the path itself, when it exists. *)
Definition realpath (d : dpath) : StorageM dpath :=
  io_read (λ t, if is_directory d t then Ok d else Throw ENOENT).
Definition safeBackupDirectory (root : dpath) (id : str) : StorageM dpath :=
  lift (guard_throw (BACKUP_ID id) (safe "invalid_backup_id" 400)) ;;
  rootReal ← realpath root;
  entry ← try_catch (io_read (λ t, Ok (is_directory (root ++ [id]) t))) (λ _, mret false);
  lift (guard_throw entry (safe "backup_not_found" 404)) ;;
  resolved ← realpath (root ++ [id]);
  lift (guard_throw (bool_decide (take (length resolved - 1) resolved = rootReal)) (safe "invalid_backup_id" 400)) ;;
  mret resolved.

Definition json_parse (text : str) : outcome storage_error jsval :=
  from_option_throw (RunnerError (js "SyntaxError")) (JSON_parse text).
(** [raw.schemaVersion] *)
Definition schema_version (raw : jsval) : outcome storage_error jsval :=
  match raw with
  | JNull | JUndefined => Throw type_error
  | JObj o => Ok (field (js "schemaVersion") o)
  | _ => Ok JUndefined
  end.
Definition is_schema (v : jsval) : bool := match v with JNum (NInt z) => (z =? BACKUP_SCHEMA)%Z | _ => false end.
Definition read_manifest (directory : dpath) : StorageM jsval :=
  b ← readFile directory MANIFEST; lift (json_parse (utf8_decode b)).

(** One iteration of [list]. *)
Definition list_entry (root : dpath) (name : str) : StorageM (option BackupMetadata) :=
  if negb (BACKUP_ID name) then mret None
  else try_catch
    (directory ← safeBackupDirectory root name;
     raw ← read_manifest directory;
     v ← lift (schema_version raw);
     if negb (is_schema v) then mret None
     else m ← lift (parseBackupMetadata raw (Some name)); mret (Some m))
    (λ _, mret None).

Definition newer (a b : BackupMetadata) : bool := locale_le (bm_createdAt b) (bm_createdAt a).

(** The entries of the root, files and directories together: at most a thousand are looked at. *)
Definition list_names (root : dpath) : StorageM (list str) :=
  r ← io_read (fs_readdir root);
  mret (List.filter (λ n, bool_decide (n ∈ r.2)) (take 1000 (readdir_order (r.1 ++ r.2)))).
Definition list_backups (config : RunnerConfiguration) : StorageM (list BackupMetadata) :=
  let root := rc_sqliteBackupRoot config in
  mkdirp root ;;
  names ← list_names root;
  found ← for_each (list_entry root) names;
  mret (take 365 (sort_list newer (omap id found))).

(** [prune] *)
Definition prune (config : RunnerConfiguration) : StorageM unit :=
  backups ← list_backups config;
  for_each (λ m, directory ← safeBackupDirectory (rc_sqliteBackupRoot config) (bm_backupId m);
                 rm_tree false directory)
    (drop (rc_sqliteBackupRetention config) backups) ;;
  mret ().

(** ** Bootstrap *)

Definition text_bytes (s : string) (newline : bool) : bytes :=
  utf8_encode (js s ++ if newline then [10%N] else []).
Definition marker_done (b : bytes) : bool :=
  str_eqb (utf8_decode b) (js "legacy-copy-complete" ++ [10%N]) || str_eqb (utf8_decode b) (js "empty" ++ [10%N]).
Definition sidecars : list str := [[]; js "-wal"; js "-shm"].
Definition bootstrap_failed : storage_error := RunnerError (js "sqlite_bootstrap_failed").

(** The copy of one file, if it is there: its staged name. *)
Definition stage_legacy (codexHome stage : dpath) (name : str) : StorageM (option str) :=
  present ← usable codexHome name;
  if negb present then mret None
  else copyFile codexHome name stage name ;; mret (Some name).
(** The promotion loop; [promoted] grows as the files arrive. *)
Definition promote (stage home : dpath) (name : str) : StorageM unit :=
  rename stage name home name ;; push_name name.
Definition remove_promoted (home : dpath) : StorageM unit :=
  f ← get_frame;
  for_each (λ n, try_catch (rm_file home n) (λ _, mret ())) (reverse (fr_names f)) ;;
  mret ().
Definition copy_legacy (codexHome stage home : dpath) (legacy : list str) : StorageM unit :=
  staged ← for_each (stage_legacy codexHome stage) (flat_map (λ n, map (app n) sidecars) legacy);
  for_each (promote stage home) (omap id staged) ;;
  writeFile true stage BOOTSTRAP_MARKER (text_bytes "legacy-copy-complete" true) ;;
  promote stage home BOOTSTRAP_MARKER.

Definition bootstrapLegacySqlite (config : RunnerConfiguration) : StorageM unit :=
  match rc_sqliteHome config with
  | None => mret ()
  | Some home =>
      mkdirp home ;;
      existing ← databases home;
      if bool_decide (existing ≠ []) then mret ()
      else
        finished ← try_catch (b ← readFile home BOOTSTRAP_MARKER; mret (marker_done b)) (λ _, mret false);
        if (finished : bool) then mret ()
        else
          legacy ← databases (rc_codexHome config);
          lift (guard_throw (length legacy <=? MAX_DATABASES)%nat bootstrap_failed) ;;
          if bool_decide (legacy = []) then writeFile true home BOOTSTRAP_MARKER (text_bytes "empty" true)
          else
            stage ← mkdtemp home Bootstrap;
            on_frame (λ _, empty_frame) ;;
            finally
              (try_catch (copy_legacy (rc_codexHome config) stage home legacy)
                 (λ _, remove_promoted home ;; throw bootstrap_failed))
              (rm_tree true stage)
  end.

(** ** [SqliteStorageManager] *)

Definition RECOVERY_MARKER : str := js ".adt-recovery-required".
Definition recovery_required : storage_error := RunnerError (js "restore_recovery_required").

Definition check_recovery (home : dpath) (name : str) : StorageM unit :=
  if negb (starts_with (js ".adt-pre-restore-") name) then mret ()
  else
    marked ← usable (home ++ [name]) RECOVERY_MARKER;
    if (marked : bool) then set_recoveryRequired ;; set_operation OpRestore ;; throw recovery_required
    else mret ().

Definition initialize (config : RunnerConfiguration) : StorageM unit :=
  match rc_sqliteHome config with
  | None => mret ()
  | Some home =>
      mkdirp home ;;
      entries ← readdir_types home;
      for_each (check_recovery home) entries.2 ;;
      mounts ← read_mounts;
      lift (guard_throw (negb (bool_decide (classifyFilesystem (path_text home) mounts = FsNetwork)))
              (RunnerError (js "network_filesystem_unsupported_for_sqlite"))) ;;
      bootstrapLegacySqlite config
  end.

Inductive storage_warning :=
| Network_filesystem_unsupported_for_sqlite | Sqlite_home_not_separated | Restore_recovery_required.

Record SqliteStorageStatus := {
  ss_separateSqliteHomeConfigured : bool;
  ss_sqliteFilesystemClass : FilesystemClass;
  ss_sqliteHomeReadable : bool;
  ss_sqliteHomeWritable : bool;
  ss_codexHomeFilesystemClass : FilesystemClass;
  ss_backupDirectoryAvailable : bool;
  ss_backupDirectoryWritable : bool;
  (** [lastSuccessfulBackupAt] and [latestBackupId] *)
  ss_latest : option (str * str);
  ss_lastBackupFailureCategory : option str;
  ss_retainedBackupCount : nat;
  ss_retention : nat;
  ss_operation : operation;
  ss_warning : option storage_warning;
}.

Definition status (config : RunnerConfiguration) : StorageM SqliteStorageStatus :=
  mounts ← read_mounts;
  let sqlitePath := default (rc_codexHome config) (rc_sqliteHome config) in
  let sqliteClass := classifyFilesystem (path_text sqlitePath) mounts in
  backups ← try_catch (list_backups config) (λ _, mret []);
  readable ← usable_directory sqlitePath;
  writable ← usable_directory sqlitePath;
  available ← usable_directory (rc_sqliteBackupRoot config);
  backupWritable ← usable_directory (rc_sqliteBackupRoot config);
  m ← get_manager;
  mret {| ss_separateSqliteHomeConfigured := bool_decide (is_Some (rc_sqliteHome config));
          ss_sqliteFilesystemClass := sqliteClass;
          ss_sqliteHomeReadable := readable; ss_sqliteHomeWritable := writable;
          ss_codexHomeFilesystemClass := classifyFilesystem (path_text (rc_codexHome config)) mounts;
          ss_backupDirectoryAvailable := available; ss_backupDirectoryWritable := backupWritable;
          ss_latest := (λ b, (bm_createdAt b, bm_backupId b)) <$> head backups;
          ss_lastBackupFailureCategory := mg_lastFailure m;
          ss_retainedBackupCount := length backups;
          ss_retention := rc_sqliteBackupRetention config;
          ss_operation := mg_operation m;
          ss_warning :=
            if mg_recoveryRequired m then Some Restore_recovery_required
            else if bool_decide (sqliteClass = FsNetwork) then Some Network_filesystem_unsupported_for_sqlite
            else if bool_decide (rc_sqliteHome config = None) then Some Sqlite_home_not_separated else None |}.

(** *** [createBackup] *)

(** [createdAt.replace(/[-:]/g, "").replace(/\.\d{3}/, "")] *)
Fixpoint drop_millis (s : str) : str :=
  match s with
  | [] => []
  | c :: r =>
      match r with
      | a :: b :: d :: r' =>
          if (c =? 46)%N && is_digit a && is_digit b && is_digit d then r' else c :: drop_millis r
      | _ => c :: drop_millis r
      end
  end.
Definition compact_time (createdAt : str) : str :=
  drop_millis (List.filter (λ c, negb ((c =? 45)%N || (c =? 58)%N)) createdAt).
Definition new_backup_id (createdAt : str) (random : bytes) : str :=
  js "b-" ++ compact_time createdAt ++ js "-" ++ flat_map hex_byte random.

Definition busy_guard (config : RunnerConfiguration) : StorageM dpath :=
  home ← lift (from_option_throw (safe "sqlite_home_not_configured" 409) (rc_sqliteHome config));
  m ← get_manager;
  lift (guard_throw (bool_decide (mg_operation m = OpIdle)) (safe "runner_busy" 409)) ;;
  mret home.

Definition backup_record (local : dpath) (name : str) : StorageM DatabaseRecord :=
  size ← stat_size local name;
  lift (guard_throw (size <=? MAX_DATABASE_SIZE)%Z (RunnerError (js "sqlite_backup_failed"))) ;;
  sha ← checksum local name;
  mret {| db_filename := name; db_size := size; db_sha256 := sha |}.

Definition store_durably (local durable : dpath) (r : DatabaseRecord) : StorageM unit :=
  copyFile local (db_filename r) durable (db_filename r) ;;
  sha ← checksum durable (db_filename r);
  lift (guard_throw (str_eqb sha (db_sha256 r)) (RunnerError (js "backup_verification_failed"))).

Definition manifest_bytes (m : BackupMetadata) : bytes := utf8_encode (stringify (manifest_json m) ++ [10%N]).

(** The body of the [try] of [createBackup]. *)
Definition backup_body (config : RunnerConfiguration) (codexVersion : str) (home : dpath) : StorageM BackupMetadata :=
  let root := rc_sqliteBackupRoot config in
  names ← databases home;
  lift (guard_throw (bool_decide (names ≠ []) && (length names <=? MAX_DATABASES)%nat)
          (RunnerError (js "no_sqlite_databases"))) ;;
  sizes ← for_each (stat_size home) names;
  h ← get_host;
  free ← io_read (λ _, Ok (ho_freeBytes h));
  lift (guard_throw (foldr Z.add 0 sizes <=? free)%Z (RunnerError (js "sqlite_backup_insufficient_space"))) ;;
  local ← mkdtemp home Backup;
  set_local (Some local) ;;
  let createdAt := toISOString (ho_clock h) in
  random ← randomBytes;
  let backupId := new_backup_id createdAt random in
  for_each (λ name, sqliteBackup home name local) names ;;
  records ← for_each (backup_record local) names;
  let manifest := {| bm_backupId := backupId; bm_createdAt := createdAt; bm_runnerVersion := rc_runnerVersion config;
                     bm_codexVersion := codexVersion; bm_databases := records |} in
  mkdirp root ;;
  let durable := root ++ [js ".staging-" ++ backupId] in
  set_durable (Some durable) ;;
  mkdir root (js ".staging-" ++ backupId) ;;
  for_each (store_durably local durable) records ;;
  writeFile true durable MANIFEST (manifest_bytes manifest) ;;
  rename root (js ".staging-" ++ backupId) root backupId ;;
  set_durable None ;;
  set_lastFailure None ;;
  prune config ;;
  lift (parseBackupMetadata (manifest_json manifest) (Some backupId)).

Definition failure_category (e : storage_error) : str :=
  match e with
  | RunnerError message =>
      if existsb (str_eqb message) [js "no_sqlite_databases"; js "sqlite_backup_failed";
                                    js "backup_verification_failed"; js "sqlite_backup_insufficient_space"]
      then message else js "sqlite_backup_failed"
  | _ => js "sqlite_backup_failed"
  end.

Definition when_some (o : option dpath) (f : dpath → StorageM unit) : StorageM unit :=
  match o with Some d => f d | None => mret () end.

Definition createBackup (config : RunnerConfiguration) (codexVersion : str) : StorageM BackupMetadata :=
  home ← busy_guard config;
  set_operation OpBackup ;;
  on_frame (λ _, empty_frame) ;;
  finally
    (try_catch (backup_body config codexVersion home) (λ error,
       let category := failure_category error in
       set_lastFailure (Some category) ;;
       throw (SafeError (if str_eqb category (js "sqlite_backup_insufficient_space") then category
                         else js "sqlite_backup_failed") 503)))
    (f ← get_frame;
     when_some (fr_local f) (rm_tree true) ;;
     when_some (fr_durable f) (rm_tree true) ;;
     set_operation OpIdle).

(** *** [restore] *)

Record hooks := { closeAndWait : StorageM unit; ready : StorageM bool }.

(** The files that make up the live SQLite state. *)
Definition is_live (name : str) : bool :=
  DATABASE_FILENAME name || ends_with (js "-wal") name || ends_with (js "-shm") name.

Definition select_backup (config : RunnerConfiguration) (id : str) : StorageM str :=
  if str_eqb id (js "latest")
  then backups ← list_backups config;
       lift (from_option_throw (safe "backup_not_found" 404) (bm_backupId <$> head backups))
  else lift (guard_throw (nonempty id) (safe "backup_not_found" 404)) ;; mret id.

Definition verify_database (directory : dpath) (d : DatabaseRecord) : StorageM unit :=
  sha ← checksum directory (db_filename d);
  lift (guard_throw (str_eqb sha (db_sha256 d)) (safe "invalid_backup" 409)) ;;
  size ← stat_size directory (db_filename d);
  lift (guard_throw (size =? db_size d)%Z (safe "invalid_backup" 409)).

Definition rolled_back : storage_error := safe "restore_failed_rolled_back" 503.
Definition is_rolled_back (e : storage_error) : bool :=
  match e with SafeError code _ => str_eqb code (js "restore_failed_rolled_back") | _ => false end.
Definition rollback_failed : storage_error := safe "restore_rollback_failed" 503.

(** The rollback did not complete: the state stays closed, with a marker in the safety copy. *)
Definition fail_closed {A} (safety : dpath) : StorageM A :=
  set_recoveryRequired ;;
  set_operation OpRestore ;;
  try_catch (writeFile false safety RECOVERY_MARKER (text_bytes "restore rollback incomplete" true)) (λ _, mret ()) ;;
  throw rollback_failed.

Definition move_to_safety (home safety : dpath) (name : str) : StorageM unit :=
  rename home name safety name ;; push_name name.

(** [catch] of the moving loop: the files moved so far go back. *)
Definition undo_moves {A} (home safety : dpath) : StorageM A :=
  try_catch
    (f ← get_frame;
     for_each (λ name, rename safety name home name) (reverse (fr_names f)) ;;
     rm_tree true safety ;;
     set_safety None ;;
     throw rolled_back)
    (λ rollbackError, if is_rolled_back rollbackError then throw rollbackError else fail_closed safety).

Definition set_aside (home safety : dpath) : StorageM unit :=
  entries ← readdir home;
  try_catch (for_each (move_to_safety home safety) (List.filter is_live entries) ;; mret ())
    (λ _, undo_moves home safety).

(** The body of the outer [try]. *)
Definition restore_body (config : RunnerConfiguration) (home : dpath) (id : str) (h : hooks) : StorageM str :=
  selected ← select_backup config id;
  directory ← safeBackupDirectory (rc_sqliteBackupRoot config) selected;
  raw ← read_manifest directory;
  v ← lift (schema_version raw);
  lift (guard_throw (is_schema v) (safe "invalid_backup" 409)) ;;
  manifest ← lift (parseBackupMetadata raw (Some selected));
  for_each (verify_database directory) (bm_databases manifest) ;;
  stage ← mkdtemp home Restore;
  set_stage (Some stage) ;;
  for_each (λ d, copyFile directory (db_filename d) stage (db_filename d)) (bm_databases manifest) ;;
  try_catch (closeAndWait h) (λ _, throw (safe "app_server_shutdown_unconfirmed" 503)) ;;
  safety ← mkdtemp home PreRestore;
  set_safety (Some safety) ;;
  set_aside home safety ;;
  set_movedCurrent ;;
  for_each (λ d, rename stage (db_filename d) home (db_filename d)) (bm_databases manifest) ;;
  isReady ← ready h;
  lift (guard_throw isReady (RunnerError (js "restore_readiness_failed"))) ;;
  rm_tree true safety ;;
  set_safety None ;;
  mret selected.

(** Putting the safety copy back after the live files were replaced. *)
Definition put_back {A} (home safety : dpath) (h : hooks) : StorageM A :=
  entries ← try_catch (readdir home) (λ _, mret []);
  for_each (rm_file home) (List.filter is_live entries) ;;
  saved ← readdir safety;
  for_each (λ name, copyFile safety name home name) saved ;;
  isReady ← ready h;
  lift (guard_throw isReady (RunnerError (js "rollback_readiness_failed"))) ;;
  rm_tree true safety ;;
  set_safety None ;;
  throw rolled_back.

Definition roll_back {A} (home safety : dpath) (h : hooks) : StorageM A :=
  closed ← attempt (closeAndWait h);
  match closed with
  | Throw _ => fail_closed safety
  | Ok _ =>
      try_catch (put_back home safety h)
        (λ rollbackError, if is_rolled_back rollbackError then throw rollbackError else fail_closed safety)
  end.

Definition restore_catch {A} (home : dpath) (h : hooks) (error : storage_error) : StorageM A :=
  f ← get_frame;
  match fr_safety f with
  | Some safety => if fr_movedCurrent f then roll_back home safety h else throw error
  | None => throw error
  end.

Definition restore_cleanup : StorageM unit :=
  f ← get_frame;
  m ← get_manager;
  when_some (fr_stage f) (rm_tree true) ;;
  when (negb (mg_recoveryRequired m)) (when_some (fr_safety f) (rm_tree true)) ;;
  when (negb (mg_recoveryRequired m)) (set_operation OpIdle).

Definition restore (config : RunnerConfiguration) (id : str) (h : hooks) : StorageM str :=
  home ← busy_guard config;
  set_operation OpRestore ;;
  on_frame (λ _, empty_frame) ;;
  finally (try_catch (restore_body config home id h) (restore_catch home h)) restore_cleanup.
End Sqlite.
