(* ===== verification/SqliteFacts.v ===== *)
(** * Theorems on restore and backup

    [restore] of [src/codex-runner/src/sqlite-storage.ts] under faults of the
    file system: whatever call fails, the SQLite home ends with the verified
    backup, with its original files, or closed with every original file still in
    the home or in the safety copy. The triples describe the tree at each phase
    of the call; [at_tree] adds the fields of the manager and the local variables.

    Assumptions of the theorems, as named hypotheses: the App Server does not
    write while it is closed or being probed ([quiet]), a recursive removal
    does not stop half-way ([whole]; without it, see
    [restore_can_lose_originals]), and the names of temporary directories have
    six alphanumeric characters, as [mkdtemp] makes them. *)

From S2P Require Import Prelude JsString Encoding JsDate Json JsonText Libs Hoare NodeFs BackupMetadata SqliteStorage.

Implicit Types (dir : dpath) (B : files) (md : BackupMetadata) (config : RunnerConfiguration) (e : storage_error) (home d stage safety root : dpath) (n id name : str) (p : LocalStagePurpose) (m : manager) (f : frame) (A : Type).

Definition whole_fault (f : io_fault) : Prop := match f with IoPartialRm _ => False | _ => True end.
Definition suffix_ok (s : str) : Prop := length s = 6%nat ∧ forallb is_alnum s = true.
Definition whole (w : storage) : Prop :=
  Forall whole_fault (st_faults w) ∧ Forall suffix_ok (ho_suffixes (st_host w)).

(** The tree satisfies [φ]; the manager and the local variables are [m] and [f]. *)
Definition at_tree (φ : tree → Prop) (m : manager) (f : frame) (w : storage) : Prop :=
  φ (st_tree w) ∧ st_manager w = m ∧ st_frame w = f ∧ whole w.

(** A call that leaves the files and the variables of the manager alone. *)
Definition quiet {A} (c : StorageM A) : Prop :=
  ∀ φ m f, hoare (at_tree φ m f) c (λ _, at_tree φ m f) (λ _, at_tree φ m f).

Lemma at_tree_mono (φ ψ : tree → Prop) m f w : (∀ t, φ t → ψ t) → at_tree φ m f w → at_tree ψ m f w.
Proof. intros H (? & ? & ? & ?). split_and!; auto. Qed.

(** Weakening of tree predicates. *)
Lemma hoare_at {A : Type} (φ φ' : tree → Prop) m f (c : StorageM A) ψ ψ' m' f' χ χ' :
  (∀ t, φ t → φ' t) →
  hoare (at_tree φ' m f) c (λ a, at_tree (ψ' a) m' f') (λ _, at_tree χ' m f) →
  (∀ a t, ψ' a t → ψ a t) → (∀ t, χ' t → χ t) →
  hoare (at_tree φ m f) c (λ a, at_tree (ψ a) m' f') (λ _, at_tree χ m f).
Proof.
  intros H1 H H2 H3. eapply hoare_conseq; [|exact H| |]; intros *; apply at_tree_mono; auto.
Qed.

Section Primitives.
Context {A : Type} (op : tree → tree * outcome errno A) (short partial : nat → tree → tree).

Lemma hoare_io (φ χ : tree → Prop) (ψ : A → tree → Prop) m f :
  (∀ t t' a, φ t → op t = (t', Ok a) → ψ a t') →
  (∀ t t' (x : errno), φ t → op t = (t', Throw x) → χ t') →
  (∀ t, φ t → χ t) → (∀ k t, φ t → χ (short k t)) →
  hoare (at_tree φ m f) (io_call op short partial) (λ a, at_tree (ψ a) m f)
    (λ e w, e = HostError ∧ at_tree χ m f w).
Proof.
  intros Hok Hth Hfail Hshort w (Ht & <- & <- & Hf & Hs). unfold io_call.
  destruct (st_faults w) as [|[| |k|k] fs] eqn:Ef; try (inversion Hf; subst);
    try (destruct (op (st_tree w)) as [t [a|e]] eqn:Eo); cbn; repeat (split || done || by eauto).
Qed.
End Primitives.

Lemma hoare_io_read {A : Type} (op : tree → outcome errno A) (φ : tree → Prop) (Φ : A → tree → Prop) m f :
  (∀ t a, φ t → op t = Ok a → Φ a t) →
  hoare (at_tree φ m f) (io_read op) (λ a, at_tree (λ t, φ t ∧ Φ a t) m f) (λ e w, e = HostError ∧ at_tree φ m f w).
Proof. intros H. apply hoare_io; [|naive_solver..]. intros t t' a Ht [= <- Ho]. auto. Qed.

Lemma hoare_io_write (op : tree → tree * outcome errno unit) (φ ψ : tree → Prop) m f :
  (∀ t t', φ t → op t = (t', Ok ()) → ψ t') → (∀ t t' (x : errno), op t = (t', Throw x) → t' = t) →
  hoare (at_tree φ m f) (io_write op) (λ _, at_tree ψ m f) (λ e w, e = HostError ∧ at_tree φ m f w).
Proof.
  intros H1 H2. apply (hoare_io _ _ _ φ φ (λ _, ψ)); auto; [intros t t' []; apply H1|].
  intros t t' e Ht ->%H2. done.
Qed.

Lemma hoare_on_frame g φ m f X : hoare (at_tree φ m f) (on_frame g) (λ _, at_tree φ m (g f)) X.
Proof. intros w (Ht & Hm & Hf & Hw). cbn. repeat split; cbn; try done; [congruence|apply Hw..]. Qed.
Lemma hoare_on_manager g φ m f X : hoare (at_tree φ m f) (on_manager g) (λ _, at_tree φ (g m) f) X.
Proof. intros w (Ht & Hm & Hf & Hw). cbn. repeat split; cbn; try done; [congruence|apply Hw..]. Qed.
Lemma hoare_get_frame φ m f X : hoare (at_tree φ m f) get_frame (λ g w, g = f ∧ at_tree φ m f w) X.
Proof. intros w H. cbn. split; [|done]. apply H. Qed.
Lemma hoare_get_manager φ m f X : hoare (at_tree φ m f) get_manager (λ g w, g = m ∧ at_tree φ m f w) X.
Proof. intros w H. cbn. split; [|done]. apply H. Qed.

Section Calls.
Context `{L : Libs} `{SH : SqliteHost} `{HL : !SqliteHostLaws SH}.

(** Exceptions of [node:fs] leave the tree of the call. *)
Lemma hoare_host {A} (φ : tree → Prop) m f (c : StorageM A) (Q : A → storage → Prop) :
  hoare (at_tree φ m f) c Q (λ e w, e = HostError ∧ at_tree φ m f w) →
  hoare (at_tree φ m f) c Q (λ _, at_tree φ m f).
Proof. intros H. eapply hoare_exn; [exact H|]. by intros e w [_ ?]. Qed.

Lemma hoare_mkdtemp home p (φ : tree → Prop) m f :
  hoare (at_tree φ m f) (mkdtemp home p)
    (λ d w, (∃ s, suffix_ok s ∧ d = home ++ [localStagingPrefix p ++ s]) ∧
            at_tree (λ t', ∃ t, φ t ∧ t !! d = None ∧ (∃ fs, t !! home = Some fs) ∧ t' = <[d := ∅]> t) m f w)
    (λ _, at_tree φ m f).
Proof.
  unfold mkdtemp. eapply (hoare_bind _ _ _ (λ s w, suffix_ok s ∧ at_tree φ m f w)).
  - intros w (Ht & Hm & Hf & Hw1 & Hw2). unfold take_suffix. cbn.
    destruct (ho_suffixes (st_host w)) as [|s l] eqn:E; cbn; rewrite ?E; cbn.
    + split; [by split|]. repeat split; cbn; auto.
    + inversion Hw2. split; [done|]. repeat split; cbn; auto.
  - intros s. apply hoare_pure. intros Hs. eapply hoare_bind.
    + apply hoare_host. unfold mkdir.
      apply (hoare_io_write _ φ (λ t', ∃ t, φ t ∧ t !! (home ++ [localStagingPrefix p ++ s]) = None ∧
        (∃ fs, t !! home = Some fs) ∧ t' = <[home ++ [localStagingPrefix p ++ s] := ∅]> t)).
      * intros t t' Ht Hop. apply fs_mkdir_ok in Hop as (-> & Hn & Hd%is_directory_spec).
        exists t. eauto.
      * apply fs_mkdir_throw.
    + intros [] w Hw. cbn. eauto.
Qed.

Lemma hoare_readFile d n (φ : tree → Prop) m f :
  hoare (at_tree φ m f) (readFile d n) (λ b, at_tree (λ t, φ t ∧ file_at d n t = Some b) m f) (λ _, at_tree φ m f).
Proof.
  apply hoare_host, hoare_io_read. intros t b _. unfold fs_readFile. destruct (file_at d n t); naive_solver.
Qed.

Lemma hoare_stat d n (φ : tree → Prop) m f :
  hoare (at_tree φ m f) (stat_size d n)
    (λ z, at_tree (λ t, φ t ∧ ∃ b, file_at d n t = Some b ∧ z = Z.of_nat (length b)) m f) (λ _, at_tree φ m f).
Proof.
  eapply hoare_bind; [apply hoare_readFile|]. intros b w Hw. cbn. eapply at_tree_mono; [|exact Hw]. naive_solver.
Qed.
Lemma hoare_checksum d n (φ : tree → Prop) m f :
  hoare (at_tree φ m f) (checksum d n)
    (λ h, at_tree (λ t, φ t ∧ ∃ b, file_at d n t = Some b ∧ h = sha256_hex b) m f) (λ _, at_tree φ m f).
Proof.
  eapply hoare_bind; [apply hoare_readFile|]. intros b w Hw. cbn. eapply at_tree_mono; [|exact Hw]. naive_solver.
Qed.

(** A listing of a directory that has no live subdirectory holds exactly the live files. *)
Lemma hoare_readdir d (φ : tree → Prop) m f :
  hoare (at_tree φ m f) (readdir d)
    (λ l, at_tree (λ t, φ t ∧ ∃ fs, t !! d = Some fs ∧ ∃ l', Permutation l l' ∧ l' = file_names d t ++ subdirectories d t) m f)
    (λ e w, e = HostError ∧ at_tree φ m f w).
Proof.
  unfold readdir. eapply hoare_bind.
  - apply (hoare_io_read _ φ (λ r t, (∃ fs, t !! d = Some fs) ∧ r = (file_names d t, subdirectories d t))).
    intros t r _. unfold fs_readdir. destruct (is_directory d t) eqn:E; [|done]. intros [= <-].
    split; [|done]. by apply is_directory_spec.
  - intros r w Hw. cbn. eapply at_tree_mono; [|exact Hw]. cbn. intros t (Ht & (fs & Hfs) & ->).
    split; [done|]. exists fs. split; [done|]. eexists. split; [|done]. apply readdir_order_perm.
Qed.

(** A successful test changes nothing. *)
Lemma hoare_check (b : bool) e (φ : tree → Prop) m f :
  hoare (at_tree φ m f) (lift (guard_throw b e)) (λ _ w, b = true ∧ at_tree φ m f w) (λ _, at_tree φ m f).
Proof. intros w Hw. unfold lift. by destruct b. Qed.
Lemma hoare_lift_at {A} (o : outcome storage_error A) (φ : tree → Prop) m f :
  hoare (at_tree φ m f) (lift o) (λ a w, o = Ok a ∧ at_tree φ m f w) (λ _, at_tree φ m f).
Proof. intros w Hw. unfold lift. by destruct o. Qed.

Lemma hoare_mkdirp d (φ : tree → Prop) m f :
  (∀ t t', φ t → grown d t t' → φ t') →
  hoare (at_tree φ m f) (mkdirp d) (λ _, at_tree φ m f) (λ _, at_tree φ m f).
Proof.
  intros H. apply hoare_host, (hoare_io _ _ _ φ φ (λ _, φ)); auto; intros t t' r Ht Ho; eapply H; eauto;
    pose proof (fs_mkdirp_grown d [] t) as Hg; by rewrite Ho in Hg.
Qed.

Lemma hoare_realpath d (φ : tree → Prop) m f :
  hoare (at_tree φ m f) (realpath d) (λ (r : dpath) w, r = d ∧ at_tree φ m f w) (λ _, at_tree φ m f).
Proof.
  eapply hoare_post; [apply hoare_host, (hoare_io_read _ φ (λ r _, r = d))|].
  - intros t r _. case_match; naive_solver.
  - intros r w (H & Hw). split; [apply H|]. split; [apply H|done].
Qed.

(** Reading without failing. *)
Lemma hoare_io_default {A} (op : tree → outcome errno A) (x : A) (φ : tree → Prop) m f X :
  hoare (at_tree φ m f) (try_catch (io_read op) (λ _, mret x)) (λ _, at_tree φ m f) X.
Proof.
  eapply hoare_try.
  - eapply hoare_post; [apply hoare_host, (hoare_io_read op φ (λ _ _, True)); auto|].
    intros a w Hw. eapply at_tree_mono; [|exact Hw]. naive_solver.
  - intros e w Hw. exact Hw.
Qed.

Lemma hoare_safeBackupDirectory root id (φ : tree → Prop) m f :
  hoare (at_tree φ m f) (safeBackupDirectory root id)
    (λ d w, (d = root ++ [id] ∧ BACKUP_ID id = true) ∧ at_tree φ m f w) (λ _, at_tree φ m f).
Proof.
  eapply hoare_bind; [apply hoare_check|]. intros []. apply hoare_pure. intros Hid.
  eapply hoare_bind; [apply hoare_realpath|]. intros r. apply hoare_pure. intros ->.
  eapply hoare_bind; [apply hoare_io_default|]. intros entry.
  eapply hoare_bind; [apply hoare_check|]. intros []. apply hoare_pure. intros _.
  eapply hoare_bind; [apply hoare_realpath|]. intros r. apply hoare_pure. intros ->.
  eapply hoare_bind; [apply hoare_check|]. intros []. apply hoare_pure. intros _ w Hw. by split.
Qed.

Lemma hoare_read_manifest d (φ : tree → Prop) m f :
  hoare (at_tree φ m f) (read_manifest d)
    (λ raw, at_tree (λ t, φ t ∧ ∃ b, file_at d MANIFEST t = Some b ∧ JSON_parse (utf8_decode b) = Some raw) m f)
    (λ _, at_tree φ m f).
Proof.
  eapply hoare_bind; [apply hoare_readFile|]. intros b.
  eapply hoare_exn; [eapply hoare_post; [apply hoare_lift_at|]|].
  - intros raw w [E%from_option_throw_ok Hw]. eapply at_tree_mono; [|exact Hw]. naive_solver.
  - intros e w Hw. eapply at_tree_mono; [|exact Hw]. naive_solver.
Qed.
End Calls.

Lemma for_each_map {W E A B C : Type} (g : B → eff W E C) (k : A → B) l :
  for_each g (map k l) = for_each (λ a, g (k a)) l.
Proof. induction l as [|a l IH]; cbn [map for_each]; [done|]. by rewrite IH. Qed.

(** ** Live files *)

Lemma List_filter_perm {A : Type} (g : A → bool) l k :
  Permutation l k → Permutation (List.filter g l) (List.filter g k).
Proof.
  induction 1; cbn; repeat case_match; eauto using Permutation_swap, Permutation_trans, perm_skip.
Qed.

Lemma ends_with_suffix w s u : length w ≤ length u → ends_with w (s ++ u) = true → ends_with w u = true.
Proof.
  intros Hl [r Hr]%ends_with_spec. apply ends_with_spec. apply app_eq_inv in Hr as [(k & -> & Hw)|(k & -> & Hw)].
  - exists []. subst. rewrite length_app in Hl. by destruct k; [|cbn in Hl; lia].
  - by exists k.
Qed.

Lemma alnum_no_dash w s : forallb is_alnum s = true → 45%N ∈ w → ends_with w s = true → False.
Proof.
  intros Hs Hw [r ->]%ends_with_spec. rewrite forallb_app in Hs. to_prop.
  by pose proof (proj1 (forallb_true_elem _ _) H0 _ Hw).
Qed.

Lemma staging_not_live p s : suffix_ok s → is_live (localStagingPrefix p ++ s) = false.
Proof.
  intros [Hl Hs]. unfold is_live. apply orb_false_iff. split; [apply orb_false_iff; split|].
  - unfold DATABASE_FILENAME. apply not_true_iff_false. intros (ext & _ & H)%existsb_exists.
    unfold strip_extension in H. case_match; [|done].
    set (k := (length (localStagingPrefix p ++ s) - length ext)%nat) in *. clearbody k.
    destruct (str_eqb _ ext); [|done]. injection H0 as <-. by destruct p, k.
  - apply not_true_iff_false. intros H%ends_with_suffix; [|by apply (bool_decide_unpack _); rewrite Hl; vm_compute].
    eapply alnum_no_dash; [exact Hs| |exact H]. vm_compute. set_solver.
  - apply not_true_iff_false. intros H%ends_with_suffix; [|by apply (bool_decide_unpack _); rewrite Hl; vm_compute].
    eapply alnum_no_dash; [exact Hs| |exact H]. vm_compute. set_solver.
Qed.

Definition live (fs : files) : files := filter (λ kv, is_live kv.1 = true) fs.
Definition rest (fs : files) : files := filter (λ kv, is_live kv.1 = false) fs.

Lemma lookup_live fs n : live fs !! n = if is_live n then fs !! n else None.
Proof.
  unfold live. rewrite map_lookup_filter. destruct (fs !! n) as [b|]; cbn; [|by destruct (is_live n)].
  destruct (is_live n) eqn:E; [by rewrite option_guard_True|by rewrite option_guard_False by (cbn; congruence)].
Qed.
Lemma lookup_rest fs n : rest fs !! n = if is_live n then None else fs !! n.
Proof.
  unfold rest. rewrite map_lookup_filter. destruct (fs !! n) as [b|]; cbn; [|by destruct (is_live n)].
  destruct (is_live n) eqn:E; [by rewrite option_guard_False by (cbn; congruence)|by rewrite option_guard_True].
Qed.
Lemma rest_insert fs n b : is_live n = true → rest (<[n := b]> fs) = rest fs.
Proof.
  intros Hn. apply map_eq. intros k. rewrite !lookup_rest. destruct (is_live k) eqn:E; [done|].
  rewrite lookup_insert_ne; [done|congruence].
Qed.
Lemma rest_delete fs n : is_live n = true → rest (delete n fs) = rest fs.
Proof.
  intros Hn. apply map_eq. intros k. rewrite !lookup_rest. destruct (is_live k) eqn:E; [done|].
  rewrite lookup_delete_ne; [done|congruence].
Qed.
Lemma live_database name : DATABASE_FILENAME name = true → is_live name = true.
Proof. unfold is_live. by intros ->. Qed.

(** ** Listing *)

Section Listing.
Context `{L : Libs} `{SH : SqliteHost} `{HL : !SqliteHostLaws SH}.

Lemma hoare_list_entry root name (φ : tree → Prop) m f X :
  hoare (at_tree φ m f) (list_entry root name) (λ _, at_tree φ m f) X.
Proof.
  unfold list_entry. destruct (negb _); [by intros w Hw|]. eapply (hoare_try _ _ _ _ (λ _, at_tree φ m f)).
  - eapply hoare_bind; [apply hoare_safeBackupDirectory|]. intros d. apply hoare_pure. intros _.
    eapply hoare_bind; [apply hoare_read_manifest|]. intros raw.
    apply (hoare_pre _ (at_tree φ m f)); [intros w; apply at_tree_mono; naive_solver|].
    eapply hoare_bind; [apply hoare_lift_at|]. intros v. apply hoare_pure. intros _.
    destruct (negb _); [by intros w Hw|].
    eapply hoare_bind; [apply hoare_lift_at|]. intros b. apply hoare_pure. by intros _ w Hw.
  - by intros e w Hw.
Qed.

(** Listing the backups changes nothing, apart from making their root. *)
Lemma hoare_list_backups config (φ : tree → Prop) m f :
  (∀ t t', φ t → grown (rc_sqliteBackupRoot config) t t' → φ t') →
  hoare (at_tree φ m f) (list_backups config) (λ _, at_tree φ m f) (λ _, at_tree φ m f).
Proof.
  intros Hg. eapply hoare_bind; [by apply hoare_mkdirp|]. intros [].
  eapply (hoare_bind _ _ _ (λ _, at_tree φ m f)).
  { eapply hoare_bind; [apply hoare_host, (hoare_io_read _ φ (λ _ _, True)); auto|]. intros r w Hw. cbn.
    eapply at_tree_mono; [|exact Hw]. naive_solver. }
  intros names. eapply hoare_bind; [apply (hoare_for_each_inv _ (at_tree φ m f)); intros; apply hoare_list_entry|].
  by intros found w Hw.
Qed.

Lemma hoare_select_backup config id (φ : tree → Prop) m f :
  (∀ t t', φ t → grown (rc_sqliteBackupRoot config) t t' → φ t') →
  hoare (at_tree φ m f) (select_backup config id)
    (λ r w, (str_eqb id (js "latest") = false → r = id) ∧ at_tree φ m f w) (λ _, at_tree φ m f).
Proof.
  intros Hg. unfold select_backup. destruct (str_eqb id _).
  - eapply hoare_bind; [by apply hoare_list_backups|]. intros bs.
    eapply hoare_post; [apply hoare_lift_at|]. by intros a w [_ Hw].
  - eapply hoare_bind; [apply hoare_check|]. intros []. apply hoare_pure. by intros _ w Hw.
Qed.
End Listing.

(** ** Restore *)

Section Restore.
Context `{L : Libs} `{SH : SqliteHost} `{HL : !SqliteHostLaws SH}.
Variables (home root : dpath) (t0 : tree) (H0 : files).
Hypothesis home_not_above : below home root = false.

(** No directory of the home has the name of a live file. *)
Definition plain_home (t : tree) : Prop := ∀ n, is_live n = true → t !! (home ++ [n]) = None.
Definition files_of (t : tree) : files := default ∅ (t !! home).

(** Before the live files are touched. *)
Record untouched (t : tree) : Prop := {
  un_plain : plain_home t;
  un_home : files_of t = H0;
  un_old : ∀ d fs, t !! d = Some fs → fs ≠ ∅ → t0 !! d = Some fs;
}.

Lemma plain_grown t t' : plain_home t → grown root t t' → plain_home t'.
Proof.
  intros H Hg n Hn. destruct (Hg (home ++ [n])) as [->|(_ & _ & Hb)]; [auto|].
  apply below_spec in Hb as [r Hr]. assert (below home root = true); [|congruence].
  apply below_spec. exists ([n] ++ r). by rewrite Hr, <- app_assoc.
Qed.
Lemma untouched_grown t t' : untouched t → grown root t t' → untouched t'.
Proof.
  intros [H1 H2 H3] Hg. split; [by eapply plain_grown| |].
  - rewrite <- H2. unfold files_of. destruct (Hg home) as [->|(-> & -> & _)]; done.
  - intros d fs Hd Hne. destruct (Hg d) as [E|(_ & E & _)]; rewrite E in Hd; [auto|by injection Hd as <-].
Qed.

(** Adding a staging directory. *)
Lemma plain_new_stage p s t : suffix_ok s → plain_home t → plain_home (<[home ++ [localStagingPrefix p ++ s] := ∅]> t).
Proof.
  intros Hs H n Hn. rewrite lookup_insert_ne; [auto|]. intros E%app_inv_head.
  assert (localStagingPrefix p ++ s = n) as <- by exact (f_equal (λ l, default [] (head l)) E).
  by rewrite staging_not_live in Hn.
Qed.
Lemma plain_put d n b t : plain_home t → plain_home (put d n b t).
Proof. intros H k Hk. apply put_none. auto. Qed.
Lemma plain_drop d n t : plain_home t → plain_home (drop_file d n t).
Proof. intros H k Hk. apply drop_none. auto. Qed.
Lemma plain_rm force d t : plain_home t → plain_home (fs_rm_tree force d t).1.
Proof. intros H k Hk. apply rm_tree_none. auto. Qed.

(** *** Setting the live files aside *)

Section Moves.
Variables (stage safety : dpath) (S : files).
Hypotheses (stage_home : stage ≠ home) (safety_home : safety ≠ home) (stage_safety : stage ≠ safety).

(** The original files are split between the home and the safety copy, which holds [D]. *)
Definition split_files (D : gset str) (t : tree) : Prop :=
  plain_home t ∧ t !! stage = Some S ∧
  ∃ Hh Ss, t !! home = Some Hh ∧ t !! safety = Some Ss ∧ Hh ##ₘ Ss ∧ Hh ∪ Ss = H0 ∧ dom Ss = D.

(** Moving a file between two directories. *)
Lemma rename_moves a b n fa fb t t' u :
  t !! a = Some fa → t !! b = Some fb → a ≠ b → (fa !! n = None → t !! (a ++ [n]) = None) →
  fs_rename a n b n t = (t', Ok u) →
  ∃ x, fa !! n = Some x ∧ t' = put b n x (drop_file a n t) ∧
       t' !! a = Some (delete n fa) ∧ t' !! b = Some (<[n := x]> fb) ∧ (∀ d, d ≠ a → d ≠ b → t' !! d = t !! d).
Proof.
  intros Ha Hb Hab Hn H. destruct (fa !! n) as [x|] eqn:Ex.
  - rewrite (fs_rename_file _ _ _ _ x) in H by (unfold file_at; by rewrite Ha).
    destruct (is_directory (b ++ [n]) t); [done|]. destruct (negb (is_directory b t)); [done|]. injection H as <- <-.
    exists x. split_and!; [done|done| | |].
    + rewrite put_other by done. by apply drop_same.
    + apply put_same. by rewrite drop_other.
    + intros d Hd1 Hd2. by rewrite put_other, drop_other.
  - unfold fs_rename, file_at in H. rewrite Ha in H. cbn in H. rewrite Ex in H.
    by rewrite (proj2 (not_directory _ _) (Hn eq_refl)) in H.
Qed.

Lemma move_out D n t t' u :
  is_live n = true → split_files D t → fs_rename home n safety n t = (t', Ok u) → split_files (D ∪ {[n]}) t'.
Proof.
  intros Hn (Hp & Hst & Hh & Ss & H1 & H2 & Hd & Hu & HD) H.
  eapply rename_moves in H as (x & Hx & -> & Ha & Hb & Ho); eauto.
  assert (Ss !! n = None) as Hsn by (eapply map_disjoint_Some_l; eauto).
  split_and!; [by apply plain_put, plain_drop|by rewrite Ho|].
  exists (delete n Hh), (<[n := x]> Ss). split_and!; [done|done| | |].
  - apply map_disjoint_insert_r. rewrite lookup_delete_eq. split; [done|]. by apply map_disjoint_delete_l.
  - rewrite <- insert_union_r by apply lookup_delete_eq.
    rewrite insert_union_l, insert_delete_id by done. done.
  - rewrite dom_insert_L. set_solver.
Qed.

Lemma move_in D n t t' u :
  n ∈ D → split_files D t → fs_rename safety n home n t = (t', Ok u) → split_files (D ∖ {[n]}) t'.
Proof.
  intros Hn (Hp & Hst & Hh & Ss & H1 & H2 & Hd & Hu & HD) H.
  assert (is_Some (Ss !! n)) as [y Hy] by (apply elem_of_dom; by rewrite HD).
  eapply rename_moves in H as (x & Hx & -> & Ha & Hb & Ho); eauto; [|by rewrite Hy].
  assert (Hh !! n = None) as Hsn by (eapply map_disjoint_Some_r; eauto).
  split_and!; [by apply plain_put, plain_drop|by rewrite Ho|].
  exists (<[n := x]> Hh), (delete n Ss). split_and!; [done|done| | |].
  - apply map_disjoint_insert_l. rewrite lookup_delete_eq. split; [done|]. by apply map_disjoint_delete_r.
  - rewrite <- insert_union_l, insert_union_r by done. by rewrite insert_delete_id.
  - rewrite dom_delete_L. set_solver.
Qed.

(** Every original file is in the home, or live and in the safety copy. *)
Definition covered (t : tree) : Prop :=
  ∀ n b, H0 !! n = Some b → file_at home n t = Some b ∨ (is_live n = true ∧ file_at safety n t = Some b).
Definition closed_manager (m : manager) : manager := Manager OpRestore (mg_lastFailure m) true.
Definition named (f : frame) (l : list str) : frame :=
  Frame (fr_local f) (fr_durable f) (fr_stage f) (fr_safety f) (fr_movedCurrent f) l.

Lemma split_covered D t : (∀ n, n ∈ D → is_live n = true) → split_files D t → covered t.
Proof.
  intros HD (_ & _ & Hh & Ss & H1 & H2 & Hd & Hu & HDs) n b Hb. unfold file_at. rewrite H1, H2. cbn.
  rewrite <- Hu in Hb. apply lookup_union_Some in Hb as [Hb|Hb]; [by left|right|done].
  split; [|done]. apply HD. rewrite <- HDs. by eapply elem_of_dom_2.
Qed.

Lemma covered_put_marker b t : covered t → covered (put safety RECOVERY_MARKER b t).
Proof.
  intros H n x Hn. unfold file_at. rewrite put_other by done. destruct (H n x Hn) as [Hx|[Hl Hx]]; [by left|right].
  split; [done|]. unfold file_at in Hx. destruct (t !! safety) as [fs|] eqn:E; [|done]. cbn in Hx.
  rewrite (put_same _ _ _ _ _ E). cbn. rewrite lookup_insert_ne; [done|]. intros <-. by vm_compute in Hl.
Qed.

(** Failing closed keeps every original and never fails itself. *)
Lemma hoare_fail_closed {A} m f (Q : A → storage → Prop) :
  hoare (at_tree covered m f) (fail_closed safety) Q
    (λ e w, e = rollback_failed ∧ at_tree covered (closed_manager m) f w).
Proof.
  unfold fail_closed. eapply hoare_bind; [apply hoare_on_manager|]. intros [].
  eapply hoare_bind; [apply hoare_on_manager|]. intros [].
  eapply (hoare_bind _ _ _ (λ _, at_tree covered (closed_manager m) f)); [|intros [] w Hw; by split].
  eapply (hoare_try _ _ _ _ (λ _, at_tree covered (closed_manager m) f)); [|by intros e w Hw].
  apply hoare_host, (hoare_io _ _ _ covered covered (λ _, covered)); auto.
  - intros t t' [] Hc [ -> | -> ]%fs_writeFile_cases; [done|]. by apply covered_put_marker.
  - intros t t' x Hc [ -> | -> ]%fs_writeFile_cases; [done|]. by apply covered_put_marker.
  - intros k t Hc. unfold truncated. destruct (fs_writeFile _ _ _ _ _) as [t' r] eqn:E.
    apply fs_writeFile_cases in E as [ -> | -> ]; [done|]. by apply covered_put_marker.
Qed.

(** The files of the home are the original ones. *)
Definition calm (t : tree) : Prop := plain_home t ∧ files_of t = H0.

Lemma split_empty_calm t : split_files ∅ t → calm t.
Proof.
  intros (Hp & _ & Hh & Ss & H1 & H2 & Hd & Hu & HD%dom_empty_inv_L). split; [done|].
  unfold files_of. rewrite H1. cbn. subst Ss. by rewrite map_union_empty in Hu.
Qed.
Lemma rm_calm force d t : below d home = false → calm t → calm (fs_rm_tree force d t).1.
Proof. intros Hb [H1 H2]. split; [by apply plain_rm|]. unfold files_of. by rewrite rm_tree_other. Qed.

Lemma hoare_rm_tree d (φ : tree → Prop) m f :
  (∀ t, φ t → φ (fs_rm_tree true d t).1) →
  hoare (at_tree φ m f) (rm_tree true d) (λ _, at_tree φ m f) (λ e w, e = HostError ∧ at_tree φ m f w).
Proof.
  intros H. apply (hoare_io _ _ _ φ φ (λ _, φ)); auto.
  - intros t t' [] Ht Ho. specialize (H t Ht). by rewrite Ho in H.
  - intros t t' x Ht Ho. specialize (H t Ht). by rewrite Ho in H.
Qed.

Hypothesis home_not_in_safety : below safety home = false.

(** How a failed call ends: the originals are back, as [φ] says, or it failed closed. *)
Definition ended (φ : tree → Prop) (m : manager) (f : frame) (e : storage_error) (w : storage) : Prop :=
  (∃ s l, (s = None ∨ s = Some safety) ∧
          at_tree φ m (Frame (fr_local f) (fr_durable f) (fr_stage f) s (fr_movedCurrent f) l) w) ∨
  (∃ l, e = rollback_failed ∧ at_tree covered (closed_manager m) (named f l) w).

Lemma hoare_undo_moves {A} names m f (Q : A → storage → Prop) :
  NoDup names → Forall (λ n, is_live n = true) names →
  hoare (at_tree (split_files (list_to_set names)) m (named f names)) (undo_moves home safety) Q (ended calm m f).
Proof.
  intros Hnd Hl. unfold undo_moves.
  eapply (hoare_try _ _ _ _ (λ e w, if is_rolled_back e then ended calm m f e w
                                    else at_tree covered m (named f names) w)).
  2:{ intros e. destruct (is_rolled_back e); [by intros w Hw|].
      eapply hoare_exn; [apply hoare_fail_closed|]. intros e' w [-> Hw]. right. eauto. }
  eapply hoare_bind; [apply hoare_get_frame|]. intros g. apply hoare_pure. intros ->. cbn [fr_names named].
  set (I := λ done : list str, at_tree (split_files (list_to_set (drop (length done) (reverse names)))) m (named f names)).
  assert (∀ l, l ⊆ names → ∀ t, split_files (list_to_set l) t → covered t) as Hcov.
  { intros l Hsub t. apply split_covered. intros n Hn%elem_of_list_to_set. rewrite Forall_forall in Hl. auto. }
  eapply (hoare_bind _ _ _ (λ _, I (reverse names))).
  - apply (hoare_pre _ (I [])).
    { intros w. apply at_tree_mono. intros t. cbn. rewrite drop_0.
      by replace (list_to_set (reverse names) : gset str) with (list_to_set names : gset str) by set_solver. }
    apply (hoare_for_each _ I). intros done n todo Hr. unfold I.
    assert (drop (length done) (reverse names) = n :: todo) as -> by by rewrite Hr, drop_app_length.
    assert (drop (length (done ++ [n])) (reverse names) = todo) as ->.
    { rewrite Hr. replace (done ++ n :: todo) with ((done ++ [n]) ++ todo) by by rewrite <- app_assoc.
      apply drop_app_length. }
    assert (n ∉ todo) as Hn.
    { rewrite <- (reverse_Permutation names), Hr in Hnd. apply NoDup_app in Hnd as (_ & _ & Hnd).
      by apply NoDup_cons in Hnd as [? _]. }
    eapply hoare_exn; [apply hoare_io_write; [|apply fs_rename_throw]|].
    + intros t t' Ht Ho. eapply move_in in Ho; [|by apply elem_of_list_to_set, list_elem_of_here|exact Ht].
      by replace (list_to_set (n :: todo) ∖ {[n]} : gset str) with (list_to_set todo : gset str) in Ho by set_solver.
    + intros e w [-> Hw]. cbn. eapply at_tree_mono; [|exact Hw]. apply Hcov.
      intros x Hx. apply elem_of_reverse. rewrite Hr. set_solver.
  - intros _. unfold I. rewrite drop_ge by lia. cbn [list_to_set].
    apply (hoare_pre _ (at_tree (λ t, split_files ∅ t) m (named f names))); [by intros w|].
    eapply (hoare_bind _ _ _ (λ _, at_tree calm m (named f names))).
    + apply (hoare_pre _ (at_tree (λ t, calm t ∧ covered t) m (named f names))).
      { intros w. apply at_tree_mono. intros t Ht. split; [by apply split_empty_calm|].
        apply (Hcov []); [set_solver|done]. }
      eapply hoare_exn; [eapply hoare_post|].
      * apply (hoare_rm_tree safety (λ t, calm t ∧ covered t)). intros t [Hc _]. split; [by apply rm_calm|].
        intros n b Hb. left. unfold file_at. rewrite rm_tree_other by done. destruct Hc as [_ Hc].
        unfold files_of in Hc. destruct (t !! home); cbn in *; [by rewrite Hc|by rewrite <- Hc in Hb].
      * intros a w. apply at_tree_mono. naive_solver.
      * intros e w [-> Hw]. cbn. eapply at_tree_mono; [|exact Hw]. naive_solver.
    + intros []. eapply hoare_bind; [apply hoare_on_frame|]. intros [] w Hw. left. exists None, names.
      split; [by left|]. exact Hw.
Qed.

(** All live files are in the safety copy. *)
Definition aside (t : tree) : Prop :=
  plain_home t ∧ t !! stage = Some S ∧ t !! safety = Some (live H0) ∧ t !! home = Some (rest H0).

Lemma split_aside D t :
  (∀ n, n ∈ D ↔ is_live n = true ∧ is_Some (H0 !! n)) → split_files D t → aside t.
Proof.
  intros HD (Hp & Hst & Hh & Ss & H1 & H2 & Hd & Hu & HDs). split_and!; [done|done| |].
  - rewrite H2. f_equal. apply map_eq. intros n. rewrite lookup_live, <- Hu, lookup_union.
    specialize (HD n). rewrite <- HDs, elem_of_dom, <- Hu, lookup_union in HD.
    pose proof (Hd n) as Hdn. destruct (Hh !! n), (Ss !! n), (is_live n); cbn in *; try done; naive_solver.
  - rewrite H1. f_equal. apply map_eq. intros n. rewrite lookup_rest, <- Hu, lookup_union.
    specialize (HD n). rewrite <- HDs, elem_of_dom, <- Hu, lookup_union in HD.
    pose proof (Hd n) as Hdn. destruct (Hh !! n), (Ss !! n), (is_live n); cbn in *; try done; naive_solver.
Qed.

(** The live names of a listing of the home are those of its live files. *)
Lemma live_entries fs l t :
  plain_home t → t !! home = Some fs → Permutation l (file_names home t ++ subdirectories home t) →
  NoDup (List.filter is_live l) ∧ Forall (λ n, is_live n = true) (List.filter is_live l) ∧
  (∀ n, n ∈ List.filter is_live l ↔ is_live n = true ∧ is_Some (fs !! n)).
Proof.
  intros Hp Hfs Hl.
  assert (∀ n, n ∈ l → is_live n = true → n ∈ file_names home t) as Hin.
  { intros n Hn Hln. rewrite Hl in Hn. apply elem_of_app in Hn as [Hn|Hn]; [done|].
    apply subdirectories_spec in Hn. rewrite (Hp n Hln) in Hn. by destruct Hn. }
  assert (∀ n, n ∈ List.filter is_live l ↔ n ∈ l ∧ is_live n = true) as Hf.
  { intros n. rewrite !list_elem_of_In, filter_In. done. }
  split_and!.
  - assert (List.filter is_live (subdirectories home t) = []) as E.
    { destruct (List.filter is_live (subdirectories home t)) as [|x r] eqn:E; [reflexivity|]. exfalso.
      assert (In x (List.filter is_live (subdirectories home t))) as [Hx Hxl]%filter_In by (rewrite E; by left).
      apply list_elem_of_In, subdirectories_spec in Hx. rewrite (Hp x Hxl) in Hx. by destruct Hx. }
    assert (Permutation (List.filter is_live l) (List.filter is_live (file_names home t))) as ->.
    { rewrite <- (app_nil_r (List.filter is_live (file_names home t))), <- E, <- List.filter_app.
      by apply List_filter_perm. }
    apply NoDup_ListNoDup, List.NoDup_filter, NoDup_ListNoDup, NoDup_file_names.
  - apply Forall_forall. intros n [_ Hn]%Hf. done.
  - intros n. rewrite Hf. split.
    + intros [Hn Hln]. split; [done|]. specialize (Hin n Hn Hln). apply file_names_spec in Hin.
      unfold file_at in Hin. by rewrite Hfs in Hin.
    + intros [Hln Hn]. split; [|done]. rewrite Hl. apply elem_of_app. left. apply file_names_spec.
      unfold file_at. by rewrite Hfs.
Qed.

Lemma hoare_set_aside m f :
  fr_safety f = Some safety →
  hoare (at_tree (split_files ∅) m (named f [])) (set_aside home safety)
    (λ _ w, ∃ l, at_tree aside m (named f l) w) (ended calm m f).
Proof.
  intros Hsf. unfold set_aside. eapply hoare_bind.
  { eapply hoare_exn; [apply hoare_readdir|]. intros e w [_ Hw]. left. exists (Some safety), [].
    split; [by right|]. rewrite <- Hsf. eapply at_tree_mono; [|exact Hw]. apply split_empty_calm. }
  intros entries. set (names := List.filter is_live entries).
  apply (hoare_pre _ (λ w, (NoDup names ∧ Forall (λ n, is_live n = true) names ∧
    (∀ n, n ∈ names ↔ is_live n = true ∧ is_Some (H0 !! n))) ∧ at_tree (split_files ∅) m (named f []) w)).
  { intros w ((Hs & fs & Hfs & l' & Hp & ->) & Hw). split; [|by split].
    pose proof (split_empty_calm _ Hs) as [Hpl Hfo]. unfold files_of in Hfo. rewrite Hfs in Hfo. cbn in Hfo. subst fs.
    by eapply live_entries. }
  apply hoare_pure. intros (Hnd & Hlive & Hspec).
  set (I := λ done : list str, at_tree (split_files (list_to_set done)) m (named f done)).
  eapply (hoare_try _ _ _ _ (λ _ w, ∃ done todo, names = done ++ todo ∧ I done w)).
  - eapply (hoare_bind _ _ _ (λ _, I names)).
    + apply (hoare_for_each _ I). intros done n todo Hr. unfold move_to_safety, I. eapply hoare_bind.
      * eapply hoare_exn; [apply (hoare_io_write _ _ (split_files (list_to_set (done ++ [n])))); [|apply fs_rename_throw]|].
        -- intros t t' Ht Ho. eapply move_out in Ho; [| |exact Ht].
           ++ by replace (list_to_set (done ++ [n]) : gset str) with (list_to_set done ∪ {[n]} : gset str) by set_solver.
           ++ rewrite Forall_forall in Hlive. apply Hlive. rewrite Hr. set_solver.
        -- intros e w [_ Hw]. eauto.
      * intros []. apply hoare_on_frame.
    + intros _ w Hw. exists names. eapply at_tree_mono; [|exact Hw]. intros t. apply split_aside.
      intros n. rewrite elem_of_list_to_set. apply Hspec.
  - intros e. apply hoare_exists. intros done. apply hoare_exists. intros todo. apply hoare_pure. intros Hr.
    rewrite Hr in Hnd, Hlive. apply NoDup_app in Hnd as (Hnd & _ & _). apply Forall_app in Hlive as [Hlive _].
    by apply hoare_undo_moves.
Qed.

(** *** Replacing the live files, and putting them back *)

Section Replace.
Variables (B : files) (names : list str).
Hypotheses (names_nodup : NoDup names) (names_live : ∀ n, n ∈ names → is_live n = true)
  (names_in : ∀ n, n ∈ names → is_Some (B !! n)).

Definition restrict (l : list str) (fs : files) : files := filter (λ kv, kv.1 ∈ l) fs.
Lemma lookup_restrict l fs n : restrict l fs !! n = if decide (n ∈ l) then fs !! n else None.
Proof.
  unfold restrict. rewrite map_lookup_filter. destruct (fs !! n) as [b|]; cbn; [|by case_decide].
  case_decide; [by rewrite option_guard_True|by rewrite option_guard_False].
Qed.

(** The databases [done] of the backup are in the home, the others still staged. *)
Definition swapped (done : list str) (t : tree) : Prop :=
  plain_home t ∧ t !! safety = Some (live H0) ∧
  ∃ Hh Sg, t !! home = Some Hh ∧ rest Hh = rest H0 ∧ live Hh = restrict done B ∧
           t !! stage = Some Sg ∧ ∀ n, n ∈ names → n ∉ done → Sg !! n = B !! n.
(** The live files of the home, if any, come from the backup. *)
Definition replaced (t : tree) : Prop :=
  plain_home t ∧ t !! safety = Some (live H0) ∧
  ∃ Hh, t !! home = Some Hh ∧ rest Hh = rest H0 ∧ ∀ n b, live Hh !! n = Some b → B !! n = Some b.

Lemma swapped_replaced done t : swapped done t → replaced t.
Proof.
  intros (H1 & H2 & Hh & Sg & H3 & H4 & H5 & _). split_and!; [done|done|]. exists Hh. split_and!; [done|done|].
  intros n b. rewrite H5, lookup_restrict. by case_decide.
Qed.

Lemma aside_swapped t : (∀ n, n ∈ names → S !! n = B !! n) → aside t → swapped [] t.
Proof.
  intros HS (H1 & H2 & H3 & H4). split_and!; [done|done|]. exists (rest H0), S. split_and!; auto.
  - apply map_eq. intros n. rewrite !lookup_rest. by destruct (is_live n).
  - apply map_eq. intros n. rewrite lookup_live, lookup_rest, lookup_restrict. by destruct (is_live n).
Qed.

Lemma replaced_covered t : replaced t → covered t.
Proof.
  intros (_ & H2 & Hh & H3 & H4 & _) n b Hb. unfold file_at. rewrite H2, H3. cbn. rewrite lookup_live.
  destruct (is_live n) eqn:E; [by right|left].
  assert (rest Hh !! n = rest H0 !! n) as Hr by by rewrite H4. rewrite !lookup_rest, E in Hr. congruence.
Qed.

Lemma swap_in done n t t' u :
  n ∈ names → n ∉ done → swapped done t → fs_rename stage n home n t = (t', Ok u) → swapped (done ++ [n]) t'.
Proof.
  intros Hn Hd (H1 & H2 & Hh & Sg & H3 & H4 & H5 & H6 & H7) H.
  destruct (names_in n Hn) as [x0 Hx0].
  eapply rename_moves in H as (x & Hx & -> & Ha & Hb & Ho); eauto; [|by rewrite H7, Hx0].
  split_and!; [by apply plain_put, plain_drop|by rewrite Ho|].
  exists (<[n := x]> Hh), (delete n Sg). split_and!; auto.
  - rewrite rest_insert; auto.
  - apply map_eq. intros k. rewrite lookup_live, lookup_restrict.
    assert (live Hh !! k = restrict done B !! k) as Hk by by rewrite H5. rewrite lookup_live, lookup_restrict in Hk.
    destruct (decide (k = n)) as [->|Hkn].
    + rewrite lookup_insert_eq, (names_live n Hn), decide_True by set_solver. by rewrite <- (H7 n Hn Hd).
    + rewrite lookup_insert_ne by done. rewrite Hk. destruct (decide (k ∈ done)), (decide (k ∈ done ++ [n])); set_solver.
  - intros k Hk Hkd. rewrite lookup_delete_ne by set_solver. apply H7; set_solver.
Qed.

Lemma hoare_swap m f :
  hoare (at_tree (swapped []) m f) (for_each (λ n, rename stage n home n) names)
    (λ _, at_tree (swapped names) m f) (λ _, at_tree replaced m f).
Proof.
  apply (hoare_for_each _ (λ done, at_tree (swapped done) m f)). intros done n todo Hr.
  eapply hoare_exn; [apply hoare_io_write; [|apply fs_rename_throw]|].
  - intros t t' Ht Ho. eapply swap_in; [| |exact Ht|exact Ho].
    + rewrite Hr. set_solver.
    + rewrite Hr in names_nodup. apply NoDup_app in names_nodup as (_ & Hd & _). intros Hn. apply (Hd n Hn). set_solver.
  - intros e w [_ Hw]. eapply at_tree_mono; [|exact Hw]. apply swapped_replaced.
Qed.

(** What a completed rollback leaves: the originals, and possibly live files of the backup that
    were not there before. *)
Definition rolled (t : tree) : Prop :=
  H0 ⊆ files_of t ∧
  ∀ n b, files_of t !! n = Some b → H0 !! n = Some b ∨ (is_live n = true ∧ B !! n = Some b).

Lemma calm_rolled t : calm t → rolled t.
Proof. unfold rolled. intros [_ ->]. split; [done|]. by left. Qed.

(** The copies [done] of the safety copy are back in the home. *)
Definition putting_back (done : list str) (t : tree) : Prop :=
  plain_home t ∧ t !! safety = Some (live H0) ∧
  ∃ Hh, t !! home = Some Hh ∧ rest Hh = rest H0 ∧
    (∀ n b, n ∈ done → live H0 !! n = Some b → Hh !! n = Some b) ∧
    (∀ n b, live Hh !! n = Some b → live H0 !! n = Some b ∨ B !! n = Some b).

Lemma putting_back_covered done t : putting_back done t → covered t.
Proof.
  intros (_ & H2 & Hh & H3 & H4 & _) n b Hb. unfold file_at. rewrite H2, H3. cbn. rewrite lookup_live.
  destruct (is_live n) eqn:E; [by right|left].
  assert (rest Hh !! n = rest H0 !! n) as Hr by by rewrite H4. rewrite !lookup_rest, E in Hr. congruence.
Qed.

Lemma copy_back done n t t' u :
  putting_back done t → fs_copyFile safety n home n t = (t', Ok u) → putting_back (done ++ [n]) t'.
Proof.
  intros (H1 & H2 & Hh & H3 & H4 & H5 & H6) (b & fs & Hb & Hfs & Hn & ->)%fs_copyFile_ok.
  rewrite H3 in Hfs. injection Hfs as <-. unfold file_at in Hb. rewrite H2 in Hb. cbn in Hb.
  assert (is_live n = true) as Hl by (rewrite lookup_live in Hb; by destruct (is_live n)).
  split_and!; [by apply plain_put|by rewrite put_other|].
  exists (<[n := b]> Hh). split_and!; [by apply put_same|by rewrite rest_insert| |].
  - intros k x Hk Hx. destruct (decide (k = n)) as [->|Hkn]; [rewrite lookup_insert_eq; congruence|].
    rewrite lookup_insert_ne by done. apply H5; [set_solver|done].
  - intros k x. rewrite lookup_live. destruct (is_live k) eqn:Ek; [|done].
    destruct (decide (k = n)) as [->|Hkn]; [rewrite lookup_insert_eq; intros [= <-]; by left|].
    rewrite lookup_insert_ne by done. intros Hx. apply H6. by rewrite lookup_live, Ek.
Qed.

(** A copy that stops half-way writes to the home only. *)
Lemma copy_back_short done n k t :
  putting_back done t →
  covered match file_at safety n t with Some b => truncated (fs_writeFile true home n) b k t | None => t end.
Proof.
  intros Hp. pose proof (putting_back_covered _ _ Hp) as Hc. destruct (file_at safety n t) as [b|] eqn:Eb; [|done].
  unfold truncated. destruct (fs_writeFile true home n (take k b) t) as [t' r] eqn:E. cbn.
  apply fs_writeFile_new in E as [->|(fs & Hfs & Hn & ->)]; [done|]. intros x y Hxy. unfold file_at.
  rewrite (put_other _ _ _ _ safety) by done. rewrite (put_same _ _ _ _ _ Hfs). cbn.
  destruct (Hc x y Hxy) as [Hx|Hx]; [left|by right]. unfold file_at in Hx. rewrite Hfs in Hx. cbn in Hx.
  rewrite lookup_insert_ne; [done|]. congruence.
Qed.

Lemma put_back_rolled saved t :
  (∀ n, is_Some (live H0 !! n) → n ∈ saved) → putting_back saved t → rolled t.
Proof.
  intros Hs (H1 & H2 & Hh & H3 & H4 & H5 & H6). unfold rolled, files_of. rewrite H3. cbn.
  assert (∀ n, is_live n = false → Hh !! n = H0 !! n) as Hr.
  { intros n E. assert (rest Hh !! n = rest H0 !! n) as Hr by by rewrite H4. by rewrite !lookup_rest, E in Hr. }
  split.
  - apply map_subseteq_spec. intros n b Hb. destruct (is_live n) eqn:E; [|by rewrite Hr].
    apply H5; [apply Hs|]; rewrite lookup_live, E; eauto.
  - intros n b Hb. destruct (is_live n) eqn:E; [|left; by rewrite <- Hr].
    destruct (H6 n b) as [Hx|Hx]; [by rewrite lookup_live, E| |by right]. rewrite lookup_live, E in Hx. by left.
Qed.

Lemma ended_mono (φ ψ : tree → Prop) m f e w : (∀ t, φ t → ψ t) → ended φ m f e w → ended ψ m f e w.
Proof.
  intros H [(s & l & Hs & Hw)|Hc]; [|by right]. left. exists s, l. split; [done|]. by eapply at_tree_mono.
Qed.

Section Hooks.
Variable h : hooks.
Hypotheses (close_quiet : quiet (closeAndWait h)) (ready_quiet : quiet (ready h)).

Lemma hoare_remove_live l m f :
  Forall (λ n, is_live n = true) l →
  hoare (at_tree replaced m f) (for_each (rm_file home) l) (λ _, at_tree replaced m f) (λ e w, e = HostError ∧ at_tree replaced m f w).
Proof.
  intros Hl. apply hoare_for_each_inv. intros n Hn. rewrite Forall_forall in Hl. specialize (Hl n Hn).
  apply hoare_io_write; [|by intros t t' x; unfold fs_rm_file; case_match; naive_solver].
  intros t t' (H1 & H2 & Hh & H3 & H4 & H5). unfold fs_rm_file. case_match; [done|]. intros [= <-].
  split_and!; [by apply plain_drop|by rewrite drop_other|]. exists (delete n Hh).
  split_and!; [by apply drop_same|by rewrite rest_delete|]. intros k b Hk. apply H5. rewrite lookup_live in *.
  destruct (is_live k); [|done]. by apply lookup_delete_Some in Hk as [_ Hk].
Qed.

Lemma hoare_copy_back saved m f :
  hoare (at_tree replaced m f) (for_each (λ n, copyFile safety n home n) saved)
    (λ _, at_tree (putting_back saved) m f) (λ e w, e = HostError ∧ at_tree covered m f w).
Proof.
  apply (hoare_pre _ (at_tree (putting_back []) m f)).
  { intros w. apply at_tree_mono. intros t (H1 & H2 & Hh & H3 & H4 & H5). split_and!; [done|done|]. exists Hh.
    split_and!; [done|done|set_solver|]. auto. }
  apply (hoare_for_each _ (λ done, at_tree (putting_back done) m f)). intros done n todo _.
  apply (hoare_io _ _ _ _ covered (λ _, putting_back (done ++ [n]))).
  - intros t t' u Ht Ho. by eapply copy_back.
  - intros t t' x Ht ->%fs_copyFile_throw. by eapply putting_back_covered.
  - apply putting_back_covered.
  - intros k t. apply copy_back_short.
Qed.

(** Putting back ends with the originals in place, or throws with every original covered. *)
Definition put_back_end (m : manager) (f : frame) (e : storage_error) (w : storage) : Prop :=
  if is_rolled_back e then ended rolled m f e w else at_tree covered m f w.

Lemma rolled_covered_end m f e w :
  fr_safety f = Some safety → at_tree (λ t, rolled t ∧ covered t) m f w → put_back_end m f e w.
Proof.
  intros Hf Hw. unfold put_back_end. destruct (is_rolled_back e).
  - left. exists (Some safety), (fr_names f). split; [by right|]. destruct f as [a b c d g i]. cbn in *. subst d.
    eapply at_tree_mono; [|exact Hw]. naive_solver.
  - eapply at_tree_mono; [|exact Hw]. naive_solver.
Qed.

Lemma hoare_put_back {A : Type} m f (Q : A → storage → Prop) :
  fr_safety f = Some safety → hoare (at_tree replaced m f) (put_back home safety h) Q (put_back_end m f).
Proof.
  intros Hf. unfold put_back.
  eapply (hoare_bind _ _ _ (λ l w, Forall (λ n, is_live n = true) (List.filter is_live l) ∧ at_tree replaced m f w)).
  { assert (∀ l, Forall (λ n, is_live n = true) (List.filter is_live l)) as Hl.
    { intros l. apply Forall_forall. intros n Hn%list_elem_of_In. by apply List.filter_In in Hn as [_ ?]. }
    eapply (hoare_try _ _ _ _ (λ _, at_tree replaced m f)).
    - eapply hoare_post; [apply hoare_host, hoare_readdir|]. intros l w Hw. split; [done|]. eapply at_tree_mono; [|exact Hw]. naive_solver.
    - intros e w Hw. by split. }
  intros entries. apply hoare_pure. intros Hl.
  eapply hoare_bind; [eapply hoare_exn; [by apply hoare_remove_live|]|].
  { intros e w [-> Hw]. eapply at_tree_mono; [|exact Hw]. apply replaced_covered. }
  intros ?. eapply hoare_bind; [eapply hoare_exn; [apply hoare_readdir|]|].
  { intros e w [-> Hw]. eapply at_tree_mono; [|exact Hw]. apply replaced_covered. }
  intros saved.
  apply (hoare_pre _ (λ w, (∀ n, is_Some (live H0 !! n) → n ∈ saved) ∧ at_tree replaced m f w)).
  { intros w ((Hr & fs & Hfs & l' & Hp & ->) & Hw). split; [|by split]. intros n Hn. rewrite Hp.
    apply elem_of_app. left. apply file_names_spec. unfold file_at. destruct Hr as (_ & -> & _). done. }
  apply hoare_pure. intros Hs.
  eapply hoare_bind; [eapply hoare_exn; [apply hoare_copy_back|]|].
  { intros e w [-> Hw]. exact Hw. }
  intros ?. apply (hoare_pre _ (at_tree (λ t, rolled t ∧ covered t) m f)).
  { intros w. apply at_tree_mono. intros t Ht. split; [by eapply put_back_rolled|by eapply putting_back_covered]. }
  eapply hoare_bind; [eapply hoare_exn; [apply ready_quiet|intros e w; by apply rolled_covered_end]|].
  intros isReady. eapply hoare_bind; [eapply hoare_exn; [apply hoare_check|intros e w; by apply rolled_covered_end]|].
  intros []. apply hoare_pure. intros _.
  eapply (hoare_bind _ _ _ (λ _, at_tree rolled m f)).
  - eapply hoare_exn; [eapply hoare_post; [apply (hoare_rm_tree safety (λ t, rolled t ∧ covered t))|]|].
    + intros t [Hr _]. assert (rolled (fs_rm_tree true safety t).1) as Hr'.
      { unfold rolled, files_of. rewrite rm_tree_other by done. exact Hr. }
      split; [done|]. intros n b Hb. left. destruct Hr' as [Hsub _]. eapply lookup_weaken in Hb; [|exact Hsub].
      unfold files_of in Hb. unfold file_at. destruct (_ !! home); [done|]. cbn in Hb. by rewrite lookup_empty in Hb.
    + intros [] w. apply at_tree_mono. naive_solver.
    + intros e w [-> Hw]. by apply rolled_covered_end.
  - intros []. eapply hoare_bind; [apply hoare_on_frame|]. intros [] w Hw. cbn. left. exists None, (fr_names f).
    split; [by left|]. exact Hw.
Qed.

Lemma hoare_roll_back {A : Type} m f (Q : A → storage → Prop) :
  fr_safety f = Some safety → hoare (at_tree replaced m f) (roll_back home safety h) Q (ended rolled m f).
Proof.
  intros Hf. unfold roll_back.
  assert (∀ Q' : A → storage → Prop, hoare (at_tree covered m f) (fail_closed safety) Q' (ended rolled m f)) as Hclosed.
  { intros Q'. eapply hoare_exn; [apply hoare_fail_closed|]. intros e w [-> Hw]. right. exists (fr_names f).
    split; [done|]. by destruct f. }
  eapply (hoare_bind _ _ _ (λ _, at_tree replaced m f)).
  - apply hoare_attempt, close_quiet.
  - intros [u|e].
    + eapply hoare_try; [by apply hoare_put_back|]. intros e. unfold put_back_end.
      destruct (is_rolled_back e); [by intros w Hw|apply Hclosed].
    + eapply hoare_pre; [|apply Hclosed]. intros w. apply at_tree_mono, replaced_covered.
Qed.
End Hooks.
End Replace.
End Moves.

(** *** The whole call *)

Definition db_verified (B : files) (d : DatabaseRecord) : Prop :=
  ∃ x, B !! db_filename d = Some x ∧ sha256_hex x = db_sha256 d ∧ Z.of_nat (length x) = db_size d.
(** The backup [id] of the tree [t0]: its directory holds the files [B], its manifest is [md],
    and every database has the size and the digest of the manifest. *)
Definition verified (id : str) (B : files) (md : BackupMetadata) : Prop :=
  t0 !! (root ++ [id]) = Some B ∧
  (∃ b raw, B !! MANIFEST = Some b ∧ JSON_parse (utf8_decode b) = Some raw ∧
            parseBackupMetadata raw (Some id) = Ok md) ∧
  Forall (db_verified B) (bm_databases md).
Definition database_names (md : BackupMetadata) : list str := map db_filename (bm_databases md).
(** The live files of the home are the databases of the backup, the others the original ones. *)
Definition restored (B : files) (md : BackupMetadata) (t : tree) : Prop :=
  live (files_of t) = restrict (database_names md) B ∧ rest (files_of t) = rest H0.

Lemma at_tree_exists {C : Type} (φ : C → tree → Prop) m f w :
  at_tree (λ t, ∃ c, φ c t) m f w → ∃ c, at_tree (φ c) m f w.
Proof. intros ((c & Hc) & H). exists c. by split. Qed.

Lemma hoare_verify dir B (φ : tree → Prop) (l : list DatabaseRecord) m f :
  (∀ t, φ t → t !! dir = Some B) →
  hoare (at_tree φ m f) (for_each (verify_database dir) l)
    (λ _ w, Forall (db_verified B) l ∧ at_tree φ m f w) (λ _, at_tree φ m f).
Proof.
  intros Hdir. set (I := λ done w, Forall (db_verified B) done ∧ at_tree φ m f w).
  apply (hoare_pre _ (I [])); [by split|]. apply (hoare_for_each _ I). intros done d todo _. unfold I.
  apply hoare_pure. intros Hdone. unfold verify_database.
  eapply (hoare_bind _ _ _ (λ h w, (∃ x, B !! db_filename d = Some x ∧ h = sha256_hex x) ∧ at_tree φ m f w)).
  { eapply hoare_post; [apply hoare_checksum|]. intros h w ((Ht & b & Hb & ->) & Hw).
    unfold file_at in Hb. rewrite (Hdir _ Ht) in Hb. split; [by eauto|by split]. }
  intros hh. apply hoare_pure. intros (x & Hx & ->).
  eapply hoare_bind; [apply hoare_check|]. intros []. apply hoare_pure. intros Hsha%str_eqb_eq.
  eapply (hoare_bind _ _ _ (λ z w, z = Z.of_nat (length x) ∧ at_tree φ m f w)).
  { eapply hoare_post; [apply hoare_stat|]. intros z w ((Ht & b & Hb & ->) & Hw).
    unfold file_at in Hb. rewrite (Hdir _ Ht) in Hb. cbn in Hb. split; [congruence|by split]. }
  intros z. apply hoare_pure. intros ->.
  eapply hoare_post; [apply hoare_check|]. intros [] w [Hz Hw]. split; [|done].
  apply Forall_app. split; [done|]. constructor; [|constructor]. exists x. split_and!; [done|done|lia].
Qed.

(** The databases [done] of the backup are copied to the staging directory. *)
Definition staged (dir stage : dpath) (B : files) (done : list str) (t : tree) : Prop :=
  plain_home t ∧ t !! home = Some H0 ∧ t !! dir = Some B ∧
  ∃ Sg, t !! stage = Some Sg ∧ ∀ n, n ∈ done → Sg !! n = B !! n.

Lemma staged_calm dir stage B done t : staged dir stage B done t → calm t.
Proof. intros (H1 & H2 & _). split; [done|]. unfold files_of. by rewrite H2. Qed.

Lemma hoare_stage dir stage B names m f :
  stage ≠ home → stage ≠ dir →
  hoare (at_tree (staged dir stage B []) m f) (for_each (λ n, copyFile dir n stage n) names)
    (λ _, at_tree (staged dir stage B names) m f) (λ _, at_tree calm m f).
Proof.
  intros Hh Hd. apply (hoare_for_each _ (λ done, at_tree (staged dir stage B done) m f)). intros done n todo _.
  eapply hoare_exn; [apply (hoare_io _ _ _ _ calm (λ _, staged dir stage B (done ++ [n])))|by intros e w [_ Hw]; exact Hw].
  - intros t t' u (H1 & H2 & H3 & Sg & H4 & H5) (b & fs & Hb & Hfs & _ & ->)%fs_copyFile_ok.
    rewrite H4 in Hfs. injection Hfs as <-. unfold file_at in Hb. rewrite H3 in Hb. cbn in Hb.
    split_and!; [by apply plain_put|by rewrite put_other|by rewrite put_other|].
    exists (<[n := b]> Sg). split; [by apply put_same|]. intros k Hk.
    destruct (decide (k = n)) as [->|Hkn]; [by rewrite lookup_insert_eq|].
    rewrite lookup_insert_ne by done. apply H5. set_solver.
  - intros t t' x Ht ->%fs_copyFile_throw. by eapply staged_calm.
  - intros t. apply staged_calm.
  - intros k t Ht. destruct (file_at dir n t) as [b|]; [|by eapply staged_calm].
    unfold truncated. destruct (fs_writeFile true stage n (take k b) t) as [t' r] eqn:E. cbn.
    apply fs_writeFile_cases in E as [ -> | -> ]; [by eapply staged_calm|].
    apply staged_calm in Ht as [Ha Hb]. split; [by apply plain_put|]. unfold files_of. by rewrite put_other.
Qed.

(** The staging directory and the safety copy, two directories of the home. *)
Definition two_dirs (stage safety : dpath) : Prop :=
  ∃ x y, stage = home ++ [x] ∧ safety = home ++ [localStagingPrefix PreRestore ++ y] ∧ stage ≠ safety.
Definition home_child (o : option dpath) : Prop := ∀ d, o = Some d → ∃ x, d = home ++ [x].

Lemma two_dirs_facts stage safety :
  two_dirs stage safety →
  stage ≠ home ∧ safety ≠ home ∧ stage ≠ safety ∧ below safety home = false ∧ below stage home = false ∧
  below stage safety = false.
Proof.
  intros (x & y & -> & -> & Hne).
  split_and!; auto using not_below_parent; [by intros H%eq_sym%child_ne..|].
  apply not_below_sibling. congruence.
Qed.

(** How the call fails: the originals are in place, it failed closed, or (before the rollback)
    they are in the safety copy. *)
Definition in_place (φ : tree → Prop) (m : manager) (w : storage) : Prop :=
  ∃ s g mv l, home_child s ∧ home_child g ∧ at_tree φ m (Frame None None s g mv l) w.
Definition closed (mv : bool) (m : manager) (e : storage_error) (w : storage) : Prop :=
  ∃ stage safety l, two_dirs stage safety ∧ e = rollback_failed ∧
    at_tree (covered safety) (closed_manager m) (Frame None None (Some stage) (Some safety) mv l) w.
Definition body_failed (m : manager) (e : storage_error) (w : storage) : Prop :=
  (∃ s g l, home_child s ∧ home_child g ∧ at_tree calm m (Frame None None s g false l) w) ∨
  closed false m e w ∨
  (∃ stage safety l id B md, two_dirs stage safety ∧ verified id B md ∧
     at_tree (replaced safety B) m (Frame None None (Some stage) (Some safety) true l) w).

Lemma ended_failed (φ : tree → Prop) stage safety mv l0 m e w :
  two_dirs stage safety →
  ended safety φ m (Frame None None (Some stage) (Some safety) mv l0) e w →
  (∃ s g l, home_child s ∧ home_child g ∧ at_tree φ m (Frame None None s g mv l) w) ∨ closed mv m e w.
Proof.
  intros Hd [(s & l & Hs & Hw)|(l & -> & Hw)]; [left|right].
  - destruct Hd as (x & y & -> & -> & _). exists (Some (home ++ [x])), s, l. split_and!; [| |done].
    + intros d [= <-]. eauto.
    + intros d ->. destruct Hs as [|[= ->]]; [done|]. eauto.
  - exists stage, safety, l. by split_and!.
Qed.

Section Body.
Variables (h : hooks) (id : str) (B : files) (md : BackupMetadata).
Hypotheses (close_quiet : quiet (closeAndWait h)) (ready_quiet : quiet (ready h)).
Hypothesis Hverified : verified id B md.
Hypothesis Hmd : metadata_ok md.

Lemma names_live n : n ∈ database_names md → is_live n = true.
Proof.
  intros (d & -> & Hd)%list_elem_of_fmap. apply live_database.
  pose proof (mo_databases _ Hmd) as Hall. rewrite Forall_forall in Hall. apply (Hall d Hd).
Qed.
Lemma names_in n : n ∈ database_names md → is_Some (B !! n).
Proof.
  intros (d & -> & Hd)%list_elem_of_fmap. destruct Hverified as (_ & _ & Hall). rewrite Forall_forall in Hall.
  destruct (Hall d Hd) as (x & Hx & _). eauto.
Qed.

(** From the moment the safety copy exists. *)
Definition replace_live (stage safety : dpath) : StorageM str :=
  set_aside home safety ;;
  set_movedCurrent ;;
  for_each (λ d : DatabaseRecord, rename stage (db_filename d) home (db_filename d)) (bm_databases md) ;;
  isReady ← ready h;
  lift (guard_throw isReady (RunnerError (js "restore_readiness_failed"))) ;;
  rm_tree true safety ;;
  set_safety None ;;
  mret id.

Lemma hoare_replace_live stage safety Sg m :
  two_dirs stage safety → (∀ n, n ∈ database_names md → Sg !! n = B !! n) →
  hoare (at_tree (split_files stage safety Sg ∅) m (Frame None None (Some stage) (Some safety) false []))
    (replace_live stage safety)
    (λ r w, r = id ∧ ∃ l, at_tree (restored B md) m (Frame None None (Some stage) None true l) w) (body_failed m).
Proof.
  intros Hd HS. pose proof (two_dirs_facts _ _ Hd) as (D1 & D2 & D3 & D4 & D5 & D6).
  set (f := Frame None None (Some stage) (Some safety) false []).
  unfold replace_live. eapply hoare_bind.
  { eapply hoare_exn; [by apply (hoare_set_aside stage safety Sg D1 D2 D3 D4 m f)|]. intros e w Hw.
    eapply ended_failed in Hw; [|exact Hd]. destruct Hw as [Hw|Hw]; [by left|by right; left]. }
  intros []. apply hoare_exists. intros l.
  eapply hoare_bind; [apply hoare_on_frame|]. intros []. cbn [fr_local fr_durable fr_stage fr_safety fr_names named f].
  set (f' := Frame None None (Some stage) (Some safety) true l).
  assert (∀ (φ : tree → Prop) e w, (∀ t, φ t → replaced safety B t) → at_tree φ m f' w → body_failed m e w) as Hrep.
  { intros φ e w Hφ Hw. right. right. exists stage, safety, l, id, B, md. split_and!; [done|done|]. by eapply at_tree_mono. }
  apply (hoare_pre _ (at_tree (swapped stage safety B (database_names md) []) m f')).
  { intros w. apply at_tree_mono. intros t. by apply aside_swapped. }
  rewrite <- (for_each_map (λ n, rename stage n home n) db_filename).
  eapply hoare_bind.
  { eapply hoare_exn; [apply hoare_swap; auto using names_live, names_in; apply (mo_names _ Hmd)|].
    intros e w. by apply Hrep. }
  intros ?. eapply hoare_bind; [eapply hoare_exn; [apply ready_quiet|intros e w; apply Hrep, swapped_replaced]|].
  intros isReady. eapply hoare_bind; [eapply hoare_exn; [apply hoare_check|intros e w; apply Hrep, swapped_replaced]|].
  intros []. apply hoare_pure. intros _.
  eapply (hoare_bind _ _ _ (λ _, at_tree (restored B md) m f')).
  - set (φ := swapped stage safety B (database_names md) (database_names md)).
    apply (hoare_exn _ _ _ _ (λ e w, e = HostError ∧ at_tree φ m f' w));
      [|intros e w [_ Hw]; exact (Hrep φ e w (swapped_replaced _ _ _ _ _) Hw)].
    apply (hoare_io _ _ _ φ φ (λ _, restored B md)); auto; [|by intros t t' x Ht; unfold fs_rm_tree; case_match].
    intros t t' u (H1 & H2 & Hh & S' & H3 & H4 & H5 & _) Ho. unfold restored, files_of.
    replace t' with (fs_rm_tree true safety t).1 by by rewrite Ho. rewrite rm_tree_other by done.
    rewrite H3. cbn. done.
  - intros []. eapply hoare_bind; [apply hoare_on_frame|]. intros [] w Hw. cbn. split; [done|]. exists l. exact Hw.
Qed.

(** From the verified manifest on. *)
Definition restore_verified (dir : dpath) : StorageM str :=
  stage ← mkdtemp home Restore;
  set_stage (Some stage) ;;
  for_each (λ d : DatabaseRecord, copyFile dir (db_filename d) stage (db_filename d)) (bm_databases md) ;;
  try_catch (closeAndWait h) (λ _, throw (safe "app_server_shutdown_unconfirmed" 503)) ;;
  safety ← mkdtemp home PreRestore;
  set_safety (Some safety) ;;
  replace_live stage safety.

Lemma calm_failed s m e w :
  home_child s → at_tree calm m (Frame None None s None false []) w → body_failed m e w.
Proof. intros Hs Hw. left. exists s, None, []. by split_and!. Qed.

Lemma hoare_restore_verified m :
  hoare (at_tree (λ t, untouched t ∧ t !! (root ++ [id]) = Some B) m empty_frame) (restore_verified (root ++ [id]))
    (λ r w, r = id ∧ ∃ stage l, (∃ x, stage = home ++ [x]) ∧
                   at_tree (restored B md) m (Frame None None (Some stage) None true l) w)
    (body_failed m).
Proof.
  unfold restore_verified. eapply hoare_bind.
  { eapply hoare_exn; [apply hoare_mkdtemp|]. intros e w Hw. apply (calm_failed None); [done|].
    eapply at_tree_mono; [|exact Hw]. intros t [[H1 H2 _] _]. by split. }
  intros stage. apply hoare_pure. intros (s & Hs & Estage).
  eapply hoare_bind; [apply hoare_on_frame|]. intros []. cbn [fr_local fr_durable fr_stage fr_safety fr_movedCurrent fr_names empty_frame].
  set (f1 := Frame None None (Some stage) None false []).
  assert (home_child (Some stage)) as Hc by (intros d [= <-]; eauto).
  apply (hoare_pre _ (λ w, stage ≠ root ++ [id] ∧ at_tree (staged (root ++ [id]) stage B []) m f1 w)).
  { intros w ((t & [[H1 H2 _] H3] & Hfresh & [fs Hfs] & Et) & Hw).
    assert (stage ≠ root ++ [id]) as Hne by congruence. split; [done|]. split; [|done]. rewrite Et.
    split_and!; [rewrite Estage; by apply plain_new_stage| | |exists ∅; split; [by rewrite lookup_insert_eq|set_solver]].
    - rewrite lookup_insert_ne by (rewrite Estage; intros E%eq_sym; by apply (child_ne home _ E)).
      unfold files_of in H2. rewrite Hfs in *. cbn in H2. congruence.
    - by rewrite lookup_insert_ne. }
  apply hoare_pure. intros Hne.
  assert (stage ≠ home) as Hsh by (rewrite Estage; intros E%eq_sym; by apply (child_ne home _ E)).
  rewrite <- (for_each_map (λ n, copyFile (root ++ [id]) n stage n) db_filename).
  eapply hoare_bind; [eapply hoare_exn; [by apply hoare_stage|intros e w; by apply calm_failed]|].
  intros ?. eapply (hoare_bind _ _ _ (λ _, at_tree (staged (root ++ [id]) stage B (database_names md)) m f1)).
  { eapply hoare_try; [apply close_quiet|]. intros e w Hw. apply (calm_failed (Some stage)); [done|].
    eapply at_tree_mono; [|exact Hw]. apply staged_calm. }
  intros []. eapply hoare_bind.
  { eapply hoare_exn; [apply hoare_mkdtemp|]. intros e w Hw. apply (calm_failed (Some stage)); [done|].
    eapply at_tree_mono; [|exact Hw]. apply staged_calm. }
  intros safety. apply hoare_pure. intros (s' & Hs' & Esafety).
  eapply hoare_bind; [apply hoare_on_frame|]. intros []. cbn [fr_local fr_durable fr_stage fr_safety fr_movedCurrent fr_names f1].
  set (f2 := Frame None None (Some stage) (Some safety) false []).
  apply (hoare_pre _ (λ w, ∃ Sg, (two_dirs stage safety ∧ ∀ n, n ∈ database_names md → Sg !! n = B !! n) ∧
                                 at_tree (split_files stage safety Sg ∅) m f2 w)).
  { intros w ((t & (H1 & H2 & H3 & Sg & H4 & H5) & Hfresh & _ & Et) & Hw).
    assert (safety ≠ home) as Hsf by (rewrite Esafety; intros E%eq_sym; by apply (child_ne home _ E)).
    assert (stage ≠ safety) as Hss by congruence. exists Sg. split.
    - split; [|done]. exists (localStagingPrefix Restore ++ s), s'. by split_and!.
    - split; [|done]. rewrite Et. split_and!; [rewrite Esafety; by apply plain_new_stage|by rewrite lookup_insert_ne|].
      exists H0, ∅. rewrite lookup_insert_ne, lookup_insert_eq by done.
      split_and!; [done|done|apply map_disjoint_empty_r|apply map_union_empty|apply dom_empty_L]. }
  apply hoare_exists. intros Sg. apply hoare_pure. intros [Hd HS].
  eapply hoare_post; [by apply hoare_replace_live|]. intros r w (-> & l & Hw). split; [done|].
  exists stage, l. split; [by eauto|done].
Qed.
End Body.

Section Call.
Variables (config : RunnerConfiguration) (h : hooks).
Hypotheses (Hhome : rc_sqliteHome config = Some home) (Hroot : rc_sqliteBackupRoot config = root).
Hypotheses (close_quiet : quiet (closeAndWait h)) (ready_quiet : quiet (ready h)).

(** The identifier that was asked for, or some identifier for ["latest"]. *)
Definition selects (id0 id : str) : Prop := str_eqb id0 (js "latest") = false → id = id0.
Definition body_done (id0 : str) (m : manager) (id : str) (w : storage) : Prop :=
  selects id0 id ∧ ∃ B md stage l, verified id B md ∧ (∃ x, stage = home ++ [x]) ∧
    at_tree (restored B md) m (Frame None None (Some stage) None true l) w.

Lemma hoare_restore_body id0 m :
  hoare (at_tree untouched m empty_frame) (restore_body config home id0 h) (body_done id0 m) (body_failed m).
Proof.
  assert (∀ (φ : tree → Prop) e w, (∀ t, φ t → untouched t) → at_tree φ m empty_frame w → body_failed m e w) as Hcalm.
  { intros φ e w Hφ Hw. apply (calm_failed None); [done|]. eapply at_tree_mono; [|exact Hw].
    intros t [H1 H2 _]%Hφ. by split. }
  unfold restore_body. rewrite Hroot.
  eapply hoare_bind; [eapply hoare_exn; [apply hoare_select_backup; rewrite Hroot; apply untouched_grown|intros e w; by apply Hcalm]|].
  intros id. apply hoare_pure. intros Hsel. eapply hoare_bind; [eapply hoare_exn; [apply hoare_safeBackupDirectory|intros e w; by apply Hcalm]|].
  intros dir. apply hoare_pure. intros [-> Hid].
  eapply hoare_bind; [eapply hoare_exn; [apply hoare_read_manifest|intros e w; by apply Hcalm]|].
  intros raw. apply (hoare_pre _ (λ w, ∃ B, (t0 !! (root ++ [id]) = Some B ∧ ∃ b, B !! MANIFEST = Some b ∧ JSON_parse (utf8_decode b) = Some raw)
      ∧ at_tree (λ t, untouched t ∧ t !! (root ++ [id]) = Some B) m empty_frame w)).
  { intros w ((Hu & b & Hb & Hraw) & Hw). unfold file_at in Hb. destruct (st_tree w !! (root ++ [id])) as [B|] eqn:EB; [|done].
    cbn in Hb. exists B. split; [split; [|by eauto]|by split]. apply (un_old _ Hu); [done|]. intros ->. done. }
  apply hoare_exists. intros B. apply hoare_pure. intros (HB & b & Hb & Hraw).
  set (φ := λ t : tree, untouched t ∧ t !! (root ++ [id]) = Some B).
  assert (∀ t, φ t → untouched t) as Hφ by by intros t [? _].
  eapply hoare_bind; [eapply hoare_exn; [apply hoare_lift_at|intros e w; by apply Hcalm]|]. intros v. apply hoare_pure. intros _.
  eapply hoare_bind; [eapply hoare_exn; [apply hoare_check|intros e w; by apply Hcalm]|]. intros []. apply hoare_pure. intros _.
  eapply hoare_bind; [eapply hoare_exn; [apply hoare_lift_at|intros e w; by apply Hcalm]|]. intros md. apply hoare_pure. intros Hmd.
  eapply hoare_bind; [eapply hoare_exn; [apply (hoare_verify _ B φ); by intros t [_ ?]|intros e w; by apply Hcalm]|].
  intros ?. apply hoare_pure. intros Hall.
  assert (verified id B md) as Hv by (split_and!; [done|by eauto|done]).
  assert (metadata_ok md) as Hok by by eapply parse_metadata_ok.
  eapply hoare_post; [exact (hoare_restore_verified h id B md close_quiet ready_quiet Hv Hok m)|].
  intros r w (-> & stage & l & Hx & Hw'). split; [exact Hsel|]. exists B, md, stage, l. by split_and!.
Qed.

(** What a rolled back call may leave besides the originals: nothing, or files of a verified backup. *)
Definition leftover (B : files) : Prop := B = ∅ ∨ ∃ id md, verified id B md.
Definition call_failed (m : manager) (e : storage_error) (w : storage) : Prop :=
  (∃ B, leftover B ∧ in_place (rolled B) m w) ∨ ∃ mv, closed mv m e w.

Lemma hoare_restore_catch {A : Type} m e (Q : A → storage → Prop) :
  hoare (body_failed m e) (restore_catch home h e) Q (call_failed m).
Proof.
  intros w Hb. unfold restore_catch. unfold mbind, eff_bind, get_frame.
  destruct Hb as [(s & g & l & Hs & Hg & Hw)|[Hc|(stage & safety & l & id & B & md & Hd & Hv & Hw)]].
  - assert (call_failed m e w) as Hf.
    { left. exists ∅. split; [by left|]. exists s, g, false, l. split_and!; [done|done|].
      eapply at_tree_mono; [|exact Hw]. apply calm_rolled. }
    destruct Hw as (_ & _ & -> & _). cbn. by destruct g.
  - assert (call_failed m e w) as Hf by (right; eauto).
    destruct Hc as (stage & safety & l & Hd & -> & Hw). by pose proof Hw as (_ & _ & -> & _).
  - pose proof Hw as (_ & _ & -> & _). cbn. pose proof (two_dirs_facts _ _ Hd) as (D1 & D2 & D3 & D4 & D5 & D6).
    assert (hoare (at_tree (replaced safety B) m (Frame None None (Some stage) (Some safety) true l))
              (roll_back home safety h) Q (ended safety (rolled B) m (Frame None None (Some stage) (Some safety) true l))) as H.
    { eapply (hoare_roll_back stage safety D1 D2 D3 D4 B []); [constructor|set_solver|set_solver|done..]. }
    specialize (H w Hw).
    destruct (roll_back home safety h w) as [w' [a|e']]; [exact H|].
    eapply ended_failed in H; [|exact Hd]. destruct H as [(s & g & l' & Hs & Hg & Hw')|H]; [left|by right; eauto].
    exists B. split; [by right; eauto|]. by exists s, g, true, l'.
Qed.

(** The removals of the [finally] block: [φ] holds of the tree before and after them. *)
Lemma hoare_cleanup (φ : tree → Prop) m f :
  (∀ d t, fr_stage f = Some d ∨ (mg_recoveryRequired m = false ∧ fr_safety f = Some d) →
          φ t → φ (fs_rm_tree true d t).1) →
  hoare (at_tree φ m f) restore_cleanup
    (λ _, at_tree φ (if mg_recoveryRequired m then m else Manager OpIdle (mg_lastFailure m) false) f)
    (λ e w, e = HostError ∧ at_tree φ m f w).
Proof.
  intros Hφ. unfold restore_cleanup.
  eapply hoare_bind; [apply hoare_get_frame|]. intros g. apply hoare_pure. intros ->.
  eapply hoare_bind; [apply hoare_get_manager|]. intros g. apply hoare_pure. intros ->.
  eapply (hoare_bind _ _ _ (λ _, at_tree φ m f)).
  { unfold when_some. destruct (fr_stage f) as [d|] eqn:E; [|by intros w Hw]. apply hoare_rm_tree.
    intros t. apply Hφ. by left. }
  intros []. destruct m as [o lf []]; cbn [negb when mg_recoveryRequired mg_lastFailure] in *.
  - by eapply (hoare_bind _ _ _ (λ _, at_tree φ (Manager o lf true) f)); [intros w Hw|intros [] w Hw].
  - eapply (hoare_bind _ _ _ (λ _, at_tree φ (Manager o lf false) f)).
    { unfold when_some. destruct (fr_safety f) as [d|] eqn:E; [|by intros w Hw]. apply hoare_rm_tree.
      intros t. apply Hφ. by right. }
    intros []. apply hoare_on_manager.
Qed.

Lemma rolled_rm B force d t : below d home = false → rolled B t → rolled B (fs_rm_tree force d t).1.
Proof. intros Hd. unfold rolled, files_of. by rewrite rm_tree_other. Qed.
Lemma restored_rm B md force d t : below d home = false → restored B md t → restored B md (fs_rm_tree force d t).1.
Proof. intros Hd. unfold restored, files_of. by rewrite rm_tree_other. Qed.
Lemma covered_rm safety force d t :
  below d home = false → below d safety = false → covered safety t → covered safety (fs_rm_tree force d t).1.
Proof. intros H1 H2 H n b Hb. unfold file_at. rewrite !rm_tree_other by done. by apply H. Qed.
Lemma home_child_below o d : home_child o → o = Some d → below d home = false.
Proof. intros H Hd. destruct (H d Hd) as [x ->]. apply not_below_parent. Qed.

(** How [restore] ends. *)
Definition restore_ended (id0 : str) (lf : option str) (r : outcome storage_error str) (w : storage) : Prop :=
  match r with
  | Ok id => selects id0 id ∧ ∃ B md, verified id B md ∧ restored B md (st_tree w) ∧ st_manager w = Manager OpIdle lf false
  | Throw e =>
      (* the originals are in place *)
      (∃ B, leftover B ∧ rolled B (st_tree w) ∧
            (st_manager w = Manager OpIdle lf false ∨ e = HostError ∧ st_manager w = Manager OpRestore lf false)) ∨
      (* closed, with every original in the home or in the safety copy *)
      (∃ y, covered (home ++ [localStagingPrefix PreRestore ++ y]) (st_tree w) ∧ st_manager w = Manager OpRestore lf true) ∨
      (* the restore was complete when the staging directory could not be removed *)
      (∃ id B md, e = HostError ∧ verified id B md ∧ restored B md (st_tree w) ∧ st_manager w = Manager OpRestore lf false)
  end.

Lemma restore_run id0 lf w w' r :
  at_tree untouched (Manager OpRestore lf false) empty_frame w →
  finally (try_catch (restore_body config home id0 h) (restore_catch home h)) restore_cleanup w = (w', r) →
  restore_ended id0 lf r w'.
Proof.
  intros Hw Hr. set (m := Manager OpRestore lf false) in *.
  assert (hoare (at_tree untouched m empty_frame) (try_catch (restore_body config home id0 h) (restore_catch home h))
            (body_done id0 m) (call_failed m)) as H.
  { eapply hoare_try; [apply hoare_restore_body|]. intros e. apply hoare_restore_catch. }
  specialize (H w Hw). unfold finally, mbind, eff_bind, attempt, lift in Hr.
  destruct (try_catch _ _ w) as [w1 r1]. destruct r1 as [id|e].
  - destruct H as (Hsel & B & md & stage & l & Hv & [x ->] & H1).
    eapply hoare_cleanup in H1 as Hc; cycle 1.
    { intros d t Hd. apply restored_rm. destruct Hd as [[= <-]|[_ ?]]; [apply not_below_parent|done]. }
    destruct (restore_cleanup w1) as [w2 [u|e]]; injection Hr as <- <-.
    + split; [done|]. exists B, md. split_and!; [done|apply Hc|apply Hc].
    + right. right. destruct Hc as [-> Hc]. exists id, B, md. split_and!; [done|done|apply Hc|apply Hc].
  - destruct H as [(B & HB & s & g & mv & l & Hs & Hg & H1)|(mv & stage & safety & l & Hd & -> & H1)].
    + eapply hoare_cleanup in H1 as Hc; cycle 1.
      { intros d t Hd. apply rolled_rm. destruct Hd as [E|[_ E]]; eauto using home_child_below. }
      destruct (restore_cleanup w1) as [w2 [u|e']]; injection Hr as <- <-; left; exists B; (split; [done|]).
      * split; [apply Hc|]. left. apply Hc.
      * destruct Hc as [-> Hc]. split; [apply Hc|]. right. split; [done|apply Hc].
    + pose proof (two_dirs_facts _ _ Hd) as (D1 & D2 & D3 & D4 & D5 & D6).
      eapply hoare_cleanup in H1 as Hc; cycle 1.
      { intros d t [[= <-]|[? _]]; [|done]. by apply covered_rm. }
      destruct Hd as (x & y & _ & -> & _).
      destruct (restore_cleanup w1) as [w2 [u|e']]; injection Hr as <- <-; right; left; exists y.
      * split; [apply Hc|]. apply Hc.
      * destruct Hc as [-> Hc]. split; [apply Hc|]. apply Hc.
Qed.
End Call.
End Restore.

Lemma restore_spec `{L : Libs} `{SH : SqliteHost} `{!SqliteHostLaws SH} config home id (h : hooks) w w' r :
  rc_sqliteHome config = Some home →
  below home (rc_sqliteBackupRoot config) = false →
  quiet (closeAndWait h) → quiet (ready h) →
  whole w → plain_home home (st_tree w) →
  mg_operation (st_manager w) = OpIdle → mg_recoveryRequired (st_manager w) = false →
  restore config id h w = (w', r) →
  restore_ended home (rc_sqliteBackupRoot config) (st_tree w) (files_of home (st_tree w)) id
    (mg_lastFailure (st_manager w)) r w'.
Proof.
  intros Hhome Hb Hq1 Hq2 Hw Hp Hop Hrec Hr. unfold restore, busy_guard in Hr. rewrite Hhome in Hr.
  cbn [from_option_throw] in Hr. unfold mbind, eff_bind, lift, get_manager, mret, eff_ret in Hr.
  rewrite bool_decide_true in Hr by done. cbn [guard_throw] in Hr.
  eapply (restore_run home (rc_sqliteBackupRoot config) (st_tree w) (files_of home (st_tree w)) Hb config h
            Hhome eq_refl Hq1 Hq2 id); [|exact Hr].
  split_and!; [| |done|apply Hw..].
  - split; [done|done|]. auto.
  - cbn. by rewrite Hrec.
Qed.

