(* ===== verification/SqliteBackup.v ===== *)
(** * Backups are complete

    What a successful [createBackup] leaves behind: a directory named after the
    backup with the manifest and one verified snapshot per database of the
    home, unless the backup was pruned at once. Restoring it puts exactly these
    snapshots back. *)

From S2P Require Import Prelude JsString Encoding JsDate Json JsonText Libs Hoare NodeFs BackupMetadata SqliteStorage SqliteFacts.

Implicit Types (dir home local durable root : dpath) (B : files) (md : BackupMetadata) (config : RunnerConfiguration).
Implicit Types (e : storage_error) (n id name : str) (m : manager) (f : frame) (A : Type).

Definition anything : storage_error → storage → Prop := λ _ _, True.

(** Only successful runs matter below. *)
Lemma hoare_drop {A : Type} P (c : StorageM A) Q X : hoare P c Q X → hoare P c Q anything.
Proof. intros H. by eapply hoare_exn; [exact H|]. Qed.

(** ** The manifest as bytes *)

(** Bounds on the code units of a character class. *)
Ltac class_bound := intros; do 3 n_bool; lia.

Lemma units_ok_class (g : N → bool) s :
  (∀ c, g c = true → (c < 65536)%N) → forallb g s = true → units_ok s.
Proof.
  intros Hg Hs. apply Forall_forall. intros c Hc. apply Hg. by apply (proj1 (forallb_true_elem g s) Hs).
Qed.
Lemma take_class_units g k s r :
  (∀ c, g c = true → (c < 65536)%N) → take_class g k s = Some r → units_ok r → units_ok s.
Proof.
  intros Hg. revert s. induction k as [|k IH]; intros s; cbn; [by intros [= ->]|].
  destruct s as [|c s]; [done|]. destruct (g c) eqn:E; [|done]. intros H Hr. constructor; [by apply Hg|]. by eapply IH.
Qed.
Lemma is_sha256_units s : is_sha256 s = true → units_ok s.
Proof.
  unfold is_sha256. intros H%bool_decide_eq_true. eapply take_class_units; [|exact H|constructor].
  intros c. unfold is_hex_lower, is_digit, in_range. class_bound.
Qed.
Lemma database_filename_units s : DATABASE_FILENAME s = true → units_ok s.
Proof.
  intros (ext & Hext & H)%existsb_exists. unfold strip_extension in H.
  destruct (str_eqb _ ext) eqn:E; [|done]. apply str_eqb_eq in E.
  rewrite <- (take_drop (length s - length ext) s). apply units_ok_app. split.
  - unfold is_stem in H. destruct (take _ s) as [|c r]; [done|]. to_prop. constructor.
    + unfold is_alnum, is_alpha, is_lower, is_upper, is_digit, in_range in *. class_bound.
    + eapply units_ok_class; [|done]. intros x.
      unfold is_name_unit, is_alnum, is_alpha, is_lower, is_upper, is_digit, in_range. class_bound.
  - set (u := drop _ s) in *. assert (units_ok (lower_ascii u)) as Hu.
    { rewrite E. by destruct Hext as [<-|[<-|[]]]; apply units_ok_dec; vm_compute. }
    clearbody u. clear E H. induction u as [|c u IH]; [constructor|]. inversion Hu as [|?? Hc Hr]. constructor; [|by apply IH].
    destruct (is_upper c) eqn:Eu; [unfold is_upper, in_range in Eu; class_bound|done].
Qed.
Lemma version_units s : is_version s = true → units_ok s.
Proof.
  unfold is_version. intros H. rewrite <- (join_split_on 46 s).
  destruct (split_on 46 s) as [|a [|b [|c [|]]]]; try done. unfold is_number in H. to_prop.
  assert (∀ x, forallb is_digit x = true → units_ok x) as Hd.
  { intros x. apply units_ok_class. intros k. unfold is_digit, in_range. class_bound. }
  cbn [join]. rewrite !units_ok_app. split_and!; auto; by apply units_ok_dec.
Qed.
Lemma pad_digits_units k z : units_ok (pad_digits k z).
Proof.
  induction k as [|k IH]; cbn; [constructor|]. constructor; [|apply IH].
  pose proof (Z.mod_pos_bound (z / 10 ^ Z.of_nat k) 10). lia.
Qed.
Lemma toISOString_units t : units_ok (toISOString t).
Proof.
  unfold toISOString. destruct (civil_from_days _) as [[y mo] d]. unfold iso_year.
  repeat first [apply units_ok_app; split | apply pad_digits_units | constructor; [vm_compute; reflexivity|] | constructor | case_match].
Qed.
Lemma take_literal_units w s r : take_literal w s = Some r → units_ok w → units_ok r → units_ok s.
Proof.
  unfold take_literal. destruct (starts_with w s) eqn:E; [|done]. apply starts_with_spec in E as [u ->].
  rewrite drop_app_length. intros [= ->] Hw Hr. by apply units_ok_app.
Qed.
Lemma backup_id_units s : BACKUP_ID s = true → units_ok s.
Proof.
  unfold BACKUP_ID. intros H%bool_decide_eq_true.
  repeat (apply bind_Some in H as (? & ?E & H)).
  assert (∀ c, is_hex_lower c = true → (c < 65536)%N) as Hh by (unfold is_hex_lower, is_digit, in_range; class_bound).
  assert (∀ c, is_digit c = true → (c < 65536)%N) as Hd by (unfold is_digit, in_range; class_bound).
  repeat first [eapply take_literal_units; [eassumption|by apply units_ok_dec|]|eapply take_class_units; [|eassumption|]; [done|]].
  constructor.
Qed.

Lemma manifest_json_ok `{Libs} md :
  metadata_ok md → units_ok (bm_runnerVersion md) → units_ok (bm_createdAt md) → json_ok (manifest_json md).
Proof.
  intros [Hid Ht Hr Hc Hn Hnd Hdb] Hu1 Hu2. unfold manifest_json. apply json_ok_obj. split; [eval_decide|].
  assert (Forall json_ok (map database_json (bm_databases md))) as Hds.
  { apply Forall_map. eapply Forall_impl; [exact Hdb|]. intros d (Hf & Hs & Hh). cbn beta. unfold database_json.
    apply json_ok_obj. split; [eval_decide|].
    repeat (constructor; [split; [by apply units_ok_dec|]|]); [| | |constructor]; cbn [snd].
    - by apply database_filename_units.
    - unfold MAX_DATABASE_SIZE in Hs. cbn. lia.
    - by apply is_sha256_units. }
  repeat (constructor; [split; [by apply units_ok_dec|]|]); [| | | | | |constructor]; cbn [snd].
  - done.
  - by apply backup_id_units.
  - done.
  - done.
  - by apply version_units.
  - by apply json_ok_arr.
Qed.

Lemma manifest_reads `{Libs} md :
  metadata_ok md → units_ok (bm_runnerVersion md) → units_ok (bm_createdAt md) →
  JSON_parse (utf8_decode (manifest_bytes md)) = Some (manifest_json md).
Proof.
  intros H1 H2 H3. pose proof (manifest_json_ok md H1 H2 H3) as Hok. unfold manifest_bytes.
  rewrite utf8_roundtrip by (apply utf16_ok_app; [by apply stringify_ok|done]). by apply JSON_roundtrip_newline.
Qed.

(** ** The call *)

Section Backup.
Context `{L : Libs} `{SH : SqliteHost} `{HL : !SqliteHostLaws SH}.
Variables (home root : dpath) (H0 : files).

(** Taking a snapshot of a database does not change what the snapshots of the databases are. *)
Definition snapshots_repeatable : Prop :=
  ∀ fs n fs' r, sqlite3_backup fs n = (fs', r) → ∀ k, (sqlite3_backup fs' k).2 = (sqlite3_backup fs k).2.
Hypothesis repeatable : snapshots_repeatable.

Definition snapshot n (b : bytes) : Prop := (sqlite3_backup H0 n).2 = Some b.
Definition stable (t : tree) : Prop :=
  ∃ fs, t !! home = Some fs ∧ ∀ n, (sqlite3_backup fs n).2 = (sqlite3_backup H0 n).2.
(** The directory [d] holds the snapshots of [l]. *)
Definition holds (d : dpath) (l : list str) (t : tree) : Prop :=
  ∃ fs, t !! d = Some fs ∧ ∀ n, n ∈ l → ∃ b, snapshot n b ∧ fs !! n = Some b.

Lemma holds_put d l n b t : snapshot n b → holds d l t → holds d (l ++ [n]) (put d n b t).
Proof.
  intros Hb (fs & Hfs & Hl). exists (<[n := b]> fs). split; [by apply put_same|]. intros k Hk.
  destruct (decide (k = n)) as [->|Hkn]; [exists b; by rewrite lookup_insert_eq|].
  rewrite lookup_insert_ne by done. apply Hl. set_solver.
Qed.
Lemma holds_other d d' l n b t : d ≠ d' → holds d' l t → holds d' l (put d n b t).
Proof. intros Hd (fs & Hfs & Hl). exists fs. by rewrite put_other. Qed.
Lemma stable_other d n b t : d ≠ home → stable t → stable (put d n b t).
Proof. intros Hd (fs & Hfs & Hl). exists fs. by rewrite put_other. Qed.
Lemma grown_some p d t t' fs : grown p t t' → t !! d = Some fs → t' !! d = Some fs.
Proof. intros Hg Hd. destruct (Hg d) as [->|(? & _)]; congruence. Qed.

Lemma hoare_databases m f :
  hoare (at_tree (λ t, t !! home = Some H0) m f) (databases home)
    (λ l w, (l = [] ∨ NoDup l ∧ Forall (λ n, DATABASE_FILENAME n = true) l ∧
             ((length l <= MAX_DATABASES)%nat → ∀ n, n ∈ l ↔ DATABASE_FILENAME n = true ∧ is_Some (H0 !! n))) ∧
            at_tree (λ t, t !! home = Some H0) m f w) anything.
Proof.
  unfold databases. eapply (hoare_try _ _ _ _ (λ _, at_tree (λ t, t !! home = Some H0) m f)); [|by intros e w Hw; split; [left|]].
  eapply (hoare_bind _ _ _ (λ r w, Permutation r.1 (map_to_list H0).*1 ∧ at_tree (λ t, t !! home = Some H0) m f w)).
  { unfold readdir_types. eapply hoare_bind.
    - apply hoare_host, (hoare_io_read _ _ (λ r t, r.1 = (map_to_list H0).*1)).
      intros t r Ht. unfold fs_readdir, file_names. rewrite Ht. case_match; [|done]. by intros [= <-].
    - intros r w ((Ht & Hr) & Hw). cbn. split; [|by split]. rewrite <- Hr. apply readdir_order_perm. }
  intros r. apply hoare_pure. intros Hr w Hw. cbn. split; [|done]. right.
  set (l := sort_list str_leb (List.filter DATABASE_FILENAME r.1)).
  assert (∀ n, n ∈ l ↔ DATABASE_FILENAME n = true ∧ is_Some (H0 !! n)) as Hl.
  { intros n. unfold l. rewrite sort_list_perm, list_elem_of_In, List.filter_In, <- list_elem_of_In, Hr.
    rewrite list_elem_of_fmap. split; [intros [([k v] & -> & Hk%elem_of_map_to_list) Hn]; cbn in *; eauto|].
    intros [Hn [b Hb]]. split; [|done]. exists (n, b). by rewrite elem_of_map_to_list. }
  assert (NoDup l) as Hnd.
  { unfold l. rewrite sort_list_perm. apply NoDup_ListNoDup, List.NoDup_filter, NoDup_ListNoDup.
    rewrite Hr. apply NoDup_fst_map_to_list. }
  split_and!.
  - rewrite <- (take_drop (MAX_DATABASES + 1) l) in Hnd. by apply NoDup_app in Hnd as [? _].
  - apply Forall_forall. intros n Hn. apply Hl. rewrite <- (take_drop (MAX_DATABASES + 1) l). set_solver.
  - intros Hlen. rewrite length_take in Hlen. rewrite take_ge by (unfold MAX_DATABASES in *; lia). exact Hl.
Qed.

(** One snapshot into the local staging directory. *)
Lemma hoare_sqliteBackup local n done m f :
  local ≠ home →
  hoare (at_tree (λ t, stable t ∧ holds local done t) m f) (sqliteBackup home n local)
    (λ _, at_tree (λ t, stable t ∧ holds local (done ++ [n]) t) m f) anything.
Proof.
  intros Hl. unfold sqliteBackup.
  eapply (hoare_bind _ _ _ (λ b, at_tree (λ t, snapshot n b ∧ stable t ∧ holds local done t) m f)).
  - eapply hoare_drop, (hoare_io _ _ _ _ (λ _, True)); [|done..].
    intros t t' b ((fs & Hfs & Hst) & lf & Hlf & Hh) Ho. rewrite Hfs in Ho.
    destruct (sqlite3_backup fs n) as [fs' snap] eqn:E. destruct snap as [b'|]; [|done]. injection Ho as <- <-.
    split_and!.
    + unfold snapshot. rewrite <- Hst, E. done.
    + exists fs'. rewrite lookup_insert_eq. split; [done|]. intros k. rewrite <- Hst. by eapply repeatable.
    + exists lf. by rewrite lookup_insert_ne.
  - intros b. eapply hoare_drop, (hoare_io _ _ _ _ (λ _, True) (λ _ t, stable t ∧ holds local (done ++ [n]) t)); [|done..].
    intros t t' u (Hb & Hs & Hh) Ho. unfold fs_writeFile in Ho. repeat case_match; try done. injection Ho as <- <-.
    split; [by apply stable_other|by apply holds_put].
Qed.

(** The record of one staged snapshot. *)
Definition record_of (n : str) (r : DatabaseRecord) : Prop :=
  ∃ b, snapshot n b ∧ r = {| db_filename := n; db_size := Z.of_nat (length b); db_sha256 := sha256_hex b |}.

Lemma hoare_backup_record local (names : list str) n (φ : tree → Prop) m f :
  n ∈ names → (∀ t, φ t → holds local names t) →
  hoare (at_tree φ m f) (backup_record local n) (λ r w, at_tree φ m f w ∧ record_of n r) anything.
Proof.
  intros Hn Hφ. unfold backup_record.
  eapply (hoare_bind _ _ _ (λ z w, (∃ b, snapshot n b ∧ z = Z.of_nat (length b)) ∧ at_tree φ m f w)).
  { eapply hoare_drop, hoare_post; [apply hoare_stat|]. intros z w ((Ht & b & Hb & ->) & Hw). split; [|by split].
    destruct (Hφ _ Ht) as (fs & Hfs & Hl). unfold file_at in Hb. rewrite Hfs in Hb.
    destruct (Hl n Hn) as (b' & Hs & Hb'). exists b'. split; [done|]. cbn in Hb. congruence. }
  intros z. apply hoare_pure. intros (b & Hb & ->).
  eapply hoare_bind; [eapply hoare_drop, hoare_check|]. intros []. apply hoare_pure. intros _.
  eapply hoare_bind; [eapply hoare_drop, hoare_checksum|]. intros h w ((Ht & b' & Hb' & ->) & Hw). cbn. split; [by split|].
  destruct (Hφ _ Ht) as (fs & Hfs & Hl). unfold file_at in Hb'. rewrite Hfs in Hb'. cbn in Hb'.
  destruct (Hl n Hn) as (b2 & Hs & Hb2). exists b. split; [done|]. unfold snapshot in *. f_equal; congruence.
Qed.

(** One copy into the durable staging directory, which no file of the root shadows. *)
Definition storing (local durable : dpath) (sname : str) (names done : list str) (t : tree) : Prop :=
  holds local names t ∧ holds durable done t ∧ is_file root sname t = false.

Lemma hoare_store_durably local durable sname names done n r m f :
  durable ≠ local → durable ≠ root → n ∈ names → record_of n r →
  hoare (at_tree (storing local durable sname names done) m f) (store_durably local durable r)
    (λ _, at_tree (storing local durable sname names (done ++ [n])) m f) anything.
Proof.
  intros Hd Hr Hn (b & Hb & ->). unfold store_durably. cbn [db_filename].
  eapply (hoare_bind _ _ _ (λ _, at_tree (storing local durable sname names (done ++ [n])) m f)).
  - eapply hoare_drop, (hoare_io _ _ _ _ (λ _, True)
      (λ _, storing local durable sname names (done ++ [n]))); [|done..].
    intros t t' u (Hl & Hdur & Hf) (x & fs & Hx & Hfs & _ & ->)%fs_copyFile_ok.
    destruct Hl as (lf & Hlf & Hl). destruct (Hl n Hn) as (y & Hy & Hlfn).
    unfold file_at in Hx. rewrite Hlf in Hx. cbn in Hx. assert (x = b) as -> by (unfold snapshot in *; congruence).
    split_and!; [|by apply holds_put|].
    + apply holds_other; [done|]. by exists lf.
    + unfold is_file, file_at in *. by rewrite put_other.
  - intros []. eapply hoare_bind; [eapply hoare_drop, hoare_checksum|]. intros h.
    apply (hoare_pre _ (at_tree (storing local durable sname names (done ++ [n])) m f)).
    { intros w. apply at_tree_mono. naive_solver. }
    eapply hoare_drop, hoare_post; [apply hoare_check|]. by intros [] w [_ Hw].
Qed.

(** The backup set: the manifest and the snapshots. *)
Definition backup_set (md : BackupMetadata) (names : list str) (B : files) : Prop :=
  B !! MANIFEST = Some (manifest_bytes md) ∧ (∀ n, n ∈ names → ∃ b, snapshot n b ∧ B !! n = Some b) ∧
  Forall2 record_of names (bm_databases md).
Definition kept (id : str) (B : files) (t : tree) : Prop := t !! (root ++ [id]) = Some B ∨ t !! (root ++ [id]) = None.

Lemma kept_rm id B force d t : kept id B t → kept id B (fs_rm_tree force d t).1.
Proof. intros H. unfold kept. by destruct (rm_tree_cases force d t (root ++ [id])) as [ -> | -> ]; [|right]. Qed.
Lemma kept_grown id B t t' : kept id B t → grown root t t' → kept id B t'.
Proof.
  intros H Hg. unfold kept in *. destruct (Hg (root ++ [id])) as [->|(_ & _ & Hb)]; [done|].
  by rewrite not_below_parent in Hb.
Qed.

Lemma hoare_prune config id B m f :
  rc_sqliteBackupRoot config = root →
  hoare (at_tree (kept id B) m f) (prune config) (λ _, at_tree (kept id B) m f) anything.
Proof.
  intros Hroot. unfold prune. rewrite Hroot.
  eapply hoare_bind; [eapply hoare_drop, hoare_list_backups; rewrite Hroot; apply kept_grown|]. intros backups.
  eapply (hoare_bind _ _ _ (λ _, at_tree (kept id B) m f)); [|by intros ? w Hw]. apply (hoare_for_each_inv _ (at_tree (kept id B) m f)). intros md _.
  eapply hoare_bind; [eapply hoare_drop, hoare_safeBackupDirectory|]. intros d. apply hoare_pure. intros _.
  eapply hoare_drop, (hoare_io _ _ _ _ (λ _, True) (λ _, kept id B)); [|done..].
  intros t t' [] Ht Ho. pose proof (kept_rm id B false d t Ht) as H. by rewrite Ho in H.
Qed.

(** The staged set is complete when the manifest is written, and found under its name when renamed. *)
Lemma hoare_publish local sname names md m f :
  Forall (λ n, DATABASE_FILENAME n = true) names → Forall2 record_of names (bm_databases md) →
  hoare (at_tree (storing local (root ++ [sname]) sname names names) m f)
    (writeFile true (root ++ [sname]) MANIFEST (manifest_bytes md) ;; rename root sname root (bm_backupId md))
    (λ _ w, ∃ B, backup_set md names B ∧ at_tree (kept (bm_backupId md) B) m f w) anything.
Proof.
  intros Hn Hrec.
  eapply (hoare_bind _ _ _ (λ _, at_tree (λ t, (∃ B, backup_set md names B ∧ t !! (root ++ [sname]) = Some B) ∧ is_file root sname t = false) m f)).
  - eapply hoare_drop, (hoare_io _ _ _ _ (λ _, True) (λ _ t, (∃ B, backup_set md names B ∧ t !! (root ++ [sname]) = Some B) ∧ is_file root sname t = false)); [|done..].
    intros t t' u (_ & (fs & Hfs & Hl) & Hf) Ho. apply fs_writeFile_ok in Ho as [-> _].
    split; [|unfold is_file, file_at in *; rewrite put_other by (intros E%eq_sym; by apply (child_ne root sname)); done].
    exists (<[MANIFEST := manifest_bytes md]> fs). split; [|by apply put_same]. split_and!; [by rewrite lookup_insert_eq| |done].
    intros n Hin. rewrite lookup_insert_ne; [by apply Hl|]. intros <-. rewrite Forall_forall in Hn. by specialize (Hn _ Hin).
  - intros []. eapply hoare_drop, hoare_post; [apply (hoare_io_write _ _ (λ t, ∃ B, backup_set md names B ∧ kept (bm_backupId md) B t))|].
    + intros t t' ((B & HB & Ht) & Hf) Ho. apply fs_rename_directory in Ho as [-> _]; [|done]. exists B. split; [done|].
      left. by apply move_tree_target.
    + apply fs_rename_throw.
    + intros [] w Hw. apply at_tree_exists in Hw as (B & (HB & Hk) & Hw). exists B. split; [done|]. by split.
Qed.

(** What the body of [createBackup] establishes when it returns [md]. *)
Definition set_stored (md : BackupMetadata) (w : storage) : Prop :=
  ∃ names B, (NoDup names ∧ ∀ n, n ∈ names ↔ DATABASE_FILENAME n = true ∧ is_Some (H0 !! n)) ∧
    backup_set md names B ∧ kept (bm_backupId md) B (st_tree w).

Lemma record_names names records : Forall2 record_of names records → map db_filename records = names.
Proof. induction 1 as [|n r names records (b & _ & ->) _ IH]; cbn; congruence. Qed.

Lemma hoare_backup_body config version m f :
  rc_sqliteBackupRoot config = root →
  hoare (at_tree (λ t, t !! home = Some H0) m f) (backup_body config version home)
    (λ md w, (metadata_ok md ∧ bm_runnerVersion md = rc_runnerVersion config ∧ ∃ t, bm_createdAt md = toISOString t) ∧
             set_stored md w ∧ fr_durable (st_frame w) = None ∧ whole w ∧
             st_manager w = Manager (mg_operation m) None (mg_recoveryRequired m))
    anything.
Proof.
  intros Hroot. unfold backup_body. rewrite Hroot.
  eapply hoare_bind; [apply hoare_databases|]. intros names. apply hoare_pure. intros Hnames.
  eapply hoare_bind; [eapply hoare_drop, hoare_check|]. intros []. apply hoare_pure. intros [Hne Hlen]%andb_true_iff.
  apply bool_decide_eq_true in Hne. apply Nat.leb_le in Hlen. destruct Hnames as [|(Hnd & Hdb & Hspec)]; [done|].
  specialize (Hspec Hlen). set (φ0 := λ t : tree, t !! home = Some H0).
  eapply (hoare_bind _ _ _ (λ _, at_tree φ0 m f)).
  { apply (hoare_for_each_inv _ (at_tree φ0 m f)). intros n _. eapply hoare_drop, hoare_post; [apply hoare_stat|].
    intros z w. apply at_tree_mono. naive_solver. }
  intros sizes. eapply (hoare_bind _ _ _ (λ _, at_tree φ0 m f)); [by intros w Hw|]. intros hst.
  eapply (hoare_bind _ _ _ (λ _, at_tree φ0 m f)).
  { eapply hoare_drop, hoare_post; [apply (hoare_io_read _ φ0 (λ _ _, True)); auto|]. intros z w. apply at_tree_mono. naive_solver. }
  intros free. eapply hoare_bind; [eapply hoare_drop, hoare_check|]. intros []. apply hoare_pure. intros _.
  eapply hoare_bind; [eapply hoare_drop, hoare_mkdtemp|]. intros local. apply hoare_pure. intros (s & _ & Elocal).
  assert (local ≠ home) as Hlh by (rewrite Elocal; intros E%eq_sym; by apply (child_ne home _ E)).
  eapply hoare_bind; [apply hoare_on_frame|]. intros [].
  match goal with |- hoare (at_tree _ _ ?g) _ _ _ => set (f1 := g) end.
  apply (hoare_pre _ (at_tree (λ t, stable t ∧ holds local [] t) m f1)).
  { intros w. apply at_tree_mono. intros t (t1 & Ht1 & _ & _ & ->). split.
    - exists H0. by rewrite lookup_insert_ne.
    - exists ∅. rewrite lookup_insert_eq. split; [done|set_solver]. }
  eapply (hoare_bind _ _ _ (λ _, at_tree (λ t, stable t ∧ holds local [] t) m f1)); [by intros w Hw|]. intros random.
  set (id := new_backup_id (toISOString (ho_clock hst)) random).
  set (I := λ done, at_tree (λ t, stable t ∧ holds local done t) m f1).
  eapply (hoare_bind _ _ _ (λ _, I names)).
  { apply (hoare_for_each _ I). intros done n todo _. by apply hoare_sqliteBackup. }
  intros ?. eapply (hoare_bind _ _ _ (λ rs w, I names w ∧ Forall2 record_of names rs)).
  { apply hoare_for_each_results. intros n Hn. eapply hoare_backup_record; [exact Hn|]. by intros t [_ ?]. }
  intros records. set (md := Build_BackupMetadata id _ _ _ records).
  apply (hoare_pre _ (λ w, Forall2 record_of names records ∧ I names w)); [naive_solver|].
  apply hoare_pure. intros Hrec. unfold I.
  eapply hoare_bind; [eapply hoare_drop, hoare_mkdirp|].
  { intros t t' [(fs & Hfs & Hs) (lf & Hlf & Hl)] Hg. split; [exists fs|exists lf]; eauto using grown_some. }
  intros []. set (sname := js ".staging-" ++ id). eapply hoare_bind; [apply hoare_on_frame|]. intros [].
  match goal with |- hoare (at_tree _ _ ?g) _ _ _ => set (f2 := g) end.
  eapply (hoare_bind _ _ _ (λ _ w, root ++ [sname] ≠ local ∧
            at_tree (storing local (root ++ [sname]) sname names []) m f2 w)).
  { eapply hoare_drop, hoare_post; [apply (hoare_io_write _ _ (λ t, root ++ [sname] ≠ local ∧ storing local (root ++ [sname]) sname names [] t))|].
    - intros t t' [Hst (lf & Hlf & Hl)] Ho. unfold fs_mkdir, occupied in Ho.
      destruct (is_file root sname t) eqn:Ef; [done|]. destruct (is_directory (root ++ [sname]) t) eqn:Ed; [done|].
      destruct (negb _); [done|]. injection Ho as <-. apply not_directory in Ed.
      assert (root ++ [sname] ≠ local) as Hne' by congruence. split; [done|]. split_and!.
      + exists lf. by rewrite lookup_insert_ne.
      + exists ∅. rewrite lookup_insert_eq. split; [done|set_solver].
      + unfold is_file, file_at in *. rewrite lookup_insert_ne; [done|]. intros E%eq_sym. by apply (child_ne root sname E).
    - apply fs_mkdir_throw.
    - intros [] w ((Hne' & Hst) & Hw). split; [done|by split]. }
  intros []. apply hoare_pure. intros Hdl.
  eapply (hoare_bind _ _ _ (λ _, at_tree (storing local (root ++ [sname]) sname names names) m f2)).
  { set (J := λ done : list DatabaseRecord, at_tree (storing local (root ++ [sname]) sname names (map db_filename done)) m f2).
    assert (names = map db_filename records) as Enames by by rewrite (record_names _ _ Hrec).
    eapply hoare_post; [apply (hoare_for_each _ J)|].
    - intros done r todo Er. unfold J. rewrite map_app. cbn [map].
      assert (∃ n, n ∈ names ∧ record_of n r) as (n & Hn & Hr).
      { apply Forall2_flip in Hrec. assert (r ∈ records) as Hin by (rewrite Er; set_solver).
        apply list_elem_of_lookup in Hin as [i Hi]. destruct (Forall2_lookup_l _ _ _ _ _ Hrec Hi) as (n & Hn & Hr).
        exists n. split; [by eapply list_elem_of_lookup_2|done]. }
      destruct Hr as (b & Hb & Er'). replace (db_filename r) with n by by rewrite Er'.
      apply hoare_store_durably; [done| |done|by exists b]. intros E%eq_sym. by apply (child_ne root sname E).
    - intros ? w. unfold J. by rewrite <- Enames. }
  intros ?. apply hoare_assoc. eapply hoare_bind; [exact (hoare_publish local sname names md m f2 Hdb Hrec)|].
  intros []. apply hoare_exists. intros B. apply hoare_pure. intros HB.
  eapply hoare_bind; [apply hoare_on_frame|]. intros []. eapply hoare_bind; [apply hoare_on_manager|]. intros [].
  eapply hoare_bind; [by apply hoare_prune|]. intros [].
  eapply hoare_drop, hoare_post; [apply hoare_lift_at|]. intros md' w (Hp & Ht & Hm & Hf & Hw).
  pose proof (parse_manifest_fields _ _ _ Hp) as Emd. pose proof (parse_metadata_ok _ _ _ Hp) as Hok. rewrite Emd in *.
  split_and!; [done|done|by eexists| |by rewrite Hf|done|done].
  exists names, B. by split_and!.
Qed.

(** A stored set that was not pruned is a verified backup. *)
Lemma set_stored_verified md w B :
  metadata_ok md → units_ok (bm_runnerVersion md) → units_ok (bm_createdAt md) →
  set_stored md w → st_tree w !! (root ++ [bm_backupId md]) = Some B →
  verified root (st_tree w) (bm_backupId md) B md ∧
  (∀ n, n ∈ database_names md ↔ DATABASE_FILENAME n = true ∧ is_Some (H0 !! n)) ∧
  (∀ n, n ∈ database_names md → ∃ b, snapshot n b ∧ B !! n = Some b).
Proof.
  intros Hok Hu1 Hu2 (names & B' & [Hnd Hspec] & (Hm & Hs & Hrec) & [Hk|Hk]) HB; rewrite HB in Hk; [|done].
  injection Hk as <-. unfold database_names. rewrite (record_names _ _ Hrec). split_and!; [|done|done].
  split_and!; [done| |].
  - exists (manifest_bytes md), (manifest_json md). split_and!; [done|by apply manifest_reads|].
    apply parse_manifest_json; [done|]. by intros id [= <-].
  - apply Forall_forall. intros d Hd. apply list_elem_of_lookup in Hd as [i Hi].
    destruct (Forall2_lookup_r _ _ _ _ _ Hrec Hi) as (n & Hn & b & Hb & ->).
    destruct (Hs n) as (b' & Hb' & HBn); [by eapply list_elem_of_lookup_2|]. exists b'.
    assert (b' = b) as -> by (unfold snapshot in *; congruence). by split_and!.
Qed.

Lemma busy_guard_ok config w w1 d :
  busy_guard config w = (w1, Ok d) → w1 = w ∧ rc_sqliteHome config = Some d ∧ mg_operation (st_manager w) = OpIdle.
Proof.
  unfold busy_guard. intros [(w2 & d' & [-> Hd]%lift_run & H)|(e & _ & ?)]%bind_run; [|done].
  apply eq_sym, from_option_throw_ok in Hd.
  apply bind_run in H as [(w3 & m & Hm & H)|(e & _ & ?)]; [|done]. injection Hm as <- <-.
  apply bind_run in H as [(w4 & [] & [-> Hi]%lift_run & H)|(e & _ & ?)]; [|done].
  apply eq_sym, guard_throw_ok, bool_decide_eq_true in Hi. apply ret_run in H as [-> [= ->]]. done.
Qed.

(** The removals of the [finally] block. *)
Lemma hoare_backup_cleanup id B m f :
  fr_durable f = None →
  hoare (at_tree (kept id B) m f)
    (f ← get_frame; when_some (fr_local f) (rm_tree true) ;; when_some (fr_durable f) (rm_tree true) ;; set_operation OpIdle)
    (λ _, at_tree (kept id B) (Manager OpIdle (mg_lastFailure m) (mg_recoveryRequired m)) f) anything.
Proof.
  intros Hd. eapply hoare_bind; [apply hoare_get_frame|]. intros g. apply hoare_pure. intros ->. rewrite Hd.
  eapply (hoare_bind _ _ _ (λ _, at_tree (kept id B) m f)).
  { unfold when_some. destruct (fr_local f) as [d|]; [|by intros w Hw]. eapply hoare_drop, hoare_rm_tree.
    intros t. apply kept_rm. }
  intros []. eapply (hoare_bind _ _ _ (λ _, at_tree (kept id B) m f)); [by intros w Hw|]. intros [].
  apply hoare_on_manager.
Qed.

Lemma createBackup_run config version w w' md :
  rc_sqliteHome config = Some home → rc_sqliteBackupRoot config = root →
  st_tree w !! home = Some H0 → whole w →
  createBackup config version w = (w', Ok md) →
  (metadata_ok md ∧ bm_runnerVersion md = rc_runnerVersion config ∧ ∃ t, bm_createdAt md = toISOString t) ∧
  set_stored md w' ∧ st_manager w' = Manager OpIdle None (mg_recoveryRequired (st_manager w)).
Proof.
  intros Hhome Hroot Ht Hw Hr. unfold createBackup in Hr.
  apply bind_run in Hr as [(w1 & d & Hbusy & Hr)|(e & _ & ?)]; [|done].
  apply busy_guard_ok in Hbusy as (-> & Hd & _). rewrite Hhome in Hd. injection Hd as <-.
  apply bind_run in Hr as [(w1 & [] & [= <-] & Hr)|(e & [=] & _)].
  apply bind_run in Hr as [(w2 & [] & [= <-] & Hr)|(e & [=] & _)].
  unfold finally in Hr. apply bind_run in Hr as [(w3 & o & Ho & Hr)|(e & [? [_ [=]]]%attempt_run & _)].
  apply attempt_run in Ho as (o' & Ho & [= ->]).
  apply bind_run in Hr as [(w4 & [] & Hfin & Hr)|(e & _ & ?)]; [|done]. apply lift_run in Hr as [-> <-].
  apply try_run in Ho as [(md' & Ho & [= <-])|(w5 & e & _ & Ho)].
  2:{ apply bind_run in Ho as [(w6 & [] & _ & Ho)|(e' & _ & ?)]; [|done]. by apply throw_run in Ho as [_ ?]. }
  eapply hoare_run in Ho as H; [|by apply (hoare_backup_body config version)|by split_and!; [exact Ht|..]].
  destruct H as (Hmd & (names & B & HN & HB & Hk) & Hdur & Hw3 & Hm3). cbn in Hm3. split; [done|].
  eapply hoare_run in Hfin as Hc; [|by apply (hoare_backup_cleanup (bm_backupId md) B)|by split_and!].
  destruct Hc as (Hk' & Hm' & _ & _). cbn in Hm'.
  split; [|done]. by exists names, B.
Qed.
End Backup.

Lemma BACKUP_ID_not_latest id : BACKUP_ID id = true → str_eqb id (js "latest") = false.
Proof. intros H. apply not_true_iff_false. intros ->%str_eqb_eq. by vm_compute in H. Qed.

(** A backup that [createBackup] reports is complete: its metadata is well formed, it lists exactly
    the database files of the home at the start, and, unless retention pruned it at once, its
    directory holds the manifest and the SQLite snapshot of every one of them with the recorded
    size and digest. The manager is idle again. *)
Theorem backup_complete `{L : Libs} `{SH : SqliteHost} `{!SqliteHostLaws SH} config home H0 version w w' md :
  snapshots_repeatable →
  rc_sqliteHome config = Some home → st_tree w !! home = Some H0 → whole w → units_ok (rc_runnerVersion config) →
  createBackup config version w = (w', Ok md) →
  metadata_ok md ∧ mg_operation (st_manager w') = OpIdle ∧ mg_lastFailure (st_manager w') = None ∧
  (∀ B, st_tree w' !! (rc_sqliteBackupRoot config ++ [bm_backupId md]) = Some B →
        verified (rc_sqliteBackupRoot config) (st_tree w') (bm_backupId md) B md ∧
        (∀ n, n ∈ database_names md ↔ DATABASE_FILENAME n = true ∧ is_Some (H0 !! n)) ∧
        (∀ n, n ∈ database_names md → ∃ b, (sqlite3_backup H0 n).2 = Some b ∧ B !! n = Some b)).
Proof.
  intros Hrep Hhome Ht Hw Hu Hr.
  eapply createBackup_run in Hr as ((Hok & Hv & tm & Ht') & Hset & Hm); eauto. rewrite Hm. split_and!; [done..|].
  intros B HB. eapply set_stored_verified; eauto; [by rewrite Hv|]. rewrite Ht'. apply toISOString_units.
Qed.

(** C10: Restoring a backup brings back what it saved: after a successful [createBackup], a successful
    [restore] of its identifier, from any state in which the backup directory is still as
    [createBackup] left it, leaves as live SQLite files exactly the snapshots of the databases
    the home held when the backup started. *)
Theorem backup_then_restore `{L : Libs} `{SH : SqliteHost} `{!SqliteHostLaws SH} config home H0 version h
    w1 w2 md w3 w4 id :
  snapshots_repeatable →
  rc_sqliteHome config = Some home → st_tree w1 !! home = Some H0 → whole w1 → units_ok (rc_runnerVersion config) →
  createBackup config version w1 = (w2, Ok md) →
  below home (rc_sqliteBackupRoot config) = false → quiet (closeAndWait h) → quiet (ready h) →
  whole w3 → plain_home home (st_tree w3) → mg_recoveryRequired (st_manager w3) = false →
  is_Some (st_tree w2 !! (rc_sqliteBackupRoot config ++ [bm_backupId md])) →
  st_tree w3 !! (rc_sqliteBackupRoot config ++ [bm_backupId md])
  = st_tree w2 !! (rc_sqliteBackupRoot config ++ [bm_backupId md]) →
  restore config (bm_backupId md) h w3 = (w4, Ok id) →
  ∀ n, live (files_of home (st_tree w4)) !! n
       = if DATABASE_FILENAME n && bool_decide (is_Some (H0 !! n)) then (sqlite3_backup H0 n).2 else None.
Proof.
  intros Hrep Hhome Ht Hw1 Hu Hb Hbelow Hq1 Hq2 Hw3 Hp Hrec [B HB] HB3 Hr n.
  eapply createBackup_run in Hb as ((Hok & Hv & tm & Ht') & Hset & _); eauto.
  assert (mg_operation (st_manager w3) = OpIdle) as Hidle.
  { pose proof Hr as Hr'. apply bind_run in Hr' as [(w5 & d & (_ & _ & Hi)%busy_guard_ok & _)|(e & _ & ?)]; done. }
  pose proof (BACKUP_ID_not_latest _ (mo_id _ Hok)) as Hnl.
  eapply set_stored_verified in Hset as (Hver & Hspec & Hsnap); [|done|by rewrite Hv|rewrite Ht'; apply toISOString_units|exact HB].
  eapply restore_spec in Hr as (Hsel & B' & md' & Hver' & [Hlive _] & _); eauto. specialize (Hsel Hnl). subst id.
  assert (B' = B ∧ md' = md) as [-> ->].
  { destruct Hver as (H1 & (b & raw & H2 & H3 & H4) & _), Hver' as (G1 & (b' & raw' & G2 & G3 & G4) & _). split; congruence. }
  rewrite Hlive, lookup_restrict. destruct (decide (n ∈ database_names md)) as [Hn|Hn].
  - destruct (Hsnap n Hn) as (b & Hb1 & Hb2). apply Hspec in Hn as [-> Hn]. rewrite bool_decide_true by done. cbn.
    unfold snapshot in Hb1. congruence.
  - rewrite Hspec in Hn. destruct (DATABASE_FILENAME n); [|done]. rewrite bool_decide_false by naive_solver. done.
Qed.
