(* ===== verification/SqliteExamples.v ===== *)
(** * A SQLite home with two databases

    A concrete host and concrete runs: the witnesses of the theorems on backups
    and restore, and the two runs in which [restore] does not do what it means to. *)

From S2P Require Import Prelude JsString Encoding JsDate Json JsonText Libs Hoare NodeFs BackupMetadata SqliteStorage SqliteFacts SqliteBackup.

Module SqliteExamples.
Import ToyLibs.

(** The sum of the bytes modulo 16, printed as 64 hex digits. *)
Definition toy_hash (b : bytes) : N := foldl (λ a c, N.land (a + c) 15) 7%N b.
Definition toy_sha (b : bytes) : str := let d := hex_digit (N.land (toy_hash b) 15) in map (λ _, d) (seq 0 64).
#[export] Instance toy_sqlite : SqliteHost := {
  sha256_hex := toy_sha;
  sqlite3_backup fs n := (fs, fs !! n);
  readdir_order l := l;
}.

Lemma hex_digit_lower n : (n < 16)%N → is_hex_lower (hex_digit n) = true.
Proof.
  intros H. assert (n ∈ map N.of_nat (seq 0 16)) as Hn.
  { apply list_elem_of_fmap. exists (N.to_nat n). rewrite elem_of_seq. lia. }
  clear H. revert n Hn. apply Forall_forall. eval_decide.
Qed.
Lemma take_class_map g h l : (∀ i : nat, g (h i) = true) → take_class g (length l) (map h l) = Some [].
Proof. intros H. induction l as [|i l IH]; cbn; [done|]. by rewrite H. Qed.

#[export] Instance toy_sqlite_laws : SqliteHostLaws toy_sqlite.
Proof.
  split; [|done]. intros b. apply bool_decide_eq_true. apply (take_class_map is_hex_lower _ (seq 0 64)).
  intros i. apply hex_digit_lower. change 15%N with (N.ones 4). rewrite N.land_ones. by apply N.mod_lt.
Qed.

(** The App Server answers from a script. *)
Definition pop_app : StorageM bool := λ w,
  let h := st_host w in
  (with_host (Host (ho_mountinfo h) (ho_freeBytes h) (ho_clock h) (ho_suffixes h) (ho_random h) (tail (ho_app h))) w,
   Ok (default true (head (ho_app h)))).
Definition pop_close : StorageM unit :=
  b ← pop_app; if (b : bool) then mret () else throw (RunnerError (js "shutdown_timeout")).
Definition toy_hooks : hooks := {| closeAndWait := pop_close; ready := pop_app |}.
Lemma pop_app_quiet : quiet pop_app.
Proof. intros φ m f w (H1 & H2 & H3 & H4). cbn. by split_and!. Qed.
Lemma close_quiet : quiet (closeAndWait toy_hooks).
Proof.
  intros φ m f. eapply hoare_bind; [apply pop_app_quiet|]. intros [] w Hw; exact Hw.
Qed.

Definition home : dpath := [js "data"; js "codex-sqlite"].
Definition root : dpath := [js "data"; js "codex"; js ".adt"; js "sqlite-backups"].
Definition config : RunnerConfiguration := {|
  rc_sqliteHome := Some home; rc_codexHome := [js "data"; js "codex"]; rc_sqliteBackupRoot := root;
  rc_sqliteBackupRetention := 14; rc_runnerVersion := js "test" |}.
Definition the_host (app : list bool) : host :=
  Host [] 1000 1767225600000 [js "aaaaaa"; js "bbbbbb"; js "cccccc"] [[1; 2; 3; 4; 5; 6]%N] app.
Definition idle : manager := Manager OpIdle None false.

(** Two databases and a note in the home. *)
Definition before : tree :=
  {[ [js "data"] := ∅; [js "data"; js "codex"] := ∅;
     home := {[ js "one.db" := js "old1"; js "two.db" := js "old2"; js "note.txt" := js "n" ]} ]}.
Definition world (t : tree) (faults : list io_fault) (app : list bool) : storage :=
  Storage t faults (the_host app) idle empty_frame.

Definition saved : storage * outcome storage_error BackupMetadata := createBackup config (js "1.2.3") (world before [] []).
Definition metadata_of (o : outcome storage_error BackupMetadata) : BackupMetadata :=
  match o with Ok m => m | Throw _ => Build_BackupMetadata [] [] [] [] [] end.
Definition the_id : str := Eval vm_compute in bm_backupId (metadata_of saved.2).
Definition with_backup : tree := Eval vm_compute in st_tree saved.1.
(** Later the first database changes and a third one appears. *)
Definition later : tree := put home (js "one.db") (js "new1") (put home (js "three.db") (js "new3") with_backup).

(** ** Witnesses *)

Definition plain_check (home : dpath) (t : tree) : bool :=
  forallb (λ p, match child_of home p with Some n => negb (is_live n) | None => true end) (elements (dom t)).
Lemma plain_check_sound home t : plain_check home t = true → plain_home home t.
Proof.
  intros H n Hn. destruct (t !! (home ++ [n])) as [fs|] eqn:E; [exfalso|done].
  assert (home ++ [n] ∈ elements (dom t)) as Hin by (apply elem_of_elements, elem_of_dom; eauto).
  pose proof (proj1 (forallb_true_elem _ _) H _ Hin) as Hc. cbn beta in Hc. unfold child_of in Hc.
  rewrite (proj2 (strip_prefix_spec home (home ++ [n]) [n])) in Hc by done. by rewrite Hn in Hc.
Qed.

Lemma world_whole t app : whole (world t [] app).
Proof. split; [constructor|]. repeat constructor; vm_compute; reflexivity. Qed.
Lemma toy_repeatable : snapshots_repeatable.
Proof. by intros fs n fs' r [= <- _] k. Qed.

Lemma parse_metadata_sound_witness :
  parseBackupMetadata (manifest_json (metadata_of saved.2)) (Some the_id) = Ok (metadata_of saved.2) ∧
  metadata_ok (metadata_of saved.2).
Proof.
  split; [vm_compute; reflexivity|].
  apply (parse_metadata_sound (manifest_json (metadata_of saved.2)) (Some the_id)). vm_compute. reflexivity.
Defined.


Lemma backup_complete_witness :
  saved.2 = Ok (metadata_of saved.2) ∧ metadata_ok (metadata_of saved.2).
Proof.
  split; [vm_compute; reflexivity|].
  refine (proj1 (backup_complete config home (files_of home before) (js "1.2.3") (world before [] []) saved.1
    (metadata_of saved.2) _ _ _ _ _ _)).
  - apply toy_repeatable.
  - reflexivity.
  - vm_compute. reflexivity.
  - apply world_whole.
  - apply units_ok_dec. vm_compute. reflexivity.
  - vm_compute. reflexivity.
Defined.

(** The database that changed comes back, the one that was new goes away. *)
Lemma backup_then_restore_witness :
  let w := (restore config the_id toy_hooks (world later [] [])).1 in
  file_at home (js "one.db") (st_tree w) = Some (js "old1") ∧
  live (files_of home (st_tree w)) !! js "three.db" = None.
Proof.
  split; [vm_compute; reflexivity|].
  refine (eq_trans (backup_then_restore config home (files_of home before) (js "1.2.3") toy_hooks (world before [] [])
    saved.1 (metadata_of saved.2) (world later [] []) _ the_id _ _ _ _ _ _ _ _ _ _ _ _ _ _ _ (js "three.db")) _).
  - apply toy_repeatable.
  - reflexivity.
  - vm_compute. reflexivity.
  - apply world_whole.
  - apply units_ok_dec. vm_compute. reflexivity.
  - vm_compute. reflexivity.
  - vm_compute. reflexivity.
  - apply close_quiet.
  - apply pop_app_quiet.
  - apply world_whole.
  - apply plain_check_sound. vm_compute. reflexivity.
  - reflexivity.
  - vm_compute. eauto.
  - vm_compute. reflexivity.
  - vm_compute. reflexivity.
  - vm_compute. reflexivity.
Defined.

(** ** Runs that go wrong *)

(** The restore up to the removal of the safety copy, which stops after one file. *)
Definition partial_removal : list io_fault := repeat IoDone 18 ++ [IoPartialRm 1].

(** A removal of the safety copy that stops half-way after a completed restore makes the restore
    roll back from the incomplete copy: it reports that the original files were put back and is
    ready for the next operation, but an original database is gone. *)
Theorem restore_can_lose_originals :
  let r := restore config the_id toy_hooks (world later partial_removal []) in
  r.2 = Throw rolled_back ∧ st_manager r.1 = idle ∧
  file_at home (js "two.db") later = Some (js "old2") ∧ file_at home (js "two.db") (st_tree r.1) = None.
Proof. vm_compute. repeat split; reflexivity. Qed.

(** When the removal of the (empty) staging directory fails, a completed restore reports an error,
    and from then on every backup and every restore is refused as busy. *)
Theorem failed_cleanup_stays_busy :
  let w := (restore config the_id toy_hooks (world later (repeat IoDone 19 ++ [IoFail]) [])).1 in
  file_at home (js "one.db") (st_tree w) = Some (js "old1") ∧ mg_recoveryRequired (st_manager w) = false ∧
  (∀ version, createBackup config version w = (w, Throw (safe "runner_busy" 409))) ∧
  (∀ id h, restore config id h w = (w, Throw (safe "runner_busy" 409))).
Proof.
  intros w. assert (mg_operation (st_manager w) = OpRestore ∧ file_at home (js "one.db") (st_tree w) = Some (js "old1") ∧
    mg_recoveryRequired (st_manager w) = false) as (Hb & Hf & Hr) by (vm_compute; repeat split; reflexivity).
  clearbody w. split_and!; [done|done|intros version|intros id h]; unfold createBackup, restore, busy_guard, mbind, eff_bind, get_manager, lift;
    cbn [rc_sqliteHome config from_option_throw]; by rewrite Hb.
Qed.

(** A legacy database that cannot be read is left out, and the migration still counts as complete:
    the marker is written and the next start does not try again. *)
Theorem bootstrap_skips_unreadable :
  let legacy := put [js "data"; js "codex"] (js "state.db") (js "s")
                  (put [js "data"; js "codex"] (js "auth.db") (js "a") (<[home := ∅]> before)) in
  let r := bootstrapLegacySqlite config (world legacy (repeat IoDone 5 ++ [IoFail]) []) in
  let again := bootstrapLegacySqlite config (world (st_tree r.1) [] []) in
  r.2 = Ok () ∧ file_at home (js "state.db") (st_tree r.1) = Some (js "s") ∧
  again.2 = Ok () ∧ file_at home (js "auth.db") (st_tree again.1) = None.
Proof. vm_compute. repeat split; reflexivity. Qed.
End SqliteExamples.
