(* ===== verification/Vault.v ===== *)
(** * Provider credential vault

    Models [src/lib/provider-credential-vault-crypto.ts] (the envelope of an
    encrypted credential) and [src/lib/provider-credential-vault.ts] (the vault
    and its bindings) over the tables of [src/migrations/0009], [0019], [0020]
    and [0021]: primary keys, unique columns, foreign keys and the cascade of a
    deleted secret are part of the statements.

    AES-GCM and the URL parser are parameters ([VaultCrypto], [UrlParser]);
    random bytes and the clock are scripts of the world, and every statement
    takes one fault of the database. *)

From S2P Require Import Prelude JsString Regex Encoding JsDate Json Layout BackupMetadata D1.

(** AES-GCM with a 128-bit tag: key, initialisation vector, additional data, text. *)
Class VaultCrypto := {
  gcm_encrypt : list N → list N → list N → list N → list N;
  gcm_decrypt : list N → list N → list N → list N → option (list N);
}.
(** Documented behaviour: a ciphertext is bytes, decrypts to the text under the same key, vector and
    additional data, and is refused under other additional data. *)
Class VaultCryptoLaws (C : VaultCrypto) := {
  gcm_bytes k iv a m : Forall byte_ok (gcm_encrypt k iv a m);
  gcm_roundtrip k iv a m : Forall byte_ok m → gcm_decrypt k iv a (gcm_encrypt k iv a m) = Some m;
  gcm_authentic k iv a a' m : a ≠ a' → gcm_decrypt k iv a' (gcm_encrypt k iv a m) = None;
}.

(** What [new URL] returns, as far as the sources look at it; [url_href] prints it. *)
Record absolute_url := AbsoluteUrl {
  ur_protocol : str;
  ur_username : str;
  ur_password : str;
  ur_hostname : str;
  ur_port : str;
  ur_pathname : str;
  ur_search : str;
  ur_hash : str;
}.
Class UrlParser := {
  new_URL : str → option absolute_url;
  url_href : absolute_url → str;
}.

(** ** The envelope *)

Definition PROVIDER_CREDENTIAL_VAULT_ENCRYPTION_VERSION : Z := 1.
Definition PROVIDER_CREDENTIAL_VAULT_MASTER_KEY_VERSION : Z := 1.
Definition MAX_PROVIDER_CREDENTIAL_LENGTH : Z := 8192.

Record VaultEnvelope := Envelope {
  en_ciphertext : str;
  en_iv : str;
  en_encryptionVersion : Z;
  en_masterKeyVersion : Z;
}.

Inductive vault_code :=
| Vault_credential_empty | Vault_credential_too_large | Vault_encryption_version_unsupported
| Vault_master_key_unavailable | Vault_master_key_invalid | Vault_encryption_failed | Vault_decryption_failed.
Inductive service_code :=
| Vault_secret_id_invalid | Vault_secret_exists | Vault_secret_unavailable | Vault_persistence_failed.
Inductive vault_error :=
| VaultError (code : vault_code)
| VaultServiceError (code : service_code)
(** an error of the database binding *)
| VaultDatabaseError
(** an [Error] without a message *)
| VaultPlainError.
#[export] Instance vault_code_eq_dec : EqDecision vault_code.
Proof. solve_decision. Defined.
#[export] Instance service_code_eq_dec : EqDecision service_code.
Proof. solve_decision. Defined.
#[export] Instance vault_error_eq_dec : EqDecision vault_error.
Proof. solve_decision. Defined.

Abbreviation key_resolver := (Z → option str).

Definition validateCredential (credential : str) : outcome vault_error unit :=
  _ ← guard_throw (nonempty credential) (VaultError Vault_credential_empty);
  guard_throw (Z.of_nat (length credential) <=? MAX_PROVIDER_CREDENTIAL_LENGTH)%Z (VaultError Vault_credential_too_large).

(** The bytes of canonical base64. *)
Definition decodeBase64 (value : str) : option (list N) :=
  let bytes := base64_decode value in
  if str_eqb (base64_encode bytes) value then Some bytes else None.
Definition decodeMasterKey (value : option str) : outcome vault_error (list N) :=
  match value with
  | None => Throw (VaultError Vault_master_key_unavailable)
  | Some value =>
      match decodeBase64 value with
      | Some bytes => if (length bytes =? 32)%nat then Ok bytes else Throw (VaultError Vault_master_key_invalid)
      | None => Throw (VaultError Vault_master_key_invalid)
      end
  end.

Definition aad (secretId : str) (encryptionVersion masterKeyVersion : Z) : list N :=
  utf8_encode (js "adt-provider-credential-vault:encryption-v" ++ dec_of_Z encryptionVersion ++ js ":master-key-v"
               ++ dec_of_Z masterKeyVersion ++ js ":secret:" ++ secretId).

Definition providerCredentialVaultV1KeyResolver (root : option str) : key_resolver :=
  λ version, if (version =? PROVIDER_CREDENTIAL_VAULT_MASTER_KEY_VERSION)%Z then root else None.

Section Envelope.
Context `{C : VaultCrypto}.

(** [iv] are the twelve random bytes of [getRandomValues]. *)
Definition encryptVaultCredential (credential secretId : str) (resolveKey : key_resolver) (masterKeyVersion : Z)
    (iv : list N) : outcome vault_error VaultEnvelope :=
  _ ← validateCredential credential;
  key ← decodeMasterKey (resolveKey masterKeyVersion);
  Ok (Envelope (base64_encode (gcm_encrypt key iv
                  (aad secretId PROVIDER_CREDENTIAL_VAULT_ENCRYPTION_VERSION masterKeyVersion) (utf8_encode credential)))
        (base64_encode iv) PROVIDER_CREDENTIAL_VAULT_ENCRYPTION_VERSION masterKeyVersion).

Definition decryptVaultCredential (envelope : VaultEnvelope) (secretId : str) (resolveKey : key_resolver)
    : outcome vault_error str :=
  let failed := VaultError Vault_decryption_failed in
  _ ← guard_throw (en_encryptionVersion envelope =? PROVIDER_CREDENTIAL_VAULT_ENCRYPTION_VERSION)%Z
        (VaultError Vault_encryption_version_unsupported);
  key ← decodeMasterKey (resolveKey (en_masterKeyVersion envelope));
  iv ← from_option_throw failed (decodeBase64 (en_iv envelope));
  ciphertext ← from_option_throw failed (decodeBase64 (en_ciphertext envelope));
  _ ← guard_throw (length iv =? 12)%nat failed;
  cleartext ← from_option_throw failed
    (gcm_decrypt key iv (aad secretId (en_encryptionVersion envelope) (en_masterKeyVersion envelope)) ciphertext);
  Ok (utf8_decode cleartext).
End Envelope.

(** ** Tables *)

Record VaultRow := MkVaultRow {
  vr_envelope : VaultEnvelope;
  vr_created_at : str;
  vr_updated_at : str;
  vr_revision : Z;
}.
(** A row of [mcp_server_credentials] or [security_profile_credentials], by repository and server or
    profile. *)
Record BindingRow := MkBindingRow {
  br_binding_id : str;
  br_trust_target : str;
  br_secret_id : str;
  br_updated_at : str;
}.
Abbreviation binding_table := (gmap (Z * list N) BindingRow).
Record vault_db := VaultDb {
  vd_vault : gmap (list N) VaultRow;
  vd_mcp : binding_table;
  vd_security : binding_table;
}.
Inductive binding_kind := McpServer | SecurityProfile.
Definition bindings (k : binding_kind) (d : vault_db) : binding_table :=
  match k with McpServer => vd_mcp d | SecurityProfile => vd_security d end.
Definition set_bindings (k : binding_kind) (b : binding_table) (d : vault_db) : vault_db :=
  match k with McpServer => VaultDb (vd_vault d) b (vd_security d) | SecurityProfile => VaultDb (vd_vault d) (vd_mcp d) b end.
Definition set_vault (v : gmap (list N) VaultRow) (d : vault_db) : vault_db := VaultDb v (vd_mcp d) (vd_security d).

Abbreviation statement A := (vault_db → vault_db * outcome vault_error A).

Definition select_vault (secretId : str) : statement (option VaultRow) := λ d, (d, Ok (vd_vault d !! secretId)).
Definition insert_vault (secretId : str) (r : VaultRow) : statement unit := λ d,
  match vd_vault d !! secretId with
  | Some _ => (d, Throw VaultDatabaseError)
  | None => (set_vault (<[secretId := r]> (vd_vault d)) d, Ok ())
  end.
(** An UPDATE of the row of [secretId], if [cond] holds of it: the number of changed rows. *)
Definition update_vault (secretId : str) (cond : VaultRow → bool) (f : VaultRow → VaultRow) : statement Z := λ d,
  match vd_vault d !! secretId with
  | Some r => if cond r then (set_vault (<[secretId := f r]> (vd_vault d)) d, Ok 1%Z) else (d, Ok 0%Z)
  | None => (d, Ok 0%Z)
  end.
Definition uses (secretId : str) (kv : Z * list N * BindingRow) : Prop := br_secret_id kv.2 = secretId.
#[global] Instance uses_dec s kv : Decision (uses s kv).
Proof. unfold uses. apply _. Defined.
(** DELETE, with ON DELETE CASCADE *)
Definition delete_vault (secretId : str) : statement unit := λ d,
  (VaultDb (delete secretId (vd_vault d))
     (filter (λ kv, ¬ uses secretId kv) (vd_mcp d)) (filter (λ kv, ¬ uses secretId kv) (vd_security d)), Ok ()).

Definition select_binding (k : binding_kind) (repositoryId : Z) (name : str) : statement (option BindingRow) :=
  λ d, (d, Ok (bindings k d !! (repositoryId, name))).
(** SELECT by repository and binding identifier, the primary key *)
Definition has_binding (repositoryId : Z) (bindingId : str) (kv : Z * list N * BindingRow) : bool :=
  (kv.1.1 =? repositoryId)%Z && str_eqb (br_binding_id kv.2) bindingId.
Definition select_by_binding (k : binding_kind) (repositoryId : Z) (bindingId : str) : statement (option BindingRow) :=
  λ d, (d, Ok (snd <$> List.find (has_binding repositoryId bindingId) (map_to_list (bindings k d)))).
(** The constraints of a written row: the foreign key, and the primary key among the other rows. *)
Definition row_allowed (k : binding_kind) (repositoryId : Z) (name : str) (r : BindingRow) (d : vault_db) : bool :=
  bool_decide (is_Some (vd_vault d !! br_secret_id r)) &&
  negb (existsb (has_binding repositoryId (br_binding_id r)) (map_to_list (delete (repositoryId, name) (bindings k d)))).
Definition write_binding (k : binding_kind) (repositoryId : Z) (name : str) (r : BindingRow) (d : vault_db) : vault_db :=
  set_bindings k (<[(repositoryId, name) := r]> (bindings k d)) d.
Definition insert_binding (k : binding_kind) (repositoryId : Z) (name : str) (r : BindingRow) : statement unit := λ d,
  match bindings k d !! (repositoryId, name) with
  | Some _ => (d, Throw VaultDatabaseError)
  | None => if row_allowed k repositoryId name r d then (write_binding k repositoryId name r d, Ok ())
            else (d, Throw VaultDatabaseError)
  end.
Definition update_binding (k : binding_kind) (repositoryId : Z) (name : str) (cond : BindingRow → bool)
    (f : BindingRow → BindingRow) : statement Z := λ d,
  match bindings k d !! (repositoryId, name) with
  | Some r => if negb (cond r) then (d, Ok 0%Z)
              else if row_allowed k repositoryId name (f r) d then (write_binding k repositoryId name (f r) d, Ok 1%Z)
              else (d, Throw VaultDatabaseError)
  | None => (d, Ok 0%Z)
  end.
Definition delete_binding (k : binding_kind) (repositoryId : Z) (name : str) (cond : BindingRow → bool) : statement Z := λ d,
  match bindings k d !! (repositoryId, name) with
  | Some r => if cond r then (set_bindings k (delete (repositoryId, name) (bindings k d)) d, Ok 1%Z) else (d, Ok 0%Z)
  | None => (d, Ok 0%Z)
  end.

(** ** The service *)

Record vault_world := VaultWorld {
  vw_db : d1 vault_db;
  vw_random : list (list N);
  vw_clock : Z;
}.
Abbreviation VaultM := (eff vault_world vault_error).

Definition run_sql {A} (s : statement A) : VaultM A := λ w,
  let '(d, r) := d1_exec VaultDatabaseError s (vw_db w) in (VaultWorld d (vw_random w) (vw_clock w), r).
(** [crypto.getRandomValues] of [n] bytes *)
Definition getRandomValues (n : nat) : VaultM (list N) := λ w,
  (VaultWorld (vw_db w) (tail (vw_random w)) (vw_clock w),
   Ok (take n (default [] (head (vw_random w)) ++ repeat 0%N n))).
(** [new Date().toISOString()] *)
Definition now_text : VaultM str := λ w, (w, Ok (toISOString (vw_clock w))).

Definition is_b64url (c : N) : bool := is_alnum c || (c =? 95)%N || (c =? 45)%N.
(** [prefix] and 43 characters of base64url *)
Definition is_prefixed_id (prefix s : str) : bool :=
  bool_decide ((r ← take_literal prefix s; take_class is_b64url 43 r) = Some []).
Definition SECRET_ID_PATTERN : str → bool := is_prefixed_id (js "sec_").
Definition MCP_BINDING_ID_PATTERN : str → bool := is_prefixed_id (js "mcpb_").
Definition SECURITY_BINDING_ID_PATTERN : str → bool := is_prefixed_id (js "spb_").
Definition isProviderCredentialVaultSecretId (value : str) : bool := SECRET_ID_PATTERN value.

Definition generate_id (prefix : str) : VaultM str :=
  bytes ← getRandomValues 32; mret (prefix ++ base64url_encode bytes).
Definition generateProviderCredentialVaultSecretId : VaultM str := generate_id (js "sec_").
Definition generateBindingId : VaultM str := generate_id (js "mcpb_").

Definition service_error (code : service_code) : vault_error := VaultServiceError code.
Definition persistence_failed : vault_error := VaultServiceError Vault_persistence_failed.
Definition check {W} (b : bool) (e : vault_error) : eff W vault_error unit := lift (guard_throw b e).
Definition assertSecretId (secretId : str) : VaultM unit :=
  check (isProviderCredentialVaultSecretId secretId) (service_error Vault_secret_id_invalid).

(** [Number.isSafeInteger(id) && id >= 1] *)
Definition valid_repository (repositoryId : Z) : bool := is_safe_Z repositoryId && (1 <=? repositoryId)%Z.
Definition optional_pattern (p : str → bool) (bindingId : option str) : bool :=
  match bindingId with Some ((_ :: _) as b) => p b | _ => true end.
Definition binding_pattern (k : binding_kind) : str → bool :=
  match k with McpServer => MCP_BINDING_ID_PATTERN | SecurityProfile => SECURITY_BINDING_ID_PATTERN end.
(** [assertMcpIdentity] and [assertSecurityIdentity] *)
Definition assert_identity (k : binding_kind) (repositoryId : Z) (name : str) (bindingId : option str) : VaultM unit :=
  check (valid_repository repositoryId && is_artifact_id name && optional_pattern (binding_pattern k) bindingId)
    persistence_failed.

Section Service.
Context `{C : VaultCrypto} `{U : UrlParser}.
Variables (resolveKey : key_resolver) (activeMasterKeyVersion : Z).

Definition vault_row (secretId : str) : VaultM (option VaultRow) := run_sql (select_vault secretId).

Definition encrypt_with (credential secretId : str) : VaultM VaultEnvelope :=
  _ ← lift (validateCredential credential);
  _ ← lift (decodeMasterKey (resolveKey activeMasterKeyVersion));
  iv ← getRandomValues 12;
  lift (encryptVaultCredential credential secretId resolveKey activeMasterKeyVersion iv).

Definition insert_secret (secretId credential : str) : VaultM unit :=
  encrypted ← encrypt_with credential secretId;
  now ← now_text;
  try_catch (run_sql (insert_vault secretId (MkVaultRow encrypted now now 1)))
    (λ _, existing ← vault_row secretId;
          match existing with
          | Some _ => throw (service_error Vault_secret_exists)
          | None => throw persistence_failed
          end).

Definition create_secret (credential : str) : VaultM str :=
  secretId ← generateProviderCredentialVaultSecretId;
  assertSecretId secretId ;;
  insert_secret secretId credential ;;
  mret secretId.

Definition found_row (secretId : str) : VaultM VaultRow :=
  assertSecretId secretId ;;
  r ← vault_row secretId;
  lift (from_option_throw (service_error Vault_secret_unavailable) r).
Definition resolve_secret (secretId : str) : VaultM str :=
  r ← found_row secretId;
  lift (decryptVaultCredential (vr_envelope r) secretId resolveKey).
Definition resolveWithRevision (secretId : str) : VaultM (str * Z) :=
  r ← found_row secretId;
  value ← lift (decryptVaultCredential (vr_envelope r) secretId resolveKey);
  mret (value, vr_revision r).

(** *** Secrets *)

Definition replaceIfRevision (secretId : str) (expectedRevision : Z) (credential : str) : VaultM bool :=
  assertSecretId secretId ;;
  check (is_safe_Z expectedRevision && (1 <=? expectedRevision)%Z) persistence_failed ;;
  encrypted ← encrypt_with credential secretId;
  now ← now_text;
  changes ← run_sql (update_vault secretId (λ r, vr_revision r =? expectedRevision)%Z
                       (λ r, MkVaultRow encrypted (vr_created_at r) now (vr_revision r + 1)));
  mret (changes =? 1)%Z.

Definition replace_secret (secretId credential : str) : VaultM unit :=
  assertSecretId secretId ;;
  encrypted ← encrypt_with credential secretId;
  now ← now_text;
  changes ← run_sql (update_vault secretId (λ _, true)
                       (λ r, MkVaultRow encrypted (vr_created_at r) now (vr_revision r)));
  check (changes =? 1)%Z (service_error Vault_secret_unavailable).

Definition delete_secret (secretId : str) : VaultM unit :=
  assertSecretId secretId ;; run_sql (delete_vault secretId).

Definition recover_secret (secretId credential : str) : VaultM unit :=
  assertSecretId secretId ;; insert_secret secretId credential.

(** *** MCP server bindings *)

Definition mcpTrustTarget (endpoint : str) : VaultM str :=
  match new_URL endpoint with
  | Some u => if str_eqb (ur_protocol u) (js "https:") then mret (url_href u) else throw persistence_failed
  | None => throw persistence_failed
  end.
Definition mcpBinding (repositoryId : Z) (serverId : str) : VaultM (option BindingRow) :=
  run_sql (select_binding McpServer repositoryId serverId).
Definition same_binding (target secretId : str) (r : BindingRow) : bool :=
  str_eqb (br_secret_id r) secretId && str_eqb (br_trust_target r) target.

Definition ensureMcpServerCredentialBinding (repositoryId : Z) (serverId endpoint secretId : str) : VaultM str :=
  assert_identity McpServer repositoryId serverId None ;;
  trustTarget ← mcpTrustTarget endpoint;
  assertSecretId secretId ;;
  current ← mcpBinding repositoryId serverId;
  match current with
  | Some r => if same_binding trustTarget secretId r then mret (br_binding_id r) else throw persistence_failed
  | None =>
      bindingId ← generateBindingId;
      assert_identity McpServer repositoryId serverId (Some bindingId) ;;
      now ← now_text;
      try_catch
        (run_sql (insert_binding McpServer repositoryId serverId (MkBindingRow bindingId trustTarget secretId now)) ;;
         mret bindingId)
        (λ _, raced ← mcpBinding repositoryId serverId;
              match raced with
              | Some r => if same_binding trustTarget secretId r then mret (br_binding_id r) else throw persistence_failed
              | None => throw persistence_failed
              end)
  end.

Definition rotateMcpServerCredential (repositoryId : Z) (serverId bindingId endpoint secretId expectedSecretId : str)
    : VaultM unit :=
  assert_identity McpServer repositoryId serverId (Some bindingId) ;;
  trustTarget ← mcpTrustTarget endpoint;
  assertSecretId secretId ;;
  assertSecretId expectedSecretId ;;
  now ← now_text;
  changes ← run_sql (update_binding McpServer repositoryId serverId
    (λ r, str_eqb (br_binding_id r) bindingId && same_binding trustTarget expectedSecretId r)
    (λ r, MkBindingRow (br_binding_id r) (br_trust_target r) secretId now));
  check (changes =? 1)%Z persistence_failed.

Definition replaceMcpServerCredentialBinding (repositoryId : Z)
    (serverId oldBindingId oldEndpoint newEndpoint secretId : str) : VaultM str :=
  assert_identity McpServer repositoryId serverId (Some oldBindingId) ;;
  oldTarget ← mcpTrustTarget oldEndpoint;
  newTarget ← mcpTrustTarget newEndpoint;
  assertSecretId secretId ;;
  bindingId ← generateBindingId;
  assert_identity McpServer repositoryId serverId (Some bindingId) ;;
  now ← now_text;
  changes ← run_sql (update_binding McpServer repositoryId serverId
    (λ r, str_eqb (br_binding_id r) oldBindingId && str_eqb (br_trust_target r) oldTarget)
    (λ _, MkBindingRow bindingId newTarget secretId now));
  check (changes =? 1)%Z persistence_failed ;;
  mret bindingId.

Definition restoreMcpServerCredentialBinding (repositoryId : Z) (serverId bindingId endpoint secretId : str) : VaultM unit :=
  assert_identity McpServer repositoryId serverId (Some bindingId) ;;
  trustTarget ← mcpTrustTarget endpoint;
  assertSecretId secretId ;;
  current ← mcpBinding repositoryId serverId;
  now ← now_text;
  let r' := MkBindingRow bindingId trustTarget secretId now in
  match current with
  | Some r => if str_eqb (br_binding_id r) bindingId && same_binding trustTarget secretId r then mret ()
              else run_sql (update_binding McpServer repositoryId serverId (λ _, true) (λ _, r')) ;; mret ()
  | None => run_sql (insert_binding McpServer repositoryId serverId r')
  end.

Definition resolveMcpServerCredential (repositoryId : Z) (bindingId : str) : VaultM str :=
  assert_identity McpServer repositoryId (js "binding") (Some bindingId) ;;
  r ← run_sql (select_by_binding McpServer repositoryId bindingId);
  match r with
  | Some r => resolve_secret (br_secret_id r)
  | None => throw (service_error Vault_secret_unavailable)
  end.

Definition revokeMcpServerCredentialBinding (repositoryId : Z) (serverId bindingId : str) : VaultM unit :=
  assert_identity McpServer repositoryId serverId (Some bindingId) ;;
  changes ← run_sql (delete_binding McpServer repositoryId serverId (λ r, str_eqb (br_binding_id r) bindingId));
  check (changes =? 1)%Z persistence_failed.

(** *** Security profile bindings *)

Definition securityTrustTarget (endpoint : str) : VaultM str :=
  match new_URL endpoint with
  | Some u =>
      if str_eqb (ur_protocol u) (js "wss:") && negb (nonempty (ur_username u)) && negb (nonempty (ur_password u))
         && negb (nonempty (ur_search u))
      then mret (url_href (AbsoluteUrl (ur_protocol u) (ur_username u) (ur_password u) (to_lower (ur_hostname u))
                   (if str_eqb (ur_port u) (js "443") then [] else ur_port u) (ur_pathname u) (ur_search u) []))
      else throw persistence_failed
  | None => throw persistence_failed
  end.
Definition securityBinding (repositoryId : Z) (profileId : str) : VaultM (option BindingRow) :=
  run_sql (select_binding SecurityProfile repositoryId profileId).
Definition generateSecurityBindingId : VaultM str := generate_id (js "spb_").
(** [this.delete(secretId).catch(() => undefined)] *)
Definition delete_quietly (secretId : str) : VaultM unit := try_catch (delete_secret secretId) (λ _, mret ()).

Definition createSecurityProfileCredentialBinding (repositoryId : Z) (profileId endpoint credential : str) : VaultM str :=
  assert_identity SecurityProfile repositoryId profileId None ;;
  secretId ← create_secret credential;
  bindingId ← generateSecurityBindingId;
  target ← securityTrustTarget endpoint;
  assert_identity SecurityProfile repositoryId profileId (Some bindingId) ;;
  now ← now_text;
  try_catch
    (run_sql (insert_binding SecurityProfile repositoryId profileId (MkBindingRow bindingId target secretId now)) ;;
     mret bindingId)
    (λ error, delete_quietly secretId ;; throw error).

Definition recoverSecurityProfileCredentialBinding (repositoryId : Z) (profileId endpoint credential : str) : VaultM str :=
  assert_identity SecurityProfile repositoryId profileId None ;;
  target ← securityTrustTarget endpoint;
  observed ← securityBinding repositoryId profileId;
  secretId ← create_secret credential;
  bindingId ← generateSecurityBindingId;
  assert_identity SecurityProfile repositoryId profileId (Some bindingId) ;;
  now ← now_text;
  let r' := MkBindingRow bindingId target secretId now in
  try_catch
    match observed with
    | Some o =>
        changes ← run_sql (update_binding SecurityProfile repositoryId profileId
          (λ r, str_eqb (br_binding_id r) (br_binding_id o) && same_binding (br_trust_target o) (br_secret_id o) r)
          (λ _, r'));
        check (changes =? 1)%Z VaultPlainError
    | None => run_sql (insert_binding SecurityProfile repositoryId profileId r')
    end
    (λ _, delete_quietly secretId ;; throw persistence_failed) ;;
  match observed with Some o => delete_quietly (br_secret_id o) | None => mret () end ;;
  mret bindingId.

(** The binding of the profile, if it is [bindingId] for [endpoint]; the URL is parsed only then. *)
Definition current_binding (repositoryId : Z) (profileId : str) (bindingId : option str) (endpoint : str) (e : vault_error)
    : VaultM BindingRow :=
  o ← securityBinding repositoryId profileId;
  match o with
  | None => throw e
  | Some r =>
      check (match bindingId with Some b => str_eqb (br_binding_id r) b | None => true end) e ;;
      target ← securityTrustTarget endpoint;
      check (str_eqb (br_trust_target r) target) e ;;
      mret r
  end.

Definition rotateSecurityProfileCredential (repositoryId : Z) (profileId bindingId endpoint credential : str) : VaultM unit :=
  assert_identity SecurityProfile repositoryId profileId (Some bindingId) ;;
  r ← current_binding repositoryId profileId (Some bindingId) endpoint persistence_failed;
  replace_secret (br_secret_id r) credential.

Definition replaceSecurityProfileCredentialBinding (repositoryId : Z)
    (profileId oldBindingId oldEndpoint newEndpoint credential : str) : VaultM str :=
  assert_identity SecurityProfile repositoryId profileId (Some oldBindingId) ;;
  old ← current_binding repositoryId profileId (Some oldBindingId) oldEndpoint persistence_failed;
  secretId ← create_secret credential;
  bindingId ← generateSecurityBindingId;
  try_catch
    (now ← now_text;
     target ← securityTrustTarget newEndpoint;
     changes ← run_sql (update_binding SecurityProfile repositoryId profileId
       (λ r, str_eqb (br_binding_id r) oldBindingId && str_eqb (br_trust_target r) (br_trust_target old))
       (λ _, MkBindingRow bindingId target secretId now));
     check (changes =? 1)%Z VaultPlainError ;;
     delete_quietly (br_secret_id old) ;;
     mret bindingId)
    (λ _, delete_quietly secretId ;; throw persistence_failed).

Definition currentSecurityProfileCredentialBinding (repositoryId : Z) (profileId endpoint : str) : VaultM str :=
  assert_identity SecurityProfile repositoryId profileId None ;;
  r ← current_binding repositoryId profileId None endpoint (service_error Vault_secret_unavailable);
  mret (br_binding_id r).

Definition resolveSecurityProfileCredential (repositoryId : Z) (bindingId endpoint : str) : VaultM str :=
  assert_identity SecurityProfile repositoryId (js "binding") (Some bindingId) ;;
  o ← run_sql (select_by_binding SecurityProfile repositoryId bindingId);
  match o with
  | None => throw (service_error Vault_secret_unavailable)
  | Some r =>
      target ← securityTrustTarget endpoint;
      check (str_eqb (br_trust_target r) target) (service_error Vault_secret_unavailable) ;;
      resolve_secret (br_secret_id r)
  end.

Definition revokeSecurityProfileCredentialBinding (repositoryId : Z) (profileId bindingId : str) : VaultM unit :=
  assert_identity SecurityProfile repositoryId profileId (Some bindingId) ;;
  o ← securityBinding repositoryId profileId;
  match o with
  | Some r => if str_eqb (br_binding_id r) bindingId then delete_secret (br_secret_id r) else throw persistence_failed
  | None => throw persistence_failed
  end.
End Service.
