(* ===== verification/VaultFacts.v ===== *)
(** * Theorems on the credential vault

    Encryption round trips and is bound to the secret's identifier, the
    revision guards concurrent replacement, the tables stay consistent under
    every operation and fault, and a binding only resolves in its repository
    and for its endpoint. *)

From S2P Require Import Prelude JsString Encoding JsDate Json JsonText Layout BackupMetadata D1 Hoare Vault.

Section Envelope.
Context `{C : VaultCrypto} `{CL : !VaultCryptoLaws C}.

Lemma decodeBase64_encode l : Forall byte_ok l → decodeBase64 (base64_encode l) = Some l.
Proof. intros H. unfold decodeBase64. by rewrite base64_roundtrip, str_eqb_refl. Qed.

Lemma encrypt_envelope credential id resolveKey v iv env :
  encryptVaultCredential credential id resolveKey v iv = Ok env →
  ∃ key, decodeMasterKey (resolveKey v) = Ok key ∧
    env = Envelope (base64_encode (gcm_encrypt key iv (aad id 1 v) (utf8_encode credential))) (base64_encode iv) 1 v.
Proof.
  unfold encryptVaultCredential. intros ([] & _ & (key & Hk & [= <-])%outcome_bind_ok)%outcome_bind_ok. eauto.
Qed.

Lemma decrypt_envelope key id id' resolveKey v iv m :
  decodeMasterKey (resolveKey v) = Ok key → Forall byte_ok iv → length iv = 12%nat →
  decryptVaultCredential (Envelope (base64_encode (gcm_encrypt key iv (aad id 1 v) m)) (base64_encode iv) 1 v) id' resolveKey
  = match gcm_decrypt key iv (aad id' 1 v) (gcm_encrypt key iv (aad id 1 v) m) with
    | Some t => Ok (utf8_decode t)
    | None => Throw (VaultError Vault_decryption_failed)
    end.
Proof.
  intros Hk Hiv Hl. unfold decryptVaultCredential. cbn [en_encryptionVersion en_masterKeyVersion en_iv en_ciphertext].
  change (1 =? PROVIDER_CREDENTIAL_VAULT_ENCRYPTION_VERSION)%Z with true. rewrite Hk.
  rewrite !decodeBase64_encode by (done || apply gcm_bytes). cbn. rewrite Hl. cbn. by case_match.
Qed.

Lemma envelope_roundtrip credential id resolveKey v iv env :
  utf16_ok credential = true → Forall byte_ok iv → length iv = 12%nat →
  encryptVaultCredential credential id resolveKey v iv = Ok env →
  decryptVaultCredential env id resolveKey = Ok credential.
Proof.
  intros Hc Hiv Hl (key & Hk & ->)%encrypt_envelope. rewrite (decrypt_envelope _ _ _ _ _ _ _ Hk Hiv Hl), gcm_roundtrip.
  - by rewrite utf8_roundtrip.
  - by apply utf8_encode_ok, utf16_ok_units.
Qed.

Lemma utf8_encode_inj a b : utf16_ok a = true → utf16_ok b = true → utf8_encode a = utf8_encode b → a = b.
Proof. intros Ha Hb E. rewrite <- (utf8_roundtrip a Ha), <- (utf8_roundtrip b Hb). by rewrite E. Qed.

Lemma secret_id_ascii id : SECRET_ID_PATTERN id = true → Forall (λ c, (c < 128)%N) id.
Proof.
  unfold SECRET_ID_PATTERN, is_prefixed_id. intros H%bool_decide_eq_true.
  apply bind_Some in H as (r & Hl & (u & -> & _ & Hu)%take_class_app). unfold take_literal in Hl.
  destruct (starts_with (js "sec_") id) eqn:E; [|done]. apply starts_with_spec in E as [s ->].
  rewrite drop_app_length in Hl. injection Hl as ->. rewrite app_nil_r. apply Forall_app. split.
  - repeat constructor.
  - apply Forall_forall. intros c Hc. pose proof (proj1 (forallb_true_elem _ _) Hu c Hc) as H.
    unfold is_b64url, is_alnum, is_alpha, is_lower, is_upper, is_digit, in_range in H. do 4 n_bool. lia.
Qed.

Lemma ascii_text s : forallb (λ c, (c <? 128)%N) s = true → utf16_ok s = true.
Proof.
  intros H. apply utf16_ok_ascii, Forall_forall. intros c Hc. by apply N.ltb_lt, (proj1 (forallb_true_elem _ _) H).
Qed.

Lemma aad_inj id id' v : SECRET_ID_PATTERN id = true → SECRET_ID_PATTERN id' = true → aad id 1 v = aad id' 1 v → id = id'.
Proof.
  intros H H'. unfold aad.
  generalize (js "adt-provider-credential-vault:encryption-v") (js ":master-key-v") (js ":secret:")
    (ascii_text (js "adt-provider-credential-vault:encryption-v") eq_refl) (ascii_text (js ":master-key-v") eq_refl)
    (ascii_text (js ":secret:") eq_refl).
  intros a b c Ha Hb Hc E. apply utf8_encode_inj in E.
  - do 5 apply app_inv_head in E. done.
  - repeat (apply utf16_ok_app; [first [apply dec_of_Z_ok|done]|]). by apply utf16_ok_ascii, secret_id_ascii.
  - repeat (apply utf16_ok_app; [first [apply dec_of_Z_ok|done]|]). by apply utf16_ok_ascii, secret_id_ascii.
Qed.

End Envelope.

(** ** Statements and runs *)

Abbreviation table w := (d1_table (vw_db w)).

Lemma run_sql_ok {A : Type} (s : statement A) w w' a :
  run_sql s w = (w', Ok a) →
  s (table w) = (table w', Ok a) ∧ vw_random w' = vw_random w ∧ vw_clock w' = vw_clock w.
Proof.
  unfold run_sql. destruct (d1_exec VaultDatabaseError s (vw_db w)) as [d r] eqn:E. intros [= <- ->].
  by apply d1_exec_ok in E.
Qed.
Lemma run_sql_no_fault {A : Type} (s : statement A) w :
  d1_faults (vw_db w) = [] →
  run_sql s w = (VaultWorld (D1 (s (table w)).1 []) (vw_random w) (vw_clock w), (s (table w)).2).
Proof.
  intros H. unfold run_sql. destruct w as [[t f] r c]. cbn in *. subst f. by rewrite d1_exec_no_fault.
Qed.
(** Whatever the faults, the tables are as before or as the statement left them. *)
Lemma run_sql_keeps {A : Type} (R : vault_db → vault_db → Prop) (s : statement A) :
  (∀ d, R d d) → (∀ d, R d (s d).1) → keeps (λ w w', R (table w) (table w')) (run_sql s).
Proof.
  intros Hr Hs w. unfold run_sql. destruct (d1_exec VaultDatabaseError s (vw_db w)) as [d r] eqn:E. cbn.
  by apply d1_exec_table in E as [[-> _]|[-> _]].
Qed.

(** *** Consistency of the tables *)

(** Every binding refers to a stored secret, and binding identifiers are unique in a repository. *)
#[export] Instance binding_kind_eq_dec : EqDecision binding_kind.
Proof. solve_decision. Defined.

Definition consistent (d : vault_db) : Prop :=
  ∀ k, (∀ key r, bindings k d !! key = Some r → is_Some (vd_vault d !! br_secret_id r)) ∧
       (∀ repo n1 n2 r1 r2, bindings k d !! (repo, n1) = Some r1 → bindings k d !! (repo, n2) = Some r2 →
          br_binding_id r1 = br_binding_id r2 → n1 = n2).
Definition keeps_consistent (w w' : vault_world) : Prop := consistent (table w) → consistent (table w').
#[local] Instance keeps_consistent_preorder : PreOrder keeps_consistent.
Proof. split; [by intros w H|]. intros a b c H1 H2 H. exact (H2 (H1 H)). Qed.

Lemma bindings_set_vault k v d : bindings k (set_vault v d) = bindings k d.
Proof. by destruct k. Qed.
Lemma consistent_more_secrets v d :
  (∀ s, is_Some (vd_vault d !! s) → is_Some (v !! s)) → consistent d → consistent (set_vault v d).
Proof.
  intros Hv H k. destruct (H k) as [H1 H2]. rewrite bindings_set_vault. split; [|done].
  intros key r Hr. cbn. eauto.
Qed.
Lemma bindings_set_same k b d : bindings k (set_bindings k b d) = b.
Proof. by destruct k. Qed.
Lemma bindings_set_other k k' b d : k ≠ k' → bindings k' (set_bindings k b d) = bindings k' d.
Proof. intros H. by destruct k, k'. Qed.
Lemma vault_set_bindings k b d : vd_vault (set_bindings k b d) = vd_vault d.
Proof. by destruct k. Qed.

Lemma row_allowed_spec k repo name r d :
  row_allowed k repo name r d = true →
  is_Some (vd_vault d !! br_secret_id r) ∧
  ∀ n r', n ≠ name → bindings k d !! (repo, n) = Some r' → br_binding_id r' ≠ br_binding_id r.
Proof.
  unfold row_allowed. intros [Hs He]%andb_true_iff. apply bool_decide_eq_true in Hs. split; [done|].
  apply negb_true_iff in He. intros n r' Hn Hr' E.
  assert (existsb (has_binding repo (br_binding_id r)) (map_to_list (delete (repo, name) (bindings k d))) = true); [|congruence].
  apply existsb_exists. exists ((repo, n), r'). split.
  - apply list_elem_of_In, elem_of_map_to_list. rewrite lookup_delete_ne; [done|congruence].
  - unfold has_binding. cbn. by rewrite Z.eqb_refl, E, str_eqb_refl.
Qed.

Lemma consistent_write k repo name r d :
  row_allowed k repo name r d = true → consistent d → consistent (write_binding k repo name r d).
Proof.
  intros [Hs Hu]%row_allowed_spec H k'. unfold write_binding. rewrite vault_set_bindings.
  destruct (decide (k = k')) as [<-|Hk]; [|rewrite bindings_set_other by done; apply H].
  rewrite bindings_set_same. destruct (H k) as [H1 H2]. split.
  - intros key r' [[<- <-]|[Hne Hr']]%lookup_insert_Some; eauto.
  - intros repo' n1 n2 r1 r2 [[E1 <-]|[N1 R1]]%lookup_insert_Some [[E2 <-]|[N2 R2]]%lookup_insert_Some Eb.
    + congruence.
    + injection E1 as <- <-. destruct (decide (n2 = name)) as [->|Hn]; [done|]. by destruct (Hu n2 r2 Hn R2).
    + injection E2 as <- <-. destruct (decide (n1 = name)) as [->|Hn]; [done|]. by destruct (Hu n1 r1 Hn R1).
    + by eapply H2.
Qed.

Lemma consistent_subset (d : vault_db) k b :
  b ⊆ bindings k d → consistent d → consistent (set_bindings k b d).
Proof.
  intros Hsub H k'. rewrite vault_set_bindings. destruct (decide (k = k')) as [<-|Hk]; [|rewrite bindings_set_other by done; apply H].
  rewrite bindings_set_same. destruct (H k) as [H1 H2].
  split; [intros key r Hr|intros repo n1 n2 r1 r2 Hr1 Hr2]; eauto using lookup_weaken.
Qed.

Lemma consistent_delete s d : consistent d → consistent (delete_vault s d).1.
Proof.
  intros H k. destruct (H k) as [H1 H2].
  assert (∀ key r, bindings k (delete_vault s d).1 !! key = Some r → bindings k d !! key = Some r ∧ br_secret_id r ≠ s) as Hf.
  { destruct k; intros key r [? Hn]%map_lookup_filter_Some; split; auto. }
  split.
  - intros key r [Hr Hs]%Hf. cbn. rewrite lookup_delete_ne by congruence. eauto.
  - intros repo n1 n2 r1 r2 [Hr1 _]%Hf [Hr2 _]%Hf. eauto.
Qed.

Lemma keeps_sql {A : Type} (s : statement A) : (∀ d, consistent d → consistent (s d).1) → keeps keeps_consistent (run_sql s).
Proof. intros Hs. by apply (run_sql_keeps (λ d d', consistent d → consistent d')). Qed.

Lemma keeps_statements :
  (∀ s, keeps keeps_consistent (run_sql (select_vault s))) ∧
  (∀ s r, keeps keeps_consistent (run_sql (insert_vault s r))) ∧
  (∀ s c g, keeps keeps_consistent (run_sql (update_vault s c g))) ∧
  (∀ s, keeps keeps_consistent (run_sql (delete_vault s))) ∧
  (∀ k i n, keeps keeps_consistent (run_sql (select_binding k i n))) ∧
  (∀ k i n, keeps keeps_consistent (run_sql (select_by_binding k i n))) ∧
  (∀ k i n r, keeps keeps_consistent (run_sql (insert_binding k i n r))) ∧
  (∀ k i n c g, keeps keeps_consistent (run_sql (update_binding k i n c g))) ∧
  (∀ k i n c, keeps keeps_consistent (run_sql (delete_binding k i n c))).
Proof.
  split_and!; intros *; apply keeps_sql; intros d Hd; try done.
  - unfold insert_vault. case_match; [done|]. apply consistent_more_secrets; [|done].
    intros x Hx. cbn. rewrite lookup_insert_is_Some. destruct (decide (s = x)); auto.
  - unfold update_vault. do 2 (case_match; try done). apply consistent_more_secrets; [|done].
    intros x Hx. cbn. rewrite lookup_insert_is_Some. destruct (decide (s = x)); auto.
  - by apply consistent_delete.
  - unfold insert_binding. do 2 (case_match; try done). by apply consistent_write.
  - unfold update_binding. do 3 (case_match; try done). by apply consistent_write.
  - unfold delete_binding. do 2 (case_match; try done). apply consistent_subset; [apply delete_subseteq|done].
Qed.

(** ** The calls of the vault *)

Inductive vault_call :=
| CallCreate (credential : str)
| CallResolve (secretId : str)
| CallReplaceIf (secretId : str) (revision : Z) (credential : str)
| CallReplace (secretId credential : str)
| CallDelete (secretId : str)
| CallRecover (secretId credential : str)
| CallEnsureMcp (repositoryId : Z) (serverId endpoint secretId : str)
| CallRotateMcp (repositoryId : Z) (serverId bindingId endpoint secretId expected : str)
| CallReplaceMcp (repositoryId : Z) (serverId bindingId oldEndpoint newEndpoint secretId : str)
| CallRestoreMcp (repositoryId : Z) (serverId bindingId endpoint secretId : str)
| CallResolveMcp (repositoryId : Z) (bindingId : str)
| CallRevokeMcp (repositoryId : Z) (serverId bindingId : str)
| CallCreateSecurity (repositoryId : Z) (profileId endpoint credential : str)
| CallRecoverSecurity (repositoryId : Z) (profileId endpoint credential : str)
| CallRotateSecurity (repositoryId : Z) (profileId bindingId endpoint credential : str)
| CallReplaceSecurity (repositoryId : Z) (profileId bindingId oldEndpoint newEndpoint credential : str)
| CallCurrentSecurity (repositoryId : Z) (profileId endpoint : str)
| CallResolveSecurity (repositoryId : Z) (bindingId endpoint : str)
| CallRevokeSecurity (repositoryId : Z) (profileId bindingId : str).

Section Calls.
Context `{C : VaultCrypto} `{U : UrlParser}.
Variables (resolveKey : key_resolver) (version : Z).

Definition run_call (c : vault_call) : VaultM unit :=
  match c with
  | CallCreate a => create_secret resolveKey version a ;; mret ()
  | CallResolve a => resolveWithRevision resolveKey a ;; mret ()
  | CallReplaceIf a n b => replaceIfRevision resolveKey version a n b ;; mret ()
  | CallReplace a b => replace_secret resolveKey version a b
  | CallDelete a => delete_secret a
  | CallRecover a b => recover_secret resolveKey version a b
  | CallEnsureMcp i s e x => ensureMcpServerCredentialBinding i s e x ;; mret ()
  | CallRotateMcp i s b e x y => rotateMcpServerCredential i s b e x y
  | CallReplaceMcp i s b e e' x => replaceMcpServerCredentialBinding i s b e e' x ;; mret ()
  | CallRestoreMcp i s b e x => restoreMcpServerCredentialBinding i s b e x
  | CallResolveMcp i b => resolveMcpServerCredential resolveKey i b ;; mret ()
  | CallRevokeMcp i s b => revokeMcpServerCredentialBinding i s b
  | CallCreateSecurity i p e c => createSecurityProfileCredentialBinding resolveKey version i p e c ;; mret ()
  | CallRecoverSecurity i p e c => recoverSecurityProfileCredentialBinding resolveKey version i p e c ;; mret ()
  | CallRotateSecurity i p b e c => rotateSecurityProfileCredential resolveKey version i p b e c
  | CallReplaceSecurity i p b e e' c => replaceSecurityProfileCredentialBinding resolveKey version i p b e e' c ;; mret ()
  | CallCurrentSecurity i p e => currentSecurityProfileCredentialBinding i p e ;; mret ()
  | CallResolveSecurity i b e => resolveSecurityProfileCredential resolveKey i b e ;; mret ()
  | CallRevokeSecurity i p b => revokeSecurityProfileCredentialBinding i p b
  end.
Definition run_calls (cs : list vault_call) (w : vault_world) : vault_world := foldl (λ w c, (run_call c w).1) w cs.

Lemma keeps_random n : keeps keeps_consistent (getRandomValues n).
Proof. by intros w H. Qed.
Lemma keeps_vault_now : keeps keeps_consistent now_text.
Proof. by intros w H. Qed.

Ltac keeps_vault :=
  destruct keeps_statements as (? & ? & ? & ? & ? & ? & ? & ? & ?);
  repeat first [keeps_step | apply keeps_random | apply keeps_vault_now | solve [auto]].

Lemma keeps_create c : keeps keeps_consistent (create_secret resolveKey version c).
Proof.
  unfold create_secret, generateProviderCredentialVaultSecretId, generate_id, assertSecretId, check, insert_secret, encrypt_with, vault_row.
  keeps_vault.
Qed.
Lemma keeps_delete s : keeps keeps_consistent (delete_secret s).
Proof. unfold delete_secret, assertSecretId, check. keeps_vault. Qed.
Lemma keeps_delete_quietly s : keeps keeps_consistent (delete_quietly s).
Proof. unfold delete_quietly. repeat keeps_step. apply keeps_delete. Qed.
Lemma keeps_resolve s : keeps keeps_consistent (resolve_secret resolveKey s).
Proof. unfold resolve_secret, found_row, assertSecretId, check, vault_row. keeps_vault. Qed.
Lemma keeps_replace s c : keeps keeps_consistent (replace_secret resolveKey version s c).
Proof. unfold replace_secret, assertSecretId, check, encrypt_with. keeps_vault. Qed.
Lemma keeps_current i p b e x : keeps keeps_consistent (current_binding i p b e x).
Proof. unfold current_binding, securityBinding, securityTrustTarget, check. keeps_vault. Qed.

Lemma keeps_call c : keeps keeps_consistent (run_call c).
Proof.
  destruct c; cbn [run_call];
    unfold resolveWithRevision, found_row, replaceIfRevision, recover_secret, ensureMcpServerCredentialBinding,
      rotateMcpServerCredential, replaceMcpServerCredentialBinding, restoreMcpServerCredentialBinding,
      resolveMcpServerCredential, revokeMcpServerCredentialBinding, createSecurityProfileCredentialBinding,
      recoverSecurityProfileCredentialBinding, rotateSecurityProfileCredential, replaceSecurityProfileCredentialBinding,
      currentSecurityProfileCredentialBinding, resolveSecurityProfileCredential, revokeSecurityProfileCredentialBinding,
      insert_secret, encrypt_with, vault_row, assertSecretId, assert_identity, check, mcpTrustTarget, securityTrustTarget, mcpBinding,
      securityBinding, generateBindingId, generateSecurityBindingId, generate_id;
    destruct keeps_statements as (? & ? & ? & ? & ? & ? & ? & ? & ?);
    repeat first [apply keeps_create | apply keeps_delete | apply keeps_delete_quietly | apply keeps_resolve
                 | apply keeps_replace | apply keeps_current | apply keeps_random | apply keeps_vault_now
                 | keeps_step | solve [auto]].
Qed.

End Calls.

(** ** Functional behaviour *)

Section Behaviour.
Context `{C : VaultCrypto} `{CL : !VaultCryptoLaws C} `{U : UrlParser}.
Variables (resolveKey : key_resolver) (version : Z).
Implicit Types w : vault_world.

(** The random bytes of the script are bytes. *)
Definition random_ok w : Prop := Forall (Forall byte_ok) (vw_random w).

Lemma zeros_bytes n : Forall byte_ok (repeat 0%N n).
Proof. induction n; cbn; constructor; [unfold byte_ok; lia|done]. Qed.

Lemma getRandomValues_run n w w' l :
  getRandomValues n w = (w', Ok l) →
  vw_db w' = vw_db w ∧ length l = n ∧ (random_ok w → Forall byte_ok l ∧ random_ok w').
Proof.
  unfold getRandomValues. intros [= <- <-]. cbn. split_and!; [done| |].
  - rewrite length_take, length_app, repeat_length. lia.
  - unfold random_ok. cbn. intros H. split.
    + apply Forall_take, Forall_app. split; [|apply zeros_bytes].
      destruct (vw_random w); cbn; [constructor|by inversion H].
    + destruct (vw_random w); cbn; [constructor|by inversion H].
Qed.

Lemma generate_run prefix w w' id :
  generate_id prefix w = (w', Ok id) → vw_db w' = vw_db w ∧ (random_ok w → random_ok w').
Proof.
  unfold generate_id. intros [(w1 & l & Hl & H)|(e & _ & ?)]%bind_run; [|done].
  apply ret_run in H as [-> _]. apply getRandomValues_run in Hl as (? & _ & Hr). split; [done|]. by intros [_ ?]%Hr.
Qed.

Lemma encrypt_with_run credential id w w' env :
  encrypt_with resolveKey version credential id w = (w', Ok env) →
  vw_db w' = vw_db w ∧
  (random_ok w → utf16_ok credential = true → random_ok w' ∧ decryptVaultCredential env id resolveKey = Ok credential).
Proof.
  unfold encrypt_with. intros [(w1 & [] & [-> _]%lift_run & H)|(e & _ & ?)]%bind_run; [|done].
  apply bind_run in H as [(w2 & k & [-> _]%lift_run & H)|(e & _ & ?)]; [|done].
  apply bind_run in H as [(w3 & iv & Hiv & H)|(e & _ & ?)]; [|done].
  apply lift_run in H as [-> He]. apply getRandomValues_run in Hiv as (Hdb & Hl & Hr). split; [done|].
  intros [Hb Hr']%Hr Hc. split; [done|]. by eapply envelope_roundtrip.
Qed.

Lemma resolve_run id w r :
  SECRET_ID_PATTERN id = true → d1_faults (vw_db w) = [] → vd_vault (table w) !! id = Some r →
  resolve_secret resolveKey id w = (w, decryptVaultCredential (vr_envelope r) id resolveKey).
Proof.
  intros Hid Hf Hr. unfold resolve_secret, found_row, assertSecretId, check, isProviderCredentialVaultSecretId, vault_row.
  unfold mbind, eff_bind, lift. rewrite Hid. cbn [guard_throw]. rewrite run_sql_no_fault by done. cbn. rewrite Hr. cbn.
  destruct w as [[t fs] rnd c]. cbn in *. by subst fs.
Qed.

Lemma create_run credential w w' id :
  create_secret resolveKey version credential w = (w', Ok id) → random_ok w → utf16_ok credential = true →
  SECRET_ID_PATTERN id = true ∧ vd_vault (table w) !! id = None ∧
  ∃ r, table w' = set_vault (<[id := r]> (vd_vault (table w))) (table w) ∧ vr_revision r = 1%Z ∧
       decryptVaultCredential (vr_envelope r) id resolveKey = Ok credential.
Proof.
  unfold create_secret. intros [(w1 & s & Hs & H)|(e & _ & ?)]%bind_run Hrnd Hc; [|done].
  apply bind_run in H as [(w2 & [] & [-> Hid]%lift_run & H)|(e & _ & ?)]; [|done]. apply eq_sym, guard_throw_ok in Hid.
  apply bind_run in H as [(w3 & [] & Hins & H)|(e & _ & ?)]; [|done]. apply ret_run in H as [-> [= <-]].
  apply generate_run in Hs as (Hdb1 & Hr1). specialize (Hr1 Hrnd).
  unfold insert_secret in Hins. apply bind_run in Hins as [(w5 & env & He & H)|(e & _ & ?)]; [|done].
  apply encrypt_with_run in He as [Hdb2 Hdec]. specialize (Hdec Hr1 Hc) as [_ Hdec].
  apply bind_run in H as [(w6 & now & [= <- <-] & H)|(e & _ & ?)]; [|done].
  apply try_run in H as [(u & H & [= <-])|(w7 & e & _ & H)].
  - apply run_sql_ok in H as (H & _ & _). rewrite Hdb2, Hdb1 in H. unfold insert_vault in H.
    destruct (vd_vault (table w) !! id) eqn:E; [done|]. injection H as <-. split_and!; [done|done|]. eexists. by split_and!.
  - apply bind_run in H as [(w8 & x & _ & H)|(e' & _ & ?)]; [|done]. by destruct x; apply throw_run in H as [_ ?].
Qed.

(** A stored credential is read back as it was given: after [create] returns an identifier, [resolve]
    of it returns the credential from any state that still has the row. *)
Theorem vault_roundtrip credential w w' id w2 :
  random_ok w → utf16_ok credential = true →
  create_secret resolveKey version credential w = (w', Ok id) →
  vd_vault (table w2) !! id = vd_vault (table w') !! id → d1_faults (vw_db w2) = [] →
  resolve_secret resolveKey id w2 = (w2, Ok credential).
Proof.
  intros Hr Hc (Hid & _ & r & Ht & _ & Hdec)%create_run Hrow Hf; [|done..].
  rewrite (resolve_run id w2 r); [by rewrite Hdec|done|done|]. rewrite Hrow, Ht. cbn. apply lookup_insert_eq.
Qed.

Lemma replace_if_run id n credential w w' b :
  replaceIfRevision resolveKey version id n credential w = (w', Ok b) → random_ok w → utf16_ok credential = true →
  (b = true ∧ ∃ r env now, vd_vault (table w) !! id = Some r ∧ vr_revision r = n ∧
     table w' = set_vault (<[id := MkVaultRow env (vr_created_at r) now (n + 1)]> (vd_vault (table w))) (table w) ∧
     decryptVaultCredential env id resolveKey = Ok credential) ∨
  (b = false ∧ table w' = table w ∧ ∀ r, vd_vault (table w) !! id = Some r → vr_revision r ≠ n).
Proof.
  unfold replaceIfRevision. intros [(w1 & [] & [-> _]%lift_run & H)|(e & _ & ?)]%bind_run Hrnd Hc; [|done].
  apply bind_run in H as [(w2 & [] & [-> _]%lift_run & H)|(e & _ & ?)]; [|done].
  apply bind_run in H as [(w3 & env & He & H)|(e & _ & ?)]; [|done].
  apply encrypt_with_run in He as [Hdb Hdec]. specialize (Hdec Hrnd Hc) as [_ Hdec].
  apply bind_run in H as [(w4 & now & [= <- <-] & H)|(e & _ & ?)]; [|done].
  apply bind_run in H as [(w5 & z & (H5 & _ & _)%run_sql_ok & H)|(e & _ & ?)]; [|done].
  apply ret_run in H as [-> [= ->]]. rewrite Hdb in H5. unfold update_vault in H5.
  destruct (vd_vault (table w) !! id) as [r|] eqn:Er.
  - destruct (vr_revision r =? n)%Z eqn:En.
    + apply Z.eqb_eq in En. injection H5 as <- <-. left. split; [done|]. exists r, env, (toISOString (vw_clock w3)).
      rewrite En. by split_and!.
    + apply Z.eqb_neq in En. injection H5 as <- <-. right. split_and!; [done|done|]. by intros r' [= <-].
  - injection H5 as <- <-. right. by split_and!.
Qed.

(** The revision decides concurrent replacements: a call that expects revision [n] succeeds exactly when
    the row has it, stores a credential that reads back and moves to [n + 1]; otherwise nothing
    changes. Of two calls that expect the same revision, the second one fails. *)
Theorem revision_compare_and_set id n c1 c2 w w1 w2 b1 b2 :
  random_ok w → random_ok w1 → utf16_ok c1 = true → utf16_ok c2 = true →
  replaceIfRevision resolveKey version id n c1 w = (w1, Ok b1) →
  replaceIfRevision resolveKey version id n c2 w1 = (w2, Ok b2) →
  (b1 = true ↔ ∃ r, vd_vault (table w) !! id = Some r ∧ vr_revision r = n) ∧
  (b1 = false → table w1 = table w) ∧
  (b1 = true → b2 = false ∧ table w2 = table w1 ∧
     ∃ r, vd_vault (table w2) !! id = Some r ∧ vr_revision r = (n + 1)%Z ∧
          decryptVaultCredential (vr_envelope r) id resolveKey = Ok c1).
Proof.
  intros Hr Hr1 Hc1 Hc2 H1 H2. apply replace_if_run in H1; [|done..]. apply replace_if_run in H2; [|done..].
  destruct H1 as [(-> & r & env & now & Hrow & Hn & Ht & Hdec)|(-> & Ht & Hn)].
  - split_and!; [by split; eauto|done|]. intros _. rewrite Ht in H2. cbn in H2. rewrite lookup_insert_eq in H2.
    destruct H2 as [(_ & r' & _ & _ & [= <-] & Hn' & _)|(-> & Ht2 & _)]; [cbn in Hn'; lia|].
    split_and!; [done|congruence|]. rewrite Ht2. cbn. eexists. rewrite lookup_insert_eq. by split_and!.
  - split_and!; [|done|done]. split; [done|]. intros (r & Hrow & Hv). by destruct (Hn r Hrow).
Qed.

(** A security credential is resolved only through a binding of the same repository with the given
    identifier whose trust target is that of the endpoint, and is what the vault stores for its secret;
    resolving changes nothing. *)
Theorem security_resolution_confined repositoryId bindingId endpoint w w' v :
  resolveSecurityProfileCredential resolveKey repositoryId bindingId endpoint w = (w', Ok v) →
  table w' = table w ∧
  ∃ profile b r u, vd_security (table w) !! (repositoryId, profile) = Some b ∧ br_binding_id b = bindingId ∧
    securityTrustTarget endpoint w = (w, Ok (br_trust_target b)) ∧
    new_URL endpoint = Some u ∧ ur_protocol u = js "wss:" ∧ ur_username u = [] ∧ ur_password u = [] ∧ ur_search u = [] ∧
    vd_vault (table w) !! br_secret_id b = Some r ∧
    decryptVaultCredential (vr_envelope r) (br_secret_id b) resolveKey = Ok v.
Proof.
  unfold resolveSecurityProfileCredential. intros [(w1 & [] & [-> _]%lift_run & H)|(e & _ & ?)]%bind_run; [|done].
  apply bind_run in H as [(w2 & o & (H2 & _ & _)%run_sql_ok & H)|(e & _ & ?)]; [|done].
  injection H2 as Ht Ho. destruct o as [b|]; [|by apply throw_run in H as [_ ?]].
  apply bind_run in H as [(w3 & target & Htgt & H)|(e & _ & ?)]; [|done].
  apply bind_run in H as [(w4 & [] & [-> Hsame]%lift_run & H)|(e & _ & ?)]; [|done].
  apply eq_sym, guard_throw_ok, str_eqb_eq in Hsame.
  unfold securityTrustTarget in Htgt |- *. destruct (new_URL endpoint) as [u|] eqn:Eu; [|done].
  destruct (_ && _) eqn:Eg; [|done]. apply ret_run in Htgt as [-> [= Htgt]]. to_prop.
  unfold resolve_secret, found_row in H. rewrite bind_bind in H.
  apply bind_run in H as [(w5 & [] & [-> _]%lift_run & H)|(e & _ & ?)]; [|done]. rewrite bind_bind in H.
  apply bind_run in H as [(w6 & r & (H6 & _ & _)%run_sql_ok & H)|(e & _ & ?)]; [|done].
  injection H6 as Ht6 Hr. apply bind_run in H as [(w7 & r' & [-> Hr']%lift_run & H)|(e & _ & ?)]; [|done].
  apply lift_run in H as [-> Hv]. apply eq_sym, from_option_throw_ok in Hr'. subst r.
  split; [congruence|]. apply fmap_Some in Ho as ([[i p] b'] & Hf & ->).
  apply List.find_some in Hf as [Hin Hb]. apply list_elem_of_In, elem_of_map_to_list in Hin.
  unfold has_binding in Hb. cbn in Hb. to_prop.
  repeat match goal with Hs : str_eqb _ _ = true |- _ => apply str_eqb_eq in Hs end.
  match goal with Hz : (_ =? _)%Z = true |- _ => apply Z.eqb_eq in Hz as -> end.
  exists p, b', r', u. cbn in *. rewrite <- Ht in Hr'. split_and!; try done.
  - by rewrite Hsame, Htgt.
  - by destruct (ur_username u).
  - by destruct (ur_password u).
  - by destruct (ur_search u).
Qed.
End Behaviour.
