(* ===== verification/VaultExamples.v ===== *)
(** * A vault with a toy cipher

    Concrete instances of the parameters of the vault, the witnesses of its
    theorems, and the run in which a refused endpoint leaves a secret behind. *)

From S2P Require Import Prelude JsString Encoding Json Layout BackupMetadata D1 Vault VaultFacts.

Module VaultExamples.

(** The ciphertext is a prefix code of the additional data, then the text. *)
Definition toy_header (a : list N) : list N := concat (map (λ x, repeat 1%N (N.to_nat x) ++ [0%N]) a) ++ [2%N].
Definition toy_encrypt (k iv a m : list N) : list N := toy_header a ++ map (λ b, b mod 256)%N m.
Definition toy_decrypt (k iv a c : list N) : option (list N) := take_literal (toy_header a) c.
#[export] Instance toy_vault_crypto : VaultCrypto := {| gcm_encrypt := toy_encrypt; gcm_decrypt := toy_decrypt |}.

Lemma take_literal_app a b : take_literal a (a ++ b) = Some b.
Proof.
  unfold take_literal. destruct (starts_with a (a ++ b)) eqn:E; [by rewrite drop_app_length|].
  apply not_true_iff_false in E. destruct E. apply starts_with_spec. eauto.
Qed.

Lemma ones_inj n n' s s' : repeat 1%N n ++ 0%N :: s = repeat 1%N n' ++ 0%N :: s' → n = n' ∧ s = s'.
Proof.
  revert n'. induction n as [|n IH]; intros [|n']; cbn; try done; [by intros [= ->]|].
  intros [= H]. apply IH in H as [-> ->]. done.
Qed.
Lemma toy_header_inj a a' s s' : toy_header a ++ s = toy_header a' ++ s' → a = a'.
Proof.
  unfold toy_header. revert a'. induction a as [|x a IH]; intros [|x' a']; cbn; try done.
  - destruct (N.to_nat x'); done.
  - destruct (N.to_nat x); done.
  - rewrite <- !List.app_assoc. cbn. intros [Hx H]%ones_inj.
    f_equal; [lia|]. apply IH. by rewrite <- !List.app_assoc.
Qed.

#[export] Instance toy_vault_laws : VaultCryptoLaws toy_vault_crypto.
Proof.
  split; cbn; unfold toy_encrypt, toy_decrypt.
  - intros _ _ a m. apply Forall_app. split.
    + apply Forall_app. split; [|repeat constructor]. apply Forall_concat, Forall_map, Forall_forall. intros x _.
      apply Forall_app. split; [|repeat constructor]. induction (N.to_nat x); repeat constructor; auto.
    + apply Forall_map, Forall_forall. intros b _. by apply N.mod_lt.
  - intros _ _ a m Hm. rewrite take_literal_app. f_equal. induction Hm as [|b m Hb Hm IH]; cbn; [done|].
    by rewrite IH, N.mod_small.
  - intros _ _ a a' m Ha. unfold take_literal. destruct (starts_with _ _) eqn:E; [|done].
    apply starts_with_spec in E as [r E]. by apply toy_header_inj in E.
Qed.

(** Endpoints are [protocol] up to the first [:] and a host; the printed form joins them. *)
#[export] Instance toy_url : UrlParser := {|
  new_URL s := if starts_with (js "wss://") s then Some (AbsoluteUrl (js "wss:") [] [] (drop 6 s) [] [] [] [])
               else if starts_with (js "https://") s then Some (AbsoluteUrl (js "https:") [] [] (drop 8 s) [] [] [] []) else None;
  url_href u := ur_protocol u ++ js "//" ++ ur_hostname u;
|}.

Definition toy_key : str := base64_encode (repeat 7%N 32).
Definition toy_resolver : key_resolver := providerCredentialVaultV1KeyResolver (Some toy_key).
Definition empty_vault : vault_db := VaultDb ∅ ∅ ∅.
Definition start : vault_world := VaultWorld (D1 empty_vault []) [repeat 1%N 32; repeat 2%N 12; repeat 3%N 32; repeat 4%N 12] 0.
Definition sec_one : str := js "sec_" ++ base64url_encode (repeat 1%N 32).
Definition sec_two : str := js "sec_" ++ base64url_encode (repeat 9%N 32).
Definition toy_credential : str := js "s3cret".
Definition created : vault_world := (create_secret toy_resolver 1 toy_credential start).1.

Lemma start_random : random_ok start.
Proof. repeat constructor. Qed.
Lemma created_random : random_ok created.
Proof. vm_compute. repeat constructor. Qed.

Definition toy_envelope : VaultEnvelope :=
  match encryptVaultCredential toy_credential sec_one toy_resolver 1 (repeat 2%N 12) with
  | Ok e => e | Throw _ => Envelope [] [] 0 0 end.

Lemma vault_roundtrip_witness : resolve_secret toy_resolver sec_one created = (created, Ok toy_credential).
Proof.
  apply (vault_roundtrip toy_resolver 1 toy_credential start created sec_one created start_random);
    first [reflexivity | vm_compute; reflexivity].
Defined.


Definition replaced : vault_world := (replaceIfRevision toy_resolver 1 sec_one 1 (js "next") created).1.
Definition replaced_twice : vault_world := (replaceIfRevision toy_resolver 1 sec_one 1 (js "late") replaced).1.
Lemma revision_compare_and_set_witness :
  ∃ r, vd_vault (table replaced_twice) !! sec_one = Some r ∧ vr_revision r = 2%Z ∧
       decryptVaultCredential (vr_envelope r) sec_one toy_resolver = Ok (js "next").
Proof.
  refine (proj2 (proj2 (proj2 (proj2 (revision_compare_and_set toy_resolver 1 sec_one 1 (js "next") (js "late") created replaced
    replaced_twice true false created_random _ _ _ _ _)) _)));
    first [reflexivity | vm_compute; reflexivity | vm_compute; repeat constructor].
Defined.

Definition endpoint : str := js "wss://Vault.example".
Definition bound : vault_world := (createSecurityProfileCredentialBinding toy_resolver 1 7 (js "main") endpoint toy_credential start).1.
Definition spb_one : str := js "spb_" ++ base64url_encode (repeat 3%N 32).
Lemma security_resolution_confined_witness :
  ∃ profile b, vd_security (table bound) !! (7%Z, profile) = Some b ∧ br_binding_id b = spb_one.
Proof.
  assert (resolveSecurityProfileCredential toy_resolver 7 spb_one endpoint bound = (bound, Ok toy_credential)) as H
    by (vm_compute; reflexivity).
  destruct (security_resolution_confined toy_resolver 7 spb_one endpoint bound bound toy_credential H)
    as (_ & profile & b & r & u & Hb & Hid & _).
  exists profile, b. exact (conj Hb Hid).
Defined.

(** A security profile credential with an endpoint that is refused stays in the vault: the secret is stored
    before the endpoint is looked at, and no binding refers to it. *)
Theorem refused_endpoint_keeps_secret :
  let w := createSecurityProfileCredentialBinding toy_resolver 1 7 (js "main") (js "http://vault.example") toy_credential start in
  w.2 = Throw persistence_failed ∧ is_Some (vd_vault (table w.1) !! sec_one) ∧ vd_security (table w.1) = ∅.
Proof. cbv zeta. split_and!; [vm_compute; reflexivity|vm_compute; eauto|vm_compute; reflexivity]. Qed.

End VaultExamples.
