(* ===== verification/ChangePolicy.v ===== *)
(** * Change policy

    Models [src/scripts/change-policy.mjs] (which paths may be merged without
    review), [src/lib/deployment-component-impact.js] (which component a path is
    an input of), [src/scripts/classify-changes.mjs] (the plan of verification
    and deployment of a change) and [src/scripts/auto-merge-eligibility.mjs].

    Regular expressions of the sources are anchored; they are written as tests
    of prefixes and suffixes. *)

From S2P Require Import Prelude JsString Libs.

(** ** Path tests *)

Definition path_in (l : list str) (p : str) : bool := existsb (str_eqb p) l.
(** [/^[^/]+suffix$/] *)
Definition root_file (suffix p : str) : bool :=
  ends_with suffix p && (length suffix <? length p)%nat && forallb (λ c, negb (c =? ch "/")%N) p.
(** [.] of a regular expression *)
Definition is_dot (c : N) : bool := negb ((c =? 10) || (c =? 13) || (c =? 8232) || (c =? 8233))%N.
(** [/^prefix.+$/] *)
Definition prefix_then_dots (prefix p : str) : bool :=
  starts_with prefix p && nonempty (drop (length prefix) p) && forallb is_dot (drop (length prefix) p).
(** The flag [i], on ASCII *)
Definition ascii_lower (c : N) : N := if is_upper c then (c + 32)%N else c.
Definition ends_with_i (suffix p : str) : bool := ends_with suffix (map ascii_lower p).

(** ** [change-policy.mjs] *)

(** [.replace(/^\.\//, '')] *)
Definition normalizePath (path : str) : str :=
  if starts_with (js "./") path then drop 2 path else path.

Definition isCanonicalFeaturePath (path : str) : bool :=
  let p := normalizePath path in
  starts_with (js "requests/features/") p && root_file (js ".json") (drop (length (js "requests/features/")) p).

Definition agents_file (p : str) : bool := str_eqb p (js "AGENTS.md") || ends_with (js "/AGENTS.md") p.
Definition isGovernancePath (path : str) : bool :=
  let p := normalizePath path in agents_file p || starts_with (js ".agents/") p.
Definition isWorkflowAutomationPath (path : str) : bool :=
  let p := normalizePath path in
  starts_with (js ".github/workflows/") p || starts_with (js ".github/actions/") p.

(** The alternatives that both documentation tests share *)
Definition document_path (p : str) : bool :=
  starts_with (js "docs/") p || starts_with (js "specs/") p || starts_with (js "prompts/") p || starts_with (js "requests/") p
  || str_eqb p (js "README.md") || root_file (js ".md") p || str_eqb p (js "adt-runtime/README.md")
  || starts_with (js "adt-runtime/docs/") p || str_eqb p (js "codex-runner/README.md") || starts_with (js "codex-runner/docs/") p.
Definition isDocumentationOrRequestPath (path : str) : bool :=
  let p := normalizePath path in isGovernancePath p || document_path p.

Definition isCiCdGuardrailTestPath (path : str) : bool :=
  path_in (map js ["test/auto-merge-eligibility.test.mjs"; "test/auto-merge-orchestration.test.mjs";
    "test/change-classification.test.mjs"; "test/deployment-freshness.test.mjs"; "test/deployment-workflow.test.mjs";
    "test/adt-runtime-publication.test.mjs"; "test/codex-runner-publish-workflow.test.mjs"; "test/adrian-provenance.test.mjs";
    "test/adrian-publication-plan.test.mjs"; "test/adrian-publication-workflow.test.mjs"; "test/adrian-smoke-script.test.mjs";
    "test/integration/workflow-runtime-integration.test.mjs"]%string) (normalizePath path).

Definition isOrdinaryDocumentationOrRequestPath (path : str) : bool :=
  let p := normalizePath path in if isGovernancePath p then false else document_path p.
Definition isStaticAssetPath (path : str) : bool :=
  let p := normalizePath path in
  starts_with (js "public/") p
  && existsb (λ s, ends_with_i s p) (map js [".avif"; ".gif"; ".ico"; ".jpg"; ".jpeg"; ".png"; ".webp"; ".woff"; ".woff2"; ".ttf"; ".otf"]%string).
Definition isStyleOnlyPath (path : str) : bool :=
  let p := normalizePath path in
  (starts_with (js "app/") p || starts_with (js "components/") p || starts_with (js "styles/") p) && ends_with_i (js ".css") p.
Definition isLowSensitivityAutoMergePath (path : str) : bool :=
  let p := normalizePath path in
  isOrdinaryDocumentationOrRequestPath p || isStaticAssetPath p || isStyleOnlyPath p.
Definition requiresManualReviewPath (path : str) : bool := negb (isLowSensitivityAutoMergePath path).

(** ** [deployment-component-impact.js] *)

Definition rootAppBuildFiles : list str := map js ["package.json"; "package-lock.json"; "wrangler.jsonc"; "tsconfig.json";
  "cloudflare-worker.ts"; ".nvmrc"; ".npmrc"; "postcss.config.mjs"; "postcss.config.js"; "tailwind.config.js";
  "tailwind.config.ts"; "tailwind.config.mjs"]%string.
Definition rootVerificationExtras : list str :=
  map js [".node-version"; "cloudflare-env.d.ts"; "next-env.d.ts"; "eslint.config.mjs"]%string.
Definition sharedAppRunnerFiles : list str := [js "codex-runner/release.json"].
Definition sharedAppRuntimeFiles : list str := [js "adt-runtime/release.json"].
Definition runtimeImageFiles : list str := map js ["adt-runtime/Dockerfile"; "adt-runtime/package.json";
  "adt-runtime/package-lock.json"; "adt-runtime/tsconfig.json"; "adt-runtime/release.json"]%string.
Definition runnerImageFiles : list str := map js ["codex-runner/Dockerfile"; "codex-runner/package.json";
  "codex-runner/package-lock.json"; "codex-runner/tsconfig.json"; "codex-runner/release.json"; "codex-runner/gai.conf";
  "codex-runner/git-askpass.sh"]%string.
Definition adrianImageFiles : list str := map js ["third_party/adrian-upstream.json"; "adrian/Dockerfile"]%string.

Definition impact_isDocumentationOrRequestPath (path : str) : bool :=
  let p := normalizePath path in
  agents_file p || starts_with (js ".agents/") p || document_path p.
Definition isAppBuildPath (path : str) : bool :=
  let p := normalizePath path in
  starts_with (js "app/") p || starts_with (js "components/") p || starts_with (js "lib/") p || starts_with (js "public/") p
  || path_in rootAppBuildFiles p || path_in sharedAppRunnerFiles p || path_in sharedAppRuntimeFiles p
  || prefix_then_dots (js "next.config.") p || prefix_then_dots (js "open-next.config.") p
  || prefix_then_dots (js "postcss.config.") p || prefix_then_dots (js "tailwind.config.") p.
Definition isRuntimeImagePath (path : str) : bool :=
  let p := normalizePath path in starts_with (js "adt-runtime/src/") p || path_in runtimeImageFiles p.
Definition isRunnerImagePath (path : str) : bool :=
  let p := normalizePath path in starts_with (js "codex-runner/src/") p || path_in runnerImageFiles p.
Definition isAdrianImagePath (path : str) : bool :=
  let p := normalizePath path in starts_with (js "third_party/adrian/") p || path_in adrianImageFiles p.
Definition isKnownDeploymentClassificationPath (path : str) : bool :=
  let p := normalizePath path in
  impact_isDocumentationOrRequestPath p || str_eqb p (js ".gitignore") || str_eqb p (js ".gitkeep")
  || path_in rootVerificationExtras p || isAppBuildPath p || starts_with (js "migrations/") p || starts_with (js ".github/") p
  || starts_with (js "scripts/") p || starts_with (js "test/") p || starts_with (js "test-fixtures/") p
  || starts_with (js "adt-runtime/") p || starts_with (js "codex-runner/") p || starts_with (js "adrian/") p
  || starts_with (js "third_party/adrian/") p || str_eqb p (js "third_party/adrian-upstream.json").

Definition hasUnclassifiedDeploymentChanges (paths : list str) : bool :=
  existsb (λ p, negb (isKnownDeploymentClassificationPath p)) (List.filter nonempty (map normalizePath paths)).

Record component_impact := ComponentImpact { im_worker : bool; im_runtime : bool; im_runner : bool; im_adrian : bool }.
Definition deploymentComponentImpact (paths : list str) : component_impact :=
  let values := dedup (List.filter nonempty (map normalizePath paths)) in
  ComponentImpact (existsb isAppBuildPath values) (existsb isRuntimeImagePath values) (existsb isRunnerImagePath values)
    (existsb isAdrianImagePath values).

(** ** [classify-changes.mjs] *)

Definition exactSensitive : list str := map js ["package.json"; "package-lock.json"; "wrangler.jsonc"]%string.
Definition exactLockfileRepairRelevant : list str :=
  map js ["package.json"; "package-lock.json"; ".nvmrc"; ".node-version"; ".npmrc"; "npm-shrinkwrap.json"]%string.
Definition integration_test : str := js "test/integration/workflow-runtime-integration.test.mjs".

Definition isSensitivePath (path : str) : bool :=
  let p := normalizePath path in
  isGovernancePath p || isWorkflowAutomationPath p || starts_with (js "scripts/") p || starts_with (js "lib/") p
  || str_eqb p integration_test || path_in exactSensitive p || prefix_then_dots (js "open-next.config.") p.
Definition isLockfileRepairRelevantPath (path : str) : bool :=
  let p := normalizePath path in
  path_in exactLockfileRepairRelevant p || str_eqb p (js ".github/dependabot.yml")
  || starts_with (js ".github/dependabot/") p || isWorkflowAutomationPath p.
Definition isWorkerDeployPath (path : str) : bool := isAppBuildPath (normalizePath path).
Definition isMigrationPath (path : str) : bool := starts_with (js "migrations/") (normalizePath path).
Definition isRuntimePath (path : str) : bool :=
  let p := normalizePath path in starts_with (js "adt-runtime/") p && negb (isDocumentationOrRequestPath p).
Definition isRuntimeImageSmokePath (path : str) : bool :=
  let p := normalizePath path in isRuntimeImagePath p || str_eqb p (js "adt-runtime/scripts/smoke-image.sh").
Definition isRunnerPath (path : str) : bool :=
  let p := normalizePath path in starts_with (js "codex-runner/") p && negb (isDocumentationOrRequestPath p).
Definition isRunnerImageSmokePath (path : str) : bool :=
  let p := normalizePath path in isRunnerImagePath p || str_eqb p (js "codex-runner/scripts/smoke-image.sh").
Definition isRunnerProxyPolicySmokePath (path : str) : bool :=
  let p := normalizePath path in
  path_in (map js ["codex-runner/squid.conf"; "codex-runner/squid-executor.conf"; "codex-runner/scripts/smoke-proxy-policy.sh"]%string) p.
Definition isAdrianPath (path : str) : bool :=
  let p := normalizePath path in
  starts_with (js "third_party/adrian/") p || str_eqb p (js "third_party/adrian-upstream.json") || starts_with (js "adrian/") p
  || str_eqb p (js "scripts/verify-adrian-provenance.sh").
Definition isAdrianImageSmokePath (path : str) : bool :=
  let p := normalizePath path in isAdrianImagePath p || str_eqb p (js "adrian/scripts/smoke-image.sh").
Definition isRootVerificationPath (path : str) : bool :=
  let p := normalizePath path in
  path_in rootVerificationExtras p || isAppBuildPath p || isMigrationPath p || starts_with (js ".github/") p
  || starts_with (js "scripts/") p || starts_with (js "test/") p || starts_with (js "test-fixtures/") p.
Definition isIntegrationPath (path : str) : bool :=
  let p := normalizePath path in
  starts_with (js "lib/") p || isRuntimePath p || str_eqb p integration_test || str_eqb p (js "package.json")
  || str_eqb p (js "package-lock.json") || str_eqb p (js ".nvmrc").
Definition isKnownPath (path : str) : bool := isKnownDeploymentClassificationPath (normalizePath path).

(** [[...new Set(values.filter(Boolean).map(normalize))].sort()] *)
Definition unique (values : list str) : list str :=
  sort_list str_leb (dedup (map normalizePath (List.filter nonempty values))).

(** One changed file of the request; [None] where the field is absent. *)
Record change_file := ChangeFile {
  cf_filename : option str;
  cf_path : option str;
  cf_previous_filename : option str;
  cf_status : option str;
}.
Record classification := Classification {
  changed_files : str;
  canonical_feature_files : str;
  sensitive_files : str;
  has_changes : bool;
  has_feature_request_changes : bool;
  has_sensitive_changes : bool;
  lockfile_repair_files : str;
  has_lockfile_repair_changes : bool;
  documentation_request_only : bool;
  verify_root : bool;
  verify_app : bool;
  verify_runtime : bool;
  verify_runner : bool;
  verify_adrian : bool;
  verify_integration : bool;
  smoke_runtime_image : bool;
  smoke_runner_image : bool;
  smoke_runner_proxy_policy : bool;
  smoke_adrian_image : bool;
  deploy_worker : bool;
  apply_migrations : bool;
  deploy_cloudflare : bool;
  publish_runtime : bool;
  publish_runner : bool;
  publish_adrian : bool;
  runner_release_barrier : bool;
  unclassified_files : str;
  has_unclassified_changes : bool;
  deployable_changes : bool;
}.

Definition file_name (f : change_file) : str :=
  normalizePath (match cf_filename f with Some n => n | None => default [] (cf_path f) end).
(** The names of a file that has one: the new name, and the previous one if it is not empty. *)
Definition file_paths (f : change_file) : list str :=
  if nonempty (file_name f) then
    file_name f :: match cf_previous_filename f with Some ((_ :: _) as p) => [normalizePath p] | _ => [] end
  else [].
Definition all_paths (files : list change_file) : list str := unique (flat_map file_paths files).
Definition selected (f : str → bool) (paths : list str) : list str := unique (List.filter f paths).
Definition lines (l : list str) : str := join [10%N] l.

Definition classifyChanges (files : list change_file) : classification :=
  let allPaths := all_paths files in
  let some f := existsb f allPaths in
  let canonicalFeatureFiles := selected isCanonicalFeaturePath allPaths in
  let sensitiveFiles := selected isSensitivePath allPaths in
  let lockfileRepairFiles := selected isLockfileRepairRelevantPath allPaths in
  let unclassifiedFiles := selected (λ path, negb (isKnownPath path)) allPaths in
  let has (l : list str) := (0 <? length l)%nat in
  let deployWorker := some isWorkerDeployPath in
  let applyMigrations := deployWorker || some isMigrationPath in
  let deployCloudflare := deployWorker || applyMigrations in
  {| changed_files := lines allPaths;
     canonical_feature_files := lines canonicalFeatureFiles;
     sensitive_files := lines sensitiveFiles;
     has_changes := has allPaths;
     has_feature_request_changes := has canonicalFeatureFiles;
     has_sensitive_changes := has sensitiveFiles;
     lockfile_repair_files := lines lockfileRepairFiles;
     has_lockfile_repair_changes := has lockfileRepairFiles;
     documentation_request_only := has allPaths && forallb isDocumentationOrRequestPath allPaths;
     verify_root := some isRootVerificationPath;
     verify_app := some (λ path, isAppBuildPath path || str_eqb path (js "scripts/smoke-test-worker.mjs"));
     verify_runtime := some isRuntimePath;
     verify_runner := some isRunnerPath;
     verify_adrian := some isAdrianPath;
     verify_integration := some isIntegrationPath;
     smoke_runtime_image := some isRuntimeImageSmokePath;
     smoke_runner_image := some isRunnerImageSmokePath;
     smoke_runner_proxy_policy := some isRunnerProxyPolicySmokePath;
     smoke_adrian_image := some isAdrianImageSmokePath;
     deploy_worker := deployWorker;
     apply_migrations := applyMigrations;
     deploy_cloudflare := deployCloudflare;
     publish_runtime := some isRuntimeImagePath;
     publish_runner := some isRunnerImagePath;
     publish_adrian := some isAdrianImagePath;
     runner_release_barrier := path_in allPaths (js "codex-runner/release.json");
     unclassified_files := lines unclassifiedFiles;
     has_unclassified_changes := has unclassifiedFiles;
     deployable_changes := deployCloudflare |}.

(** ** [auto-merge-eligibility.mjs] *)

Definition given_names (f : change_file) : list str :=
  List.filter nonempty (omap id [cf_filename f; cf_previous_filename f]).
Definition getManualReviewChangedFiles (files : list change_file) : list (str * option str) :=
  flat_map (λ f, map (λ path, (normalizePath path, cf_status f)) (List.filter requiresManualReviewPath (given_names f))) files.

Record eligibility_request := EligibilityRequest {
  er_author : str;
  er_repositoryOwner : str;
  er_repository : str;
  er_headRepository : str;
  er_files : list change_file;
}.
Definition evaluateAutoMergeEligibility (r : eligibility_request) : bool * str :=
  if negb (str_eqb (er_author r) (er_repositoryOwner r)) then
    (false, js "pull request author '" ++ er_author r ++ js "' is not the repository owner '" ++ er_repositoryOwner r ++ js "'")
  else if negb (str_eqb (er_headRepository r) (er_repository r)) then
    (false, js "pull request branch is from a fork or different repository")
  else match flat_map given_names (er_files r) with
  | [] => (false, js "pull request has no changed paths to evaluate")
  | _ =>
      match getManualReviewChangedFiles (er_files r) with
      | [] => (true, js "trusted same-repository pull request contains only low-sensitivity allowlisted changes")
      | manual => (false, js "pull request changes file(s) outside the low-sensitivity auto-merge allowlist: "
                            ++ join (js ", ") (dedup (map fst manual)))
      end
  end.

(** ** Outputs of the classification *)

Definition classification_outputs (c : classification) : list (str * str) :=
  let b (x : bool) : str := if x then js "true" else js "false" in
  [(js "changed_files", changed_files c); (js "canonical_feature_files", canonical_feature_files c);
   (js "sensitive_files", sensitive_files c); (js "has_changes", b (has_changes c));
   (js "has_feature_request_changes", b (has_feature_request_changes c));
   (js "has_sensitive_changes", b (has_sensitive_changes c)); (js "lockfile_repair_files", lockfile_repair_files c);
   (js "has_lockfile_repair_changes", b (has_lockfile_repair_changes c));
   (js "documentation_request_only", b (documentation_request_only c)); (js "verify_root", b (verify_root c));
   (js "verify_app", b (verify_app c)); (js "verify_runtime", b (verify_runtime c)); (js "verify_runner", b (verify_runner c));
   (js "verify_adrian", b (verify_adrian c)); (js "verify_integration", b (verify_integration c));
   (js "smoke_runtime_image", b (smoke_runtime_image c)); (js "smoke_runner_image", b (smoke_runner_image c));
   (js "smoke_runner_proxy_policy", b (smoke_runner_proxy_policy c)); (js "smoke_adrian_image", b (smoke_adrian_image c));
   (js "deploy_worker", b (deploy_worker c)); (js "apply_migrations", b (apply_migrations c));
   (js "deploy_cloudflare", b (deploy_cloudflare c)); (js "publish_runtime", b (publish_runtime c));
   (js "publish_runner", b (publish_runner c)); (js "publish_adrian", b (publish_adrian c));
   (js "runner_release_barrier", b (runner_release_barrier c)); (js "unclassified_files", unclassified_files c);
   (js "has_unclassified_changes", b (has_unclassified_changes c)); (js "deployable_changes", b (deployable_changes c))].
(** What [writeOutput] appends to the output file: the value between [name<<EOF] and [EOF]. *)
Definition writeOutput (name value : str) : str := name ++ js "<<EOF" ++ [10%N] ++ value ++ [10%N] ++ js "EOF" ++ [10%N].

(** ** [auto-merge-orchestration.mjs] *)

Record pull := Pull {
  pr_number : Z;
  pr_base_ref : option str;
  pr_merged : bool;
  pr_merged_at : option str;
  pr_state : str;
  pr_head_sha : option str;
  pr_head_repo : option str;
  pr_draft : bool;
  pr_user_login : option str;
}.
Inductive pull_action := PullNoop | PullEvaluate.
Definition pull_noop (pr : pull) (reason : string) : outcome str (Z * pull_action * str) := Ok (pr_number pr, PullNoop, js reason).
Definition decidePullRequestAction (pulls : list pull) (validatedSha repository repositoryOwner : str)
    : outcome str (Z * pull_action * str) :=
  match List.filter (λ pr, bool_decide (pr_base_ref pr = Some (js "main"))) pulls with
  | [pr] =>
      if pr_merged pr || match pr_merged_at pr with Some t => nonempty t | None => false end then pull_noop pr "pull request is already merged"
      else if str_eqb (pr_state pr) (js "closed") then pull_noop pr "pull request was closed without merge"
      else if negb (str_eqb (pr_state pr) (js "open")) then
        Throw (js "Pull request #" ++ dec_of_Z (pr_number pr) ++ js " has unsupported state '" ++ pr_state pr ++ js "'.")
      else if negb (bool_decide (pr_head_sha pr = Some validatedSha)) then pull_noop pr "validated workflow run is stale"
      else if pr_draft pr then pull_noop pr "pull request is a draft"
      else if negb (bool_decide (pr_user_login pr = Some repositoryOwner)) then pull_noop pr "pull request author is not the repository owner"
      else if negb (bool_decide (pr_head_repo pr = Some repository)) then pull_noop pr "pull request branch is not from this repository"
      else Ok (pr_number pr, PullEvaluate, js "pull request is current and trusted")
  | matches => Throw (js "Expected exactly one associated main pull request for " ++ validatedSha ++ js ", found "
                      ++ dec_of_Z (Z.of_nat (length matches)))
  end.
