(* ===== verification/ChangePolicyFacts.v ===== *)
(** * Theorems on the change policy

    What may be merged without review changes no image, migration or sensitive
    file; the two classifiers of components agree; every input of a component is
    a known path. *)

From S2P Require Import Prelude JsString Libs ChangePolicy.

(** ** Lists of paths *)

Lemma existsb_elem {A} (f : A → bool) l : existsb f l = true ↔ ∃ x, x ∈ l ∧ f x = true.
Proof.
  rewrite existsb_exists. split; intros (x & Hx & Hf); exists x; (split; [by apply list_elem_of_In|done]).
Qed.
Lemma existsb_none {A} (f : A → bool) l : existsb f l = false ↔ ∀ x, x ∈ l → f x = false.
Proof.
  rewrite <- not_true_iff_false, existsb_elem. split.
  - intros H x Hx. apply not_true_iff_false. eauto.
  - intros H (x & Hx & Hf). by rewrite (H x Hx) in Hf.
Qed.
Lemma elem_of_bfilter {A} (f : A → bool) l x : x ∈ List.filter f l ↔ x ∈ l ∧ f x = true.
Proof. rewrite !list_elem_of_In. apply filter_In. Qed.

Lemma bfilter_nil {A} (f : A → bool) l : (∀ x, x ∈ l → f x = false) → List.filter f l = [].
Proof. induction l as [|x l IH]; cbn; [done|]. intros Hf. rewrite Hf by set_solver. apply IH. set_solver. Qed.

Lemma elem_of_unique x l : x ∈ unique l ↔ ∃ y, y ∈ l ∧ y ≠ [] ∧ x = normalizePath y.
Proof.
  unfold unique. rewrite sort_list_perm, elem_of_dedup, list_elem_of_fmap. split.
  - intros (y & -> & [Hy Hn%nonempty_true]%elem_of_bfilter). eauto.
  - intros (y & Hy & Hn%nonempty_true & ->). exists y. rewrite elem_of_bfilter. auto.
Qed.
Lemma path_in_elem l p : path_in l p = true ↔ p ∈ l.
Proof.
  unfold path_in. rewrite existsb_elem. split.
  - by intros (x & Hx & ->%str_eqb_eq).
  - intros H. exists p. split; [done|apply str_eqb_refl].
Qed.
Lemma has_selected f l : (0 <? length (selected f l))%nat = existsb (λ p, nonempty p && f p) l.
Proof.
  apply eq_iff_eq_true. rewrite Nat.ltb_lt, existsb_elem. split.
  - destruct (selected f l) as [|x s] eqn:E; [by intros ?%Nat.lt_irrefl|]. intros _.
    assert (x ∈ selected f l) as (y & [Hy Hf]%elem_of_bfilter & Hn%nonempty_true & _)%elem_of_unique by (rewrite E; left).
    exists y. by rewrite Hn, Hf.
  - intros (x & Hx & [Hn Hf]%andb_true_iff).
    assert (normalizePath x ∈ selected f l) as H.
    { apply elem_of_unique. exists x. rewrite elem_of_bfilter. by apply nonempty_true in Hn. }
    destruct (selected f l); [by apply not_elem_of_nil in H|cbn; lia].
Qed.

(** ** Plain paths: what git and GitHub report *)

Definition plain (p : str) : Prop := p ≠ [] ∧ starts_with (js "./") p = false.
Lemma normalize_plain p : plain p → normalizePath p = p.
Proof. intros [_ H]. unfold normalizePath. by rewrite H. Qed.
Definition plain_file (f : change_file) : Prop :=
  (∃ n, cf_filename f = Some n ∧ plain n) ∧ (∀ p, cf_previous_filename f = Some p → plain p).
Definition names_of (f : change_file) : list str := omap id [cf_filename f; cf_previous_filename f].

Lemma file_paths_plain f : plain_file f → file_paths f = names_of f.
Proof.
  intros [(n & Hn & Hp) Hprev]. unfold file_paths, file_name, names_of. rewrite Hn. cbn.
  rewrite normalize_plain by done. destruct Hp as [Hne _]. apply nonempty_true in Hne as ->.
  destruct (cf_previous_filename f) as [p|] eqn:E; cbn; [|done].
  specialize (Hprev p eq_refl). rewrite normalize_plain by done. destruct p; [by destruct Hprev|done].
Qed.
Lemma names_of_plain f p : plain_file f → p ∈ names_of f → plain p.
Proof.
  intros [(n & Hn & Hp) Hprev]. unfold names_of. rewrite Hn. cbn.
  destruct (cf_previous_filename f) as [q|]; cbn; [|by intros ->%list_elem_of_singleton].
  intros [ -> | ->%list_elem_of_singleton ]%elem_of_cons; auto.
Qed.
Lemma all_paths_plain files p :
  Forall plain_file files → p ∈ all_paths files ↔ ∃ f, f ∈ files ∧ p ∈ names_of f.
Proof.
  intros Hf. rewrite Forall_forall in Hf. unfold all_paths. rewrite elem_of_unique. split.
  - intros (y & Hy & Hn & ->). apply list_elem_of_In, in_flat_map in Hy as (f & Hin%list_elem_of_In & Hy%list_elem_of_In).
    rewrite file_paths_plain in Hy by auto. exists f. rewrite normalize_plain; [done|]. eapply names_of_plain; eauto.
  - intros (f & Hin & Hp). assert (plain p) as Hpl by (eapply names_of_plain; eauto). exists p.
    split_and!; [|by destruct Hpl|by rewrite normalize_plain].
    apply list_elem_of_In, in_flat_map. exists f. rewrite file_paths_plain by auto. by rewrite <- !list_elem_of_In.
Qed.

(** ** Clashes of prefixes, exact names and root files *)

Lemma prefix_clash a b q : starts_with a q = true → starts_with b q = true → starts_with a b || starts_with b a = true.
Proof.
  revert b q. induction a as [|x a IH]; intros [|y b] [|z q]; cbn; try done.
  intros [->%N.eqb_eq Ha]%andb_true_iff [->%N.eqb_eq Hb]%andb_true_iff. rewrite N.eqb_refl. cbn. eauto.
Qed.
Lemma root_clash s b q : root_file s q = true → starts_with b q = true → forallb (λ c, negb (c =? ch "/")%N) b = true.
Proof.
  unfold root_file. intros [_ H]%andb_true_iff [r ->]%starts_with_spec. by apply forallb_app_iff in H as [? _].
Qed.
(** Two tests of one path that cannot both hold. *)
Ltac clash :=
  repeat match goal with
         | H : _ && _ = true |- _ => apply andb_true_iff in H as [? ?]
         | H : path_in _ _ = true |- _ => apply path_in_elem in H
         | H : _ ∈ map js _ |- _ => cbn [map] in H
         | H : _ ∈ ?l |- _ => progress unfold l in H
         | H : _ ∈ _ :: _ |- _ => apply elem_of_cons in H as [H|H]
         | H : _ ∈ [] |- _ => by apply not_elem_of_nil in H
         | H : str_eqb _ _ = true |- _ => apply str_eqb_eq in H
         end;
  subst;
  try match goal with H : js _ = js _ |- _ => vm_compute in H; discriminate H end;
  repeat match goal with
         | H : starts_with ?a ?q = true, H' : starts_with ?b ?q = true |- _ =>
             let C := fresh in assert (C := prefix_clash a b q H H'); vm_compute in C; discriminate C
         | H : root_file _ ?q = true, H' : starts_with _ ?q = true |- _ =>
             let C := fresh in assert (C := root_clash _ _ q H H'); vm_compute in C; discriminate C
         | H : root_file _ _ = true |- _ => vm_compute in H; discriminate H
         | H : starts_with _ _ = true |- _ => vm_compute in H; discriminate H
         end.
Ltac split_or :=
  repeat match goal with H : _ || _ = true |- _ => apply orb_true_iff in H as [H|H] end.

(** ** What may be merged without review *)

(** The tests of [isLowSensitivityAutoMergePath] on a path without a leading [./]. *)
Definition low_path (q : str) : Prop :=
  isGovernancePath q = false ∧ document_path q = true ∨ isStaticAssetPath q = true ∨ isStyleOnlyPath q = true.

Lemma low_plain p : plain p → isLowSensitivityAutoMergePath p = true → low_path p.
Proof.
  intros Hp. unfold isLowSensitivityAutoMergePath, isOrdinaryDocumentationOrRequestPath, low_path.
  rewrite !(normalize_plain p Hp). destruct (isGovernancePath p); intros H; split_or; first [done|by auto].
Qed.

Lemma low_no_image p : plain p → low_path p →
  isRuntimeImagePath p = false ∧ isRunnerImagePath p = false ∧ isAdrianImagePath p = false ∧ isMigrationPath p = false
  ∧ p ≠ js "codex-runner/release.json".
Proof.
  intros Hp H. unfold low_path, isStaticAssetPath, isStyleOnlyPath, document_path in H.
  unfold isRuntimeImagePath, isRunnerImagePath, isAdrianImagePath, isMigrationPath.
  rewrite !(normalize_plain p Hp) in *.
  split_and!; try apply not_true_iff_false; intros Hc; split_or; destruct H as [[_ H]|[H|H]]; to_prop; split_or; clash.
Qed.

Lemma suffix_clash a b q : ends_with a q = true → ends_with b q = true → ends_with a b || ends_with b a = true.
Proof. unfold ends_with. apply prefix_clash. Qed.
Lemma ends_with_lower a q : ends_with a q = true → ends_with_i (map ascii_lower a) q = true.
Proof. intros [r ->]%ends_with_spec. unfold ends_with_i. rewrite map_app. apply ends_with_app. Qed.

(** A file of an allowed extension is not an [AGENTS.md]. *)
Lemma asset_not_agents s p : ends_with_i s p = true → existsb (λ a, ends_with s a || ends_with a s) [js "/agents.md"; js "agents.md"] = false →
  agents_file p = false.
Proof.
  intros Hs Hc. apply not_true_iff_false. unfold agents_file. intros H.
  rewrite existsb_none in Hc. apply orb_true_iff in H as [->%str_eqb_eq|H].
  - pose proof (Hc (js "agents.md") ltac:(set_solver)) as E. unfold ends_with_i in Hs.
    assert (map ascii_lower (js "AGENTS.md") = js "agents.md") as Em by (vm_compute; reflexivity). rewrite Em in Hs.
    by rewrite Hs, orb_true_l in E.
  - pose proof (Hc (js "/agents.md") ltac:(set_solver)) as E. apply ends_with_lower in H.
    assert (map ascii_lower (js "/AGENTS.md") = js "/agents.md") as Em by (vm_compute; reflexivity). rewrite Em in H.
    pose proof (suffix_clash _ _ _ Hs H) as C. congruence.
Qed.

Lemma low_not_governance p : plain p → low_path p → isGovernancePath p = false.
Proof.
  intros Hp [[? _]|H]; [done|]. unfold isGovernancePath. unfold isStaticAssetPath, isStyleOnlyPath in H.
  rewrite !(normalize_plain p Hp) in *. apply orb_false_iff. split.
  - destruct H as [[_ H]%andb_true_iff|[_ H]%andb_true_iff].
    + apply existsb_elem in H as (s & Hin & Hs). cbn [map] in Hin.
      repeat (apply elem_of_cons in Hin as [->|Hin]; [eapply asset_not_agents; [exact Hs|vm_compute; reflexivity]|]).
      by apply not_elem_of_nil in Hin.
    + eapply asset_not_agents; [exact H|vm_compute; reflexivity].
  - apply not_true_iff_false. intros Hc. destruct H; to_prop; split_or; clash.
Qed.

Lemma low_sensitive p : plain p → low_path p → isSensitivePath p = true →
  starts_with (js "open-next.config.") p = true ∧ root_file (js ".md") p = true.
Proof.
  intros Hp H. pose proof (low_not_governance p Hp H) as Hg.
  unfold isSensitivePath, isWorkflowAutomationPath. rewrite !(normalize_plain p Hp), Hg. cbn [orb].
  unfold low_path, isStaticAssetPath, isStyleOnlyPath, document_path, prefix_then_dots, integration_test in *.
  rewrite !(normalize_plain p Hp) in *. intros Hc.
  split_or; destruct H as [[_ H]|[H|H]]; to_prop; split_or; try (exfalso; clash; done); done.
Qed.

Lemma given_names_plain f : plain_file f → given_names f = names_of f.
Proof.
  intros [(n & Hn & Hp) Hprev]. unfold given_names, names_of. rewrite Hn. cbn.
  destruct Hp as [Hne _]. apply nonempty_true in Hne as ->.
  destruct (cf_previous_filename f) as [p|]; cbn; [|done]. specialize (Hprev p eq_refl) as [Hpne _].
  by apply nonempty_true in Hpne as ->.
Qed.

Lemma no_manual_review files f p :
  getManualReviewChangedFiles files = [] → f ∈ files → p ∈ given_names f → isLowSensitivityAutoMergePath p = true.
Proof.
  intros H Hf Hp. apply negb_false_iff. fold (requiresManualReviewPath p). apply not_true_iff_false. intros Hr.
  assert ((normalizePath p, cf_status f) ∈ getManualReviewChangedFiles files) as Hin; [|by rewrite H in Hin; apply not_elem_of_nil in Hin].
  apply list_elem_of_In, in_flat_map. exists f. split; [by apply list_elem_of_In|].
  apply in_map_iff. exists p. split; [done|]. apply list_elem_of_In, elem_of_bfilter. done.
Qed.

Lemma eligible_inv r reason :
  evaluateAutoMergeEligibility r = (true, reason) →
  er_author r = er_repositoryOwner r ∧ er_headRepository r = er_repository r ∧
  flat_map given_names (er_files r) ≠ [] ∧ getManualReviewChangedFiles (er_files r) = [].
Proof.
  unfold evaluateAutoMergeEligibility.
  destruct (str_eqb (er_author r) _) eqn:Ea; [|done]. destruct (str_eqb (er_headRepository r) _) eqn:Eh; [|done]. cbn [negb].
  apply str_eqb_eq in Ea, Eh. destruct (flat_map _ _) eqn:En; [done|]. by destruct (getManualReviewChangedFiles _).
Qed.


(** ** Agreement of the classifiers *)

Lemma documentation_agree p : plain p → impact_isDocumentationOrRequestPath p = isDocumentationOrRequestPath p.
Proof.
  intros Hp. unfold impact_isDocumentationOrRequestPath, isDocumentationOrRequestPath, isGovernancePath.
  by rewrite !(normalize_plain p Hp).
Qed.

Lemma plain_names files p : Forall plain_file files → p ∈ flat_map names_of files → plain p ∧ p ∈ all_paths files.
Proof.
  intros Hf Hp. apply list_elem_of_In, in_flat_map in Hp as (f & Hin%list_elem_of_In & Hp%list_elem_of_In).
  split; [|by apply all_paths_plain; eauto]. eapply names_of_plain; [|done]. rewrite Forall_forall in Hf. auto.
Qed.
Lemma map_normalize_plain l : Forall plain l → List.filter nonempty (map normalizePath l) = l.
Proof.
  induction 1 as [|p l Hp _ IH]; cbn; [done|]. rewrite (normalize_plain p Hp), IH. destruct Hp as [Hn%nonempty_true _]. by rewrite Hn.
Qed.
Lemma existsb_same f l k : (∀ x : str, x ∈ l ↔ x ∈ k) → existsb f l = existsb f k.
Proof. intros H. apply eq_iff_eq_true. rewrite !existsb_elem. by setoid_rewrite H. Qed.

(** Every input of a component, and every migration, is a path the classification knows. *)
Lemma inputs_known p : plain p →
  isAppBuildPath p || isRuntimeImagePath p || isRunnerImagePath p || isAdrianImagePath p || isMigrationPath p = true →
  isKnownDeploymentClassificationPath p = true.
Proof.
  intros Hp H. unfold isKnownDeploymentClassificationPath. rewrite !(normalize_plain p Hp).
  destruct (isAppBuildPath p); [by rewrite ?orb_true_r|]. cbn [orb] in H.
  unfold isRuntimeImagePath, isRunnerImagePath, isAdrianImagePath, isMigrationPath in H.
  rewrite !(normalize_plain p Hp) in H.
  assert (∀ a b, starts_with a b = true → starts_with b p = true → starts_with a p = true) as Hpre.
  { intros a b [r ->]%starts_with_spec [r' ->]%starts_with_spec. apply starts_with_spec. exists (r ++ r'). by rewrite List.app_assoc. }
  split_or; repeat match goal with
    | H : path_in _ _ = true |- _ => apply path_in_elem in H
    | H : _ ∈ map js _ |- _ => cbn [map] in H
    | H : _ ∈ ?l |- _ => progress unfold l in H
    | H : _ ∈ _ :: _ |- _ => apply elem_of_cons in H as [->|H]
    | H : _ ∈ [] |- _ => by apply not_elem_of_nil in H
    end; try (vm_compute; reflexivity).
  - by rewrite (Hpre (js "adt-runtime/") (js "adt-runtime/src/") eq_refl H), ?orb_true_r.
  - by rewrite (Hpre (js "codex-runner/") (js "codex-runner/src/") eq_refl H), ?orb_true_r.
  - by rewrite H, ?orb_true_r.
  - by rewrite H, ?orb_true_r.
Qed.

(** The two classifiers agree: what the application derives from the changed paths (which components they
    touch, whether a path is unclassified, what counts as documentation) is what the delivery
    plan deploys and publishes, and every input of a component is a classified path. *)
Theorem classifiers_agree files :
  Forall plain_file files →
  let c := classifyChanges files in let paths := flat_map names_of files in
  deploymentComponentImpact paths = ComponentImpact (deploy_worker c) (publish_runtime c) (publish_runner c) (publish_adrian c) ∧
  hasUnclassifiedDeploymentChanges paths = has_unclassified_changes c ∧
  ∀ p, p ∈ paths → impact_isDocumentationOrRequestPath p = isDocumentationOrRequestPath p ∧
    (isAppBuildPath p || isRuntimeImagePath p || isRunnerImagePath p || isAdrianImagePath p || isMigrationPath p = true →
     isKnownPath p = true).
Proof.
  intros Hf c paths.
  assert (Forall plain paths) as Hpl by (apply Forall_forall; intros p [? _]%plain_names; done).
  assert (∀ p, p ∈ paths ↔ p ∈ all_paths files) as Heq.
  { intros p. split; [intros H; by apply plain_names|]. intros (f & Hin & Hp)%all_paths_plain; [|done].
    apply list_elem_of_In, in_flat_map. exists f. by rewrite <- !list_elem_of_In. }
  rewrite Forall_forall in Hpl. split_and!.
  - unfold deploymentComponentImpact. rewrite map_normalize_plain by (by apply Forall_forall).
    assert (∀ f g, (∀ p, plain p → f p = g p) → existsb f (dedup paths) = existsb g (all_paths files)) as Hex.
    { intros f g Hfg. rewrite (existsb_same f (dedup paths) paths) by (intros x; apply elem_of_dedup).
      rewrite <- (existsb_same g paths) by done. apply eq_iff_eq_true. rewrite !existsb_elem.
      split; intros (x & Hx & E); exists x; (split; [done|]); by rewrite Hfg in * by auto. }
    f_equal; apply Hex; intros p Hp; [|done..]. unfold isWorkerDeployPath. by rewrite normalize_plain.
  - unfold hasUnclassifiedDeploymentChanges. rewrite map_normalize_plain by (by apply Forall_forall).
    change (has_unclassified_changes c) with (0 <? length (selected (λ path, negb (isKnownPath path)) (all_paths files)))%nat.
    rewrite has_selected, <- (existsb_same _ paths (all_paths files) Heq). apply eq_iff_eq_true. rewrite !existsb_elem.
    split; intros (x & Hx & E); exists x; (split; [done|]); unfold isKnownPath in *;
      rewrite (normalize_plain x) in * by auto; destruct (Hpl x Hx) as [Hn%nonempty_true _]; by rewrite Hn in *.
  - intros p Hp. split; [by apply documentation_agree, Hpl|]. unfold isKnownPath. rewrite normalize_plain by auto.
    by apply inputs_known, Hpl.
Qed.

(** ** Outputs *)

Lemma sort_elem l (x : str) : x ∈ sort_list str_leb l ↔ x ∈ l.
Proof. by rewrite sort_list_perm. Qed.

(** The lines of a list of paths. *)
Lemma split_join l : Forall (λ p, 10%N ∉ p) l → l ≠ [] → split_on 10 (join [10%N] l) = l.
Proof.
  induction 1 as [|p l Hp Hl IH]; [done|]. intros _. destruct l as [|q l]; [by apply split_on_fresh|].
  rewrite join_cons_nonnil by done. cbn [app]. rewrite split_on_app by done. by rewrite IH.
Qed.
Lemma lines_no_delimiter l : Forall (λ p, (10%N ∉ p) ∧ p ≠ js "EOF") l → js "EOF" ∉ split_on 10 (lines l).
Proof.
  intros H. destruct l as [|p l]; [unfold lines; cbn; set_solver|]. unfold lines. rewrite split_join; [|..|done].
  - rewrite Forall_forall in H. intros Hin. by destruct (H _ Hin).
  - eapply Forall_impl; [exact H|]. by intros q [? _].
Qed.

(** Every output of the classification is framed: if no changed path is named [EOF], no line of a value is
    the delimiter that ends it. *)
Theorem outputs_framed files :
  Forall plain_file files → (∀ p, p ∈ flat_map names_of files → (10%N ∉ p) ∧ p ≠ js "EOF") →
  Forall (λ o, js "EOF" ∉ split_on 10 o.2) (classification_outputs (classifyChanges files)).
Proof.
  intros Hf Hp. assert (∀ p, p ∈ all_paths files → (10%N ∉ p) ∧ p ≠ js "EOF") as Hall.
  { intros p (f & Hin & Hn)%all_paths_plain; [|done]. apply Hp, list_elem_of_In, in_flat_map. exists f. by rewrite <- !list_elem_of_In. }
  assert (∀ g, js "EOF" ∉ split_on 10 (lines (selected g (all_paths files)))) as Hsel.
  { intros g. apply lines_no_delimiter, Forall_forall. intros q (p & [Hin _]%elem_of_bfilter & _ & ->)%elem_of_unique.
    rewrite normalize_plain; [by apply Hall|]. apply all_paths_plain in Hin as (f & Hin & Hn); [|done].
    eapply names_of_plain; [|done]. rewrite Forall_forall in Hf. auto. }
  assert (js "EOF" ∉ split_on 10 (lines (all_paths files))) as Hlines by (by apply lines_no_delimiter, Forall_forall).
  assert (∀ b : bool, js "EOF" ∉ split_on 10 (if b then js "true" else js "false")) as Hb.
  { intros []; apply (bool_decide_eq_true_1 (_ ∉ _)); vm_compute; reflexivity. }
  unfold classification_outputs. repeat (apply Forall_cons; split); [..|constructor]; first [apply Hb|apply Hlines|apply Hsel].
Qed.

(** ** Orchestration *)

(** Only an open, current pull request of the owner in this repository is evaluated. *)
Lemma evaluated_pull pulls sha repository owner number reason :
  decidePullRequestAction pulls sha repository owner = Ok (number, PullEvaluate, reason) →
  ∃ pr, pr ∈ pulls ∧ pr_number pr = number ∧ pr_base_ref pr = Some (js "main") ∧ pr_merged pr = false ∧
    pr_state pr = js "open" ∧ pr_head_sha pr = Some sha ∧ pr_draft pr = false ∧ pr_user_login pr = Some owner ∧
    pr_head_repo pr = Some repository.
Proof.
  unfold decidePullRequestAction. destruct (List.filter _ pulls) as [|pr [|]] eqn:Ef; try done.
  assert (pr ∈ List.filter (λ pr, bool_decide (pr_base_ref pr = Some (js "main"))) pulls) as Hin by (rewrite Ef; left).
  apply elem_of_bfilter in Hin as [Hin Hbase%bool_decide_eq_true].
  repeat match goal with |- (if ?b then _ else _) = _ → _ => destruct b eqn:?; [done|] end.
  intros [= <- _]. to_prop. exists pr. split_and!; try done. by apply str_eqb_eq.
Qed.
