(* ===== verification/Freshness.v ===== *)
(** * Freshness of deployments

    Models [src/scripts/evaluate-deployment-freshness.mjs] (is a deployment
    still current when it runs), [src/lib/deployment-metadata.ts] (what the
    deployed application says about itself) and
    [src/scripts/adrian-publication-plan.mjs].

    [git] is a parameter: it maps the arguments of a command to its output. *)

From S2P Require Import Prelude JsString JsDate Json JsNumber Libs BackupMetadata ChangePolicy.

(** ** The changed files of a range *)

Definition strip_cr (s : str) : str := match reverse s with c :: r => if (c =? 13)%N then reverse r else s | [] => s end.
(** [text.split(/\r?\n/)]: the carriage return goes with the newline after it. *)
Fixpoint strip_pieces (l : list str) : list str :=
  match l with
  | [] => []
  | [s] => [s]
  | s :: l => strip_cr s :: strip_pieces l
  end.
Definition split_lines (text : str) : list str := strip_pieces (split_on 10 text).

Definition parse_status_line (line : str) : change_file :=
  let parts := split_on 9 line in
  let code := default [] (parts !! 0%nat) in
  if starts_with (js "R") code || starts_with (js "C") code then
    ChangeFile (parts !! 2%nat) None (parts !! 1%nat) (Some (js "renamed"))
  else
    ChangeFile (parts !! 1%nat) None None
      (Some (if str_eqb code (js "A") then js "added" else if str_eqb code (js "D") then js "removed" else js "modified")).
Definition parseGitNameStatus (text : str) : list change_file :=
  map parse_status_line (List.filter (λ line, nonempty (trim line)) (split_lines text)).

(** ** Freshness *)

Section Git.
Context {E : Type} (git : list str → outcome E str).
Definition classifyGitRange (baseRef headRef : str) : outcome E classification :=
  diff ← git [js "diff"; js "--name-status"; js "-M"; baseRef; headRef];
  Ok (classifyChanges (parseGitNameStatus diff)).
End Git.

Record target := Target { targetDeployWorker : bool; targetApplyMigrations : bool; targetRunnerReleaseBarrier : bool }.

(** A verdict is [(current, reason)]; a thrown error is its message. *)
Definition verdict (superseded : bool) (stale fresh : string) : outcome str (bool * str) :=
  Ok (if superseded then (false, js stale) else (true, js fresh)).
Definition evaluateOperationFreshness (operation : str) (impact : classification) (t : target) : outcome str (bool * str) :=
  if has_unclassified_changes impact then Ok (false, js "intervening range contains unclassified paths")
  else if str_eqb operation (js "runtime") then
    verdict (publish_runtime impact) "a newer Runtime image input exists" "intervening commits do not change Runtime image inputs"
  else if str_eqb operation (js "adrian") then
    verdict (publish_adrian impact) "a newer Adrian image input exists" "intervening commits do not change Adrian image inputs"
  else if str_eqb operation (js "runner") then
    verdict (publish_runner impact) "a newer Runner image input exists" "intervening commits do not change Runner image inputs"
  else if negb (str_eqb operation (js "cloudflare")) then
    Throw (js "Unsupported freshness operation '" ++ operation ++ js "'.")
  else if negb (targetDeployWorker t) && negb (targetApplyMigrations t) then
    Throw (js "Cloudflare freshness requires at least one target operation.")
  else if targetRunnerReleaseBarrier t && negb (targetDeployWorker t) then
    Throw (js "Runner release barrier requires a Worker deployment target.")
  else if targetRunnerReleaseBarrier t then
    verdict (runner_release_barrier impact) "a newer shared Runner release supersedes this Worker-to-Runner barrier"
      "exact Worker deployment remains required to establish the shared Runner release barrier"
  else if targetDeployWorker t then
    verdict (deploy_worker impact) "a newer Worker input supersedes this Worker deployment"
      "intervening commits do not supersede this Worker deployment"
  else
    verdict (apply_migrations impact) "a newer migration or Worker operation subsumes this migration-only target"
      "intervening commits do not subsume this migration-only target".

Definition parseBoolean (value : option str) : bool := str_eqb (to_lower (default [] value)) (js "true").

(** The script: its arguments and environment, what it appends to the output and the summary file. *)
Record freshness_env := FreshnessEnv {
  fe_argv : list str;
  fe_TARGET_DEPLOY_WORKER : option str;
  fe_TARGET_APPLY_MIGRATIONS : option str;
  fe_TARGET_RUNNER_RELEASE_BARRIER : option str;
  fe_GITHUB_OUTPUT : bool;
  fe_GITHUB_STEP_SUMMARY : bool;
  fe_FRESHNESS_TARGET_LABEL : str;
}.
Definition bool_text (b : bool) : str := if b then js "true" else js "false".
Definition writeWorkflowOutput (env : freshness_env) (name value : str) : str :=
  if fe_GITHUB_OUTPUT env then name ++ js "=" ++ value ++ [10%N] else [].
Definition freshness_main (git : list str → outcome str str) (env : freshness_env) : outcome str (str * str) :=
  match fe_argv env with
  | ((_ :: _) as operation) :: ((_ :: _) as baseRef) :: ((_ :: _) as headRef) :: _ =>
      impact ← classifyGitRange git baseRef headRef;
      result ← evaluateOperationFreshness operation impact
        (Target (parseBoolean (fe_TARGET_DEPLOY_WORKER env)) (parseBoolean (fe_TARGET_APPLY_MIGRATIONS env))
           (parseBoolean (fe_TARGET_RUNNER_RELEASE_BARRIER env)));
      let label := if nonempty (fe_FRESHNESS_TARGET_LABEL env) then fe_FRESHNESS_TARGET_LABEL env
                   else operation ++ js " target " ++ baseRef in
      Ok (writeWorkflowOutput env (js "current") (bool_text result.1) ++ writeWorkflowOutput env (js "reason") result.2,
          if fe_GITHUB_STEP_SUMMARY env then
            label ++ js ": " ++ (if result.1 : bool then js "current" else js "superseded") ++ [32; 8212; 32]%N ++ result.2 ++ js "." ++ [10%N]
          else [])
  | _ => Throw (js "Usage: node scripts/evaluate-deployment-freshness.mjs <cloudflare|runtime|runner|adrian> <base-ref> <head-ref>")
  end.

(** ** [deployment-metadata.ts] *)

Record DeploymentMetadata := MkDeploymentMetadata {
  dm_deployedAt : str;
  dm_commitSha : str;
  dm_pullRequestNumber : option Z;
  dm_repository : str;
}.
Record metadata_input := MetadataInput {
  mi_deployedAt : option str;
  mi_commitSha : option str;
  mi_pullRequestNumber : option str;
  mi_repository : option str;
}.
Definition FULL_SHA_PATTERN (s : str) : bool := bool_decide (take_class is_hex 40 s = Some []).
Definition nonEmpty (value : option str) : option str :=
  v ← value; if nonempty (trim v) then Some (trim v) else None.
Definition parsePullRequestNumber (value : option str) : option Z :=
  t ← nonEmpty value;
  match js_number t with NInt z => if (0 <? z)%Z then Some z else None | _ => None end.
Definition isValidUtcTimestamp `{Libs} (value : str) : bool :=
  match date_parse value with Some t => str_eqb (toISOString t) value | None => false end.
Definition createDeploymentMetadata `{Libs} (input : metadata_input) : option DeploymentMetadata :=
  deployedAt ← nonEmpty (mi_deployedAt input);
  commitSha ← nonEmpty (mi_commitSha input);
  if isValidUtcTimestamp deployedAt && FULL_SHA_PATTERN commitSha then
    Some (MkDeploymentMetadata deployedAt (to_lower commitSha) (parsePullRequestNumber (mi_pullRequestNumber input))
            (default (js "zailghe3/artifact-dev-toolkit") (nonEmpty (mi_repository input))))
  else None.

Record display_model := DisplayModel {
  dd_deployedAt : str;
  dd_commitSha : str;
  dd_shortCommitSha : str;
  dd_commitUrl : str;
  dd_pullRequestNumber : option Z;
  dd_pullRequestUrl : option str;
}.
Definition getDeploymentDisplayModel (m : DeploymentMetadata) : display_model :=
  let repositoryUrl := js "https://github.com/" ++ dm_repository m in
  DisplayModel (dm_deployedAt m) (dm_commitSha m) (take 7 (dm_commitSha m)) (repositoryUrl ++ js "/commit/" ++ dm_commitSha m)
    (dm_pullRequestNumber m)
    (match dm_pullRequestNumber m with
     | Some n => if (n =? 0)%Z then None else Some (repositoryUrl ++ js "/pull/" ++ dec_of_Z n)
     | None => None
     end).

(** ** [adrian-publication-plan.mjs] *)

Definition shaPattern (s : str) : bool := bool_decide (take_class is_hex_lower 40 s = Some []).
Definition runNumberPattern (s : str) : bool :=
  match s with c :: r => in_range 49 57 c && forallb is_digit r | [] => false end.
Record adrian_plan := AdrianPlan { ap_mode : str; ap_immutableTag : str; ap_upstreamTag : str }.
Definition resolveAdrianPublicationPlan (callMode targetSha upstreamSha runId runAttempt : str) : outcome str adrian_plan :=
  if negb (shaPattern targetSha) || negb (shaPattern upstreamSha) then
    Throw (js "Adrian publication requires full lowercase target and upstream commit SHAs.")
  else if str_eqb callMode (js "source") then
    Ok (AdrianPlan (js "source") targetSha (js "upstream-" ++ upstreamSha))
  else if str_eqb callMode [] then
    if negb (runNumberPattern runId) || negb (runNumberPattern runAttempt) then
      Throw (js "Direct Adrian rebuild requires numeric run identity.")
    else Ok (AdrianPlan (js "rebuild") (js "rebuild-" ++ runId ++ js "-" ++ runAttempt) [])
  else Throw (js "Unsupported Adrian publication call mode '" ++ callMode ++ js "'.").
(** The lines the script appends to the output file. *)
Definition adrian_outputs (p : adrian_plan) : str :=
  js "mode=" ++ ap_mode p ++ [10%N] ++ js "immutable_tag=" ++ ap_immutableTag p ++ [10%N]
  ++ js "upstream_tag=" ++ ap_upstreamTag p ++ [10%N].
Record adrian_env := AdrianEnv {
  ADRIAN_PUBLICATION_CALL_MODE : option str;
  TARGET_SHA : option str;
  UPSTREAM_SHA : option str;
  GITHUB_RUN_ID : option str;
  GITHUB_RUN_ATTEMPT : option str;
  ae_GITHUB_OUTPUT : bool;
}.
Definition adrian_main (env : adrian_env) : outcome str str :=
  plan ← resolveAdrianPublicationPlan (default [] (ADRIAN_PUBLICATION_CALL_MODE env)) (default [] (TARGET_SHA env))
           (default [] (UPSTREAM_SHA env)) (default [] (GITHUB_RUN_ID env)) (default [] (GITHUB_RUN_ATTEMPT env));
  _ ← guard_throw (ae_GITHUB_OUTPUT env) (js "GITHUB_OUTPUT is required.");
  Ok (adrian_outputs plan).
