(* ===== verification/FreshnessFacts.v ===== *)
(** * Theorems on freshness

    Parsing git's report gives back the changes, a verdict of freshness is exact
    for them, and deployment metadata is well formed. *)

From S2P Require Import Prelude JsString JsDate Json JsNumber Libs BackupMetadata ChangePolicy ChangePolicyFacts Freshness.

(** ** git's report *)

Inductive git_change :=
| GitAdded (name : str)
| GitRemoved (name : str)
| GitModified (name : str)
| GitRenamed (score previous name : str)
| GitCopied (score previous name : str).
Definition change_line (c : git_change) : str :=
  match c with
  | GitAdded n => js "A" ++ 9%N :: n
  | GitRemoved n => js "D" ++ 9%N :: n
  | GitModified n => js "M" ++ 9%N :: n
  | GitRenamed s p n => js "R" ++ s ++ 9%N :: p ++ 9%N :: n
  | GitCopied s p n => js "C" ++ s ++ 9%N :: p ++ 9%N :: n
  end.
Definition name_status (cs : list git_change) : str := concat (map (λ c, change_line c ++ [10%N]) cs).
Definition change_names (c : git_change) : list str :=
  match c with GitAdded n | GitRemoved n | GitModified n => [n] | GitRenamed _ p n | GitCopied _ p n => [n; p] end.
Definition change_entry (c : git_change) : change_file :=
  match c with
  | GitAdded n => ChangeFile (Some n) None None (Some (js "added"))
  | GitRemoved n => ChangeFile (Some n) None None (Some (js "removed"))
  | GitModified n => ChangeFile (Some n) None None (Some (js "modified"))
  | GitRenamed _ p n | GitCopied _ p n => ChangeFile (Some n) None (Some p) (Some (js "renamed"))
  end.

(** What git prints as it is: names without control characters, not empty and without a leading [./]. *)
Definition field_ok (s : str) : Prop := Forall (λ c, (32 <= c)%N) s.
Definition change_ok (c : git_change) : Prop :=
  Forall (λ n, field_ok n ∧ plain n) (change_names c) ∧
  match c with GitRenamed s _ _ | GitCopied s _ _ => field_ok s | _ => True end.

Lemma field_fresh s c : field_ok s → (c < 32)%N → c ∉ s.
Proof. unfold field_ok. rewrite Forall_forall. intros H Hc Hin. specialize (H c Hin). cbn in H. lia. Qed.

Lemma split_line a s : 10%N ∉ a → split_lines (a ++ 10%N :: s) = strip_cr a :: split_lines s.
Proof.
  intros H. unfold split_lines. rewrite split_on_app by done. destruct (split_on 10 s) eqn:E; [by apply split_on_nonnil in E|done].
Qed.
Lemma strip_cr_none s : 13%N ∉ s → strip_cr s = s.
Proof.
  intros H. unfold strip_cr. destruct (reverse s) as [|c r] eqn:E; [done|]. destruct (N.eqb_spec c 13) as [->|]; [|done].
  destruct H. apply (f_equal reverse) in E. rewrite reverse_involutive in E. rewrite E. set_solver.
Qed.

Definition line_unit (c : N) : Prop := (32 <= c)%N ∨ c = 9%N.
Lemma field_line s : field_ok s → Forall line_unit s.
Proof. intros H. eapply Forall_impl; [exact H|]. intros c Hc. by left. Qed.
Lemma line_units c : change_ok c → Forall line_unit (change_line c).
Proof.
  intros [Hn Hs]. assert (∀ a, forallb (λ c, 32 <=? c)%N (js a) = true → Forall line_unit (js a)) as Hj.
  { intros a H. apply Forall_forall. intros x Hx. left. apply N.leb_le. by apply (proj1 (forallb_true_elem _ _) H). }
  destruct c; cbn [change_line change_names] in *; inversion Hn as [|? ? [H1 _] Hr]; subst;
    try (inversion Hr as [|? ? [H2 _] _]; subst);
    repeat first [apply Hj; reflexivity | by apply field_line | apply Forall_app; split | apply Forall_cons; split | by right].
Qed.
Lemma line_fresh c u : change_ok c → (u < 32)%N → u ≠ 9%N → u ∉ change_line c.
Proof. intros H%line_units Hu Hu' Hin. rewrite Forall_forall in H. destruct (H u Hin); lia. Qed.
Lemma line_nonblank c : nonempty (trim (change_line c)) = true.
Proof.
  assert (∀ x s, is_ws x = false → nonempty (trim (x :: s)) = true) as H.
  { intros x s Hx. unfold trim. rewrite drop_while_head by done. apply nonempty_true.
    destruct (drop_while_end_prefix is_ws (x :: s)) as (r & E & Hr). intros Hn. rewrite Hn in E. cbn in E. subst r.
    apply Forall_inv in Hr. congruence. }
  by destruct c; apply H.
Qed.

Lemma parse_line c : change_ok c → parse_status_line (change_line c) = change_entry c.
Proof.
  intros [Hn Hs]. unfold parse_status_line.
  assert (∀ s, field_ok s → 9%N ∉ s) as Hf by (intros s H; by apply field_fresh).
  destruct c; cbn [change_line change_names] in *; inversion Hn as [|? ? [H1 _] Hr]; subst;
    try (inversion Hr as [|? ? [H2 _] _]; subst).
  1-3: rewrite split_on_app by (vm_compute; set_solver); rewrite split_on_fresh by auto; reflexivity.
  - rewrite (List.app_assoc (js "R")), split_on_app by (rewrite not_elem_of_app; split; [vm_compute; set_solver|auto]).
    rewrite split_on_app, split_on_fresh by auto. reflexivity.
  - rewrite (List.app_assoc (js "C")), split_on_app by (rewrite not_elem_of_app; split; [vm_compute; set_solver|auto]).
    rewrite split_on_app, split_on_fresh by auto. reflexivity.
Qed.

(** Parsing git's report gives back the changes, with both names of a renamed file. *)
Lemma name_status_parses cs : Forall change_ok cs → parseGitNameStatus (name_status cs) = map change_entry cs.
Proof.
  unfold parseGitNameStatus, name_status. induction 1 as [|c cs Hc _ IH]; [reflexivity|].
  cbn [map concat]. rewrite <- List.app_assoc. cbn [app].
  rewrite split_line by (by apply line_fresh; [..|lia|]).
  rewrite strip_cr_none by (by apply line_fresh; [..|lia|]). cbn [List.filter]. rewrite line_nonblank. cbn [map]. by rewrite parse_line, IH.
Qed.
Lemma entry_plain c : change_ok c → plain_file (change_entry c) ∧ names_of (change_entry c) = change_names c.
Proof.
  intros [Hn _]. destruct c; cbn in *; inversion Hn as [|? ? [H1 Hp] Hr]; subst;
    (split; [|done]); (split; [by eauto|]); cbn; try done; intros q [= <-]; inversion Hr as [|? ? [_ ?] _]; done.
Qed.

(** ** Verdicts *)

(** The paths that supersede an operation. *)
Definition superseding (operation : str) (t : target) (p : str) : bool :=
  if str_eqb operation (js "runtime") then isRuntimeImagePath p
  else if str_eqb operation (js "adrian") then isAdrianImagePath p
  else if str_eqb operation (js "runner") then isRunnerImagePath p
  else if targetRunnerReleaseBarrier t then str_eqb p (js "codex-runner/release.json")
  else if targetDeployWorker t then isAppBuildPath p
  else isAppBuildPath p || isMigrationPath p.
Definition request_ok (operation : str) (t : target) : bool :=
  path_in [js "runtime"; js "adrian"; js "runner"] operation
  || str_eqb operation (js "cloudflare") && (targetDeployWorker t || targetApplyMigrations t)
     && (negb (targetRunnerReleaseBarrier t) || targetDeployWorker t).

Lemma verdict_answer b stale fresh : ∃ current reason, verdict b stale fresh = Ok (current, reason) ∧ (current = true ↔ b = false).
Proof. unfold verdict. destruct b; eexists _, _; (split; [reflexivity|done]). Qed.

Lemma existsb_or {A} (f g : A → bool) l : existsb f l || existsb g l = existsb (λ x, f x || g x) l.
Proof. induction l as [|x l IH]; cbn; [done|]. rewrite <- IH. by destruct (f x), (g x), (existsb f l), (existsb g l). Qed.
Lemma str_eqb_sym a b : str_eqb a b = str_eqb b a.
Proof. unfold str_eqb. by apply bool_decide_ext. Qed.

(** The answer on a classified range depends on the paths only. *)
Lemma evaluate_answer operation t files :
  request_ok operation t = true → Forall plain_file files → has_unclassified_changes (classifyChanges files) = false →
  ∃ current reason, evaluateOperationFreshness operation (classifyChanges files) t = Ok (current, reason) ∧
    (current = true ↔ existsb (superseding operation t) (all_paths files) = false).
Proof.
  intros Hr Hf Hu. unfold evaluateOperationFreshness, request_ok in *. rewrite Hu. unfold superseding.
  destruct (str_eqb operation (js "runtime")) eqn:E1; [apply verdict_answer|].
  destruct (str_eqb operation (js "adrian")) eqn:E2; [apply verdict_answer|].
  destruct (str_eqb operation (js "runner")) eqn:E3; [apply verdict_answer|].
  unfold path_in in Hr. cbn [existsb] in Hr. rewrite E1, E2, E3 in Hr. cbn [orb] in Hr. to_prop.
  match goal with H : str_eqb _ _ = true |- _ => rewrite H end. cbn [negb].
  assert (∀ p, p ∈ all_paths files → isWorkerDeployPath p = isAppBuildPath p) as Hw.
  { intros p (f & Hin & Hp)%all_paths_plain; [|done]. unfold isWorkerDeployPath. rewrite normalize_plain; [done|].
    eapply names_of_plain; [|done]. rewrite Forall_forall in Hf. auto. }
  assert (∀ g h, (∀ p, p ∈ all_paths files → g p = h p) → existsb g (all_paths files) = existsb h (all_paths files)) as Hext.
  { intros g h Hgh. apply eq_iff_eq_true. rewrite !existsb_elem. split; intros (x & Hx & E); exists x; (split; [done|]);
      rewrite Hgh in * by done; done. }
  destruct t as [[] [] []]; cbn [targetDeployWorker targetApplyMigrations targetRunnerReleaseBarrier negb andb orb] in *; try done.
  all: match goal with
       | |- ∃ _ _, verdict ?b _ _ = _ ∧ (_ ↔ ?c = false) => replace c with b; [apply verdict_answer|]
       end; cbn; unfold path_in; rewrite ?existsb_or; apply Hext; intros p Hp;
       first [apply str_eqb_sym | by rewrite Hw | by apply Hw].
Qed.

Lemma unclassified_range files : Forall plain_file files →
  has_unclassified_changes (classifyChanges files) = false ↔ ∀ p, p ∈ all_paths files → isKnownPath p = true.
Proof.
  intros Hf. change (has_unclassified_changes (classifyChanges files))
    with (0 <? length (selected (λ path, negb (isKnownPath path)) (all_paths files)))%nat.
  rewrite has_selected, existsb_none. split; intros H p Hin; specialize (H p Hin).
  - apply all_paths_plain in Hin as (f & Hin & Hn); [|done]. rewrite Forall_forall in Hf.
    destruct (names_of_plain f p (Hf f Hin) Hn) as [Hne%nonempty_true _]. rewrite Hne in H. by destruct (isKnownPath p).
  - by rewrite H, andb_false_r.
Qed.

(** The verdict of freshness is exact: for any range of commits that git reports, a valid operation is
    judged current precisely when every changed path, old names of renamed files included, is
    classified and none is an input that supersedes the operation. *)
Theorem freshness_exact git operation t baseRef headRef cs :
  Forall change_ok cs → request_ok operation t = true →
  git [js "diff"; js "--name-status"; js "-M"; baseRef; headRef] = Ok (name_status cs) →
  ∃ current reason,
    (impact ← classifyGitRange git baseRef headRef; evaluateOperationFreshness operation impact t) = Ok (current, reason) ∧
    (current = true ↔ ∀ p, p ∈ flat_map change_names cs → isKnownPath p = true ∧ superseding operation t p = false).
Proof.
  intros Hcs Hr Hgit. unfold classifyGitRange. rewrite Hgit. cbn [mbind outcome_bind]. rewrite name_status_parses by done.
  set (files := map change_entry cs).
  assert (Forall plain_file files) as Hf.
  { apply Forall_map. eapply Forall_impl; [exact Hcs|]. intros c Hc. by apply entry_plain. }
  assert (∀ p, p ∈ flat_map change_names cs ↔ p ∈ all_paths files) as Hp.
  { intros p. rewrite all_paths_plain by done. rewrite list_elem_of_In, in_flat_map. rewrite Forall_forall in Hcs. split.
    - intros (c & Hc%list_elem_of_In & Hin%list_elem_of_In). exists (change_entry c).
      split; [by apply list_elem_of_fmap; eauto|]. by rewrite (proj2 (entry_plain c (Hcs c Hc))).
    - intros (f & (c & -> & Hc)%list_elem_of_fmap & Hin). exists c. rewrite <- !list_elem_of_In. split; [done|].
      by rewrite (proj2 (entry_plain c (Hcs c Hc))) in Hin. }
  destruct (has_unclassified_changes (classifyChanges files)) eqn:Eu.
  - exists false, (js "intervening range contains unclassified paths"). unfold evaluateOperationFreshness. rewrite Eu.
    split; [done|]. split; [done|]. intros H. assert (has_unclassified_changes (classifyChanges files) = false); [|congruence].
    apply unclassified_range; [done|]. intros p Hin. by apply H, Hp.
  - destruct (evaluate_answer operation t files Hr Hf Eu) as (c & reason & He & Hc). exists c, reason. split; [done|].
    rewrite Hc, existsb_none. setoid_rewrite Hp. split; [|intros H p Hin; by apply H].
    intros H p Hin. split; [|by apply H]. by apply (proj1 (unclassified_range files Hf) Eu).
Qed.

(** ** Deployment metadata *)

Section Metadata.
Context `{L : Libs}.

Lemma hex_lower c : is_hex c = true → ∃ d, lower_unit c = [d] ∧ is_hex_lower d = true.
Proof.
  intros H. assert (c ∈ map N.of_nat (seq 0 103)) as Hc.
  { apply list_elem_of_fmap. exists (N.to_nat c). rewrite elem_of_seq.
    unfold is_hex, is_digit, in_range in H. split; [lia|]. split; [lia|].
    repeat (rewrite ?orb_true_iff, ?andb_true_iff, ?N.leb_le in H). lia. }
  assert (forallb (λ c, implb (is_hex c) (match lower_unit c with [d] => is_hex_lower d | _ => false end)) (map N.of_nat (seq 0 103)) = true)
    as Hall by (vm_compute; reflexivity).
  specialize (proj1 (forallb_true_elem _ _) Hall c Hc) as E. cbn beta in E. rewrite H in E. cbn [implb] in E.
  destruct (lower_unit c) as [|d [|]]; try done. by exists d.
Qed.
Lemma sha_lower s : FULL_SHA_PATTERN s = true → length (to_lower s) = 40%nat ∧ forallb is_hex_lower (to_lower s) = true.
Proof.
  intros (u & -> & Hl & Hu)%bool_decide_eq_true%take_class_app. rewrite app_nil_r, <- Hl. clear Hl.
  induction u as [|c u IH]; cbn in *; [done|]. apply andb_true_iff in Hu as [(d & -> & Hd)%hex_lower Hu].
  destruct (IH Hu) as [E1 E2]. split; [by cbn; f_equal|]. cbn. by rewrite Hd.
Qed.
Lemma nonEmpty_some v s : nonEmpty v = Some s → s ≠ [] ∧ ∃ t, v = Some t ∧ s = trim t.
Proof.
  unfold nonEmpty. destruct v as [t|]; cbn; [|done]. destruct (nonempty (trim t)) eqn:E; [|done].
  intros [= <-]. apply nonempty_true in E. eauto.
Qed.

(** Deployment metadata is well formed: a canonical UTC time, a full lowercase commit SHA, a positive pull
    request number and a repository name; and it is available whenever the build gives a
    canonical time and a full SHA, whatever the other inputs are. *)
Theorem deployment_metadata_exact input :
  (∀ m, createDeploymentMetadata input = Some m →
     (∃ t, dm_deployedAt m = toISOString t) ∧ length (dm_commitSha m) = 40%nat ∧ forallb is_hex_lower (dm_commitSha m) = true ∧
     (∀ n, dm_pullRequestNumber m = Some n → 0 < n)%Z ∧ dm_repository m ≠ []) ∧
  (∀ t sha, iso_time t → trim (toISOString t) = toISOString t → mi_deployedAt input = Some (toISOString t) →
     mi_commitSha input = Some sha → trim sha = sha → FULL_SHA_PATTERN sha = true →
     ∃ m, createDeploymentMetadata input = Some m ∧ dm_deployedAt m = toISOString t ∧ dm_commitSha m = to_lower sha).
Proof.
  unfold createDeploymentMetadata. split.
  - intros m (d & Hd & (c & Hc & H)%bind_Some)%bind_Some. destruct (_ && _) eqn:E; [|done]. injection H as <-. cbn.
    apply andb_true_iff in E as [Ht Hs]. apply sha_lower in Hs as [Hs1 Hs2]. unfold isValidUtcTimestamp in Ht.
    destruct (date_parse d) as [t|]; [|done]. apply str_eqb_eq in Ht as <-. split_and!; [by eauto|done|done| |].
    + unfold parsePullRequestNumber. intros n (x & _ & Hn)%bind_Some. destruct (js_number x); try done.
      destruct (0 <? z)%Z eqn:Ez; [|done]. injection Hn as <-. by apply Z.ltb_lt.
    + destruct (nonEmpty (mi_repository input)) eqn:Er; [by apply nonEmpty_some in Er as [? _]|done].
  - intros t sha Ht Htrim -> -> Hsha Hs. unfold nonEmpty. cbn [mbind option_bind]. rewrite Htrim, Hsha.
    assert (nonempty (toISOString t) = true) as ->.
    { apply nonempty_true. intros E. pose proof (Date_parse_toISOString t Ht) as Hp. by rewrite E in Hp. }
    assert (nonempty sha = true) as -> by (apply nonempty_true; intros ->; done). cbn [mbind option_bind].
    unfold isValidUtcTimestamp, date_parse. rewrite Date_parse_toISOString, str_eqb_refl, Hs by done. cbn. eauto.
Qed.
End Metadata.
