(* ===== verification/Publication.v ===== *)
(** * Publication of the Runtime image

    Models [src/scripts/reconcile-runtime-publication.mjs] (which source an image
    is built from, what the three tags of a release allow, the publication
    protocol) and the release checks of
    [src/scripts/validate-runtime-revision.mjs].

    [git], [docker] and the temporary directory are parameters; [reconcile] takes
    its three callbacks as the source does. *)

From S2P Require Import Prelude JsString Json BackupMetadata ChangePolicy Freshness.

Inductive publication_error :=
| PublicationError (message : str)
(** the failure of a command, with what it wrote to its error stream *)
| CommandError (stderr : str)
(** an access to a missing property *)
| PublicationTypeError.
Definition fail {A} (message : string) : outcome publication_error A := Throw (PublicationError (js message)).

Definition digestPattern (s : str) : bool :=
  bool_decide ((r ← take_literal (js "sha256:") s; take_class is_hex_lower 64 r) = Some []).
Definition image : str := js "poulti/adt-runtime".

(** ** The release manifest *)

Definition release_integer (v : jsval) : bool :=
  match v with JNum (NInt z) => (1 <=? z)%Z && (z <=? 1000000)%Z | _ => false end.
Definition release_keys : list str := [js "protocolVersion"; js "releaseRevision"].
(** The parsed object and its two integers. *)
Record Release := MkRelease { rl_value : jsval; rl_protocolVersion : Z; rl_releaseRevision : Z }.
Definition int_of (v : jsval) : Z := match v with JNum (NInt z) => z | _ => 0%Z end.
Definition parseRelease (text : str) : outcome publication_error Release :=
  match JSON_parse text with
  | Some (JObj o) =>
      if (length o =? length release_keys)%nat && forallb (λ kv, path_in release_keys kv.1) o
         && release_integer (field (js "protocolVersion") o) && release_integer (field (js "releaseRevision") o)
      then Ok (MkRelease (JObj o) (int_of (field (js "protocolVersion") o)) (int_of (field (js "releaseRevision") o)))
      else fail "malformed release manifest"
  | _ => fail "malformed release manifest"
  end.

(** [/(^|\/)name\//] *)
Definition has_directory (name p : str) : bool :=
  starts_with (name ++ js "/") p || includes (js "/" ++ name ++ js "/") p.
Definition isRuntimeInput (path : str) : bool :=
  isRuntimeImagePath path && negb (has_directory (js "test") path || has_directory (js "tests") path)
  && negb (has_directory (js "fixture") path || has_directory (js "fixtures") path).
Definition validateRuntimeRevision (base current : Release) (changedPaths : list str) : outcome publication_error bool :=
  if (rl_releaseRevision current <? rl_releaseRevision base)%Z then fail "releaseRevision must not decrease"
  else if negb (rl_protocolVersion current =? rl_protocolVersion base)%Z
          && negb (existsb (starts_with (js "adt-runtime/test/")) changedPaths)
  then fail "protocolVersion changes require Runtime protocol tests"
  else if existsb isRuntimeInput changedPaths && (rl_releaseRevision current <=? rl_releaseRevision base)%Z
  then fail "Runtime image inputs changed without a releaseRevision increase"
  else Ok true.

(** ** The source of an image *)

Section Source.
Context (run : list str → outcome publication_error str).
(** The paths of a commit: against its first parent, or all of a root commit. *)
Definition commit_paths (revision : str) : outcome publication_error (list str) :=
  parents ← run [js "rev-list"; js "--parents"; js "-n"; js "1"; revision];
  paths ← match split_on (ch " ") parents !! 1%nat with
          | Some ((_ :: _) as parent) => run [js "diff"; js "--name-only"; parent; revision]
          | _ => run [js "ls-tree"; js "-r"; js "--name-only"; revision]
          end;
  Ok (split_on 10 paths).
Fixpoint first_source (revisions : list str) : outcome publication_error str :=
  match revisions with
  | [] => fail "No trusted Runtime source found"
  | revision :: rest =>
      paths ← commit_paths revision;
      if existsb isRuntimeImagePath paths then Ok revision else first_source rest
  end.
Definition resolveRuntimeSource (target : str) : outcome publication_error str :=
  _ ← guard_throw (shaPattern target) (PublicationError (js "Invalid immutable Runtime target"));
  revisions ← run [js "rev-list"; js "--first-parent"; target];
  first_source (split_on 10 revisions).
End Source.

(** ** The plan *)

Record published := Published { pb_source : str; pb_release : Z; pb_digest : str }.
#[export] Instance published_eq_dec : EqDecision published.
Proof. solve_decision. Defined.
Record publication_state := PublicationState {
  ps_source : str;
  ps_release : Z;
  ps_sha : option published;
  ps_revision : option published;
  ps_latest : option published;
}.
Inductive plan := Noop | Publish.
#[export] Instance plan_eq_dec : EqDecision plan.
Proof. solve_decision. Defined.

Definition valid_published (v : option published) : bool :=
  match v with
  | None => true
  | Some v => shaPattern (pb_source v) && digestPattern (pb_digest v) && is_safe_Z (pb_release v) && (0 <? pb_release v)%Z
  end.
Definition matches_release (source : str) (release : Z) (v : option published) : bool :=
  match v with Some v => str_eqb (pb_source v) source && (pb_release v =? release)%Z | None => true end.
Definition present {A} (o : option A) : bool := match o with Some _ => true | None => false end.
Definition publicationPlan (s : publication_state) : outcome publication_error plan :=
  let '(PublicationState source release sha revision latest) := s in
  if negb (shaPattern source) || negb (is_safe_Z release) || (release <? 1)%Z
     || negb (forallb valid_published [sha; revision; latest])
  then fail "Invalid or unobserved publication state"
  else if negb (Bool.eqb (present sha) (present revision)) then fail "Partial immutable publication; operator reconciliation required"
  else if negb (forallb (matches_release source release) [sha; revision])
  then fail "Immutable tag conflicts with trusted Runtime source"
  else if match sha, revision with Some s, Some r => negb (str_eqb (pb_digest s) (pb_digest r)) | _, _ => false end
  then fail "Immutable tag digests disagree"
  else if match latest with
          | Some l => (pb_release l =? release)%Z
                      && (negb (str_eqb (pb_source l) source)
                          || match sha with Some s => negb (str_eqb (pb_digest l) (pb_digest s)) | None => false end)
          | None => false
          end
  then fail "latest contradicts current immutable release"
  else match sha, latest with
  | Some _, Some l => if (pb_release l <? release)%Z then fail "Partial publication: latest is missing or behind" else Ok Noop
  | Some _, None => fail "Partial publication: latest is missing or behind"
  | None, Some l => if (release <=? pb_release l)%Z then fail "latest exists without matching immutable tags" else Ok Publish
  | None, None => Ok Publish
  end.

(** [/^[A-Za-z0-9_][A-Za-z0-9_.-]{0,127}$/] *)
Definition is_tag_unit (c : N) : bool := is_word c || (c =? ch ".")%N || (c =? ch "-")%N.
Definition is_tag (s : str) : bool :=
  match s with c :: r => is_word c && forallb is_tag_unit r && (length r <=? 127)%nat | [] => false end.
Definition isMissingManifest (stderr reference : str) : bool :=
  let expected := if starts_with (js "docker.io/") reference then drop (length (js "docker.io/")) reference else reference in
  if negb (starts_with (image ++ js ":") expected) || negb (is_tag (drop (length image + 1) expected)) then false
  else
    let message := trim stderr in
    existsb (λ ref,
      str_eqb message (js "Error response from daemon: manifest for " ++ ref ++ js " not found: manifest unknown: manifest unknown")
      || str_eqb message (js "Error response from daemon: failed to resolve reference " ++ [34%N] ++ ref ++ [34%N] ++ js ": " ++ ref ++ js ": not found"))
      [expected; js "docker.io/" ++ expected].

(** ** Inspection of a tag *)

Section Inspect.
Context {W : Type}.
Abbreviation M := (eff W publication_error).
Context (docker git : list str → M str) (mkdtemp : M str) (readFile : str → M str) (rmSync : str → M unit).

Definition error_stderr (e : publication_error) : str := match e with CommandError s => s | _ => [] end.
(** [data[0].RepoDigests], all of them strings *)
Definition repo_digests (data : jsval) : option (list str) :=
  match data with
  | JArr (JObj o :: _) =>
      match field (js "RepoDigests") o with
      | JArr l => mapM (λ v, match v with JStr s => Some s | _ => None end) l
      | _ => None
      end
  | _ => None
  end.
Definition image_digests (digests : list str) : list str :=
  dedup (omap (λ value, split_on (ch "@") value !! 1%nat) (List.filter (starts_with (image ++ js "@")) digests)).
(** [resolveRuntimeSource] over the effects of [git] *)
Fixpoint first_source_run (revisions : list str) : M str :=
  match revisions with
  | [] => throw (PublicationError (js "No trusted Runtime source found"))
  | revision :: rest =>
      parents ← git [js "rev-list"; js "--parents"; js "-n"; js "1"; revision];
      paths ← match split_on (ch " ") parents !! 1%nat with
              | Some ((_ :: _) as parent) => git [js "diff"; js "--name-only"; parent; revision]
              | _ => git [js "ls-tree"; js "-r"; js "--name-only"; revision]
              end;
      if existsb isRuntimeImagePath (split_on 10 paths) then mret revision else first_source_run rest
  end.
Definition resolve_source_run (target : str) : M str :=
  lift (guard_throw (shaPattern target) (PublicationError (js "Invalid immutable Runtime target"))) ;;
  revisions ← git [js "rev-list"; js "--first-parent"; target];
  first_source_run (split_on 10 revisions).

Definition read_metadata (container directory currentMain digest : str) : M published :=
  docker [js "cp"; container ++ js ":/runtime/REVISION"; directory ++ js "/REVISION"] ;;
  docker [js "cp"; container ++ js ":/runtime/release.json"; directory ++ js "/release.json"] ;;
  sourceText ← readFile (directory ++ js "/REVISION");
  releaseText ← readFile (directory ++ js "/release.json");
  manifest ← lift (parseRelease releaseText);
  let source := trim sourceText in
  lift (guard_throw (shaPattern source) (PublicationError (js "Invalid image source"))) ;;
  git [js "merge-base"; js "--is-ancestor"; source; currentMain] ;;
  resolved ← resolve_source_run source;
  (if str_eqb resolved source then
     text ← git [js "show"; source ++ js ":adt-runtime/release.json"];
     trusted ← lift (parseRelease text);
     lift (guard_throw (str_eqb (stringify (rl_value trusted)) (stringify (rl_value manifest)))
             (PublicationError (js "Registry image metadata contradicts trusted main source")))
   else throw (PublicationError (js "Registry image metadata contradicts trusted main source"))) ;;
  mret (Published source (rl_releaseRevision manifest) digest).

Definition inspect_tag (tag currentMain : str) : M (option published) :=
  let reference := image ++ js ":" ++ tag in
  pulled ← attempt (docker [js "pull"; reference]);
  match pulled with
  | Throw error =>
      if isMissingManifest (error_stderr error) reference then mret None
      else throw (PublicationError (js "Cannot inspect Runtime tag " ++ tag ++ js "; registry error is not absence"))
  | Ok _ =>
      text ← docker [js "image"; js "inspect"; reference];
      digests ← lift (from_option_throw PublicationTypeError (JSON_parse text ≫= repo_digests));
      match image_digests digests with
      | [digest] =>
          lift (guard_throw (digestPattern digest) (PublicationError (js "Ambiguous registry digest"))) ;;
          directory ← mkdtemp;
          created ← attempt (docker [js "create"; image ++ js "@" ++ digest]);
          match created with
          | Throw error => rmSync directory ;; throw error
          | Ok container =>
              result ← attempt (read_metadata container directory currentMain digest);
              (if nonempty container then docker [js "rm"; container] ;; mret () else mret ()) ;;
              rmSync directory ;;
              v ← lift result; mret (Some v)
          end
      | _ => throw (PublicationError (js "Ambiguous registry digest"))
      end
  end.
End Inspect.

(** ** The protocol *)

Inductive reconciled := ReconciledNoop | ReconciledPublished.
Section Reconcile.
Context {W : Type}.
Abbreviation M := (eff W publication_error).
Context (source : str) (release : Z) (observe : str → M (option published)) (push : str → M unit) (refresh : M unit).

Definition revision_tag (n : Z) : str := js "r" ++ dec_of_Z n.
Definition read_tags : M publication_state :=
  sha ← observe source;
  revision ← observe (revision_tag release);
  latest ← observe (js "latest");
  (match latest with
   | Some l =>
       if (pb_release l =? release)%Z then mret ()
       else
         (** a different latest is trusted only when its own immutable pair agrees *)
         lsha ← observe (pb_source l);
         lrevision ← observe (revision_tag (pb_release l));
         lift (publicationPlan (PublicationState (pb_source l) (pb_release l) lsha lrevision latest)) ;;
         mret ()
   | None => mret ()
   end) ;;
  mret (PublicationState source release sha revision latest).

Definition converged (s : publication_state) : bool :=
  match ps_latest s, ps_sha s with Some l, Some h => str_eqb (pb_digest l) (pb_digest h) | _, _ => false end.

Definition reconcile : M reconciled :=
  refresh ;;
  state ← read_tags;
  action ← lift (publicationPlan state);
  match action with
  | Noop => mret ReconciledNoop
  | Publish =>
      refresh ;;
      again ← read_tags;
      action' ← lift (publicationPlan again);
      match action' with
      | Noop => throw (PublicationError (js "Publication changed during verification"))
      | Publish =>
          push source ;;
          push (revision_tag release) ;;
          push (js "latest") ;;
          completed ← read_tags;
          final ← lift (publicationPlan completed);
          if bool_decide (final = Noop) && converged completed then mret ReconciledPublished
          else throw (PublicationError (js "Published tags did not converge to one verified digest"))
      end
  end.
End Reconcile.

(** ** The script *)

Section Main.
Context {W : Type}.
Abbreviation M := (eff W publication_error).
Context (docker git : list str → M str) (mkdtemp : M str) (readFile : str → M str) (rmSync : str → M unit).

Definition superseded : publication_error := PublicationError (js "A newer or unclassified input supersedes this publication").
(** [refresh]: the current main contains the target, has the same Runtime source, and no newer input. *)
Definition refresh_publication (target source : str) : M unit :=
  git [js "fetch"; js "--no-tags"; js "origin"; js "main"] ;;
  current ← git [js "rev-parse"; js "origin/main"];
  git [js "merge-base"; js "--is-ancestor"; target; current] ;;
  resolved ← resolve_source_run git current;
  if negb (str_eqb resolved source) then throw superseded
  else
    diff ← git [js "diff"; js "--name-status"; js "-M"; target; current];
    match evaluateOperationFreshness (js "runtime") (classifyChanges (parseGitNameStatus diff)) (Target false false false) with
    | Ok (true, _) => mret ()
    | Ok (false, _) => throw superseded
    | Throw message => throw (PublicationError message)
    end.
Definition observe_tag (tag : str) : M (option published) :=
  currentMain ← git [js "rev-parse"; js "origin/main"];
  inspect_tag docker git mkdtemp readFile rmSync tag currentMain.
Definition push_tag (tag : str) : M unit :=
  docker [js "tag"; js "adt-runtime:verified"; image ++ js ":" ++ tag] ;;
  docker [js "push"; image ++ js ":" ++ tag] ;; mret ().
(** The script without the argument [source]: the release and what was done. *)
Definition publication_main (target : str) : M (Z * reconciled) :=
  source ← resolve_source_run git target;
  text ← git [js "show"; source ++ js ":adt-runtime/release.json"];
  manifest ← lift (parseRelease text);
  let release := rl_releaseRevision manifest in
  result ← reconcile source release observe_tag push_tag (refresh_publication target source);
  mret (release, result).
End Main.
