(* ===== verification/PublicationFacts.v ===== *)
(** * Theorems on the publication of the Runtime image

    The plan is exact, the protocol never overwrites an immutable tag nor moves
    [latest] back, and the source of an image is the newest commit that changes
    an input of it. The protocol is proved against an interface of a registry,
    [RegistryLaws]; a scripted registry with failures implements it. *)

From S2P Require Import Prelude JsString Json BackupMetadata ChangePolicy ChangePolicyFacts Freshness Publication Hoare.

(** ** The plan *)

(** The next test of the plan that does not throw. *)
Ltac passes := match goal with |- (if ?b then _ else _) = _ → _ => destruct b eqn:?; [done|] end.

Lemma plan_publish s :
  publicationPlan s = Ok Publish →
  shaPattern (ps_source s) = true ∧ ps_sha s = None ∧ ps_revision s = None ∧
  ∀ l, ps_latest s = Some l → (pb_release l < ps_release s)%Z.
Proof.
  destruct s as [source release sha revision latest]. cbn [publicationPlan ps_source ps_release ps_sha ps_revision ps_latest].
  do 5 passes. destruct sha as [s|]; [destruct latest as [l|]; [|done]; by passes|].
  assert (shaPattern source = true) as Hs by (to_prop; done).
  assert (revision = None) as -> by (destruct revision; [done|done]).
  destruct latest as [l|]; [|intros _; by split_and!]. passes. intros _. split_and!; try done. intros l' [= <-]. lia.
Qed.

Lemma plan_noop s :
  publicationPlan s = Ok Noop →
  ∃ h r l, ps_sha s = Some h ∧ ps_revision s = Some r ∧ ps_latest s = Some l ∧
    pb_source h = ps_source s ∧ pb_release h = ps_release s ∧ pb_source r = ps_source s ∧ pb_release r = ps_release s ∧
    pb_digest h = pb_digest r ∧ (ps_release s <= pb_release l)%Z.
Proof.
  destruct s as [source release sha revision latest]. cbn [publicationPlan ps_source ps_release ps_sha ps_revision ps_latest].
  do 5 passes. destruct sha as [h|]; [|destruct latest as [l|]; [|done]; by passes].
  destruct revision as [r|]; [|done]. destruct latest as [l|]; [|done]. passes. intros _.
  match goal with H : negb (forallb (matches_release _ _) _) = false |- _ => cbn in H end. to_prop.
  repeat match goal with H : str_eqb _ _ = true |- _ => apply str_eqb_eq in H end.
  exists h, r, l. split_and!; try done; lia.
Qed.

(** ** The source of an image *)

Section Source.
Context (run : list str → outcome publication_error str).
Definition touches_image (revision : str) (b : bool) : Prop :=
  ∃ paths, commit_paths run revision = Ok paths ∧ existsb isRuntimeImagePath paths = b.

Lemma first_source_spec l revision :
  first_source run l = Ok revision →
  ∃ newer older, l = newer ++ revision :: older ∧ touches_image revision true ∧ Forall (λ r, touches_image r false) newer.
Proof.
  induction l as [|r l IH]; cbn [first_source]; [done|]. intros (paths & Hp & H)%outcome_bind_ok.
  destruct (existsb isRuntimeImagePath paths) eqn:E.
  - injection H as <-. exists [], l. split_and!; [done|by exists paths|constructor].
  - apply IH in H as (newer & older & -> & Ht & Hf). exists (r :: newer), older. split_and!; [done|done|].
    constructor; [by exists paths|done].
Qed.

(** The trusted source of a Runtime image is the newest commit on the first-parent history of the target
    that changes an input of the image: every newer commit of the history changes none. *)
Theorem runtime_source_newest target revision :
  resolveRuntimeSource run target = Ok revision →
  shaPattern target = true ∧
  ∃ text newer older, run [js "rev-list"; js "--first-parent"; target] = Ok text ∧
    split_on 10 text = newer ++ revision :: older ∧ touches_image revision true ∧ Forall (λ r, touches_image r false) newer.
Proof.
  unfold resolveRuntimeSource. intros ([] & Hg%guard_throw_ok & H)%outcome_bind_ok. split; [done|].
  apply outcome_bind_ok in H as (text & Ht & (newer & older & H)%first_source_spec). by exists text, newer, older.
Qed.
End Source.

(** ** A registry *)

Abbreviation tag_map := (gmap (list N) published).
Class Registry (W : Type) := {
  rg_tags : W → tag_map;
  (** the pushes so far, newest first, each with the tags before it *)
  rg_pushed : W → list (str * tag_map);
  rg_observe : str → eff W publication_error (option published);
  rg_push : str → eff W publication_error unit;
  rg_refresh : eff W publication_error unit;
}.
(** Observing a tag reads it; a push that fails may or may not have arrived; [refresh] pushes nothing, and
    other publishers may have changed the tags before it returns. *)
Class RegistryLaws {W} (R : Registry W) (verified : published) := {
  observe_reads t T P :
    hoare (λ w, rg_tags w = T ∧ rg_pushed w = P) (rg_observe t)
      (λ o w, (rg_tags w = T ∧ rg_pushed w = P) ∧ o = T !! t) (λ _ w, rg_pushed w = P);
  push_writes t T P :
    hoare (λ w, rg_tags w = T ∧ rg_pushed w = P) (rg_push t)
      (λ _ w, rg_tags w = <[t := verified]> T ∧ rg_pushed w = (t, T) :: P) (λ _ w, rg_pushed w = P ∨ rg_pushed w = (t, T) :: P);
  refresh_pushes P :
    hoare (λ w, rg_pushed w = P) rg_refresh (λ _ w, rg_pushed w = P) (λ _ w, rg_pushed w = P);
}.

Section Protocol.
Context {W : Type} `{R : Registry W} (verified : published) `{RL : !RegistryLaws R verified}.
Variables (source : str) (release : Z).
Implicit Types (T : tag_map) (P : list (str * tag_map)).

Definition state_of T : publication_state :=
  PublicationState source release (T !! source) (T !! revision_tag release) (T !! js "latest").

Lemma read_tags_spec T P :
  hoare (λ w, rg_tags w = T ∧ rg_pushed w = P) (read_tags source release rg_observe)
    (λ s w, (rg_tags w = T ∧ rg_pushed w = P) ∧ s = state_of T) (λ _ w, rg_pushed w = P).
Proof.
  unfold read_tags.
  eapply hoare_bind; [apply observe_reads|]. intros sha. apply (hoare_pre _ (λ w, sha = T !! source ∧ (rg_tags w = T ∧ rg_pushed w = P))); [tauto|].
  apply hoare_pure. intros ->.
  eapply hoare_bind; [apply observe_reads|]. intros rev. apply (hoare_pre _ (λ w, rev = T !! revision_tag release ∧ (rg_tags w = T ∧ rg_pushed w = P))); [tauto|].
  apply hoare_pure. intros ->.
  eapply hoare_bind; [apply observe_reads|]. intros lat. apply (hoare_pre _ (λ w, lat = T !! js "latest" ∧ (rg_tags w = T ∧ rg_pushed w = P))); [tauto|].
  apply hoare_pure. intros ->.
  eapply (hoare_bind _ _ _ (λ _ w, rg_tags w = T ∧ rg_pushed w = P)).
  - destruct (T !! js "latest") as [l|]; [|by intros w Hw]. destruct (_ =? _)%Z; [by intros w Hw|].
    eapply hoare_bind; [apply observe_reads|]. intros o1. apply (hoare_pre _ (λ w, rg_tags w = T ∧ rg_pushed w = P)); [tauto|].
    eapply hoare_bind; [apply observe_reads|]. intros o2. apply (hoare_pre _ (λ w, rg_tags w = T ∧ rg_pushed w = P)); [tauto|].
    eapply (hoare_bind _ _ _ (λ _ w, rg_tags w = T ∧ rg_pushed w = P)); [|by intros a w Hw].
    apply hoare_lift. intros w Hw. destruct (publicationPlan _); [done|by destruct Hw].
  - intros [] w Hw. by split.
Qed.

(** A push that respects the tags it finds: an immutable tag is new, and [latest] moves forward. *)
Definition respectful (push : str * tag_map) : Prop :=
  let '(t, before) := push in
  if decide (t = js "latest") then ∀ l, before !! t = Some l → (pb_release l < release)%Z else before !! t = None.
(** The pushes are the start of the sequence source, revision, latest, and respect the tags. *)
Definition pushes_ok P : Prop :=
  Forall respectful P ∧ ∃ rest, reverse (map fst P) ++ rest = [source; revision_tag release; js "latest"].

Lemma tags_distinct : shaPattern source = true →
  source ≠ revision_tag release ∧ source ≠ js "latest" ∧ revision_tag release ≠ js "latest".
Proof.
  intros H. split_and!; [| |done]; intros ->; unfold shaPattern in H; apply bool_decide_eq_true in H; done.
Qed.

Lemma pushes_spec T :
  publicationPlan (state_of T) = Ok Publish →
  hoare (λ w, rg_tags w = T ∧ rg_pushed w = [])
    (rg_push source ;; rg_push (revision_tag release) ;; rg_push (js "latest"))
    (λ _ w, rg_tags w = <[js "latest" := verified]> (<[revision_tag release := verified]> (<[source := verified]> T)) ∧
            pushes_ok (rg_pushed w))
    (λ _ w, pushes_ok (rg_pushed w)).
Proof.
  intros (Hs & Hsha & Hrev & Hlat)%plan_publish. cbn in *. destruct (tags_distinct Hs) as (D1 & D2 & D3).
  assert (respectful (source, T)) as R1 by (unfold respectful; by rewrite decide_False).
  assert (respectful (revision_tag release, <[source := verified]> T)) as R2.
  { unfold respectful. rewrite decide_False by done. by rewrite lookup_insert_ne. }
  assert (respectful (js "latest", <[revision_tag release := verified]> (<[source := verified]> T))) as R3.
  { unfold respectful. rewrite decide_True by done. rewrite !lookup_insert_ne by done. exact Hlat. }
  assert (pushes_ok []) as P0 by (split; [constructor|by eexists]).
  assert (∀ T0, respectful (source, T0) → pushes_ok [(source, T0)]) as P1 by (intros T0 ?; split; [by repeat constructor|by eexists]).
  eapply hoare_bind; [eapply hoare_exn; [apply push_writes|]; intros e w [->| ->]; [done|by apply P1]|]. intros [].
  eapply hoare_bind.
  { eapply hoare_exn; [apply push_writes|]. intros e w [->| ->]; [by apply P1|]. split; [by repeat constructor|by eexists]. }
  intros []. eapply hoare_conseq; [by intros w Hw; exact Hw|apply push_writes| |].
  - intros [] w [-> ->]. split; [done|]. split; [by repeat constructor|by exists []].
  - intros e w [->| ->]; (split; [by repeat constructor|]); [by eexists|by exists []].
Qed.

Lemma push_sequence {A} (k : eff W publication_error A) w :
  ((rg_push source ;; rg_push (revision_tag release) ;; rg_push (js "latest")) ;; k) w
  = (rg_push source ;; rg_push (revision_tag release) ;; rg_push (js "latest") ;; k) w.
Proof.
  unfold mbind, eff_bind. destruct (rg_push source w) as [w1 [[]|e]]; [|done].
  by destruct (rg_push (revision_tag release) w1) as [w2 [[]|e]].
Qed.

(** What a run of the protocol leaves: respectful pushes, none for a no-op, and the verified image under all
    three tags when it reports a publication. *)
Definition reconciled_ok (r : outcome publication_error reconciled) (w : W) : Prop :=
  pushes_ok (rg_pushed w) ∧
  match r with
  | Ok ReconciledNoop => rg_pushed w = []
  | Ok ReconciledPublished =>
      pb_source verified = source ∧ pb_release verified = release ∧
      ∀ t, t ∈ [source; revision_tag release; js "latest"] → rg_tags w !! t = Some verified
  | Throw _ => True
  end.

Lemma publish_spec T :
  publicationPlan (state_of T) = Ok Publish →
  hoare (λ w, rg_tags w = T ∧ rg_pushed w = [])
    (rg_push source ;; rg_push (revision_tag release) ;; rg_push (js "latest") ;;
     completed ← read_tags source release rg_observe;
     final ← lift (publicationPlan completed);
     if bool_decide (final = Noop) && converged completed then mret ReconciledPublished
     else throw (PublicationError (js "Published tags did not converge to one verified digest")))
    (λ a, reconciled_ok (Ok a)) (λ e, reconciled_ok (Throw e)).
Proof.
  intros Hp w Hw. rewrite <- push_sequence. revert w Hw.
  set (T' := <[js "latest" := verified]> (<[revision_tag release := verified]> (<[source := verified]> T))).
  eapply hoare_bind; [eapply hoare_exn; [by apply pushes_spec|]; by intros e w Hw|]. intros [].
  apply (hoare_pre _ (λ w, ∃ P, pushes_ok P ∧ (rg_tags w = T' ∧ rg_pushed w = P))); [intros w [? ?]; by eauto|].
  apply hoare_exists. intros P. apply hoare_pure. intros HP.
  eapply hoare_bind; [eapply hoare_exn; [apply read_tags_spec|]; intros e w Hw; split; [by rewrite Hw|done]|]. intros s.
  apply (hoare_pre _ (λ w, s = state_of T' ∧ (rg_tags w = T' ∧ rg_pushed w = P))); [tauto|]. apply hoare_pure. intros ->.
  intros w [Ht HPw]. unfold mbind, eff_bind, lift. assert (pushes_ok (rg_pushed w)) as HPok by congruence.
  destruct (publicationPlan (state_of T')) as [[]|e] eqn:Ep; [|done..]. cbn [bool_decide].
  destruct (converged _); [|done]. cbn. split; [done|].
  apply plan_noop in Ep as (h & r & l & Hh & _ & _ & Es & Er & _). apply plan_publish in Hp as (Hs & _).
  destruct (tags_distinct Hs) as (D1 & D2 & D3). cbn in Hh, Es, Er.
  assert (T' !! source = Some verified) as H1 by (unfold T'; by rewrite !lookup_insert_ne, lookup_insert_eq by done).
  rewrite H1 in Hh. injection Hh as <-. split_and!; [done|done|]. rewrite Ht.
  intros t [ -> |[ -> | ->%list_elem_of_singleton ]%elem_of_cons ]%elem_of_cons; [done| |].
  - unfold T'. by rewrite lookup_insert_ne, lookup_insert_eq by done.
  - unfold T'. by rewrite lookup_insert_eq.
Qed.

Lemma reconcile_spec :
  hoare (λ w, rg_pushed w = []) (reconcile source release rg_observe rg_push rg_refresh)
    (λ a, reconciled_ok (Ok a)) (λ e, reconciled_ok (Throw e)).
Proof.
  assert (∀ e w, rg_pushed w = [] → reconciled_ok (Throw e) w) as Hx.
  { intros e w Hw. split; [|done]. rewrite Hw. split; [constructor|by eexists]. }
  assert (∀ w, rg_pushed w = [] → reconciled_ok (Ok ReconciledNoop) w) as Hn.
  { intros w Hw. split; [|done]. rewrite Hw. split; [constructor|by eexists]. }
  unfold reconcile. eapply hoare_bind; [eapply hoare_exn; [apply refresh_pushes|]; apply Hx|]. intros [].
  apply (hoare_pre _ (λ w, ∃ T, rg_tags w = T ∧ rg_pushed w = [])); [by eauto|]. apply hoare_exists. intros T.
  eapply hoare_bind; [eapply hoare_exn; [apply read_tags_spec|]; apply Hx|]. intros s.
  eapply (hoare_bind _ _ _ (λ _ w, rg_pushed w = [])).
  { apply hoare_lift. intros w [[_ Hw] _]. destruct (publicationPlan s); [done|by apply Hx]. }
  intros []; [by intros w Hw; apply Hn|].
  eapply hoare_bind; [eapply hoare_exn; [apply refresh_pushes|]; apply Hx|]. intros [].
  apply (hoare_pre _ (λ w, ∃ T, rg_tags w = T ∧ rg_pushed w = [])); [by eauto|]. apply hoare_exists. intros T2.
  eapply hoare_bind; [eapply hoare_exn; [apply read_tags_spec|]; apply Hx|]. intros s2.
  apply (hoare_pre _ (λ w, s2 = state_of T2 ∧ (rg_tags w = T2 ∧ rg_pushed w = []))); [tauto|]. apply hoare_pure. intros ->.
  eapply (hoare_bind _ _ _ (λ a w, publicationPlan (state_of T2) = Ok a ∧ (rg_tags w = T2 ∧ rg_pushed w = []))).
  { apply hoare_lift. intros w Hw. destruct (publicationPlan _); [done|by apply Hx; apply Hw]. }
  intros a. apply hoare_pure. intros Ha. destruct a; [intros w [_ Hw]; by apply Hx|by apply publish_spec].
Qed.

(** C37: The publication protocol is safe whatever commands fail and whatever other publishers did before the
    last refresh: it pushes only in the order source, revision, [latest]; an immutable tag is
    only pushed where it is absent and [latest] only over an older release; a no-op pushes
    nothing; and a reported publication has the verified image, of the right source and
    release, under all three tags. *)
Theorem publication_safe w w' r :
  rg_pushed w = [] → reconcile source release rg_observe rg_push rg_refresh w = (w', r) →
  (∃ rest, reverse (map fst (rg_pushed w')) ++ rest = [source; revision_tag release; js "latest"]) ∧
  (∀ t before, (t, before) ∈ rg_pushed w' → t ≠ js "latest" → before !! t = None) ∧
  (∀ before l, (js "latest", before) ∈ rg_pushed w' → before !! js "latest" = Some l → (pb_release l < release)%Z) ∧
  match r with
  | Ok ReconciledNoop => rg_pushed w' = []
  | Ok ReconciledPublished =>
      pb_source verified = source ∧ pb_release verified = release ∧
      ∀ t, t ∈ [source; revision_tag release; js "latest"] → rg_tags w' !! t = Some verified
  | Throw _ => True
  end.
Proof.
  intros Hw Hr. assert (reconciled_ok r w') as [[HP Hrest] Hm].
  { pose proof (hoare_run _ _ _ _ _ _ _ reconcile_spec Hw Hr) as H. by destruct r. }
  rewrite Forall_forall in HP. split_and!; [done| | |done].
  - intros t before Hin%HP Ht. unfold respectful in Hin. by rewrite decide_False in Hin.
  - intros before l Hin%HP Hl. unfold respectful in Hin. rewrite decide_True in Hin by done. eauto.
Qed.
End Protocol.

(** ** A scripted registry *)

(** What happens to the next command: it works, fails without effect, fails after its effect, or (for a
    refresh) other publishers have changed the tags. *)
Inductive registry_event := Works | Fails | Arrives | Changed (tags : tag_map).
Record scripted := Scripted { sc_tags : tag_map; sc_pushed : list (str * tag_map); sc_events : list registry_event }.
Definition next_event (w : scripted) : registry_event * scripted :=
  (default Works (head (sc_events w)), Scripted (sc_tags w) (sc_pushed w) (tail (sc_events w))).
Definition command_failed : publication_error := CommandError (js "unavailable").

#[export] Instance scripted_registry (verified : published) : Registry scripted := {|
  rg_tags := sc_tags;
  rg_pushed := sc_pushed;
  rg_observe t := λ w,
    let '(e, w) := next_event w in
    match e with Fails | Arrives => (w, Throw command_failed) | _ => (w, Ok (sc_tags w !! t)) end;
  rg_push t := λ w,
    let '(e, w) := next_event w in
    let pushed := Scripted (<[t := verified]> (sc_tags w)) ((t, sc_tags w) :: sc_pushed w) (sc_events w) in
    match e with Fails => (w, Throw command_failed) | Arrives => (pushed, Throw command_failed) | _ => (pushed, Ok ()) end;
  rg_refresh := λ w,
    let '(e, w) := next_event w in
    match e with
    | Fails | Arrives => (w, Throw command_failed)
    | Changed tags => (Scripted tags (sc_pushed w) (sc_events w), Ok ())
    | Works => (w, Ok ())
    end;
|}.

#[export] Instance scripted_laws verified : RegistryLaws (scripted_registry verified) verified.
Proof.
  split; cbn.
  - intros t T P w [<- <-]. by destruct w as [T' P' [|[] es]].
  - intros t T P w [<- <-]. destruct w as [T' P' [|[] es]]; cbn; auto.
  - intros P w <-. by destruct w as [T' P' [|[] es]].
Qed.

Section Quiet.
Variables (source : str) (release : Z) (digest : str).
Abbreviation verified := (Published source release digest).
#[local] Existing Instance scripted_registry.
Abbreviation run_reconcile :=
  (reconcile source release (rg_observe (Registry := scripted_registry verified)) (rg_push (Registry := scripted_registry verified))
     (rg_refresh (Registry := scripted_registry verified))).

(** The pair of tags of a different [latest] agrees with it. *)
Definition settled (T : tag_map) : Prop :=
  ∀ l, T !! js "latest" = Some l → pb_release l ≠ release →
    ∃ a, publicationPlan (PublicationState (pb_source l) (pb_release l) (T !! pb_source l) (T !! revision_tag (pb_release l)) (Some l)) = Ok a.

Lemma quiet_read T P :
  settled T →
  read_tags source release (rg_observe (Registry := scripted_registry verified)) (Scripted T P [])
  = (Scripted T P [], Ok (state_of source release T)).
Proof.
  intros Hs. unfold read_tags, state_of. do 3 erewrite bind_step by reflexivity. cbn [sc_tags].
  destruct (T !! js "latest") as [l|] eqn:El; [|done]. erewrite bind_step; [reflexivity|].
  destruct (Z.eqb_spec (pb_release l) release) as [|Hne]; [done|]. do 2 erewrite bind_step by reflexivity. cbn [sc_tags].
  destruct (Hs l El Hne) as [a Ha]. rewrite Ha. by erewrite bind_step by reflexivity.
Qed.

Lemma published_plan T :
  shaPattern source = true → digestPattern digest = true → is_safe_Z release = true → (1 <= release)%Z →
  T !! source = Some verified → T !! revision_tag release = Some verified → T !! js "latest" = Some verified →
  publicationPlan (state_of source release T) = Ok Noop ∧ converged (state_of source release T) = true ∧ settled T.
Proof.
  intros Hs Hd Hz Hr H1 H2 H3. unfold state_of. rewrite H1, H2, H3. unfold publicationPlan, converged, valid_published, matches_release, settled.
  cbn. rewrite Hs, Hd, Hz, !str_eqb_refl, Z.eqb_refl. cbn.
  replace (release <? 1)%Z with false by lia. replace (0 <? release)%Z with true by lia. cbn.
  replace (release <? release)%Z with false by lia. split_and!; [done|done|]. rewrite H3. by intros l [= <-].
Qed.

(** The next command of a run whose outcome computes. *)
Ltac run_step := erewrite bind_step by reflexivity; cbv beta match.

End Quiet.
