(* ===== verification/DeliveryExamples.v ===== *)
(** * Delivery on concrete changes

    Witnesses of the theorems on the change policy, freshness and publication,
    and the changes on which two parts of the delivery disagree. *)

From S2P Require Import Prelude JsString JsDate Json Libs BackupMetadata ChangePolicy ChangePolicyFacts Freshness FreshnessFacts Publication PublicationFacts.

Module DeliveryExamples.

Lemma plain_decide p : nonempty p && negb (starts_with (js "./") p) = true → plain p.
Proof. intros [H1%nonempty_true H2%negb_true_iff]%andb_true_iff. by split. Qed.

(** ** Pull requests *)

Definition changed (name : string) : change_file := ChangeFile (Some (js name)) None None (Some (js "modified")).
Definition pull_request (names : list string) : eligibility_request :=
  EligibilityRequest (js "owner") (js "owner") (js "owner/repo") (js "owner/repo") (map changed names).

Lemma changed_plain name : nonempty (js name) && negb (starts_with (js "./") (js name)) = true → plain_file (changed name).
Proof. intros H%plain_decide. split; [by eexists|done]. Qed.

Lemma all_changed_plain names :
  forallb (λ n, nonempty (js n) && negb (starts_with (js "./") (js n))) names = true → Forall plain_file (map changed names).
Proof. intros H. apply Forall_map, Forall_forall. intros n Hn. by apply changed_plain, (proj1 (forallb_true_elem _ _) H). Qed.


Lemma classifiers_agree_witness :
  deploymentComponentImpact [js "lib/auth.ts"; js "adt-runtime/src/mcp.ts"] = ComponentImpact true true false false.
Proof.
  refine (eq_trans (proj1 (classifiers_agree (map changed ["lib/auth.ts"; "adt-runtime/src/mcp.ts"]%string) _)) _).
  - by apply all_changed_plain.
  - vm_compute. reflexivity.
Defined.

(** A pull request that only adds [open-next.config.md] is merged without review, although the
    classification of the same change calls it sensitive and deploys the Worker. *)
Theorem sensitive_file_auto_merged :
  let files := map changed ["open-next.config.md"]%string in
  (evaluateAutoMergeEligibility (pull_request ["open-next.config.md"]%string)).1 = true ∧
  has_sensitive_changes (classifyChanges files) = true ∧ deploy_worker (classifyChanges files) = true ∧
  documentation_request_only (classifyChanges files) = true.
Proof. vm_compute. auto. Qed.

Lemma outputs_framed_witness :
  Forall (λ o, js "EOF" ∉ split_on 10 o.2) (classification_outputs (classifyChanges (map changed ["docs/a.md"; "EOF.md"]%string))).
Proof.
  apply outputs_framed; [by apply all_changed_plain|]. intros p Hp.
  assert (p ∈ [js "docs/a.md"; js "EOF.md"]) as Hin by exact Hp.
  clear Hp. revert p Hin. apply Forall_forall. repeat (apply Forall_cons; split); [..|constructor];
    apply (bool_decide_eq_true_1 (_ ∧ _)); vm_compute; reflexivity.
Defined.

(** A changed file named [EOF] in the root ends the output of the changed files early: the lines after it,
    which the author of the pull request chooses as file names, are read as further outputs. *)
Theorem delimiter_file_breaks_outputs :
  let c := classifyChanges (map changed ["EOF"; "has_sensitive_changes=false"]%string) in
  writeOutput (js "changed_files") (changed_files c)
  = js "changed_files<<EOF" ++ [10%N] ++ js "EOF" ++ [10%N] ++ js "has_sensitive_changes=false" ++ [10%N] ++ js "EOF" ++ [10%N].
Proof. vm_compute. reflexivity. Qed.

(** ** Freshness *)

Definition changes : list git_change := [GitModified (js "docs/a.md"); GitRenamed (js "100") (js "lib/a.ts") (js "lib/b.ts")].
Lemma field_decide s : forallb (N.leb 32) s = true → field_ok s.
Proof. intros H. apply Forall_forall. intros c Hc. by apply N.leb_le, (proj1 (forallb_true_elem _ _) H). Qed.
Lemma changes_ok : Forall change_ok changes.
Proof.
  repeat (apply Forall_cons; split); [split; [|done]|split; [|by apply field_decide]|constructor]; cbn [change_names];
    repeat (apply Forall_cons; split); try apply Forall_nil; try done; (split; [by apply field_decide|by apply plain_decide]).
Qed.
Definition toy_git (args : list str) : outcome str str :=
  Ok (name_status changes).
Lemma freshness_exact_witness :
  ∃ current reason,
    (impact ← classifyGitRange toy_git (js "a") (js "b"); evaluateOperationFreshness (js "runtime") impact (Target false false false))
    = Ok (current, reason) ∧ current = true.
Proof.
  destruct (freshness_exact toy_git (js "runtime") (Target false false false) (js "a") (js "b") changes) as (current & reason & He & Hc).
  - apply changes_ok.
  - reflexivity.
  - reflexivity.
  - exists current, reason. split; [exact He|]. apply Hc. intros p Hp. split.
    + exact (proj1 (forallb_true_elem isKnownPath (flat_map change_names changes)) eq_refl p Hp).
    + apply negb_true_iff.
      exact (proj1 (forallb_true_elem (λ p, negb (superseding (js "runtime") (Target false false false) p)) (flat_map change_names changes)) eq_refl p Hp).
Defined.

(** ** Publication *)

Definition sha_a : str := repeat (ch "a") 40.
Definition sha_b : str := repeat (ch "b") 40.
Definition digest_of (c : N) : str := js "sha256:" ++ repeat c 64.
Definition old_image : published := Published sha_a 8 (digest_of (ch "1")).
Definition new_image : published := Published sha_b 9 (digest_of (ch "2")).
Definition old_tags : tag_map := <[sha_a := old_image]> (<[js "r8" := old_image]> {[js "latest" := old_image]}).
Definition failing : scripted := Scripted old_tags [] (repeat Works 13 ++ [Arrives]).
Abbreviation scripted_reconcile :=
  (reconcile sha_b 9 (rg_observe (Registry := scripted_registry new_image)) (rg_push (Registry := scripted_registry new_image))
     (rg_refresh (Registry := scripted_registry new_image))).

(** The second push reaches the registry but reports a failure. *)
Lemma publication_safe_witness : ∃ rest,
  reverse (map fst (sc_pushed (scripted_reconcile failing).1)) ++ rest = [sha_b; js "r9"; js "latest"].
Proof.
  destruct (scripted_reconcile failing) as [w r] eqn:E.
  exact (proj1 (publication_safe (R := scripted_registry new_image) new_image sha_b 9 failing w r eq_refl E)).
Defined.

Lemma old_settled : settled 9 old_tags.
Proof.
  intros l Hl _. exists Noop. assert (old_tags !! js "latest" = Some old_image) as E by (vm_compute; reflexivity).
  rewrite E in Hl. injection Hl as <-. vm_compute. reflexivity.
Qed.

Definition toy_history (args : list str) : outcome publication_error str :=
  if path_in args (js "--first-parent") then Ok (sha_b ++ 10%N :: sha_a)
  else if path_in args (js "--parents") then Ok (js "x")
  else if path_in args sha_a then Ok (js "adt-runtime/src/mcp.ts") else Ok (js "docs/a.md").
Lemma runtime_source_newest_witness : ∃ text newer older,
  toy_history [js "rev-list"; js "--first-parent"; sha_b] = Ok text ∧ split_on 10 text = newer ++ sha_a :: older.
Proof.
  destruct (runtime_source_newest toy_history sha_b sha_a) as (_ & text & newer & older & H1 & H2 & _).
  - vm_compute. reflexivity.
  - exists text, newer, older. exact (conj H1 H2).
Defined.

(** A change of a file in a [tests] or [fixtures] directory of the Runtime's sources passes the revision
    check with an unchanged revision, but is a new source for the publication, which then
    refuses to publish because the revision tag belongs to the previous source. *)
Theorem unrevised_source_cannot_publish :
  let path := js "adt-runtime/src/fixtures/reply.json" in
  let release := MkRelease JNull 1 8 in
  validateRuntimeRevision release release [path] = Ok true ∧ isRuntimeImagePath path = true ∧
  publicationPlan (state_of sha_b 8 old_tags) = fail "Partial immutable publication; operator reconciliation required".
Proof. cbv zeta. split_and!; vm_compute; reflexivity. Qed.

End DeliveryExamples.
