(* ===== verification/FeatureRequests.v ===== *)
(** * Feature requests

    Models the scripts that turn request files into issues:
    [src/scripts/render-feature-issue.mjs], [feature-request-validation.mjs],
    [create-feature-issues-from-requests.mjs] and [reprocess-feature-requests.mjs].

    The schema of the issue form and the contract text are files that the
    scripts load; they are parameters, as are [git], [gh] and the file system. *)

From S2P Require Import Prelude JsString JsDate Json JsNumber Libs ChangePolicy Freshness.

(** ** Values as text *)

(** [String(v)] *)
Fixpoint js_String (v : jsval) : str :=
  match v with
  | JUndefined => js "undefined"
  | JNull => js "null"
  | JBool b => bool_text b
  | JNum n => num_text n
  | JStr s => s
  | JArr l => join (js ",") (map (λ v, match v with JNull | JUndefined => [] | _ => js_String v end) l)
  | JObj _ => js "[object Object]"
  | JDate ms => toISOString ms
  end.
Definition nullish (v : jsval) : bool := match v with JUndefined | JNull => true | _ => false end.
(** [String(v ?? '')] *)
Definition text_or_empty (v : jsval) : str := if nullish v then [] else js_String v.
Definition trim_end (s : str) : str := drop_while_end is_ws s.

Record schema_field := SchemaField { sf_id : str; sf_key : str; sf_label : str; sf_required : bool }.
Record feature_schema := FeatureSchema {
  fs_lifecycle_field : option str;
  fs_allowedValues : list str;
  fs_defaultValue : option str;
  fs_fields : list schema_field;
  fs_done_label : str;
  fs_done_options : list str;
}.

Inductive request_error :=
| RequestError (message : str)
| RequestTypeError
(** malformed JSON *)
| RequestSyntaxError
(** a failed command, with what it wrote to its error stream *)
| RequestCommandError (stderr : str).
Definition request_fail {A} (message : str) : outcome request_error A := Throw (RequestError message).
Abbreviation members := (list (str * jsval)).
Definition newline : str := [10%N].
Definition paragraphs (l : list str) : str := join [10; 10]%N l.

Section Schema.
Context (featureSchema : feature_schema) (contractText : str).
Definition contract : str := trim contractText.

Definition valueFor (data : members) (f : schema_field) : jsval :=
  if nullish (field (sf_key f) data) then field (sf_id f) data else field (sf_key f) data.
Definition normalizeBodyValue (value : jsval) : str :=
  match value with
  | JArr l => join newline (List.filter nonempty (map (λ item, trim (js_String item)) l))
  | JUndefined | JNull => []
  | v => trim (js_String v)
  end.
Definition missing_fields (data : members) : list str :=
  map (λ f, sf_key f ++ js " (" ++ sf_id f ++ js ")")
    (List.filter (λ f, sf_required f && negb (nonempty (normalizeBodyValue (valueFor data f)))) (fs_fields featureSchema)).
Definition no_missing (data : members) : outcome request_error unit :=
  match missing_fields data with
  | [] => Ok ()
  | missing => request_fail (js "Missing required feature issue field(s): " ++ join (js ", ") missing)
  end.

Definition field_section (data : members) (f : schema_field) : str :=
  let body := normalizeBodyValue (valueFor data f) in
  js "## " ++ sf_label f ++ [10; 10]%N ++ (if nonempty body then body else js "_Not specified._").
Definition done_item (option : str) : str := js "- [ ] " ++ option.
Definition done_section : str :=
  js "## " ++ fs_done_label featureSchema ++ [10; 10]%N ++ join newline (map done_item (fs_done_options featureSchema)).
(** [sections.splice(sections.length - 1, 0, s)] *)
Fixpoint insert_before_last (s : str) (l : list str) : list str :=
  match l with
  | [] => [s]
  | [x] => [s; x]
  | x :: l => x :: insert_before_last s l
  end.
Definition renderFeatureIssue (data : members) : outcome request_error str :=
  _ ← no_missing data;
  Ok (paragraphs (insert_before_last done_section (contract :: map (field_section data) (fs_fields featureSchema))) ++ newline).

Definition requestStatusFor (data : members) : outcome request_error str :=
  let f := default (js "requestStatus") (fs_lifecycle_field featureSchema) in
  let allowedValues := match fs_allowedValues featureSchema with [] => [js "planned"; js "ready"] | l => l end in
  let status := match assoc f data with
                | Some v => trim (text_or_empty v)
                | None => default (js "ready") (fs_defaultValue featureSchema)
                end in
  if path_in allowedValues status then Ok status
  else request_fail (js "Invalid " ++ f ++ js ": expected one of " ++ join (js ", ") allowedValues ++ js ".").

Definition validateFeatureRequestData (data : jsval) : outcome request_error str :=
  match data with
  | JObj data =>
      let requestId := trim (text_or_empty (field (js "requestId") data)) in
      _ ← guard_throw (nonempty requestId) (RequestError (js "Missing required orchestration field: requestId."));
      _ ← requestStatusFor data;
      _ ← no_missing data;
      rendered ← renderFeatureIssue data;
      _ ← match List.filter (λ f, negb (includes (js "## " ++ sf_label f) rendered)) (fs_fields featureSchema) with
          | [] => Ok ()
          | l => request_fail (js "Rendered issue is missing section(s): " ++ join (js ", ") (map sf_label l))
          end;
      _ ← guard_throw (includes contract rendered)
            (RequestError (js "Rendered issue is missing the full Codex execution contract."));
      _ ← match List.filter (λ o, negb (includes (done_item o) rendered)) (fs_done_options featureSchema) with
          | [] => Ok ()
          | l => request_fail (js "Rendered issue is missing definition-of-done item(s): " ++ join (js ", ") l)
          end;
      Ok rendered
  | _ => request_fail (js "Feature request must be a JSON object.")
  end.

(** ** Issues *)

Definition featureRequestDir : str := js "requests/features".
(** [/^requests\/features\/[^/]+\.json$/] *)
Definition featureRequestPattern (path : str) : bool :=
  starts_with (js "requests/features/") path && root_file (js ".json") (drop (length (js "requests/features/")) path).
(** [basename(path, '.json')] *)
Definition basename_json (path : str) : str :=
  let name := default [] (last (split_on (ch "/") path)) in
  if ends_with (js ".json") name && negb (str_eqb name (js ".json")) then take (length name - 5) name else name.

Definition requestIdFromDataOrPath (data : members) (path : str) : str :=
  let requestId := trim (text_or_empty (field (js "requestId") data)) in
  if nonempty requestId then requestId else basename_json path.
Definition issueMarker (requestId : str) : str := js "<!-- feature-request-id: " ++ requestId ++ js " -->".

Definition issueTitle (data : members) : str :=
  let id := if nullish (field (js "featureId") data) then field (js "feature-id") data else field (js "featureId") data in
  let featureId := trim (text_or_empty id) in
  let explicitTitle := trim (text_or_empty (field (js "title") data)) in
  let titled t := if nonempty featureId then js "[" ++ featureId ++ js "]: " ++ t else t in
  if nonempty explicitTitle then titled explicitTitle
  else
    let objective := default (js "Feature request")
      (List.find nonempty (map trim (split_on 10 (text_or_empty (field (js "objective") data))))) in
    titled (if (90 <? length objective)%nat then trim_end (take 87 objective) ++ js "..." else objective).

Definition managedLabels : list (str * (str * str)) :=
  [(js "type:feature", (js "0e8a16", js "Feature request"));
   (js "status:ready-for-codex", (js "fbca04", js "Ready for Codex implementation"))].
Definition labelNamesFor (data : members) : list str :=
  match field (js "labels") data with
  | JArr l => map js_String l
  | _ => map fst managedLabels
  end.

(** ** Which requests *)

Definition request_lines (text : str) : list str := List.filter featureRequestPattern (List.filter nonempty (split_on 10 text)).
Definition all_zero (s : str) : bool := nonempty s && forallb (λ c, c =? 48)%N s.
Record request_env := RequestEnv {
  FEATURE_REQUEST_FILES : str;
  BEFORE_SHA : str;
  AFTER_SHA : str;
  FEATURE_REQUEST_MODE : str;
}.
Section Selection.
Context (gitExec : list str → outcome request_error str).
Definition allFeatureRequests : outcome request_error (list str) :=
  text ← gitExec [js "ls-files"; featureRequestDir ++ js "/*.json"]; Ok (request_lines text).
Definition changedFeatureRequestsFromEnv (env : request_env) : outcome request_error (list str) :=
  if nonempty (FEATURE_REQUEST_FILES env) then
    Ok (List.filter featureRequestPattern (List.filter nonempty (map trim (split_lines (FEATURE_REQUEST_FILES env)))))
  else
    let after := if nonempty (AFTER_SHA env) then AFTER_SHA env else js "HEAD" in
    text ← if negb (nonempty (BEFORE_SHA env)) || all_zero (BEFORE_SHA env)
           then gitExec [js "diff-tree"; js "--no-commit-id"; js "--name-only"; js "--diff-filter=AM"; js "-r"; after; js "--";
                         featureRequestDir ++ js "/*.json"]
           else gitExec [js "diff"; js "--name-only"; js "--diff-filter=AM"; BEFORE_SHA env; after; js "--";
                         featureRequestDir ++ js "/*.json"];
    Ok (request_lines text).
Definition requestPaths (env : request_env) : outcome request_error (list str) :=
  paths ← if str_eqb (FEATURE_REQUEST_MODE env) (js "all") then allFeatureRequests else changedFeatureRequestsFromEnv env;
  Ok (List.filter featureRequestPattern (dedup paths)).
End Selection.
End Schema.
