(* ===== verification/FeatureIssues.v ===== *)
(** * Issues from feature requests

    The processing half of [src/scripts/create-feature-issues-from-requests.mjs]
    and [src/scripts/reprocess-feature-requests.mjs]: loading requests, looking
    for an issue with the marker of a request, creating the missing ones.

    The host ([gh] and files) is an interface; [IssueHostLaws] states what is
    documented of it. *)

From S2P Require Import Prelude JsString JsDate Json JsNumber Libs ChangePolicy Freshness FeatureRequests Hoare.

Class IssueHost (W : Type) := {
  gh : list str → eff W request_error str;
  readFileSync : str → eff W request_error str;
  writeFileSync : str → str → eff W request_error unit;
  existsSync : str → eff W request_error bool;
  rmFileSync : str → eff W request_error unit;
  clock : eff W request_error Z;
}.

Record loaded_request := LoadedRequest {
  lr_path : str;
  lr_data : members;
  lr_requestId : str;
  lr_requestStatus : str;
  lr_body : str;
}.
Inductive request_status := StatusPlanned | StatusSkipped | StatusWouldCreate | StatusCreated.
Record request_result := RequestResult {
  rr_path : str;
  rr_requestId : str;
  rr_status : request_status;
  (** the existing or created issue: its address and number *)
  rr_issue : option (str * option Z);
}.

Section Processing.
Context (featureSchema : feature_schema) (contractText : str) {W : Type} `{H : IssueHost W}.
Abbreviation M := (eff W request_error).

(** ** Loading *)

Definition requestId_of (v : jsval) : outcome request_error jsval :=
  match v with JNull | JUndefined => Throw RequestTypeError | JObj o => Ok (field (js "requestId") o) | _ => Ok JUndefined end.
Definition truthy (v : jsval) : bool :=
  match v with
  | JUndefined | JNull | JBool false | JNum (NInt 0) | JNum NNaN | JStr [] => false
  | _ => true
  end.
Definition load_data (requestPath text : str) : outcome request_error loaded_request :=
  data ← from_option_throw RequestSyntaxError (JSON_parse text);
  id ← requestId_of data;
  _ ← guard_throw (truthy id && str_eqb (trim (js_String id)) (basename_json requestPath))
        (RequestError (requestPath ++ js " must contain a requestId matching its canonical file name."));
  _ ← validateFeatureRequestData featureSchema contractText data;
  match data with
  | JObj o =>
      let requestId := requestIdFromDataOrPath o requestPath in
      status ← requestStatusFor featureSchema o;
      rendered ← renderFeatureIssue featureSchema contractText o;
      Ok (LoadedRequest requestPath o requestId status (paragraphs [issueMarker requestId; rendered]))
  | _ => Throw RequestTypeError
  end.
Definition loadAndRenderRequest (requestPath : str) : M loaded_request :=
  text ← readFileSync requestPath; lift (load_data requestPath text).

(** ** Labels, search and creation *)

Definition error_text (e : request_error) : str := match e with RequestCommandError s => s | _ => [] end.
(** [/already exists/i] *)
Definition already_exists (e : request_error) : bool := includes (js "already exists") (map ascii_lower (error_text e)).
Definition ensureManagedLabels (labels : list str) : M unit :=
  for_each (λ label,
    match assoc label managedLabels with
    | None => mret ()
    | Some (color, description) =>
        try_catch (gh [js "label"; js "create"; label; js "--color"; color; js "--description"; description] ;; mret ())
          (λ error, if already_exists error then mret () else throw error)
    end) labels ;; mret ().

Definition search_args (requestId : str) : list str :=
  [js "issue"; js "list"; js "--state"; js "all"; js "--search"; issueMarker requestId ++ js " in:body"; js "--json"; js "number,url";
   js "--limit"; js "1"].
(** [JSON.parse(output || '[]')[0]] *)
Definition first_issue (output : str) : outcome request_error (option jsval) :=
  match JSON_parse (if nonempty output then output else js "[]") with
  | Some (JArr l) => Ok (head l)
  | Some (JNull | JUndefined) => Throw RequestTypeError
  | Some _ => Ok None
  | None => Throw RequestSyntaxError
  end.
Definition findExistingIssue (requestId : str) : M (option jsval) :=
  output ← gh (search_args requestId); lift (first_issue output).
(** [existingIssue.url] *)
Definition issue_url (v : jsval) : str := match v with JObj o => text_or_empty (field (js "url") o) | _ => [] end.
Definition issue_number (v : jsval) : option Z :=
  match v with JObj o => match field (js "number") o with JNum (NInt z) => Some z | _ => None end | _ => None end.

(** [/\/(\d+)$/] *)
Definition issueNumberFromUrl (issueUrl : str) : option Z :=
  match reverse (split_on (ch "/") issueUrl) with
  | ((_ :: _) as digits) :: _ :: _ =>
      if forallb is_digit digits then match js_number digits with NInt z => Some z | _ => None end else None
  | _ => None
  end.

(** [toISOString().replace(/[:.]/g, '-')] *)
Definition timestamp : M str :=
  t ← clock; mret (map (λ c, if (c =? ch ":")%N || (c =? ch ".")%N then ch "-" else c) (toISOString t)).
Definition create_args (data : members) (bodyPath : str) (labels : list str) : list str :=
  [js "issue"; js "create"; js "--title"; issueTitle data; js "--body-file"; bodyPath]
  ++ flat_map (λ label, [js "--label"; label]) labels.

Definition plannedResult (r : loaded_request) : request_result := RequestResult (lr_path r) (lr_requestId r) StatusPlanned None.
Definition found_issue (v : option jsval) : option jsval := match v with Some v => if truthy v then Some v else None | None => None end.
Definition skippedResult (r : loaded_request) (issue : jsval) : request_result :=
  RequestResult (lr_path r) (lr_requestId r) StatusSkipped (Some (issue_url issue, issue_number issue)).

Definition createIssueFromLoaded (r : loaded_request) : M request_result :=
  if negb (str_eqb (lr_requestStatus r) (js "ready")) then mret (plannedResult r)
  else
    existing ← findExistingIssue (lr_requestId r);
    match found_issue existing with
    | Some issue => mret (skippedResult r issue)
    | None =>
        let labels := labelNamesFor (lr_data r) in
        ensureManagedLabels labels ;;
        stamp ← timestamp;
        let bodyPath := js ".feature-issue-body-" ++ stamp ++ js ".md" in
        writeFileSync bodyPath (lr_body r) ;;
        created ← attempt (gh (create_args (lr_data r) bodyPath labels));
        present ← existsSync bodyPath;
        when present (rmFileSync bodyPath) ;;
        issueUrl ← lift created;
        mret (RequestResult (lr_path r) (lr_requestId r) StatusCreated (Some (issueUrl, issueNumberFromUrl issueUrl)))
    end.
Definition createIssue (requestPath : str) : M request_result :=
  r ← loadAndRenderRequest requestPath; createIssueFromLoaded r.

(** ** Processing *)

Fixpoint check_unique (seen : list (str * str)) (requests : list loaded_request) : outcome request_error unit :=
  match requests with
  | [] => Ok ()
  | r :: rest =>
      match assoc (lr_requestId r) seen with
      | Some path => request_fail (js "Duplicate requestId " ++ [34%N] ++ lr_requestId r ++ [34%N] ++ js " found in " ++ path
                                   ++ js " and " ++ lr_path r ++ js ".")
      | None => check_unique ((lr_requestId r, lr_path r) :: seen) rest
      end
  end.
Definition validateSelectedRequests (paths : list str) : M (list loaded_request) :=
  requests ← for_each loadAndRenderRequest paths;
  lift (check_unique [] requests) ;;
  mret requests.

Definition process_one (dryRun : bool) (r : loaded_request) : M request_result :=
  if negb (str_eqb (lr_requestStatus r) (js "ready")) then mret (plannedResult r)
  else
    existing ← findExistingIssue (lr_requestId r);
    match found_issue existing with
    | Some issue => mret (skippedResult r issue)
    | None => if dryRun then mret (RequestResult (lr_path r) (lr_requestId r) StatusWouldCreate None)
              else createIssueFromLoaded r
    end.
Definition processRequests (paths : list str) (dryRun : bool) : M (list request_result) :=
  requests ← validateSelectedRequests paths; for_each (process_one dryRun) requests.

(** ** Reprocessing *)

(** [while (path.startsWith('./')) path = path.slice(2)] *)
Fixpoint strip_dots (fuel : nat) (path : str) : str :=
  match fuel with
  | O => path
  | S fuel => if starts_with (js "./") path then strip_dots fuel (drop 2 path) else path
  end.
Definition normalizeSpecificPath (input : option str) : str :=
  let path := trim (default [] input) in strip_dots (length path) path.
Definition validateSpecificFeaturePath (input : option str) : M str :=
  let path := normalizeSpecificPath input in
  lift (guard_throw (nonempty path) (RequestError (js "A non-empty file input is required when mode is specific."))) ;;
  lift (guard_throw (negb (starts_with (js "/") path || includes (js "..") path))
          (RequestError (js "Rejected unsafe feature request path: " ++ path))) ;;
  lift (guard_throw (featureRequestPattern path)
          (RequestError (js "Feature request path must match requests/features/<filename>.json: " ++ path))) ;;
  present ← existsSync path;
  lift (guard_throw present
          (RequestError (js "Feature request file does not exist at the checked-out main commit: " ++ path))) ;;
  r ← loadAndRenderRequest path;
  lift (guard_throw (str_eqb (lr_requestId r) (basename_json path)
                     && str_eqb (requestIdFromDataOrPath (lr_data r) path) (basename_json path))
          (RequestError (path ++ js " is not a canonical feature-request file."))) ;;
  mret path.

Definition discoverFeaturePaths `{L : Libs} (gitExec : list str → outcome request_error str) : outcome request_error (list str) :=
  paths ← allFeatureRequests gitExec; Ok (sort_list locale_le paths).
Definition validateReprocessSelection `{L : Libs} (gitExec : list str → outcome request_error str) (mode : str) (file : option str)
    : M (list str) :=
  if negb (str_eqb mode (js "specific")) && negb (str_eqb mode (js "all"))
  then throw (RequestError (js "mode must be either specific or all."))
  else if str_eqb mode (js "specific") then path ← validateSpecificFeaturePath file; mret [path]
  else lift (discoverFeaturePaths gitExec).
End Processing.
