(* ===== verification/FeatureFacts.v ===== *)
(** * Theorems on feature requests

    A valid request renders to an issue with every section, the contract and
    the completion list; processing creates at most one issue for a request,
    whatever fails. *)

From S2P Require Import Prelude JsString JsDate Json JsNumber Libs ChangePolicy ChangePolicyFacts Freshness FeatureRequests FeatureIssues Hoare.

(** ** Rendering *)

Lemma join_part sep l x : x ∈ l → ∃ a b, join sep l = a ++ x ++ b.
Proof.
  induction l as [|y l IH]; [by intros ?%not_elem_of_nil|]. destruct l as [|z l].
  - intros ->%list_elem_of_singleton. exists [], []. cbn. by rewrite app_nil_r.
  - rewrite join_cons_nonnil by done. intros [ -> |(a & b & ->)%IH]%elem_of_cons; [by exists [], (sep ++ join sep (z :: l))|].
    exists (y ++ sep ++ a), b. by rewrite <- !List.app_assoc.
Qed.
Lemma includes_part x y a b : includes x y = true → includes x (a ++ y ++ b) = true.
Proof.
  intros (c & d & ->)%includes_spec. apply includes_spec. exists (a ++ c), (d ++ b). by rewrite <- !List.app_assoc.
Qed.
Lemma includes_join x y sep l : y ∈ l → includes x y = true → includes x (join sep l) = true.
Proof. intros (a & b & ->)%(join_part sep) H. by apply includes_part. Qed.
Lemma includes_here x a b : includes x (a ++ x ++ b) = true.
Proof. apply includes_spec. eauto. Qed.
Lemma includes_app_l x a b : includes x a = true → includes x (a ++ b) = true.
Proof. apply (includes_part x a [] b). Qed.

Lemma elem_of_insert_before_last s l x : x ∈ insert_before_last s l ↔ x = s ∨ x ∈ l.
Proof.
  induction l as [|y l IH]; cbn; [set_solver|]. destruct l as [|z l]; [set_solver|]. rewrite !elem_of_cons, IH. set_solver.
Qed.

Section Rendering.
Context (featureSchema : feature_schema) (contractText : str).

Lemma rendered_parts o rendered :
  renderFeatureIssue featureSchema contractText o = Ok rendered →
  (∀ f, f ∈ fs_fields featureSchema → includes (js "## " ++ sf_label f) rendered = true) ∧
  includes (contract contractText) rendered = true ∧
  (∀ option, option ∈ fs_done_options featureSchema → includes (done_item option) rendered = true).
Proof.
  unfold renderFeatureIssue. intros ([] & _ & [= <-])%outcome_bind_ok.
  assert (∀ x y, y ∈ done_section featureSchema :: contract contractText :: map (field_section o) (fs_fields featureSchema) → includes x y = true →
    includes x (paragraphs (insert_before_last (done_section featureSchema)
      (contract contractText :: map (field_section o) (fs_fields featureSchema))) ++ newline) = true) as Hin.
  { intros x y Hy Hx. apply includes_app_l. eapply includes_join; [|exact Hx]. apply elem_of_insert_before_last. by apply elem_of_cons. }
  split_and!.
  - intros f Hf. apply (Hin _ (field_section o f)).
    + do 2 right. apply list_elem_of_fmap. eauto.
    + unfold field_section. rewrite (List.app_assoc (js "## ")). apply (includes_here _ []).
  - apply (Hin _ (contract contractText)); [set_solver|]. apply includes_spec. exists [], []. by rewrite app_nil_r.
  - intros option Ho. apply (Hin _ (done_section featureSchema)); [left|]. unfold done_section. do 2 rewrite List.app_assoc.
    rewrite <- (app_nil_r (join _ _)). apply includes_part. eapply includes_join; [apply list_elem_of_fmap; by exists option|].
    apply includes_spec. exists [], []. by rewrite app_nil_r.
Qed.

(** A request is valid exactly when it is an object with an identifier, an allowed status and every
    required field, and then its rendering contains the section of every field, the whole
    contract and every completion item: the checks of the rendered text never fail. *)
Theorem request_validation_exact data rendered :
  validateFeatureRequestData featureSchema contractText data = Ok rendered ↔
  ∃ o, data = JObj o ∧ trim (text_or_empty (field (js "requestId") o)) ≠ [] ∧
    is_ok (requestStatusFor featureSchema o) = true ∧ missing_fields featureSchema o = [] ∧
    renderFeatureIssue featureSchema contractText o = Ok rendered ∧
    (∀ f, f ∈ fs_fields featureSchema → includes (js "## " ++ sf_label f) rendered = true) ∧
    includes (contract contractText) rendered = true ∧
    (∀ option, option ∈ fs_done_options featureSchema → includes (done_item option) rendered = true).
Proof.
  split.
  - unfold validateFeatureRequestData. destruct data as [| | | | | |o|]; try done. cbv zeta.
    intros ([] & Hid%guard_throw_ok%nonempty_true & (st & Hs & ([] & Hm & (r & Hr & H)%outcome_bind_ok)%outcome_bind_ok)%outcome_bind_ok)%outcome_bind_ok.
    apply outcome_bind_ok in H as ([] & _ & ([] & _ & ([] & _ & [= <-])%outcome_bind_ok)%outcome_bind_ok).
    exists o. pose proof (rendered_parts o r Hr) as (P1 & P2 & P3). rewrite Hs. split_and!; try done.
    unfold no_missing in Hm. by destruct (missing_fields featureSchema o).
  - intros (o & -> & Hid%nonempty_true & Hs & Hm & Hr & P1 & P2 & P3). unfold validateFeatureRequestData. cbv zeta.
    rewrite Hid. cbn [guard_throw mbind outcome_bind]. destruct (requestStatusFor featureSchema o); [|done]. unfold no_missing at 1. rewrite Hm, Hr.
    cbn [mbind outcome_bind].
    rewrite (bfilter_nil (λ f, negb (includes (js "## " ++ sf_label f) rendered))) by (intros f Hf; by rewrite P1).
    rewrite P2. by rewrite (bfilter_nil (λ o, negb (includes (done_item o) rendered))) by (intros x Hx; by rewrite P3).
Qed.
End Rendering.

(** ** The host *)

Class IssueState (W : Type) := {
  (** the bodies of the issues, oldest first *)
  issues : W → list str;
  files : W → gmap (list N) str;
}.
Abbreviation at_state I F := (λ w, issues w = I ∧ files w = F).
(** What [gh] and the file system promise. A search lists the issues whose body contains the marker; a
    creation adds an issue with the text of its body file, and may do so although it reports a failure;
    nothing else adds or removes an issue. *)
Class IssueHostLaws {W} (H : IssueHost W) (S : IssueState W) := {
  law_search id I F :
    hoare (at_state I F) (gh (search_args id))
      (λ out w, at_state I F w ∧ ∃ l, JSON_parse (if nonempty out then out else js "[]") = Some (JArr l) ∧
                 Forall (λ v, truthy v = true) l ∧ (l = [] ↔ ∀ b, b ∈ I → includes (issueMarker id) b = false))
      (λ _ w, issues w = I);
  law_label args I F :
    hoare (at_state I F) (gh (js "label" :: args)) (λ _ w, at_state I F w) (λ _ w, at_state I F w);
  law_create data path labels I F body :
    F !! path = Some body →
    hoare (at_state I F) (gh (create_args data path labels))
      (λ _ w, issues w = I ++ [body]) (λ _ w, issues w = I ∨ issues w = I ++ [body]);
  law_write path text I F :
    hoare (at_state I F) (writeFileSync path text) (λ _ w, at_state I (<[path := text]> F) w) (λ _ w, issues w = I);
  law_read path I : hoare (λ w, issues w = I) (readFileSync path) (λ _ w, issues w = I) (λ _ w, issues w = I);
  law_exists path I : hoare (λ w, issues w = I) (existsSync path) (λ _ w, issues w = I) (λ _ w, issues w = I);
  law_rm path I : hoare (λ w, issues w = I) (rmFileSync path) (λ _ w, issues w = I) (λ _ w, issues w = I);
  law_clock I F : hoare (at_state I F) clock (λ _ w, at_state I F w) (λ _ w, issues w = I);
}.

(** ** One issue for a request *)

(** The issues whose first line is the marker of [id]. *)
Definition issues_of (id : str) (I : list str) : list str := List.filter (starts_with (issueMarker id ++ newline)) I.
Definition one_line (id : str) : Prop := 10%N ∉ id.
Definition one_issue_each (I : list str) : Prop := ∀ id, one_line id → (length (issues_of id I) <= 1)%nat.

Lemma first_line_inj (a b r s : str) : 10%N ∉ a → 10%N ∉ b → a ++ 10%N :: r = b ++ 10%N :: s → a = b.
Proof.
  revert b. induction a as [|c a IH]; intros [|d b] Ha Hb; cbn; try done.
  - intros [= <-]. set_solver.
  - intros [= -> _]. set_solver.
  - intros [= <- E]. f_equal. apply (IH b); set_solver.
Qed.
Lemma marker_one_line id : one_line id → 10%N ∉ issueMarker id.
Proof.
  intros H. unfold issueMarker. rewrite !not_elem_of_app. split_and!; [|done|];
    (intros Hin; revert Hin; apply (bool_decide_eq_true_1 (10%N ∉ _)); vm_compute; reflexivity).
Qed.
Lemma marker_inj id id' : issueMarker id = issueMarker id' → id = id'.
Proof. unfold issueMarker. generalize (js "<!-- feature-request-id: ") (js " -->"). intros a b H. by apply app_inv_head, app_inv_tail in H. Qed.

(** Adding the issue of a request that no issue mentions. *)
Lemma one_issue_add id I body :
  one_line id → one_issue_each I → (∀ b, b ∈ I → includes (issueMarker id) b = false) →
  starts_with (issueMarker id ++ newline) body = true → one_issue_each (I ++ [body]).
Proof.
  intros Hid HI Hnone Hb id' Hid'. unfold issues_of. rewrite List.filter_app, length_app. cbn [List.filter].
  destruct (starts_with (issueMarker id' ++ newline) body) eqn:E; [|cbn; specialize (HI id' Hid'); unfold issues_of in HI; lia].
  assert (id' = id) as ->.
  { apply starts_with_spec in E as [r Er], Hb as [s Es]. rewrite Es in Er. unfold newline in Er. rewrite <- !List.app_assoc in Er.
    apply marker_inj. apply first_line_inj in Er; [done|by apply marker_one_line..]. }
  rewrite bfilter_nil; [done|]. intros b Hbin. apply not_true_iff_false. intros [r ->]%starts_with_spec.
  specialize (Hnone _ Hbin). rewrite <- List.app_assoc in Hnone. pose proof (includes_here (issueMarker id) [] (newline ++ r)) as Hin.
  cbn [app] in Hin. congruence.
Qed.

(** The identifier of a loaded request is the name of its file. *)
Lemma load_data_spec schema contractText path text r :
  load_data schema contractText path text = Ok r →
  lr_path r = path ∧ lr_requestId r = basename_json path ∧ starts_with (issueMarker (lr_requestId r) ++ newline) (lr_body r) = true.
Proof.
  unfold load_data. intros (data & _ & (id & Hid & ([] & Hg & (rendered & _ & H)%outcome_bind_ok)%outcome_bind_ok)%outcome_bind_ok)%outcome_bind_ok.
  apply guard_throw_ok, andb_true_iff in Hg as [Ht Hb%str_eqb_eq]. destruct data as [| | | | | |o|]; try done.
  apply outcome_bind_ok in H as (st & _ & (body & _ & [= <-])%outcome_bind_ok). cbn. injection Hid as <-.
  assert (requestIdFromDataOrPath o path = basename_json path) as ->.
  { unfold requestIdFromDataOrPath, text_or_empty. destruct (nullish (field (js "requestId") o)) eqn:En.
    - by destruct (field (js "requestId") o).
    - rewrite Hb. by destruct (nonempty _). }
  split_and!; try done. apply starts_with_spec. exists (10%N :: body). unfold newline. by rewrite <- List.app_assoc.
Qed.
Lemma basename_one_line path : one_line path → one_line (basename_json path).
Proof.
  unfold one_line, basename_json. intros H. set (name := default [] (last (split_on (ch "/") path))).
  assert (10%N ∉ name) as Hn.
  { intros Hin. apply H. unfold name in Hin. destruct (last (split_on (ch "/") path)) as [n|] eqn:E; [|by apply not_elem_of_nil in Hin].
    apply last_Some in E as [l E]. rewrite <- (join_split_on (ch "/") path). cbn in Hin.
    destruct (join_part [ch "/"] (split_on (ch "/") path) n) as (a & b & ->); [rewrite E; set_solver|]. set_solver. }
  case_match; [|done]. intros Hin. by apply Hn, (subseteq_take (length name - 5)).
Qed.

Section Once.
Context (featureSchema : feature_schema) (contractText : str) {W : Type} {H : IssueHost W} {S : IssueState W} `{HL : !IssueHostLaws H S}.
Implicit Types (I : list str) (F : gmap (list N) str).

(** Issues are only added, and never a second one for a request. *)
Definition grown I (w : W) : Prop := one_issue_each (issues w) ∧ ∃ new, issues w = I ++ new.
Definition mentioned (id : str) (w : W) : Prop := ∃ b, b ∈ issues w ∧ includes (issueMarker id) b = true.

Lemma find_spec id I F :
  hoare (at_state I F) (findExistingIssue id)
    (λ o w, at_state I F w ∧ match found_issue o with
                             | Some _ => ∃ b, b ∈ I ∧ includes (issueMarker id) b = true
                             | None => ∀ b, b ∈ I → includes (issueMarker id) b = false
                             end)
    (λ _ w, issues w = I).
Proof.
  unfold findExistingIssue. eapply hoare_bind; [apply law_search|]. intros out. apply hoare_lift.
  intros w (Hw & l & Hp & Ht & Hl). unfold first_issue. rewrite Hp. split; [done|].
  destruct l as [|v l]; cbn; [by apply Hl|]. inversion Ht as [|? ? Hv _]; subst. rewrite Hv.
  destruct (existsb (includes (issueMarker id)) I) eqn:E; [by apply existsb_elem|].
  rewrite existsb_none in E. by apply Hl in E.
Qed.

Lemma labels_spec labels I F :
  hoare (at_state I F) (ensureManagedLabels labels) (λ _ w, at_state I F w) (λ _ w, at_state I F w).
Proof.
  unfold ensureManagedLabels. eapply (hoare_bind _ _ _ (λ _ w, at_state I F w)); [|by intros a w Hw].
  apply hoare_for_each_inv. intros label _. destruct (assoc label managedLabels) as [[color description]|]; [|by intros w Hw].
  apply (hoare_try _ _ _ _ (λ _ w, at_state I F w)).
  - eapply hoare_bind; [apply law_label|]. by intros a w Hw.
  - intros e. destruct (already_exists e); by intros w Hw.
Qed.

Lemma grown_here I : one_issue_each I → ∀ w, issues w = I → grown I w.
Proof. intros Hone w Hw. split; [by rewrite Hw|]. exists []. by rewrite app_nil_r. Qed.

Lemma create_spec r I :
  one_line (lr_requestId r) → starts_with (issueMarker (lr_requestId r) ++ newline) (lr_body r) = true → one_issue_each I →
  hoare (λ w, issues w = I) (createIssueFromLoaded r)
    (λ res w, grown I w ∧ rr_requestId res = lr_requestId r ∧
              match rr_status res with StatusSkipped | StatusCreated => mentioned (lr_requestId r) w | _ => True end)
    (λ _ w, grown I w).
Proof.
  intros Hid Hb Hone. pose proof (grown_here I Hone) as Hg.
  unfold createIssueFromLoaded. destruct (negb _); [intros w Hw; split; [by apply Hg|done]|].
  apply (hoare_pre _ (λ w, ∃ F, at_state I F w)); [by eauto|]. apply hoare_exists. intros F.
  eapply hoare_bind; [eapply hoare_exn; [apply find_spec|]; intros e; apply Hg|]. intros o. cbv beta.
  destruct (found_issue o) as [issue|].
  { intros w [[Hw _] (b & Hin & Hinc)]. cbn. split; [by apply Hg|]. split; [done|]. exists b. by rewrite Hw. }
  apply (hoare_pre _ (λ w, (∀ b, b ∈ I → includes (issueMarker (lr_requestId r)) b = false) ∧ at_state I F w)); [tauto|].
  apply hoare_pure. intros Hnone.
  assert (∀ w, issues w = I ++ [lr_body r] → grown I w ∧ mentioned (lr_requestId r) w) as Hnew.
  { intros w Hw. unfold grown, mentioned. rewrite Hw. split; [split; [by apply (one_issue_add (lr_requestId r))|by eexists]|].
    exists (lr_body r). split; [set_solver|]. apply starts_with_spec in Hb as [s ->]. rewrite <- List.app_assoc.
    apply (includes_here _ []). }
  eapply hoare_bind; [eapply hoare_exn; [apply labels_spec|]; intros e w [Hw _]; by apply Hg|]. intros [].
  unfold timestamp. eapply hoare_bind; [eapply hoare_bind; [eapply hoare_exn; [apply law_clock|]; intros e; apply Hg|]|].
  { intros t. apply (hoare_ret _ (λ _ w, at_state I F w)). }
  intros stamp. set (path := js ".feature-issue-body-" ++ stamp ++ js ".md").
  eapply hoare_bind; [eapply hoare_exn; [apply law_write|]; intros e; apply Hg|]. intros [].
  set (done := λ (c : outcome request_error str) w,
                 (issues w = I ∧ is_ok c = false) ∨ issues w = I ++ [lr_body r]).
  eapply (hoare_bind _ _ _ done).
  { apply hoare_attempt. eapply hoare_conseq; [by intros w Hw; exact Hw|apply law_create, lookup_insert_eq| |].
    - intros u w Hw. by right.
    - intros e w [Hw|Hw]; [by left|by right]. }
  intros c. assert (∀ w, done c w → grown I w) as Hdone by (intros w [[Hw _]|Hw]; [by apply Hg|by apply Hnew]).
  assert (∀ A (m : eff W request_error A), (∀ J, hoare (λ w, issues w = J) m (λ _ w, issues w = J) (λ _ w, issues w = J)) →
           hoare (done c) m (λ _ w, done c w) (λ _ w, grown I w)) as Hkeep.
  { intros A m Hm w Hw. specialize (Hm (issues w) w eq_refl). assert (∀ w', issues w' = issues w → done c w') as Hsame by (intros w' E; unfold done in *; by rewrite E).
    destruct (m w) as [w' [a|e]]; [by apply Hsame|by apply Hdone, Hsame]. }
  eapply hoare_bind; [apply Hkeep; intros J; apply law_exists|]. intros present.
  eapply hoare_bind; [apply Hkeep; intros J; destruct present; [apply law_rm|by intros w Hw]|]. intros [].
  eapply (hoare_bind _ _ _ (λ _ w, issues w = I ++ [lr_body r])).
  { apply hoare_lift. intros w Hw. destruct c as [u|e]; [|by apply Hdone]. by destruct Hw as [[_ ?]|?]. }
  intros u w Hw. cbn. by destruct (Hnew w Hw).
Qed.

Lemma grown_trans I w w' : (∃ new, issues w = I ++ new) → grown (issues w) w' → grown I w'.
Proof. intros [new Hw] [H1 [new' H2]]. split; [done|]. exists (new ++ new'). by rewrite H2, Hw, List.app_assoc. Qed.
Lemma mentioned_grown id w w' : mentioned id w → grown (issues w) w' → mentioned id w'.
Proof. intros (b & Hb & Hi) [_ [new E]]. exists b. rewrite E. set_solver. Qed.

(** What a processed request leaves in the tracker. *)
Definition settled_result (res : request_result) (w : W) : Prop :=
  match rr_status res with StatusSkipped | StatusCreated => mentioned (rr_requestId res) w | _ => True end.
Definition request_loaded (r : loaded_request) : Prop :=
  one_line (lr_requestId r) ∧ starts_with (issueMarker (lr_requestId r) ++ newline) (lr_body r) = true.

Lemma process_one_spec dryRun r I :
  request_loaded r → one_issue_each I →
  hoare (λ w, issues w = I) (process_one dryRun r) (λ res w, grown I w ∧ settled_result res w) (λ _ w, grown I w).
Proof.
  intros [Hid Hb] Hone. pose proof (grown_here I Hone) as Hg.
  unfold process_one. destruct (negb _); [intros w Hw; split; [by apply Hg|done]|].
  apply (hoare_pre _ (λ w, ∃ F, at_state I F w)); [by eauto|]. apply hoare_exists. intros F.
  eapply hoare_bind; [eapply hoare_exn; [apply find_spec|]; intros e; apply Hg|]. intros o. cbv beta.
  destruct (found_issue o) as [issue|].
  { intros w [[Hw _] (b & Hin & Hinc)]. split; [by apply Hg|]. exists b. by rewrite Hw. }
  destruct dryRun; [intros w [[Hw _] _]; split; [by apply Hg|done]|].
  apply (hoare_pre _ (λ w, issues w = I)); [by intros w [[Hw _] _]|].
  eapply hoare_post; [by apply create_spec|]. intros res w (Hgr & Hr & Hs). split; [done|].
  unfold settled_result. rewrite Hr. by destruct (rr_status res).
Qed.

Lemma process_all_spec dryRun rs I :
  Forall request_loaded rs → one_issue_each I →
  hoare (λ w, issues w = I) (for_each (process_one dryRun) rs)
    (λ l w, grown I w ∧ Forall (λ res, settled_result res w) l) (λ _ w, grown I w).
Proof.
  intros Hrs. revert I. induction Hrs as [|r rs Hr _ IH]; intros I Hone; cbn [for_each].
  { intros w Hw. split; [by apply grown_here|constructor]. }
  eapply hoare_bind; [by apply process_one_spec|]. intros res w [[Hone' [new Hnew]] Hs].
  specialize (IH (issues w) Hone' w eq_refl). unfold mbind, eff_bind.
  destruct (for_each (process_one dryRun) rs w) as [w' [l|e]]; cbn.
  - destruct IH as [Hg Hl]. split; [by eapply grown_trans; eauto|]. constructor; [|done].
    unfold settled_result in *. destruct (rr_status res); try done; by eapply mentioned_grown.
  - by eapply grown_trans; eauto.
Qed.

Lemma load_spec path I :
  one_line path →
  hoare (λ w, issues w = I) (loadAndRenderRequest featureSchema contractText path)
    (λ r w, issues w = I ∧ request_loaded r) (λ _ w, issues w = I).
Proof.
  intros Hp. unfold loadAndRenderRequest. eapply hoare_bind; [apply law_read|]. intros text. apply hoare_lift. intros w Hw.
  destruct (load_data featureSchema contractText path text) as [r|e] eqn:E; [|done]. split; [done|].
  apply load_data_spec in E as (_ & Hid & Hb). split; [rewrite Hid; by apply basename_one_line|done].
Qed.

Lemma process_spec paths dryRun I :
  Forall one_line paths → one_issue_each I →
  hoare (λ w, issues w = I) (processRequests featureSchema contractText paths dryRun)
    (λ l w, grown I w ∧ Forall (λ res, settled_result res w) l) (λ _ w, grown I w).
Proof.
  intros Hp Hone. pose proof (grown_here I Hone) as Hg. unfold processRequests, validateSelectedRequests.
  eapply (hoare_bind _ _ _ (λ rs w, Forall request_loaded rs ∧ issues w = I)); [|intros rs; apply hoare_pure; intros Hrs; by apply process_all_spec].
  eapply (hoare_bind _ _ _ (λ rs w, Forall request_loaded rs ∧ issues w = I)).
  - eapply (hoare_exn _ _ _ _ (λ _ w, issues w = I)); [eapply hoare_post|intros e w Hw; by apply Hg].
    + apply (hoare_for_each_results _ (λ w, issues w = I) (λ _ r, request_loaded r) (λ _ w, issues w = I)). intros path Hin.
      apply load_spec. rewrite Forall_forall in Hp. auto.
    + intros rs w [Hw Hrs]. split; [|done]. clear -Hrs. by induction Hrs; constructor.
  - intros rs. eapply (hoare_bind _ _ _ (λ _ w, Forall request_loaded rs ∧ issues w = I)); [|intros []; by intros w Hw].
    apply hoare_lift. intros w [Hrs Hw]. destruct (check_unique [] rs); [done|by apply Hg].
Qed.

End Once.

(** ** Reprocessing *)

Lemma strip_dots_clean n p : (length p <= n)%nat → starts_with (js "./") (strip_dots n p) = false.
Proof.
  revert p. induction n as [|n IH]; intros p Hn; cbn [strip_dots].
  - destruct p; [done|cbn in Hn; lia].
  - destruct (starts_with (js "./") p) eqn:E; [|done]. apply IH. rewrite length_drop. lia.
Qed.

Lemma request_pattern_spec p :
  featureRequestPattern p = true → ∃ name, p = js "requests/features/" ++ name ++ js ".json" ∧ name ≠ [] ∧ (ch "/" ∉ name).
Proof.
  unfold featureRequestPattern, root_file. generalize (js "requests/features/"). intros dir Hp.
  apply andb_true_iff in Hp as [[r ->]%starts_with_spec Hr]. rewrite drop_app_length in Hr.
  apply andb_true_iff in Hr as [[[name ->]%ends_with_spec Hlen%Nat.ltb_lt]%andb_true_iff Hslash].
  exists name. rewrite length_app in Hlen. split_and!; [done|by intros ->; cbn in Hlen; lia|]. intros Hin.
  assert (ch "/" ∈ name ++ js ".json") as Hin' by set_solver.
  by apply (proj1 (forallb_true_elem _ _) Hslash) in Hin'.
Qed.

(** A path selected for reprocessing is one file directly inside the request directory: no absolute path,
    no parent directory and no leading [./]. *)
Theorem reprocess_path_confined featureSchema contractText {W} (H : IssueHost W) input w w' path :
  validateSpecificFeaturePath featureSchema contractText input w = (w', Ok path) →
  (∃ name, path = js "requests/features/" ++ name ++ js ".json" ∧ name ≠ [] ∧ (ch "/" ∉ name)) ∧
  includes (js "..") path = false ∧ starts_with (js "./") path = false.
Proof.
  unfold validateSpecificFeaturePath. intros [(w1 & [] & [-> _]%lift_run & Hr)|(e & _ & ?)]%bind_run; [|done].
  apply bind_run in Hr as [(w2 & [] & [-> Hsafe]%lift_run & Hr)|(e & _ & ?)]; [|done].
  apply bind_run in Hr as [(w3 & [] & [-> Hpat]%lift_run & Hr)|(e & _ & ?)]; [|done].
  apply bind_run in Hr as [(w4 & present & _ & Hr)|(e & _ & ?)]; [|done].
  apply bind_run in Hr as [(w5 & [] & _ & Hr)|(e & _ & ?)]; [|done].
  apply bind_run in Hr as [(w6 & r & _ & Hr)|(e & _ & ?)]; [|done].
  apply bind_run in Hr as [(w7 & [] & _ & Hr)|(e & _ & ?)]; [|done].
  apply ret_run in Hr as [_ [= ->]].
  apply eq_sym, guard_throw_ok in Hsafe, Hpat. to_prop. split_and!; [by apply request_pattern_spec|done|].
  apply strip_dots_clean. lia.
Qed.
