(* ===== verification/FeatureExamples.v ===== *)
(** * A tracker in memory

    An implementation of the host of feature requests with lost answers, and the
    witnesses of the theorems. *)

From S2P Require Import Prelude JsString JsDate Json JsNumber Libs ChangePolicy Freshness FeatureRequests FeatureIssues FeatureFacts Hoare.

Module FeatureExamples.

Record tracker := Tracker {
  tr_issues : list str;
  tr_files : gmap (list N) str;
  (** whether the answer of the next command is lost *)
  tr_lost : list bool;
}.
Definition lost (w : tracker) : bool := default false (head (tr_lost w)).
Definition next (w : tracker) : tracker := Tracker (tr_issues w) (tr_files w) (tail (tr_lost w)).
Definition failure : request_error := RequestCommandError (js "timeout").
Definition answer {A} (w : tracker) (w' : tracker) (a : A) : tracker * outcome request_error A :=
  (next w', if lost w then Throw failure else Ok a).

Definition found_text : str := [91; 123; 34; 117; 114; 108; 34; 58; 34; 117; 34; 125; 93]%N.
Definition searched (args : list str) : str := let s := default [] (args !! 5%nat) in take (length s - 8) s.
Definition tracker_gh (args : list str) : eff tracker request_error str := λ w,
  if bool_decide (args !! 1%nat = Some (js "list")) then
    answer w w (if existsb (includes (searched args)) (tr_issues w) then found_text else [])
  else if bool_decide (args !! 1%nat = Some (js "create") ∧ head args = Some (js "issue")) then
    answer w (Tracker (tr_issues w ++ [default [] (tr_files w !! default [] (args !! 5%nat))]) (tr_files w) (tr_lost w)) (js "https://host/1")
  else answer w w [].
#[export] Instance tracker_host : IssueHost tracker := {|
  gh := tracker_gh;
  readFileSync path := λ w, match tr_files w !! path with Some t => (w, Ok t) | None => (w, Throw failure) end;
  writeFileSync path text := λ w, (Tracker (tr_issues w) (<[path := text]> (tr_files w)) (tr_lost w), Ok ());
  existsSync path := λ w, (w, Ok (bool_decide (is_Some (tr_files w !! path))));
  rmFileSync path := λ w, (Tracker (tr_issues w) (delete path (tr_files w)) (tr_lost w), Ok ());
  clock := λ w, (w, Ok 0%Z);
|}.
#[export] Instance tracker_state : IssueState tracker := {| issues := tr_issues; files := tr_files |}.

Lemma searched_marker id : searched (search_args id) = issueMarker id.
Proof.
  unfold searched, search_args. cbn [lookup list_lookup default]. cbn -[issueMarker js].
  rewrite length_app. change (length (js " in:body")) with 8%nat.
  rewrite Nat.add_sub. apply take_app_length.
Qed.
Lemma answer_spec {A} w w' (a : A) (Q : A → tracker → Prop) (X : request_error → tracker → Prop) :
  Q a (next w') → X failure (next w') →
  match answer w w' a with (w2, Ok b) => Q b w2 | (w2, Throw e) => X e w2 end.
Proof. unfold answer. by destruct (lost w). Qed.

#[export] Instance tracker_laws : IssueHostLaws tracker_host tracker_state.
Proof.
  split; cbn.
  - intros id I F w [<- <-]. unfold tracker_gh. rewrite bool_decide_true by done. rewrite searched_marker.
    apply answer_spec; [|done]. split; [done|].
    destruct (existsb (includes (issueMarker id)) (tr_issues w)) eqn:E.
    + exists [JObj [(js "url", JStr (js "u"))]]. split_and!; [reflexivity|repeat constructor|]. split; [done|].
      apply existsb_exists in E as (b & Hb%list_elem_of_In & Hi). intros Hall. rewrite Hall in Hi by done. done.
    + exists []. split_and!; [reflexivity|constructor|]. split; [|done]. intros _ b Hb. apply not_true_iff_false. intros Hi.
      apply not_true_iff_false in E. apply E, existsb_exists. exists b. by rewrite <- list_elem_of_In.
  - intros args I F w [<- <-]. unfold tracker_gh.
    destruct (bool_decide (_ !! 1%nat = Some (js "list"))); [by apply answer_spec|].
    rewrite bool_decide_false by (intros [_ ?]; done). by apply answer_spec.
  - intros data path labels I F body HF w [<- <-]. unfold tracker_gh. rewrite bool_decide_false by done.
    rewrite bool_decide_true by done. cbn [create_args app lookup list_lookup default]. apply answer_spec; cbn; rewrite HF; auto.
  - intros path text I F w [<- <-]. done.
  - intros path I w <-. cbn. by destruct (tr_files w !! path).
  - intros path I w <-. done.
  - intros path I w <-. done.
  - intros I F w [<- <-]. done.
Qed.

(** A schema with one field, and one request in the checkout. *)
Definition schema : feature_schema :=
  FeatureSchema None [] None [SchemaField (js "objective") (js "objective") (js "Objective") true] (js "Definition of done") [js "Tests pass."].
Definition request_text : str := stringify (JObj [(js "requestId", JStr (js "one")); (js "objective", JStr (js "Search"))]).
Definition request_path : str := js "requests/features/one.json".
(** The answer of the creation is lost. *)
Definition checkout : tracker := Tracker [] {[request_path := request_text]} [false; false; false; false; true].
Definition after_failure : tracker := (processRequests schema (js "Contract") [request_path] false checkout).1.

Lemma paths_one_line : Forall one_line [request_path].
Proof. constructor; [|constructor]. apply (bool_decide_eq_true_1 (_ ∉ _)). vm_compute. reflexivity. Qed.


Lemma reprocess_path_confined_witness :
  includes (js "..") request_path = false ∧ starts_with (js "./") request_path = false.
Proof.
  refine (proj2 (reprocess_path_confined schema (js "Contract") tracker_host (Some (js " ./requests/features/one.json")) checkout checkout
    request_path _)).
  vm_compute. reflexivity.
Defined.
End FeatureExamples.
