(* ===== verification/GraphSearch.v ===== *)
(** * Depth-first search with a shared set of visited nodes

    The workflow validator answers every question about a graph with the same
    idiom: a recursive closure over a mutable [Set] of visited node ids that
    stops at the first hit ([seen.has(id)], [seen.add(id)],
    [outgoing.get(id).some(...)]). [dfs] is that idiom, with the test made on
    arrival, the visited set threaded through the siblings and the early exit
    of [some]; [dfs_exact] and [visited_exact] relate it to reachability. *)

From stdpp Require Import relations.
From S2P Require Import Prelude JsString.

Definition member (x : str) (l : list str) : bool := bool_decide (x ∈ l).

Section Search.
(** The answers of a search: [no] goes on, an answer that [ends] stops
    everything ([true], or an exception). *)
Context {P R : Type}.
Variables (ends : R → bool) (no : R).
Variables (next : str → list str) (hit : P → str → option R) (step : P → str → P).

(** [l.some(f)] where [f] updates a shared state. *)
Fixpoint some_of {A S} (f : A → S → R * S) (l : list A) (s : S) : R * S :=
  match l with
  | [] => (no, s)
  | a :: l => let '(r, s) := f a s in if ends r then (r, s) else some_of f l s
  end.

(** [hit p x] ends the search at [x] with an answer; otherwise [x] is marked
    and its successors are visited with the parameter [step p x]. *)
Fixpoint dfs (fuel : nat) (p : P) (x : str) (seen : list str) : R * list str :=
  match hit p x with
  | Some r => (r, seen)
  | None =>
      if member x seen then (no, seen) else
      match fuel with
      | O => (no, seen)
      | S fuel => some_of (dfs fuel (step p x)) (next x) (x :: seen)
      end
  end.

(** One step of a search: from an unfinished node to a successor. *)
Definition moves (a b : P * str) : Prop :=
  hit a.1 a.2 = None ∧ b.1 = step a.1 a.2 ∧ b.2 ∈ next a.2.

Lemma some_of_sound {A S} (f : A → S → R * S) l s s' r :
  ends no = false → some_of f l s = (r, s') → ends r = true → ∃ a t t', a ∈ l ∧ f a t = (r, t').
Proof.
  intros Hno. revert s. induction l as [|a l IH]; cbn; intros s; [intros [= <-]; congruence|].
  destruct (f a s) as [q t] eqn:E. destruct (ends q) eqn:Eq.
  - intros [= -> ->] _. exists a, s, s'. by split; [left|].
  - intros H Hr. destruct (IH _ H Hr) as (a' & u & u' & ? & ?). exists a', u, u'. split; [by right|done].
Qed.

(** An answer that ends the search comes with a path to the node that gave it. *)
Lemma dfs_sound fuel p x seen seen' r :
  ends no = false → dfs fuel p x seen = (r, seen') → ends r = true →
  ∃ q y, rtc moves (p, x) (q, y) ∧ hit q y = Some r.
Proof.
  intros Hno. revert p x seen seen'. induction fuel as [|fuel IH]; intros p x seen seen'; cbn;
    (destruct (hit p x) as [q|] eqn:Eh; [by intros [= -> _] _; exists p, x; split; [reflexivity|]|]);
    (destruct (member x seen); [intros [= <-]; congruence|]); [intros [= <-]; congruence|].
  intros H Hr. destruct (some_of_sound _ _ _ _ _ Hno H Hr) as (y & t & t' & Hy & E).
  destruct (IH _ _ _ _ E Hr) as (q & z & Hp & Hz). exists q, z. split; [|done].
  eapply rtc_l; [|exact Hp]. done.
Qed.

Lemma some_of_inv {A S} (f : A → S → R * S) l s s' b (I : S → Prop) :
  (∀ a t c t', a ∈ l → I t → f a t = (c, t') → I t') → I s → some_of f l s = (b, s') → I s'.
Proof.
  revert s. induction l as [|a l IH]; cbn; intros s Hf Hs; [by intros [= <- <-]|].
  destruct (f a s) as [c t] eqn:E. assert (I t) by (eapply Hf; [left|exact Hs|exact E]).
  destruct (ends c); [by intros [= <- <-]|]. apply IH; [|done]. intros a' u d u' Ha. apply Hf. by right.
Qed.

(** Only nodes that can be reached are marked, each once. *)
Lemma dfs_inv (Q : str → Prop) (I : list str → Prop) fuel p x seen seen' b :
  (∀ y z, Q y → z ∈ next y → Q z) → (∀ y s, Q y → y ∉ s → I s → I (y :: s)) →
  Q x → I seen → dfs fuel p x seen = (b, seen') → I seen'.
Proof.
  intros HR HI. revert p x seen seen' b. induction fuel as [|fuel IH]; intros p x seen seen' b Hx Hs; cbn;
    (destruct (hit p x); [by intros [= <- <-]|]);
    unfold member; (case_bool_decide as Hm; [by intros [= <- <-]|]); [by intros [= <- <-]|].
  apply (some_of_inv _ _ _ _ _ I); [|by apply HI]. intros a t c t' Ha. apply IH. by eapply HR.
Qed.
End Search.

(** A map of the answers that keeps the ones that end a search maps the search. *)
Lemma some_of_image {R R' A S} (ends : R → bool) no (ends' : R' → bool) no' (φ : R → R')
    (f : A → S → R * S) (f' : A → S → R' * S) l s :
  (∀ r, ends' (φ r) = ends r) → φ no = no' → (∀ a s, f' a s = prod_map φ id (f a s)) →
  some_of ends' no' f' l s = prod_map φ id (some_of ends no f l s).
Proof.
  intros He <- Hf. revert s. induction l as [|a l IH]; cbn; intros s; [done|].
  rewrite Hf. destruct (f a s) as [r t]. cbn. rewrite He. by destruct (ends r).
Qed.
Lemma dfs_image {P R R'} (ends : R → bool) no (ends' : R' → bool) no' (φ : R → R') next
    (hit : P → str → option R) hit' step fuel p x seen :
  (∀ r, ends' (φ r) = ends r) → φ no = no' → (∀ p x, hit' p x = φ <$> hit p x) →
  dfs ends' no' next hit' step fuel p x seen = prod_map φ id (dfs ends no next hit step fuel p x seen).
Proof.
  intros He Hno Hh. revert p x seen. induction fuel as [|fuel IH]; intros p x seen; cbn; rewrite Hh;
    (destruct (hit p x); [done|]); (destruct (member x seen); cbn; [by rewrite Hno|]); [by rewrite Hno|].
  by apply some_of_image; [|auto..].
Qed.

Section Unmarked.
Variable nodes : list str.

(** The number of nodes that are not yet marked. *)
Definition unmarked (seen : list str) : nat :=
  size (list_to_set nodes ∖ list_to_set seen : gset str).

Lemma unmarked_mono seen seen' : seen ⊆ seen' → unmarked seen' ≤ unmarked seen.
Proof.
  intros Hs. unfold unmarked. apply subseteq_size. intros x. rewrite !elem_of_difference, !elem_of_list_to_set.
  intros [? Hn]. split; [done|]. intros Hin. by apply Hn, Hs.
Qed.

Lemma unmarked_cons x seen : x ∈ nodes → x ∉ seen → unmarked (x :: seen) < unmarked seen.
Proof.
  intros Hx Hs. unfold unmarked. apply subset_size. split.
  - intros y. rewrite !elem_of_difference, !elem_of_list_to_set, elem_of_cons. tauto.
  - intros H. specialize (H x). rewrite !elem_of_difference, !elem_of_list_to_set, elem_of_cons in H. tauto.
Qed.

Lemma unmarked_bound seen : unmarked seen ≤ length nodes.
Proof.
  unfold unmarked. transitivity (size (list_to_set nodes : gset str)); [apply subseteq_size; set_solver|].
  clear. induction nodes as [|x l IH]; [done|]. rewrite list_to_set_cons, size_union_alt, size_singleton. cbn.
  apply le_n_S. etransitivity; [|exact IH]. apply subseteq_size. set_solver.
Qed.

End Unmarked.

(** ** Searches whose test depends on the node only *)

Section Exact.
Variables (next : str → list str) (hit : str → option bool) (nodes : list str).
(** Nodes outside the graph have no successors. *)
Hypothesis closed : ∀ x, x ∉ nodes → next x = [].

Let search := dfs id false next (λ _ : unit, hit) (λ _ _, ()).

(** What a search that found nothing has established: the marked set only
    grew, the marked nodes are unfinished, and every successor of a newly
    marked node was marked or ended with the answer no. *)
Definition settled (seen : list str) (x : str) : Prop := x ∈ seen ∨ hit x = Some false.
Definition explored (seen seen' : list str) : Prop :=
  seen ⊆ seen' ∧
  ∀ y, y ∈ seen' → y ∉ seen → hit y = None ∧ ∀ z, z ∈ next y → settled seen' z.

Lemma settled_mono seen seen' x : seen ⊆ seen' → settled seen x → settled seen' x.
Proof. intros Hs [H|H]; [left; by apply Hs | by right]. Qed.

Lemma explored_trans a b c : explored a b → explored b c → explored a c.
Proof.
  intros [H1 H2] [H3 H4]. split; [by transitivity b|]. intros y Hy Ha.
  destruct (decide (y ∈ b)) as [Hb|Hb]; [|by apply H4].
  destruct (H2 y Hb Ha) as [? Hn]. split; [done|]. intros z Hz. eapply settled_mono; [exact H3|auto].
Qed.

Lemma explored_refl a : explored a a.
Proof. split; [done|]. intros y H1 H2. done. Qed.

Lemma some_of_explored (f : str → list str → bool * list str) l seen seen' (U : list str → Prop) :
  (∀ a b, U a → a ⊆ b → U b) → U seen →
  (∀ a s s', a ∈ l → U s → f a s = (false, s') → explored s s' ∧ settled s' a) →
  some_of id false f l seen = (false, seen') → explored seen seen' ∧ ∀ a, a ∈ l → settled seen' a.
Proof.
  intros HU. revert seen. induction l as [|a l IH]; cbn; intros seen Hs Hf.
  - intros [= <-]. split; [apply explored_refl|]. intros a []%elem_of_nil.
  - destruct (f a seen) as [[] t] eqn:E; [discriminate|].
    destruct (Hf a seen t) as [H1 H2]; [by left|done|done|].
    intros [H3 H4]%IH; [|by eapply HU; [|apply H1] | intros b s s' Hb; apply Hf; by right].
    split; [by eapply explored_trans|]. intros b [->|Hb]%elem_of_cons; [|auto].
    eapply settled_mono; [apply H3|done].
Qed.

(** Enough fuel for the unmarked nodes: a negative answer explored everything. *)
Lemma dfs_explored fuel x seen seen' :
  unmarked nodes seen < fuel → search fuel () x seen = (false, seen') →
  explored seen seen' ∧ settled seen' x.
Proof.
  revert x seen seen'. induction fuel as [|fuel IH]; intros x seen seen' Hf; [lia|]. cbn.
  destruct (hit x) as [[]|] eqn:Eh; [discriminate | |].
  { intros [= <-]. split; [apply explored_refl | by right]. }
  unfold member. case_bool_decide as Hx.
  { intros [= <-]. split; [apply explored_refl | by left]. }
  destruct (decide (x ∈ nodes)) as [Hn|Hn].
  - pose proof (unmarked_cons nodes x seen Hn Hx) as Hc.
    intros [[H1 H2] H3]%(some_of_explored _ _ _ _ (λ s, unmarked nodes s < fuel)).
    + split; [|left; apply H1; by left]. split; [intros y Hy; apply H1; by right|].
      intros y Hy Hs. destruct (decide (y = x)) as [->|Hne]; [by split|].
      apply H2; [done|]. by intros [->|?]%elem_of_cons.
    + intros a b Ha Hab. pose proof (unmarked_mono nodes _ _ Hab). lia.
    + lia.
    + intros a s s' _. apply IH.
  - rewrite closed by done. cbn. intros [= <-]. split; [|by left; left].
    split; [intros y Hy; by right|]. intros y [->|Hy]%elem_of_cons Hs; [|done].
    rewrite closed by done. split; [done|]. intros z []%elem_of_nil.
Qed.

(** [x] leads to [y] through unfinished nodes. *)
Definition leads_to : str → str → Prop := rtc (λ a b, hit a = None ∧ b ∈ next a).

(** The search answers yes exactly when it can reach a node that answers yes. *)
Lemma dfs_exact fuel x :
  length nodes < fuel → (search fuel () x []).1 = true ↔ ∃ y, leads_to x y ∧ hit y = Some true.
Proof.
  intros Hf. destruct (search fuel () x []) as [b seen] eqn:E. cbn. split.
  - intros ->. destruct (dfs_sound _ _ _ _ _ _ _ _ _ _ _ eq_refl E eq_refl) as ([] & y & Hp & Hy). exists y. split; [|done].
    eapply (rtc_congruence snd) in Hp; [exact Hp|]. by intros [[] a] [[] c] (? & _ & ?).
  - intros (y & Hp & Hy). destruct b; [done|exfalso].
    apply dfs_explored in E as [[_ Hc] Hx]; [|pose proof (unmarked_bound nodes []); lia].
    assert (settled seen y) as [Hy'|Hy']; [|destruct (Hc y Hy') as [? _]; [apply not_elem_of_nil|congruence]|congruence].
    induction Hp as [|x z y [Hn Hz] Hp IH]; [done|]. apply IH; [|done].
    destruct Hx as [Hx|Hx]; [|congruence]. apply (Hc x Hx); [apply not_elem_of_nil|done].
Qed.
End Exact.

(** ** Searches that mark everything they can reach *)

Section Visited.
Variables (next : str → list str) (nodes : list str).
Hypothesis closed : ∀ x, x ∉ nodes → next x = [].

Definition visited (fuel : nat) (x : str) : list str :=
  (dfs id false next (λ (_ : unit) (_ : str), None) (λ _ _, ()) fuel () x []).2.

Lemma visited_nodup fuel x : NoDup (visited fuel x).
Proof.
  unfold visited. destruct (dfs _ _ _ _ _ _ _ _ _) as [b seen] eqn:E. cbn.
  eapply (dfs_inv _ _ _ _ _ (λ _, True) NoDup) in E; [done|done| |done|apply NoDup_nil_2].
  intros y s _ ? ?. by apply NoDup_cons_2.
Qed.

Lemma visited_exact fuel x y :
  length nodes < fuel → y ∈ visited fuel x ↔ rtc (λ a b, b ∈ next a) x y.
Proof.
  intros Hf. unfold visited. destruct (dfs _ _ _ _ _ _ _ _ _) as [b seen] eqn:E. cbn. split.
  - revert y. pose (R := rtc (λ a b, b ∈ next a) x).
    refine (dfs_inv _ _ _ _ _ R (λ s, ∀ y, y ∈ s → R y) _ _ _ _ _ _ _ _ _ _ E);
      [| |by apply rtc_refl|by intros y ?%not_elem_of_nil].
    + intros y z Hy Hz. by eapply rtc_r.
    + cbn. intros y s Hy _ Hs z [->|Hz]%elem_of_cons; auto.
  - destruct b.
    + by destruct (dfs_sound _ _ _ _ _ _ _ _ _ _ _ eq_refl E eq_refl) as (? & ? & _ & ?).
    + apply (dfs_explored next (λ _, None) nodes closed) in E as [[_ Hc] Hx];
        [|pose proof (unmarked_bound nodes []); lia].
      intros Hp. destruct Hx as [Hx|Hx]; [|done].
      induction Hp as [|x z y Hz Hp IH]; [done|]. apply IH.
      destruct (Hc x Hx) as [_ Hn]; [apply not_elem_of_nil|]. by destruct (Hn z Hz).
Qed.
End Visited.
