(* ===== verification/WorkflowBlocks.v ===== *)
(** * The registry of workflow blocks (src/lib/workflow-block-registry.ts)

    A block type at a version has input and output ports, a zod schema for its
    configuration and the agents or workflows the configuration refers to.
    [register], [resolve], [validate], [references] and [port] are the methods
    of [WorkflowBlockRegistry] over its map of blocks (an association list in
    insertion order, keyed [type@version]); [workflowBlockRegistry] is the
    exported registry, the result of its eight registrations. Schemas map a
    JSON value to the parsed value, with defaults filled in and keys in the
    order of the shape. *)

From S2P Require Import Prelude JsString Regex Json Layout Libs Contract.

(** A block error carries its message; the message of a zod error is the
    library's own. *)
Inductive block_error : Type :=
| BlockError (message : str)
| ConfigError.

(** ** Schemas *)

(** The value of [z.object(shape).strict().parse(v)] *)
Definition schema : Type := jsval → option jsval.

Definition has_key (k : str) (o : list (str * jsval)) : bool := existsb (λ kv, str_eqb k kv.1) o.
Fixpoint z_shape (shape : list (str * schema)) (o : list (str * jsval)) : option (list (str * jsval)) :=
  match shape with
  | [] => Some []
  | (k, p) :: shape =>
      v ← p (field k o); rest ← z_shape shape o;
      Some (if is_undefined v && negb (has_key k o) then rest else (k, v) :: rest)
  end.
Definition z_object (shape : list (str * schema)) : schema := λ v,
  match v with
  | JObj o =>
      if forallb (λ kv, existsb (λ s, str_eqb kv.1 s.1) shape) o then JObj <$> z_shape shape o else None
  | _ => None
  end.

(** [z.string().regex(DEFINITION_ID).max(80)] *)
Definition is_definition_id (s : str) : bool := is_artifact_id s && (length s <=? 80)%nat.
Definition z_id : schema := λ v, s ← z_string v; if is_definition_id s then Some (JStr s) else None.
(** [z.string().min(lo).max(hi)] and [z.string().trim().min(1).max(hi)] *)
Definition text_length (s : str) : Z := Z.of_nat (length s).
Definition z_text (lo hi : Z) : schema := λ v,
  s ← z_string v; if (lo <=? text_length s)%Z && (text_length s <=? hi)%Z then Some (JStr s) else None.
Definition z_trim (hi : Z) : schema := λ v,
  s ← z_string v; if nonempty (trim s) && (text_length (trim s) <=? hi)%Z then Some (JStr (trim s)) else None.
Definition z_bool : schema := λ v, match v with JBool b => Some v | _ => None end.
Definition z_word (w : str) : schema := λ v, match v with JStr s => if str_eqb s w then Some v else None | _ => None end.
(** [.optional()] and [.default(d)] *)
Definition z_opt (p : schema) : schema := λ v, match v with JUndefined => Some JUndefined | _ => p v end.
Definition z_or (d : jsval) (p : schema) : schema := λ v, match v with JUndefined => Some d | _ => p v end.
(** [z.array(p).max(n)] *)
Definition z_list (p : schema) (n : nat) : schema := λ v,
  match v with JArr l => if (length l <=? n)%nat then JArr <$> mapM p l else None | _ => None end.

Definition MAX_AGENT_CONTEXT_SOURCES : nat := 16.
Definition APPROVAL_MESSAGE_MAX_LENGTH : Z := 2000.

Definition agentBlockConfigSchema : schema := z_object [(js "agentId", z_id)].
Definition agentContextSchema : schema :=
  z_object [(js "publishOutput", z_or (JBool false) z_bool); (js "includeRunInput", z_or (JBool false) z_bool);
            (js "includeNodeOutputs", z_or (JArr []) (z_list z_id MAX_AGENT_CONTEXT_SOURCES))].
Definition agentBlockV2ConfigSchema : schema :=
  z_object [(js "agentId", z_id); (js "context", z_opt agentContextSchema)].
Definition agentConversationSchema : schema := z_object [(js "sourceNodeId", z_id)].
Definition agentBlockV3ConfigSchema : schema :=
  z_object [(js "agentId", z_id); (js "context", z_opt agentContextSchema);
            (js "conversation", z_opt agentConversationSchema)].
Definition conditionBlockConfigSchema : schema :=
  z_object [(js "operator", z_word (js "contains")); (js "value", z_text 1 4096);
            (js "caseSensitive", z_or (JBool false) z_bool)].
Definition joinBlockConfigSchema : schema := z_object [].
Definition approvalBlockConfigSchema : schema := z_object [(js "message", z_trim APPROVAL_MESSAGE_MAX_LENGTH)].
Definition subworkflowBlockConfigSchema : schema := z_object [(js "workflowId", z_id)].
Definition publishGitHubPrBlockConfigSchema : schema :=
  z_object [(js "sourceNodeId", z_id); (js "title", z_trim 256); (js "body", z_text 0 65536);
            (js "draft", z_bool)].

(** ** Registry *)

(** Every port has [dataType "text"]. *)
Record BlockPort := Port { port_id : str; port_default : bool; port_multiple : bool }.
(** [{agentIds?, workflowIds?}]; an absent list is empty, as its readers have it ([?? []]). *)
Record block_references := Refs { agentIds : list str; workflowIds : list str }.
Definition no_references : block_references := Refs [] [].

Record RegisteredBlock := Block {
  block_type : str;
  block_version : Z;
  block_schema : schema;
  block_inputs : list BlockPort;
  block_outputs : list BlockPort;
  block_refs : jsval → block_references;
  block_label : str;
}.

Definition registry : Type := list (str * RegisteredBlock).
Inductive direction := Inputs | Outputs.

Definition block_key (type : str) (version : Z) : str := type ++ js "@" ++ dec_of_Z version.

Definition ports_valid (ports : list BlockPort) : bool :=
  negb (Nat.eqb (length ports) 0) && Nat.eqb (length (dedup (map port_id ports))) (length ports) &&
  Nat.eqb (length (List.filter port_default ports)) 1.

Definition register (blocks : registry) (block : RegisteredBlock) : outcome block_error registry :=
  let key := block_key (block_type block) (block_version block) in
  match assoc key blocks with
  | Some _ => Throw (BlockError (js "duplicate_block_registration"))
  | None =>
      if ports_valid (block_inputs block) && ports_valid (block_outputs block) then Ok (obj_set key block blocks)
      else Throw (BlockError (js "invalid_block_ports"))
  end.

Definition hasType (blocks : registry) (type : str) : bool :=
  existsb (λ kb, str_eqb (block_type kb.2) type) blocks.

Definition registry_resolve (blocks : registry) (type : str) (version : Z) : outcome block_error RegisteredBlock :=
  match assoc (block_key type version) blocks with
  | Some block => Ok block
  | None => Throw (BlockError (if hasType blocks type then js "unsupported_block_version:" ++ block_key type version
                               else js "unknown_block_type:" ++ type))
  end.

Definition validate (blocks : registry) (type : str) (version : Z) (config : jsval) : outcome block_error jsval :=
  block ← registry_resolve blocks type version; from_option_throw ConfigError (block_schema block config).

Definition references (blocks : registry) (type : str) (version : Z) (config : jsval) :
    outcome block_error block_references :=
  block ← registry_resolve blocks type version; parsed ← from_option_throw ConfigError (block_schema block config);
  Ok (block_refs block parsed).

Definition interface (block : RegisteredBlock) (d : direction) : list BlockPort :=
  match d with Inputs => block_inputs block | Outputs => block_outputs block end.

Definition port (blocks : registry) (type : str) (version : Z) (d : direction) (given : option str) :
    outcome block_error str :=
  block ← registry_resolve blocks type version;
  let ports := interface block d in
  let resolved := match given with
                  | Some p => Some p
                  | None => port_id <$> find_list port_default ports
                  end in
  let unknown := BlockError (js "unknown_" ++ (match d with Inputs => js "target" | Outputs => js "source" end) ++
                             js "_port:" ++ default (js "default") given) in
  match resolved with
  | Some p => if nonempty p && existsb (λ q, str_eqb (port_id q) p) ports then Ok p else Throw unknown
  | None => Throw unknown
  end.

(** ** The registered blocks *)

Definition port_in : list BlockPort := [Port (js "in") true false].
Definition port_out : list BlockPort := [Port (js "out") true false].

(** [config.agentId] and [config.workflowId] of a parsed configuration *)
Definition text_field (k : str) (config : jsval) : list str :=
  match config with
  | JObj o => match field k o with JStr s => [s] | _ => [] end
  | _ => []
  end.
Definition agent_refs (config : jsval) : block_references := Refs (text_field (js "agentId") config) [].
Definition workflow_refs (config : jsval) : block_references := Refs [] (text_field (js "workflowId") config).

Definition standard_blocks : list RegisteredBlock :=
  [Block (js "agent") 1 agentBlockConfigSchema port_in port_out agent_refs (js "Agent");
   Block (js "agent") 2 agentBlockV2ConfigSchema port_in port_out agent_refs (js "Agent");
   Block (js "agent") 3 agentBlockV3ConfigSchema port_in port_out agent_refs (js "Agent");
   Block (js "condition") 1 conditionBlockConfigSchema port_in
     [Port (js "true") true false; Port (js "false") false false] (λ _, no_references) (js "Condition");
   Block (js "approval") 1 approvalBlockConfigSchema port_in port_out (λ _, no_references) (js "Approval");
   Block (js "publish-github-pr") 1 publishGitHubPrBlockConfigSchema
     [Port (js "managed-result") true false] [Port (js "pull-request") true false]
     (λ _, no_references) (js "Publish GitHub PR");
   Block (js "subworkflow") 1 subworkflowBlockConfigSchema port_in port_out workflow_refs (js "Reusable workflow");
   Block (js "join") 1 joinBlockConfigSchema [Port (js "in") true true] port_out (λ _, no_references) (js "Join")].

Definition register_all (blocks : list RegisteredBlock) : outcome block_error registry :=
  foldl (λ r b, r ≫= λ blocks, register blocks b) (Ok []) blocks.

Definition workflowBlockRegistry : registry :=
  match register_all standard_blocks with Ok blocks => blocks | Throw _ => [] end.

(** ** Facts *)

(** The eight registrations succeed: loading the module does not throw. *)
Lemma registry_built : register_all standard_blocks = Ok workflowBlockRegistry ∧ length workflowBlockRegistry = 8.
Proof. by vm_compute. Qed.

Lemma assoc_elem {A} k (v : A) o : assoc k o = Some v → (k, v) ∈ o.
Proof.
  induction o as [|[k' v'] o IH]; cbn; [done|]. destruct (str_eqb k k') eqn:E; [|by right; auto].
  apply str_eqb_eq in E as ->. intros [= ->]. left.
Qed.

(** A resolved block is one of the registered ones. *)
Lemma resolve_standard type version block :
  registry_resolve workflowBlockRegistry type version = Ok block →
  block ∈ standard_blocks ∧ block_key type version = block_key (block_type block) (block_version block).
Proof.
  unfold registry_resolve. destruct (assoc _ _) as [b|] eqn:E; [|done]. intros [= ->]. apply assoc_elem in E.
  assert (workflowBlockRegistry = map (λ b, (block_key (block_type b) (block_version b), b)) standard_blocks) as Hr
    by (by vm_compute).
  rewrite Hr in E. apply list_elem_of_fmap in E as (b & [= Hk ->] & Hb). by split.
Qed.
