(* ===== verification/WorkflowGraph.v ===== *)
(** * Workflow graphs (src/lib/workflow-definitions.ts, [validateGraphTopology])

    A workflow is a list of nodes (blocks with a raw configuration) and edges
    between their ports. The validator resolves the ports, indexes the edges
    by source and by target and reports issues: each check of the source is a
    definition that returns its issues in order, and [validateGraphTopology]
    concatenates them. The configurations are read raw, before or without
    having passed their schemas, so a property access on [null] or [undefined]
    throws ([GraphTypeError]).

    Maps are association lists in insertion order ([obj_set] keeps the place
    of an existing key). A node carries its index in [workflow.nodes], which
    is its identity ([workflow.nodes.indexOf(node)]). *)

From S2P Require Import Prelude JsString Json Layout Libs Contract GithubClient GraphSearch WorkflowBlocks.

(** ** Data *)

Record wf_node := Node { nd_id : str; nd_type : str; nd_version : Z; nd_config : jsval }.
Record wf_edge := Edge {
  ed_id : str; ed_source : str; ed_sourcePort : option str; ed_target : str; ed_targetPort : option str;
}.
(** An edge with its ports resolved: [{...edge, sourcePort, targetPort}] *)
Record wf_link := Link { ln_source : str; ln_sourcePort : str; ln_target : str; ln_targetPort : str }.

Inductive path_item := PKey (k : str) | PIndex (i : nat).
Inductive issue_text := Text (message : str) | ZodText.
Record issue := Issue { issue_message : issue_text; issue_path : list path_item }.
Inductive graph_error := GraphTypeError.

Definition at_edge (i : nat) : list path_item := [PKey (js "edges"); PIndex i].
Definition at_node (i : nat) : list path_item := [PKey (js "nodes"); PIndex i].
Definition at_edges : list path_item := [PKey (js "edges")].
Definition at_nodes : list path_item := [PKey (js "nodes")].
(** [if (b) context.addIssue({code: "custom", message, path})] *)
Definition issue_if (b : bool) (message : string) (path : list path_item) : list issue :=
  if b then [Issue (Text (js message)) path] else [].
(** [error instanceof Error ? error.message : ...] *)
Definition error_issue (e : block_error) (path : list path_item) : issue :=
  Issue (match e with BlockError m => Text m | ConfigError => ZodText end) path.

Definition inode : Type := nat * wf_node.
Record graph := Graph {
  g_byId : list (str * inode);
  g_incoming : list (str * list wf_link);
  g_outgoing : list (str * list wf_link);
}.

(** [new Map(entries)] *)
Definition map_of {A} (entries : list (str * A)) : list (str * A) :=
  foldl (λ m kv, obj_set kv.1 kv.2 m) [] entries.
Definition indexed (nodes : list wf_node) : list inode := zip (seq 0 (length nodes)) nodes.
Definition byId_of (nodes : list wf_node) : list (str * inode) :=
  map_of (map (λ n, (nd_id n.2, n)) (indexed nodes)).
Definition no_links (nodes : list wf_node) : list (str * list wf_link) :=
  map_of (map (λ n, (nd_id n, [])) nodes).

(** [incoming.get(id) ?? []], [outgoing.get(id) ?? []], [byId.get(id)?.blockType] *)
Definition links (m : list (str * list wf_link)) (id : str) : list wf_link := default [] (assoc id m).
Definition ins_of (g : graph) (id : str) : list wf_link := links (g_incoming g) id.
Definition outs_of (g : graph) (id : str) : list wf_link := links (g_outgoing g) id.
Definition node_of (g : graph) (id : str) : option wf_node := snd <$> assoc id (g_byId g).
Definition has_type (g : graph) (t : str) (id : str) : bool :=
  match node_of g id with Some n => str_eqb (nd_type n) t | None => false end.
Definition targets (g : graph) (id : str) : list str := map ln_target (outs_of g id).
Definition sources (g : graph) (id : str) : list str := map ln_source (ins_of g id).

Definition t_condition : str := js "condition".
Definition t_join : str := js "join".
Definition t_approval : str := js "approval".
Definition t_agent : str := js "agent".
Definition t_subworkflow : str := js "subworkflow".
Definition t_publish : str := js "publish-github-pr".
Definition is_condition (g : graph) : str → bool := has_type g t_condition.
Definition is_join (g : graph) : str → bool := has_type g t_join.

(** ** Edges *)

Record edge_state := EdgeState {
  es_incoming : list (str * list wf_link);
  es_outgoing : list (str * list wf_link);
  es_semantic : list str;
  es_issues : list issue;
}.

(** [map.get(key).push(link)] *)
Definition push_link (key : str) (l : wf_link) (m : list (str * list wf_link)) : list (str * list wf_link) :=
  obj_set key (links m key ++ [l]) m.

Definition semantic_key (l : wf_link) : str :=
  ln_source l ++ js ":" ++ ln_sourcePort l ++ js "->" ++ ln_target l ++ js ":" ++ ln_targetPort l.

Definition resolve_link (source target : wf_node) (e : wf_edge) : outcome block_error wf_link :=
  sourcePort ← port workflowBlockRegistry (nd_type source) (nd_version source) Outputs (ed_sourcePort e);
  targetPort ← port workflowBlockRegistry (nd_type target) (nd_version target) Inputs (ed_targetPort e);
  Ok (Link (ed_source e) sourcePort (ed_target e) targetPort).

Definition add_edge (byId : list (str * inode)) (st : edge_state) (ie : nat * wf_edge) : edge_state :=
  let '(i, e) := ie in
  let fail problem := EdgeState (es_incoming st) (es_outgoing st) (es_semantic st) (es_issues st ++ [problem]) in
  match assoc (ed_source e) byId, assoc (ed_target e) byId with
  | Some (_, source), Some (_, target) =>
      match resolve_link source target e with
      | Throw err => fail (error_issue err (at_edge i))
      | Ok l =>
          let key := semantic_key l in
          EdgeState (push_link (ed_target e) l (es_incoming st)) (push_link (ed_source e) l (es_outgoing st))
            (key :: es_semantic st)
            (es_issues st ++ issue_if (member key (es_semantic st)) "Duplicate semantic edges are not permitted." (at_edge i))
      end
  | _, _ => fail (Issue (Text (js "Edge endpoints must exist.")) (at_edge i))
  end.

Definition index_edges (nodes : list wf_node) (edges : list wf_edge) : edge_state :=
  foldl (add_edge (byId_of nodes)) (EdgeState (no_links nodes) (no_links nodes) [] [])
    (zip (seq 0 (length edges)) edges).
Definition graph_of (nodes : list wf_node) (edges : list wf_edge) : graph :=
  let st := index_edges nodes edges in Graph (byId_of nodes) (es_incoming st) (es_outgoing st).

(** ** Searches *)

(** The validator's searches mark each node of the map at most once. *)
Definition search_fuel (g : graph) : nat := S (length (g_byId g)).

(** Search for a node along outgoing edges, stopping where [stop] holds. *)
Definition finds (g : graph) (goal stop : str → bool) (start : str) : bool :=
  (dfs id false (targets g) (λ (_ : unit) x, if goal x then Some true else if stop x then Some false else None)
     (λ _ _, ()) (search_fuel g) () start []).1.
Definition canReach (g : graph) (source target : str) : bool :=
  finds g (str_eqb target) (λ _, false) source.
Definition reach_set (g : graph) (next : str → list str) (start : str) : list str :=
  visited next (search_fuel g) start.

(** ** Entry and terminal *)

Definition no_link_keys (m : list (str * list wf_link)) : list str :=
  map fst (List.filter (λ kl, Nat.eqb (length kl.2) 0) m).
Definition cycleRoots (g : graph) (edges : list wf_edge) : list str :=
  map ed_target (List.filter (λ e, is_condition g (ed_source e) && canReach g (ed_target e) (ed_source e)) edges).
Definition entries (g : graph) (edges : list wf_edge) : list str :=
  let roots := no_link_keys (g_incoming g) in
  if negb (Nat.eqb (length roots) 0) then roots else dedup (cycleRoots g edges).
Definition terminals (g : graph) : list str := no_link_keys (g_outgoing g).

Definition check_ends (g : graph) (edges : list wf_edge) : list issue :=
  issue_if (negb (Nat.eqb (length (entries g edges)) 1)) "Workflow must have exactly one graph entry." at_edges ++
  issue_if (negb (Nat.eqb (length (terminals g)) 1)) "Workflow must have exactly one successful terminal." at_edges.

(** ** Nodes *)

Definition count_port (p : str) (ls : list wf_link) : nat :=
  length (List.filter (λ l, str_eqb (ln_sourcePort l) p) ls).
Definition p_true : str := js "true".
Definition p_false : str := js "false".

Definition check_condition (i : nat) (ins outs : list wf_link) : list issue :=
  issue_if (negb (Nat.eqb (length ins) 1)) "Condition must have exactly one input." (at_node i) ++
  issue_if (negb (Nat.eqb (length outs) 2) || negb (Nat.eqb (count_port p_true outs) 1) ||
            negb (Nat.eqb (count_port p_false outs) 1))
    "Condition must have exactly one true route and one false route." (at_node i).

(** The only predecessor of a node *)
Definition sole_source (g : graph) (id : str) : option str :=
  match ins_of g id with [l] => Some (ln_source l) | _ => None end.
Definition leads_only_to (g : graph) (target id : str) : bool :=
  match outs_of g id with [l] => str_eqb (ln_target l) target | _ => false end.

Definition structured (g : graph) (id : str) (ins : list wf_link) : bool :=
  let predecessors := map ln_source ins in
  let origins := map (sole_source g) predecessors in
  match origins with
  | Some origin :: _ =>
      nonempty origin && forallb (λ o, bool_decide (o = Some origin)) origins && negb (is_condition g origin) &&
      Nat.eqb (length (outs_of g origin)) (length predecessors) && forallb (leads_only_to g id) predecessors
  | _ => false
  end.
Definition check_join (g : graph) (i : nat) (id : str) (ins outs : list wf_link) : list issue :=
  issue_if (length ins <? 2)%nat "Join must have at least two incoming branches." (at_node i) ++
  issue_if (negb (Nat.eqb (length outs) 1)) "Join must have exactly one outgoing route." (at_node i) ++
  issue_if (negb (structured g id ins)) "Join must close one direct structured parallel fan-out." (at_node i).

(** A path from [start] back to [source] on which a Condition was met *)
Definition controlled_cycle (g : graph) (start source : str) : bool :=
  (dfs id false (targets g)
     (λ (hasCondition : bool) x, if str_eqb x source then Some (hasCondition || is_condition g x) else None)
     (λ hasCondition x, hasCondition || is_condition g x) (search_fuel g) false start []).1.
Definition controlledCycleMerge (g : graph) (id : str) (ins : list wf_link) : bool :=
  existsb (λ l, controlled_cycle g id (ln_source l)) ins.

(** Both routes of the candidate lead to a predecessor of the node. *)
Definition route_start (g : graph) (candidate p : str) : option str :=
  ln_target <$> find_list (λ l, str_eqb (ln_sourcePort l) p) (outs_of g candidate).
Definition route_leads (g : graph) (id : str) (ins : list wf_link) (candidate p : str) : bool :=
  match route_start g candidate p with
  | Some start => nonempty start && finds g (λ x, existsb (λ l, str_eqb (ln_source l) x) ins) (str_eqb id) start
  | None => false
  end.
Definition exclusive (g : graph) (id : str) (ins : list wf_link) : bool :=
  existsb (λ kn, str_eqb (nd_type kn.2.2) t_condition &&
                 forallb (route_leads g id ins (nd_id kn.2.2)) [p_true; p_false]) (g_byId g).
Definition check_merge (g : graph) (i : nat) (id : str) (ins : list wf_link) : list issue :=
  if (1 <? length ins)%nat then
    issue_if (negb (exclusive g id ins) && negb (controlledCycleMerge g id ins))
      "Only Join may receive multiple parallel edges." (at_node i)
  else [].

(** The joins that can be reached without passing one, in the order found *)
Definition before_join (g : graph) (id : str) : list str := if is_join g id then [] else targets g id.
Definition joinsFor (g : graph) (start : str) : list str :=
  List.filter (is_join g) (rev (reach_set g (before_join g) start)).
Definition common_joins (g : graph) (outs : list wf_link) : list str :=
  let sets := map (λ l, joinsFor g (ln_target l)) outs in
  List.filter (λ j, forallb (member j) sets) (default [] (head sets)).
Definition containsApproval (g : graph) (j start : str) : bool :=
  finds g (λ x, negb (str_eqb x j) && has_type g t_approval x) (str_eqb j) start.
Definition check_fan_out (g : graph) (i : nat) (outs : list wf_link) : list issue :=
  issue_if (3 <? length outs)%nat "Fan-out exceeds the supported concurrency bound." (at_node i) ++
  (if (1 <? length outs)%nat then
     match common_joins g outs with
     | [] => issue_if true "Fan-out branches must reconverge at an explicit Join." (at_node i)
     | j :: _ => issue_if (existsb (λ l, containsApproval g j (ln_target l)) outs)
                   "Approval is not supported inside a structured parallel fan-out." (at_node i)
     end
   else []).

Definition check_node (g : graph) (kn : str * inode) : list issue :=
  let '(id, (i, node)) := kn in
  let ins := ins_of g id in let outs := outs_of g id in
  (if str_eqb (nd_type node) t_condition then check_condition i ins outs
   else if str_eqb (nd_type node) t_join then check_join g i id ins outs
   else check_merge g i id ins) ++
  (if str_eqb (nd_type node) t_condition then [] else check_fan_out g i outs).

(** ** Configurations, read raw *)

(** [v.k] and [v?.k] *)
Definition raw_prop (k : string) (v : jsval) : outcome graph_error jsval :=
  match v with
  | JUndefined | JNull => Throw GraphTypeError
  | JObj o => Ok (field (js k) o)
  | _ => Ok JUndefined
  end.
Definition prop_opt (k : string) (v : jsval) : jsval :=
  match v with JObj o => field (js k) o | _ => JUndefined end.

(** [byId.get(v)] *)
Definition node_at (g : graph) (v : jsval) : option wf_node :=
  match v with JStr s => node_of g s | _ => None end.
Definition is_id (v : jsval) (id : str) : bool := match v with JStr s => str_eqb s id | _ => false end.
Definition agent_node (n : wf_node) : bool := str_eqb (nd_type n) t_agent.
(** [[2, 3].includes(node.blockVersion)] *)
Definition v2_or_v3 (n : wf_node) : bool := (nd_version n =? 2)%Z || (nd_version n =? 3)%Z.

Definition check_publish (g : graph) (n : inode) : outcome graph_error (list issue) :=
  let '(i, node) := n in
  if str_eqb (nd_type node) t_publish then
    source ← raw_prop "sourceNodeId" (nd_config node);
    let ins := ins_of g (nd_id node) in
    let ok := match source, ins with
              | JStr s, [l] => nonempty s && has_type g t_agent s && str_eqb (ln_source l) s
              | _, _ => false
              end in
    Ok (issue_if (negb ok) "Publish GitHub PR must directly follow its configured Codex Agent source." (at_node i))
  else Ok [].

(** The code points of a string: [for (const c of s)] *)
Fixpoint code_points (s : str) : list str :=
  match s with
  | [] => []
  | c :: s' =>
      match s' with
      | d :: s'' => if in_range 55296 56319 c && in_range 56320 57343 d then [c; d] :: code_points s''
                    else [c] :: code_points s'
      | [] => [[c]]
      end
  end.
(** [for (const x of v ?? [])] *)
Definition iterate (v : jsval) : outcome graph_error (list jsval) :=
  match v with
  | JUndefined | JNull => Ok []
  | JArr l => Ok l
  | JStr s => Ok (map JStr (code_points s))
  | _ => Throw GraphTypeError
  end.

(** The published context of a source, [undefined] unless it is an agent at version 2 or 3 *)
Definition source_context (source : option wf_node) : outcome graph_error jsval :=
  match source with
  | Some s => if agent_node s && v2_or_v3 s then raw_prop "context" (nd_config s) else Ok JUndefined
  | None => Ok JUndefined
  end.
Definition is_true (v : jsval) : bool := match v with JBool b => b | _ => false end.
Definition context_source_ok (g : graph) (node : wf_node) (v context : jsval) : bool :=
  match v, node_at g v with
  | JStr s, Some source =>
      negb (str_eqb s (nd_id node)) && agent_node source && v2_or_v3 source &&
      is_true (prop_opt "publishOutput" context) && canReach g s (nd_id node)
  | _, _ => false
  end.
Definition check_context_source (g : graph) (n : inode) (v : jsval) : outcome graph_error (list issue) :=
  context ← source_context (node_at g v);
  Ok (issue_if (negb (context_source_ok g n.2 v context))
        "Selected context must reference a publishing Agent block that can execute before this Agent."
        (at_node n.1 ++ [PKey (js "config"); PKey (js "context"); PKey (js "includeNodeOutputs")])).
Definition check_context (g : graph) (n : inode) : outcome graph_error (list issue) :=
  if agent_node n.2 && v2_or_v3 n.2 then
    context ← raw_prop "context" (nd_config n.2);
    selected ← iterate (prop_opt "includeNodeOutputs" context);
    outcome_map (@concat _) (mapM (check_context_source g n) selected)
  else Ok [].

(** ** Conversations *)

(** The agents at version 3 that continue a conversation, with their [sourceNodeId] *)
Definition conversation_of (n : inode) : outcome graph_error (list (inode * jsval)) :=
  if agent_node n.2 && (nd_version n.2 =? 3)%Z then
    conversation ← raw_prop "conversation" (nd_config n.2);
    Ok (if truthy conversation then [(n, prop_opt "sourceNodeId" conversation)] else [])
  else Ok [].
(** [parent]; a value keeps the index of the node it comes from, the identity of an object *)
Definition parents (conversations : list (inode * jsval)) : list (str * (nat * jsval)) :=
  map_of (map (λ c, (nd_id c.1.2, (c.1.1, c.2))) conversations).

(** The loop that follows the sources from [cursor] *)
Fixpoint chain_cycles (fuel : nat) (parent : list (str * (nat * jsval))) (cursor : jsval) (seen : list str) : bool :=
  match fuel, cursor with
  | S fuel, JStr s =>
      if nonempty s then
        match assoc s parent with
        | Some (_, next) => member s seen || chain_cycles fuel parent next (s :: seen)
        | None => false
        end
      else false
  | _, _ => false
  end.
Definition chain_fuel (parent : list (str * (nat * jsval))) : nat := 2 + length parent.

Definition at_conversation (i : nat) : list path_item := at_node i ++ [PKey (js "config"); PKey (js "conversation")].
(** The value a Map holds is the last one; every continuation reads its own id from it. *)
Definition parent_of (parent : list (str * (nat * jsval))) (c : inode * jsval) : nat * jsval :=
  default (c.1.1, c.2) (assoc (nd_id c.1.2) parent).
Definition conversation_source_ok (g : graph) (id : str) (v : jsval) : bool :=
  match v, node_at g v with
  | JStr s, Some source => negb (str_eqb s id) && agent_node source && canReach g s id
  | _, _ => false
  end.
Definition check_conversation (g : graph) (parent : list (str * (nat * jsval))) (c : inode * jsval) : list issue :=
  let id := nd_id c.1.2 in
  let source := (parent_of parent c).2 in
  issue_if (negb (conversation_source_ok g id source)) "Conversation source must reference an earlier Agent block."
    (at_conversation c.1.1 ++ [PKey (js "sourceNodeId")]) ++
  issue_if (chain_cycles (chain_fuel parent) parent source [id]) "Conversation references must not contain a cycle."
    (at_conversation c.1.1).

(** [conversationRoot]: the first id of the chain that does not continue another, or the first repeated one *)
Fixpoint conversationRoot (fuel : nat) (parent : list (str * (nat * jsval))) (value : nat * jsval) (seen : list str) :
    nat * jsval :=
  match fuel, value.2 with
  | S fuel, JStr s =>
      match assoc s parent with
      | Some next => if member s seen then value else conversationRoot fuel parent next (s :: seen)
      | None => value
      end
  | _, _ => value
  end.
(** [===]: objects by identity *)
Definition same_root (a b : nat * jsval) : bool :=
  match a.2, b.2 with
  | JStr s, JStr t => str_eqb s t
  | JUndefined, JUndefined | JNull, JNull => true
  | JBool x, JBool y => Bool.eqb x y
  | JNum (NInt x), JNum (NInt y) => (x =? y)%Z
  | JNum (NDec m e), JNum (NDec n f) => (m * 10 ^ Zpos f =? n * 10 ^ Zpos e)%Z
  | JNum (NInf x), JNum (NInf y) => Bool.eqb x y
  | JArr _, JArr _ | JObj _, JObj _ | JDate _, JDate _ => Nat.eqb a.1 b.1
  | _, _ => false
  end.
Definition root_of (parent : list (str * (nat * jsval))) (id : str) : nat * jsval :=
  conversationRoot (chain_fuel parent) parent (0, JStr id) [].
Definition check_order (g : graph) (parent : list (str * (nat * jsval))) (a b : inode * jsval) : list issue :=
  let ia := nd_id a.1.2 in let ib := nd_id b.1.2 in
  issue_if (same_root (root_of parent ia) (root_of parent ib) && negb (canReach g ia ib) && negb (canReach g ib ia))
    "Conversation continuations in one lineage must be structurally ordered." (at_conversation b.1.1).
(** [for i, for j > i] *)
Fixpoint pairwise {A B} (f : A → A → list B) (l : list A) : list B :=
  match l with
  | [] => []
  | a :: l => flat_map (f a) l ++ pairwise f l
  end.
Definition check_conversations (g : graph) (nodes : list inode) : outcome graph_error (list issue) :=
  conversations ← outcome_map (@concat _) (mapM conversation_of nodes);
  let parent := parents conversations in
  Ok (flat_map (check_conversation g parent) conversations ++ pairwise (check_order g parent) conversations).

(** ** The whole graph *)

Definition check_terminal (g : graph) : list issue :=
  match terminals g with
  | [t] => issue_if (negb (has_type g t_agent t || has_type g t_subworkflow t || has_type g t_publish t))
             "The successful terminal must be an Agent, reusable Workflow, or Publish GitHub PR block." at_nodes
  | _ => []
  end.
Definition check_reachable (g : graph) (nodes : list wf_node) (edges : list wf_edge) : list issue :=
  match entries g edges with
  | [e] => issue_if (negb (Nat.eqb (length (reach_set g (targets g) e)) (length nodes)))
             "All nodes must be reachable from the graph entry." at_edges
  | _ => []
  end.
Definition check_leads (g : graph) (nodes : list wf_node) : list issue :=
  match terminals g with
  | [t] => issue_if (negb (Nat.eqb (length (reach_set g (sources g) t)) (length nodes)))
             "All nodes must structurally lead to the terminal." at_edges
  | _ => []
  end.

(** ** Strongly connected components (Tarjan) *)

(** The stack has its top first; [onStack] holds the elements of the stack. *)
Record tarjan := Tarjan {
  t_index : nat;
  t_indexes : list (str * nat);
  t_low : list (str * nat);
  t_stack : list str;
  t_components : list (list str);
}.
Definition num_at (m : list (str * nat)) (id : str) : nat := default 0 (assoc id m).
Definition lower (id : str) (n : nat) (st : tarjan) : tarjan :=
  Tarjan (t_index st) (t_indexes st) (obj_set id (Nat.min (num_at (t_low st) id) n) (t_low st))
    (t_stack st) (t_components st).
Definition discover (id : str) (st : tarjan) : tarjan :=
  Tarjan (S (t_index st)) (obj_set id (t_index st) (t_indexes st)) (obj_set id (t_index st) (t_low st))
    (id :: t_stack st) (t_components st).
(** [do { value = stack.pop(); component.push(value) } while (value !== id)] *)
Fixpoint pop_until (id : str) (stack : list str) : list str * list str :=
  match stack with
  | [] => ([], [])
  | v :: stack => if str_eqb v id then ([v], stack)
                  else let '(component, rest) := pop_until id stack in (v :: component, rest)
  end.
Definition finish (id : str) (st : tarjan) : tarjan :=
  if Nat.eqb (num_at (t_low st) id) (num_at (t_indexes st) id) then
    let '(component, rest) := pop_until id (t_stack st) in
    Tarjan (t_index st) (t_indexes st) (t_low st) rest (t_components st ++ [component])
  else st.
Definition indexed_node (st : tarjan) (id : str) : bool :=
  match assoc id (t_indexes st) with Some _ => true | None => false end.
Definition scan_target (visit : str → tarjan → tarjan) (id : str) (st : tarjan) (target : str) : tarjan :=
  if negb (indexed_node st target) then
    let st := visit target st in lower id (num_at (t_low st) target) st
  else if member target (t_stack st) then lower id (num_at (t_indexes st) target) st
  else st.
Fixpoint strong (fuel : nat) (g : graph) (id : str) (st : tarjan) : tarjan :=
  match fuel with
  | O => st
  | S fuel => finish id (foldl (scan_target (strong fuel g) id) (discover id st) (targets g id))
  end.
Definition components (g : graph) : list (list str) :=
  t_components
    (foldl (λ st id, if indexed_node st id then st else strong (search_fuel g) g id st)
       (Tarjan 0 [] [] [] []) (map fst (g_byId g))).

Definition cyclic (g : graph) (component : list str) : bool :=
  (1 <? length component)%nat ||
  match component with id :: _ => existsb (str_eqb id) (targets g id) | [] => false end.
Definition check_component (g : graph) (component : list str) : list issue :=
  if cyclic g component then
    issue_if (negb (existsb (is_condition g) component)) "Every cycle must contain a Condition." at_edges ++
    issue_if (negb (existsb (λ id, is_condition g id && existsb (λ t, negb (member t component)) (targets g id)) component))
      "Every cyclic region must have a structural exit." at_edges
  else [].

Definition validateGraphTopology (nodes : list wf_node) (edges : list wf_edge) : outcome graph_error (list issue) :=
  let g := graph_of nodes edges in
  publish ← outcome_map (@concat _) (mapM (check_publish g) (indexed nodes));
  context ← outcome_map (@concat _) (mapM (check_context g) (indexed nodes));
  conversations ← check_conversations g (indexed nodes);
  Ok (es_issues (index_edges nodes edges) ++ check_ends g edges ++ flat_map (check_node g) (g_byId g) ++
      publish ++ context ++ conversations ++ check_terminal g ++ check_reachable g nodes edges ++
      check_leads g nodes ++ flat_map (check_component g) (components g)).
