(* ===== verification/WorkflowPlan.v ===== *)
(** * Workflow definitions and execution plans (src/lib/workflow-definitions.ts)

    [workflowDefinitionV2Schema] parses a workflow definition: its shape, then
    the refinement that checks ids and block configurations and calls
    [validateGraphTopology]. [compileWorkflowV2ExecutionPlan] turns a
    definition into the plan a run executes, and [projectExecutionPlanForRuntime]
    removes from it what the runtime service must not see. *)

From S2P Require Import Prelude JsString Json Layout Libs Contract GithubClient GraphSearch WorkflowBlocks WorkflowGraph.

(** What these functions throw: a [TypeError], a zod error (with the issues a
    refinement added, or the library's own for the shape), an [Error]. *)
Inductive workflow_error : Type :=
| WfTypeError
| WfShape
| WfIssues (issues : list issue)
| WfError (message : str).

Definition lift_graph {A} (o : outcome graph_error A) : outcome workflow_error A :=
  match o with Ok a => Ok a | Throw GraphTypeError => Throw WfTypeError end.
Definition lift_block {A} (o : outcome block_error A) : outcome workflow_error A :=
  match o with Ok a => Ok a | Throw (BlockError m) => Throw (WfError m) | Throw ConfigError => Throw WfShape end.

(** ** Definitions *)

Definition MAX_WORKFLOW_STEPS : nat := 32.
Definition MAX_STEP_EXECUTIONS : nat := 128.
Definition WORKFLOW_RUN_INPUT_MAX_LENGTH : Z := 65536.

Record workflow := Workflow {
  wf_id : str;
  wf_name : str;
  wf_description : str;
  wf_runInputTemplate : option str;
  wf_exposableAsBlock : option bool;
  wf_nodes : list wf_node;
  wf_edges : list wf_edge;
  wf_maxStepExecutions : Z;
}.

(** The fields of a strict object *)
Definition strict_fields (keys : list string) (v : jsval) : option (list (str * jsval)) :=
  match v with
  | JObj o => if forallb (λ kv, existsb (λ k, str_eqb kv.1 (js k)) keys) o then Some o else None
  | _ => None
  end.
Definition get (k : string) (o : list (str * jsval)) : jsval := field (js k) o.
Definition as_text (v : option jsval) : option str := match v with Some (JStr s) => Some s | _ => None end.
(** [z.number().int().min(lo).max(hi)] *)
Definition z_int_in (lo hi : Z) (v : jsval) : option Z :=
  match v with JNum (NInt z) => if (lo <=? z)%Z && (z <=? hi)%Z then Some z else None | _ => None end.
Definition z_safe_max : Z := 9007199254740991.
Definition z_maybe {A} (p : jsval → option A) (v : jsval) : option (option A) :=
  match v with JUndefined => Some None | _ => Some <$> p v end.
Definition z_array_of {A} (lo hi : nat) (p : jsval → option A) (v : jsval) : option (list A) :=
  match v with JArr l => if (lo <=? length l)%nat && (length l <=? hi)%nat then mapM p l else None | _ => None end.
Definition p_id (v : jsval) : option str := as_text (z_id v).
Definition p_bool (v : jsval) : option bool := match v with JBool b => Some b | _ => None end.

Definition workflowNodeSchema (v : jsval) : option wf_node :=
  o ← strict_fields ["id"; "blockType"; "blockVersion"; "config"]%string v;
  id ← p_id (get "id" o); blockType ← as_text (z_trim 80 (get "blockType" o));
  blockVersion ← z_int_in 1 z_safe_max (get "blockVersion" o);
  Some (Node id blockType blockVersion (get "config" o)).
Definition workflowEdgeSchema (v : jsval) : option wf_edge :=
  o ← strict_fields ["id"; "source"; "sourcePort"; "target"; "targetPort"]%string v;
  id ← p_id (get "id" o); source ← p_id (get "source" o); sourcePort ← z_maybe p_id (get "sourcePort" o);
  target ← p_id (get "target" o); targetPort ← z_maybe p_id (get "targetPort" o);
  Some (Edge id source sourcePort target targetPort).

Definition workflow_shape (v : jsval) : option workflow :=
  o ← strict_fields ["schemaVersion"; "id"; "name"; "description"; "status"; "runInputTemplate"; "exposableAsBlock";
                     "nodes"; "edges"; "limits"]%string v;
  _ ← z_int_in 2 2 (get "schemaVersion" o);
  id ← p_id (get "id" o); name ← as_text (z_trim 120 (get "name" o));
  description ← as_text (z_text 0 2000 (get "description" o)); _ ← z_word (js "draft") (get "status" o);
  template ← z_maybe (λ v, as_text (z_text 0 WORKFLOW_RUN_INPUT_MAX_LENGTH v)) (get "runInputTemplate" o);
  exposable ← z_maybe p_bool (get "exposableAsBlock" o);
  nodes ← z_array_of 1 MAX_WORKFLOW_STEPS workflowNodeSchema (get "nodes" o);
  edges ← z_array_of 0 MAX_STEP_EXECUTIONS workflowEdgeSchema (get "edges" o);
  limits ← strict_fields ["maxStepExecutions"]%string (get "limits" o);
  maxSteps ← z_int_in 1 (Z.of_nat MAX_STEP_EXECUTIONS) (get "maxStepExecutions" limits);
  Some (Workflow id name description template exposable nodes edges maxSteps).

(** [forEach] with the set of ids seen so far *)
Fixpoint check_distinct {A} (key : A → str) (f : nat → A → bool → list issue) (i : nat) (seen : list str) (l : list A) :
    list issue :=
  match l with
  | [] => []
  | a :: l => f i a (member (key a) seen) ++ check_distinct key f (S i) (key a :: seen) l
  end.
Definition check_block (i : nat) (n : wf_node) (duplicate : bool) : list issue :=
  issue_if duplicate "Node IDs must be unique." (at_node i ++ [PKey (js "id")]) ++
  match validate workflowBlockRegistry (nd_type n) (nd_version n) (nd_config n) with
  | Ok _ => []
  | Throw e => [error_issue e (at_node i ++ [PKey (js "config")])]
  end.
Definition check_edge_id (i : nat) (_ : wf_edge) (duplicate : bool) : list issue :=
  issue_if duplicate "Edge IDs must be unique." (at_edge i ++ [PKey (js "id")]).
Definition refine_workflow (w : workflow) : outcome graph_error (list issue) :=
  topology ← validateGraphTopology (wf_nodes w) (wf_edges w);
  Ok (check_distinct nd_id check_block 0 [] (wf_nodes w) ++ check_distinct ed_id check_edge_id 0 [] (wf_edges w) ++ topology).

(** [workflowDefinitionV2Schema.parse] *)
Definition workflowDefinitionV2Schema (v : jsval) : outcome workflow_error workflow :=
  w ← from_option_throw WfShape (workflow_shape v);
  issues ← lift_graph (refine_workflow w);
  if Nat.eqb (length issues) 0 then Ok w else Throw (WfIssues issues).

(** ** The entry of a graph *)

(** [incoming.set(target, incoming.get(target)! + 1)]; the count of an unknown target is NaN ([None]) *)
Definition count_in (m : list (str * option nat)) (target : str) : list (str * option nat) :=
  obj_set target (S <$> mjoin (assoc target m)) m.
Definition zero_counts (nodes : list wf_node) : list (str * option nat) := map_of (map (λ n, (nd_id n, Some 0)) nodes).
Definition push_target (m : list (str * list str)) (e : wf_edge) : outcome workflow_error (list (str * list str)) :=
  match assoc (ed_source e) m with
  | Some l => Ok (obj_set (ed_source e) (l ++ [ed_target e]) m)
  | None => Throw WfTypeError
  end.
Definition type_in (nodes : list (str * inode)) (t id : str) : bool :=
  match assoc id nodes with Some (_, n) => str_eqb (nd_type n) t | None => false end.

(** [visit(edge.target)], where [outgoing.get(id)!] throws for an unknown node *)
Inductive visit_answer := Yes | No | Fails.
Definition answer_ends (a : visit_answer) : bool := match a with No => false | _ => true end.
Definition visits (out : list (str * list str)) (source start : str) : outcome workflow_error bool :=
  match (dfs answer_ends No (λ x, default [] (assoc x out))
           (λ (_ : unit) x, if str_eqb x source then Some Yes
                            else match assoc x out with Some _ => None | None => Some Fails end)
           (λ _ _, ()) (S (length out)) () start []).1 with
  | Yes => Ok true
  | No => Ok false
  | Fails => Throw WfTypeError
  end.
Definition entry_candidate (byId : list (str * inode)) (out : list (str * list str)) (e : wf_edge) :
    outcome workflow_error (list str) :=
  if type_in byId t_condition (ed_source e) then
    back ← visits out (ed_source e) (ed_target e); Ok (if (back : bool) then [ed_target e] else [])
  else Ok [].

Definition ambiguous_entry : workflow_error := WfError (js "unsupported_workflow_topology:ambiguous_entry").
Definition root_ids (counts : list (str * option nat)) : list str :=
  map fst (List.filter (λ kc, bool_decide (kc.2 = Some 0)) counts).
Definition graphEntryNode (nodes : list wf_node) (edges : list wf_edge) : outcome workflow_error str :=
  match root_ids (foldl count_in (zero_counts nodes) (map ed_target edges)) with
  | [root] => Ok root
  | _ =>
      out ← foldl (λ m e, m ≫= λ m, push_target m e) (Ok (map_of (map (λ n, (nd_id n, [])) nodes))) edges;
      candidates ← outcome_map (@concat _) (mapM (entry_candidate (byId_of nodes) out) edges);
      match candidates with
      | c :: _ => if Nat.eqb (length (dedup candidates)) 1 then Ok c else Throw ambiguous_entry
      | [] => Throw ambiguous_entry
      end
  end.

(** ** Execution plans *)

Record plan_node := PlanNode { pn_id : str; pn_type : str; pn_version : Z; pn_config : jsval }.
Record execution_plan := Plan {
  pl_nodes : list plan_node;
  pl_edges : list wf_link;
  pl_entry : str;
  pl_terminal : str;
  pl_maxStepExecutions : Z;
}.

Definition planContextSchema : schema :=
  z_object [(js "publishOutput", z_bool); (js "includeRunInput", z_bool); (js "includeNodeOutputs", z_list z_id 16)].
(** The union's members, by block type and version *)
Definition plan_config (t : str) (version : Z) : option schema :=
  if str_eqb t t_agent then
    if (version =? 1)%Z then Some (z_object [(js "agentId", z_id)])
    else if (version =? 2)%Z then Some (z_object [(js "agentId", z_id); (js "context", z_opt planContextSchema)])
    else if (version =? 3)%Z then
      Some (z_object [(js "agentId", z_id); (js "context", z_opt planContextSchema);
                      (js "conversation", z_opt (z_object [(js "sourceNodeId", z_id)]))])
    else None
  else if negb (version =? 1)%Z then None
  else if str_eqb t t_condition then
    Some (z_object [(js "operator", z_word (js "contains")); (js "value", z_text 1 4096); (js "caseSensitive", z_bool)])
  else if str_eqb t t_join then Some (z_object [])
  else if str_eqb t t_approval then Some (z_object [(js "message", z_trim 2000)])
  else if str_eqb t t_publish then
    Some (z_object [(js "sourceNodeId", z_id); (js "title", z_trim 256); (js "body", z_text 0 65536); (js "draft", z_bool)])
  else None.
Definition genericPlanNode (n : plan_node) : option plan_node :=
  s ← plan_config (pn_type n) (pn_version n); config ← s (pn_config n);
  if is_definition_id (pn_id n) then Some (PlanNode (pn_id n) (pn_type n) (pn_version n) config) else None.
Definition plan_edge_ok (l : wf_link) : bool :=
  is_definition_id (ln_source l) && is_definition_id (ln_sourcePort l) && is_definition_id (ln_target l) &&
  is_definition_id (ln_targetPort l).
(** [genericWorkflowExecutionPlanSchema.parse] on a plan object *)
Definition genericWorkflowExecutionPlanSchema (p : execution_plan) : outcome workflow_error execution_plan :=
  nodes ← from_option_throw WfShape (mapM genericPlanNode (pl_nodes p));
  if (1 <=? length nodes)%nat && (length nodes <=? MAX_WORKFLOW_STEPS)%nat &&
     forallb plan_edge_ok (pl_edges p) && (length (pl_edges p) <=? MAX_STEP_EXECUTIONS)%nat &&
     is_definition_id (pl_entry p) && is_definition_id (pl_terminal p) &&
     (1 <=? pl_maxStepExecutions p)%Z && (pl_maxStepExecutions p <=? Z.of_nat MAX_STEP_EXECUTIONS)%Z
  then Ok (Plan nodes (pl_edges p) (pl_entry p) (pl_terminal p) (pl_maxStepExecutions p))
  else Throw WfShape.

(** [Boolean(context?.publishOutput || context?.includeRunInput || context?.includeNodeOutputs?.length)] *)
Definition nonempty_array (v : jsval) : bool := match v with JArr (_ :: _) => true | _ => false end.
Definition active_context (context : jsval) : bool :=
  truthy (prop_opt "publishOutput" context) || truthy (prop_opt "includeRunInput" context) ||
  nonempty_array (prop_opt "includeNodeOutputs" context).

Definition agent_v1 (id : str) (config : jsval) : plan_node :=
  PlanNode id t_agent 1 (JObj [(js "agentId", prop_opt "agentId" config)]).
Definition agent_v2 (id : str) (config : jsval) : plan_node :=
  PlanNode id t_agent 2 (JObj [(js "agentId", prop_opt "agentId" config); (js "context", prop_opt "context" config)]).

(** The plan's node: an agent has the lowest version that carries its configuration. *)
Definition plan_node_of (n : wf_node) (config : jsval) : plan_node :=
  if agent_node n && v2_or_v3 n then
    if (nd_version n =? 3)%Z && truthy (prop_opt "conversation" config) then PlanNode (nd_id n) t_agent 3 config
    else if active_context (prop_opt "context" config) then agent_v2 (nd_id n) config
    else agent_v1 (nd_id n) config
  else PlanNode (nd_id n) (nd_type n) (nd_version n) config.
Definition compile_node (n : wf_node) : outcome workflow_error plan_node :=
  config ← lift_block (validate workflowBlockRegistry (nd_type n) (nd_version n) (nd_config n));
  Ok (plan_node_of n config).
Definition compile_edge (byId : list (str * inode)) (e : wf_edge) : outcome workflow_error wf_link :=
  match assoc (ed_source e) byId, assoc (ed_target e) byId with
  | Some (_, source), Some (_, target) => lift_block (resolve_link source target e)
  | _, _ => Throw WfTypeError
  end.

(** The agents and the workflows a definition refers to, in order *)
Definition node_references (n : wf_node) : outcome workflow_error block_references :=
  lift_block (references workflowBlockRegistry (nd_type n) (nd_version n) (nd_config n)).
Definition workflowAgentReferences (nodes : list wf_node) : outcome workflow_error (list str) :=
  outcome_map (flat_map agentIds) (mapM node_references nodes).
Definition workflowSubworkflowReferences (nodes : list wf_node) : outcome workflow_error (list str) :=
  outcome_map (flat_map workflowIds) (mapM node_references nodes).

Definition check_agents (agents : list str) (n : wf_node) : outcome workflow_error unit :=
  refs ← node_references n;
  match find_list (λ a, negb (member a agents)) (agentIds refs) with
  | Some a => Throw (WfError (js "missing_agent:" ++ a))
  | None => Ok ()
  end.

(** [agents] are the ids of the available agents. *)
Definition compileWorkflowV2ExecutionPlan (v : jsval) (agents : list str) : outcome workflow_error execution_plan :=
  w ← workflowDefinitionV2Schema v;
  let outgoing := foldl count_in (zero_counts (wf_nodes w)) (map ed_source (wf_edges w)) in
  _ ← mapM (check_agents agents) (wf_nodes w);
  nodes ← mapM compile_node (wf_nodes w);
  edges ← mapM (compile_edge (byId_of (wf_nodes w))) (wf_edges w);
  entry ← graphEntryNode (wf_nodes w) (wf_edges w);
  terminal ← from_option_throw WfTypeError (head (root_ids outgoing));
  genericWorkflowExecutionPlanSchema (Plan nodes edges entry terminal (wf_maxStepExecutions w)).

(** Removes the conversation of agents at version 3. *)
Definition project_node (n : plan_node) : plan_node :=
  if str_eqb (pn_type n) t_agent && (pn_version n =? 3)%Z then
    if active_context (prop_opt "context" (pn_config n)) then agent_v2 (pn_id n) (pn_config n)
    else agent_v1 (pn_id n) (pn_config n)
  else n.
Definition projectExecutionPlanForRuntime (p : execution_plan) : outcome workflow_error execution_plan :=
  genericWorkflowExecutionPlanSchema
    (Plan (map project_node (pl_nodes p)) (pl_edges p) (pl_entry p) (pl_terminal p) (pl_maxStepExecutions p)).
