(* ===== verification/WorkflowCompose.v ===== *)
(** * Composition of reusable workflows (src/lib/workflow-definitions.ts, [composeVersionedWorkflowV2])

    A definition that invokes other workflows is expanded before a run: every
    subworkflow node is replaced by the nodes and edges of the invoked
    definition, with ids derived from the path of invocations. The maps the
    function fills ([used], [provenance], [claimed]) are the state
    [compose_state]; [expand] is its recursive closure, with the source's
    bound on the depth as fuel. Definitions are parsed ones ([workflow]), whose
    schema version is 2, so the two guards on the version are left out. *)

From S2P Require Import Prelude JsString Encoding Json Layout Libs Contract GithubClient GraphSearch WorkflowBlocks WorkflowGraph WorkflowPlan.

(** ** Identities *)

Definition MAX_COMPOSITE_DEPTH : nat := 8.
Definition pathKey (segments : list str) : str :=
  join (js "|") (map (λ v, dec_of_Z (byte_length v) ++ js ":" ++ v) segments).

(** [Math.imul(hash ^ byte, 16777619)], on 32 bits read unsigned ([>>> 0]) *)
Definition digest_step (hash byte : N) : N := (N.lxor hash byte * 16777619 mod 4294967296)%N.
(** [n.toString(16).padStart(8, "0")] *)
Definition hex8 (n : N) : str :=
  hex_byte (n / 16777216)%N ++ hex_byte (n / 65536 mod 256)%N ++ hex_byte (n / 256 mod 256)%N ++ hex_byte (n mod 256)%N.
Definition digest_seeds : list N := [2166136261; 2246822507; 3266489909; 668265263]%N.
Definition stableDigest (value : str) : str :=
  concat (map (λ seed, hex8 (foldl digest_step seed (utf8_encode value))) digest_seeds).

Inductive id_kind := KNode | KEdge.
Definition kind_text (k : id_kind) : str := match k with KNode => js "n" | KEdge => js "e" end.
Definition scopedId (k : id_kind) (segments : list str) : str :=
  js "sw" ++ kind_text k ++ js "-" ++ stableDigest (pathKey segments).

(** ** State *)

Record segment := Segment { sg_workflowId : str; sg_workflowName : str; sg_invocationNodeId : str }.
#[export] Instance segment_eq_dec : EqDecision segment.
Proof. solve_decision. Defined.

Record node_provenance := Provenance {
  pv_executionNodeId : str;
  pv_rootNodeId : str;
  pv_workflowId : str;
  pv_workflowName : str;
  pv_semanticNodeId : str;
  pv_invocationPath : list segment;
  pv_displayPath : str;
}.
Record VersionedWorkflowDefinition := Versioned { vs_definition : workflow; vs_fileSha : str }.
Record dependency := Dependency {
  dp_workflowId : str;
  dp_revision : str;
  dp_definition : workflow;
  dp_dependencyWorkflowIds : list str;
}.
Record compose_state := ComposeState {
  cs_used : list (str * dependency);
  cs_provenance : list node_provenance;
  cs_claimed : list (str * str);
}.
Definition compose : Type → Type := eff compose_state workflow_error.

Definition fail {A} (message : str) : compose A := throw (WfError message).
Definition type_error {A} : compose A := throw WfTypeError.

Definition claim (k : id_kind) (generated key : str) : compose str :=
  let identity := kind_text k ++ js ":" ++ generated in
  s ← get_world;
  match assoc identity (cs_claimed s) with
  | Some previous =>
      if nonempty previous && negb (str_eqb previous key) then fail (js "subworkflow_identity_collision")
      else _ ← set_world (ComposeState (cs_used s) (cs_provenance s) (obj_set identity key (cs_claimed s))); mret generated
  | None => _ ← set_world (ComposeState (cs_used s) (cs_provenance s) (obj_set identity key (cs_claimed s))); mret generated
  end.
Definition use_dependency (id : str) (d : dependency) : compose unit :=
  modify_world (λ s, ComposeState (obj_set id d (cs_used s)) (cs_provenance s) (cs_claimed s)).
Definition push_provenance (p : node_provenance) : compose unit :=
  modify_world (λ s, ComposeState (cs_used s) (cs_provenance s ++ [p]) (cs_claimed s)).

(** ** Expansion *)

(** The ids along the path, then the workflow's and the element's *)
Definition scope_key (path : list segment) (workflowId element : str) : str :=
  pathKey (flat_map (λ s, [sg_workflowId s; sg_invocationNodeId s]) path ++ [workflowId; element]).
Definition executionId (path : list segment) (workflowId semanticNodeId : str) : str :=
  match path with
  | [] => semanticNodeId
  | _ => scopedId KNode [scope_key path workflowId semanticNodeId]
  end.

(** [structuredClone(node.config)] with the ids of the selected outputs and of
    the conversation's source rewritten; ids are strings in a parsed definition. *)
Definition rename_id (f : str → str) (v : jsval) : jsval := match v with JStr s => JStr (f s) | _ => v end.
Definition set_field (k : string) (v : jsval) (o : jsval) : jsval :=
  match o with JObj fields => JObj (obj_set (js k) v fields) | _ => o end.
Definition rescope_context (f : str → str) (config : jsval) : outcome graph_error jsval :=
  context ← raw_prop "context" config;
  match prop_opt "includeNodeOutputs" context with
  | JArr l => Ok (set_field "context" (set_field "includeNodeOutputs" (JArr (map (rename_id f) l)) context) config)
  | v => if truthy v then Throw GraphTypeError else Ok config
  end.
Definition rescope_conversation (f : str → str) (config : jsval) : jsval :=
  let conversation := prop_opt "conversation" config in
  if truthy conversation then
    set_field "conversation" (set_field "sourceNodeId" (rename_id f (prop_opt "sourceNodeId" conversation)) conversation) config
  else config.
Definition rescope (f : str → str) (n : wf_node) : outcome graph_error jsval :=
  if agent_node n && v2_or_v3 n then outcome_map (rescope_conversation f) (rescope_context f (nd_config n))
  else Ok (nd_config n).

Definition display_label (n : wf_node) : outcome workflow_error str :=
  if agent_node n then Ok (nd_id n)
  else outcome_map block_label (lift_block (registry_resolve workflowBlockRegistry (nd_type n) (nd_version n))).

(** A node that is not a reference to another workflow *)
Definition expand_node (rootName : str) (w : workflow) (path : list segment) (n : wf_node) : compose wf_node :=
  let key := scope_key path (wf_id w) (nd_id n) in
  id ← claim KNode (executionId path (wf_id w) (nd_id n)) key;
  config ← lift (lift_graph (rescope (executionId path (wf_id w)) n));
  label ← lift (display_label n);
  _ ← push_provenance
        (Provenance id (match path with s :: _ => sg_invocationNodeId s | [] => nd_id n end) (wf_id w) (wf_name w) (nd_id n) path
           (join (js " / ") (rootName :: map sg_workflowName path ++ [label])));
  mret (Node id (nd_type n) (nd_version n) config).

(** The execution node of an edge's end: the replacement's, the scoped node's, or the node itself at the root *)
Definition edge_end (replacements : list (str * (str * str))) (pick : str * str → str) (w : workflow) (path : list segment)
    (id : str) : compose str :=
  match assoc id replacements with
  | Some r => mret (pick r)
  | None =>
      match path with
      | [] => mret id
      | _ =>
          s ← get_world;
          match find_list (λ p, str_eqb (pv_workflowId p) (wf_id w) && str_eqb (pv_semanticNodeId p) id &&
                                bool_decide (pv_invocationPath p = path)) (cs_provenance s) with
          | Some p => mret (pv_executionNodeId p)
          | None => type_error
          end
      end
  end.
Definition expand_edge (replacements : list (str * (str * str))) (w : workflow) (path : list segment) (e : wf_edge) :
    compose wf_edge :=
  source ← edge_end replacements snd w path (ed_source e);
  target ← edge_end replacements fst w path (ed_target e);
  let key := scope_key path (wf_id w) (ed_id e) in
  id ← claim KEdge (match path with [] => ed_id e | _ => scopedId KEdge [key] end) key;
  mret (Edge id source (ed_sourcePort e) target (ed_targetPort e)).

(** The first node without outgoing edges *)
Definition first_terminal (nodes : list wf_node) (edges : list wf_edge) : option wf_node :=
  find_list (λ n, negb (member (nd_id n) (map ed_source edges))) nodes.

(** What the loop over the nodes has collected: replacements (entry, terminal), nodes, edges *)
Definition expansion : Type := list (str * (str * str)) * list wf_node * list wf_edge.

Section Expand.
Variables (root : workflow) (available : list (str * VersionedWorkflowDefinition)).

Definition find_child (stack : list str) (childId : str) : compose VersionedWorkflowDefinition :=
  if member childId stack then fail (js "subworkflow_cycle:" ++ join (js "->") (stack ++ [childId]))
  else match assoc childId available with
       | None => fail (js "missing_subworkflow:" ++ childId)
       | Some v => if default false (wf_exposableAsBlock (vs_definition v)) then mret v
                   else fail (js "subworkflow_not_exposed:" ++ childId)
       end.

Definition expand_child (expand : workflow → list segment → list str → compose (list wf_node * list wf_edge))
    (path : list segment) (stack : list str) (acc : expansion) (n : wf_node) (childId : str) : compose expansion :=
  let '(replacements, nodes, edges) := acc in
  v ← find_child stack childId;
  let child := vs_definition v in
  ids ← lift (workflowSubworkflowReferences (wf_nodes child));
  _ ← use_dependency childId (Dependency childId (vs_fileSha v) child ids);
  '(nodes', edges') ← expand child (path ++ [Segment (wf_id child) (wf_name child) (nd_id n)]) (stack ++ [childId]);
  entry ← lift (graphEntryNode nodes' edges');
  terminal ← lift (from_option_throw WfTypeError (first_terminal nodes' edges'));
  mret (obj_set (nd_id n) (entry, nd_id terminal) replacements, nodes ++ nodes', edges ++ edges').

Definition expand_step (expand : workflow → list segment → list str → compose (list wf_node * list wf_edge))
    (w : workflow) (path : list segment) (stack : list str) (acc : expansion) (n : wf_node) : compose expansion :=
  refs ← lift (node_references n);
  match workflowIds refs with
  | [] =>
      let '(replacements, nodes, edges) := acc in
      n' ← expand_node (wf_name root) w path n; mret (replacements, nodes ++ [n'], edges)
  | childId :: _ => expand_child expand path stack acc n childId
  end.

Fixpoint fold_eff {A B} (f : B → A → compose B) (b : B) (l : list A) : compose B :=
  match l with [] => mret b | a :: l => b ← f b a; fold_eff f b l end.

Definition depth_exceeded {A} : compose A := fail (js "subworkflow_depth_exceeded").
Fixpoint expand (fuel : nat) (w : workflow) (path : list segment) (stack : list str) :
    compose (list wf_node * list wf_edge) :=
  if (MAX_COMPOSITE_DEPTH <? length stack)%nat then depth_exceeded else
  match fuel with
  | O => depth_exceeded
  | S fuel =>
      '(replacements, nodes, edges) ← fold_eff (expand_step (expand fuel) w path stack) ([], [], []) (wf_nodes w);
      edges' ← for_each (expand_edge replacements w path) (wf_edges w);
      mret (nodes, edges ++ edges')
  end.
End Expand.

(** ** The composed workflow *)

(** A definition as the object it is *)
Definition opt_entry (k : string) (v : option jsval) : list (str * jsval) :=
  match v with Some v => [(js k, v)] | None => [] end.
Definition node_value (n : wf_node) : jsval :=
  JObj [(js "id", JStr (nd_id n)); (js "blockType", JStr (nd_type n)); (js "blockVersion", JNum (NInt (nd_version n)));
        (js "config", nd_config n)].
Definition edge_value (e : wf_edge) : jsval :=
  JObj ([(js "id", JStr (ed_id e)); (js "source", JStr (ed_source e))] ++ opt_entry "sourcePort" (JStr <$> ed_sourcePort e) ++
        [(js "target", JStr (ed_target e))] ++ opt_entry "targetPort" (JStr <$> ed_targetPort e)).
Definition workflow_value (w : workflow) : jsval :=
  JObj ([(js "schemaVersion", JNum (NInt 2)); (js "id", JStr (wf_id w)); (js "name", JStr (wf_name w));
         (js "description", JStr (wf_description w)); (js "status", JStr (js "draft"))] ++
        opt_entry "runInputTemplate" (JStr <$> wf_runInputTemplate w) ++
        opt_entry "exposableAsBlock" (JBool <$> wf_exposableAsBlock w) ++
        [(js "nodes", JArr (map node_value (wf_nodes w))); (js "edges", JArr (map edge_value (wf_edges w)));
         (js "limits", JObj [(js "maxStepExecutions", JNum (NInt (wf_maxStepExecutions w)))])]).

Record composition := Composition { co_dependencies : list dependency; co_nodes : list node_provenance }.

(** [workflowCompositionSnapshotSchema.parse] on the snapshot; the issues of a
    dependency's own definition are not itemised. *)
Definition segment_ok (s : segment) : bool :=
  is_definition_id (sg_workflowId s) && nonempty (trim (sg_workflowName s)) && (text_length (trim (sg_workflowName s)) <=? 120)%Z &&
  is_definition_id (sg_invocationNodeId s).
Definition provenance_ok (p : node_provenance) : bool :=
  is_definition_id (pv_executionNodeId p) && is_definition_id (pv_rootNodeId p) && is_definition_id (pv_workflowId p) &&
  nonempty (trim (pv_workflowName p)) && (text_length (trim (pv_workflowName p)) <=? 120)%Z &&
  is_definition_id (pv_semanticNodeId p) && (length (pv_invocationPath p) <=? 8)%nat && forallb segment_ok (pv_invocationPath p) &&
  nonempty (pv_displayPath p) && (text_length (pv_displayPath p) <=? 2000)%Z.
Definition trim_segment (s : segment) : segment := Segment (sg_workflowId s) (trim (sg_workflowName s)) (sg_invocationNodeId s).
Definition trim_provenance (p : node_provenance) : node_provenance :=
  Provenance (pv_executionNodeId p) (pv_rootNodeId p) (pv_workflowId p) (trim (pv_workflowName p)) (pv_semanticNodeId p)
    (map trim_segment (pv_invocationPath p)) (pv_displayPath p).
Definition dependency_ok (d : dependency) : bool :=
  is_definition_id (dp_workflowId d) && nonempty (dp_revision d) && (text_length (dp_revision d) <=? 100)%Z &&
  forallb is_definition_id (dp_dependencyWorkflowIds d) && (length (dp_dependencyWorkflowIds d) <=? MAX_WORKFLOW_STEPS)%nat.
Definition parse_dependency (d : dependency) : outcome workflow_error dependency :=
  definition ← workflowDefinitionV2Schema (workflow_value (dp_definition d));
  if dependency_ok d then Ok (Dependency (dp_workflowId d) (dp_revision d) definition (dp_dependencyWorkflowIds d))
  else Throw WfShape.
Definition is_type_error {A} (o : outcome workflow_error A) : bool :=
  match o with Throw WfTypeError => true | _ => false end.
Definition distinct_issues (c : composition) : list issue :=
  issue_if (negb (Nat.eqb (length (dedup (map dp_workflowId (co_dependencies c)))) (length (co_dependencies c))))
    "Composite dependency IDs must be unique." [PKey (js "dependencies")] ++
  issue_if (negb (Nat.eqb (length (dedup (map pv_executionNodeId (co_nodes c)))) (length (co_nodes c))))
    "Composite execution node IDs must be unique." at_nodes.
Definition workflowCompositionSnapshotSchema (c : composition) : outcome workflow_error composition :=
  let parsed := map parse_dependency (co_dependencies c) in
  if existsb is_type_error parsed then Throw WfTypeError
  else if (length (co_dependencies c) <=? MAX_WORKFLOW_STEPS)%nat && (1 <=? length (co_nodes c))%nat &&
          (length (co_nodes c) <=? MAX_WORKFLOW_STEPS)%nat && forallb provenance_ok (co_nodes c) && forallb is_ok parsed
  then
    dependencies ← mapM parse_dependency (co_dependencies c);
    let result := Composition dependencies (map trim_provenance (co_nodes c)) in
    match distinct_issues result with [] => Ok result | issues => Throw (WfIssues issues) end
  else Throw WfShape.

Definition composite_terminal_ok (nodes : list wf_node) (edges : list wf_edge) : bool :=
  match first_terminal nodes edges with
  | Some t => (str_eqb (nd_type t) t_agent || str_eqb (nd_type t) t_publish) &&
              negb (existsb (λ n, str_eqb (nd_type n) t_subworkflow) nodes)
  | None => false
  end.

Section Compose.
Context `{L : Libs}.

Definition dependency_le (a b : dependency) : bool := locale_le (dp_workflowId a) (dp_workflowId b).

Definition composeVersionedWorkflowV2 (root : workflow) (versions : list VersionedWorkflowDefinition) :
    outcome workflow_error (workflow * composition) :=
  let available := map_of (map (λ v, (wf_id (vs_definition v), v)) versions) in
  let '(s, result) := expand root available (S MAX_COMPOSITE_DEPTH) root [] [wf_id root] (ComposeState [] [] []) in
  '(nodes, edges) ← result;
  if (MAX_WORKFLOW_STEPS <? length nodes)%nat || (MAX_STEP_EXECUTIONS <? length edges)%nat
  then Throw (WfError (js "subworkflow_expansion_too_large"))
  else if negb (composite_terminal_ok nodes edges)
  then Throw (WfError (js "unsupported_workflow_topology:invalid_composite_terminal"))
  else
    w ← workflowDefinitionV2Schema
          (workflow_value (Workflow (wf_id root) (wf_name root) (wf_description root) (wf_runInputTemplate root)
                             (wf_exposableAsBlock root) nodes edges (wf_maxStepExecutions root)));
    c ← workflowCompositionSnapshotSchema
          (Composition (sort_list dependency_le (map snd (cs_used s))) (cs_provenance s));
    Ok (w, c).

Definition composeWorkflowV2 (root : workflow) (dependencies : list workflow) : outcome workflow_error workflow :=
  outcome_map fst
    (composeVersionedWorkflowV2 root
       (Versioned root (js "root") :: map (λ d, Versioned d (js "revision-" ++ wf_id d)) dependencies)).
Definition validateAndComposeWorkflow (w : workflow) (definitions : list workflow) : outcome workflow_error workflow :=
  outcome_map fst
    (composeVersionedWorkflowV2 w (map (λ d, Versioned d (js "validation-" ++ wf_id d)) definitions)).

(** ** Changing a reusable workflow *)

Definition depends_on (affected : list str) (w : workflow) : outcome workflow_error bool :=
  outcome_map (existsb (λ id, member id affected)) (workflowSubworkflowReferences (wf_nodes w)).
(** One pass over the candidates; the set grows as the pass goes *)
Fixpoint affected_pass (affected : list str) (candidates : list workflow) : outcome workflow_error (list str) :=
  match candidates with
  | [] => Ok affected
  | c :: candidates =>
      if member (wf_id c) affected then affected_pass affected candidates
      else hit ← depends_on affected c;
           affected_pass (if (hit : bool) then affected ++ [wf_id c] else affected) candidates
  end.
(** [for (let changed = true; changed;)] *)
Fixpoint affected_workflows (fuel : nat) (affected : list str) (candidates : list workflow) : outcome workflow_error (list str) :=
  match fuel with
  | O => Ok affected
  | S fuel =>
      next ← affected_pass affected candidates;
      if Nat.eqb (length next) (length affected) then Ok next else affected_workflows fuel next candidates
  end.
Fixpoint check_dependents (currentId : str) (affected : list str) (all candidates : list workflow) : outcome workflow_error unit :=
  match candidates with
  | [] => Ok ()
  | c :: candidates =>
      if str_eqb (wf_id c) currentId || negb (member (wf_id c) affected) then check_dependents currentId affected all candidates
      else match validateAndComposeWorkflow c all with
           | Ok _ => check_dependents currentId affected all candidates
           | Throw _ => Throw (WfError (js "workflow_dependency_incompatible"))
           end
  end.
Definition assertReusableWorkflowUpdateCompatible (current proposed : workflow) (definitions : list workflow) : outcome workflow_error unit :=
  let candidates := map (λ d, if str_eqb (wf_id d) (wf_id current) then proposed else d) definitions in
  affected ← affected_workflows (S (length candidates)) [wf_id current] candidates;
  check_dependents (wf_id current) affected candidates candidates.
End Compose.
