(* ===== verification/WorkflowGraphFacts.v ===== *)
(** * What an accepted workflow graph guarantees

    The lemmas relate the indexes the validator builds (maps of incoming and
    outgoing links) to the edges of the definition, its searches to
    reachability, and each check that reports nothing to the shape it checks. *)

From stdpp Require Import relations.
From S2P Require Import Prelude JsString Json Layout Libs Contract GithubClient GraphSearch WorkflowBlocks WorkflowGraph WorkflowPlan.

(** ** Maps *)

Definition keys {A} (m : list (str * A)) : list str := map fst m.

Lemma keys_obj_set {A} k (v : A) m : keys (obj_set k v m) = if member k (keys m) then keys m else keys m ++ [k].
Proof.
  unfold member, keys. induction m as [|[k' v'] m IH]; cbn; [by case_bool_decide as H; [apply elem_of_nil in H|]|].
  destruct (str_eqb k k') eqn:E; cbn.
  - apply str_eqb_eq in E as ->. by rewrite bool_decide_true by left.
  - rewrite IH. assert (k ≠ k') by (intros ->; by rewrite str_eqb_refl in E).
    case_bool_decide as H1; case_bool_decide as H2; try done.
    + exfalso. apply H2. by right.
    + apply elem_of_cons in H2 as [?|?]; done.
Qed.

Lemma elem_keys_set {A} k (v : A) m x : x ∈ keys (obj_set k v m) ↔ x = k ∨ x ∈ keys m.
Proof.
  rewrite keys_obj_set. unfold member. case_bool_decide.
  - split; [by right|]. by intros [->|?].
  - rewrite elem_of_app, list_elem_of_singleton. tauto.
Qed.
Lemma elem_map_of {A} (l : list (str * A)) x : x ∈ keys (map_of l) ↔ x ∈ keys l.
Proof.
  unfold map_of. trans (x ∈ keys (@nil (str * A)) ∨ x ∈ keys l); [|split; [by intros [?%elem_of_nil|?]|by right]].
  generalize (@nil (str * A)) as m. induction l as [|[k v] l IH]; intros m; cbn [foldl].
  - split; [by left|]. by intros [?|?%elem_of_nil].
  - rewrite IH, elem_keys_set. unfold keys. cbn [map fst]. rewrite elem_of_cons. cbn. tauto.
Qed.

Lemma keys_nodup_set {A} k (v : A) m : NoDup (keys m) → NoDup (keys (obj_set k v m)).
Proof.
  intros H. rewrite keys_obj_set. unfold member. case_bool_decide as Hk; [done|].
  apply NoDup_app. split; [done|]. split; [by intros x Hx ->%list_elem_of_singleton|apply NoDup_singleton].
Qed.

Lemma map_of_fold {A} (l m : list (str * A)) :
  NoDup (keys m ++ keys l) → foldl (λ m kv, obj_set kv.1 kv.2 m) m l = m ++ l.
Proof.
  revert m. induction l as [|[k v] l IH]; cbn; intros m H; [by rewrite app_nil_r|].
  rewrite obj_set_fresh; [rewrite IH, <-app_assoc; [done|] |].
  - unfold keys in *. by rewrite map_app, <-app_assoc.
  - apply NoDup_app in H as (_ & H & _). intros Hk. eapply H; [exact Hk|left].
Qed.
Lemma map_of_nodup {A} (l : list (str * A)) : NoDup (keys l) → map_of l = l.
Proof. apply (map_of_fold l []). Qed.
Lemma map_of_keys_nodup {A} (l : list (str * A)) : NoDup (keys (map_of l)).
Proof.
  unfold map_of. assert (NoDup (keys (@nil (str * A)))) as H by apply NoDup_nil_2. revert H.
  generalize (@nil (str * A)) as m. induction l as [|[k v] l IH]; cbn; intros m H; [done|].
  by apply IH, keys_nodup_set.
Qed.

Lemma assoc_nodup {A} k (v : A) m : NoDup (keys m) → assoc k m = Some v ↔ (k, v) ∈ m.
Proof.
  intros Hn. split; [apply assoc_elem|]. unfold keys in Hn.
  induction m as [|[k' v'] m IH]; [by intros ?%elem_of_nil|]. cbn in *. apply NoDup_cons in Hn as [Hk Hn].
  intros [[= -> ->]|H]%elem_of_cons; [by rewrite str_eqb_refl|].
  destruct (str_eqb k k') eqn:E; [|auto]. apply str_eqb_eq in E as ->.
  exfalso. apply Hk. by apply (list_elem_of_fmap_2 fst) in H.
Qed.
Lemma assoc_keys {A} k (m : list (str * A)) : k ∈ keys m ↔ is_Some (assoc k m).
Proof.
  unfold keys. induction m as [|[k' v'] m IH]; cbn.
  - split; [by intros ?%elem_of_nil|by intros [? ?]].
  - rewrite elem_of_cons, IH. destruct (str_eqb k k') eqn:E; [apply str_eqb_eq in E as ->; by split; eauto|].
    split; [intros [->|?]; [by rewrite str_eqb_refl in E|done] | auto].
Qed.

Lemma member_true x l : member x l = true ↔ x ∈ l.
Proof. apply bool_decide_eq_true. Qed.
Lemma member_false x l : member x l = false ↔ x ∉ l.
Proof. apply bool_decide_eq_false. Qed.

(** ** The links of a definition *)

Definition link_of (byId : list (str * inode)) (e : wf_edge) : option wf_link :=
  match assoc (ed_source e) byId, assoc (ed_target e) byId with
  | Some (_, source), Some (_, target) =>
      match resolve_link source target e with Ok l => Some l | Throw _ => None end
  | _, _ => None
  end.
Definition wf_links (nodes : list wf_node) (edges : list wf_edge) : list wf_link := omap (link_of (byId_of nodes)) edges.

Lemma resolve_link_ends s t e l :
  resolve_link s t e = Ok l → ln_source l = ed_source e ∧ ln_target l = ed_target e.
Proof.
  unfold resolve_link. intros (p & _ & H)%outcome_bind_ok.
  apply outcome_bind_ok in H as (q & _ & H). by injection H as <-.
Qed.
Lemma link_of_ends byId e l :
  link_of byId e = Some l →
  ln_source l = ed_source e ∧ ln_target l = ed_target e ∧ ed_source e ∈ keys byId ∧ ed_target e ∈ keys byId.
Proof.
  unfold link_of. destruct (assoc (ed_source e) byId) as [[i s]|] eqn:Es; [|done].
  destruct (assoc (ed_target e) byId) as [[j t]|] eqn:Et; [|done].
  destruct (resolve_link s t e) as [l'|] eqn:El; [|done]. intros [= ->].
  apply resolve_link_ends in El as [? ?]. rewrite !assoc_keys, Es, Et. naive_solver.
Qed.

Lemma links_push k l m k' : links (push_link k l m) k' = if str_eqb k' k then links m k ++ [l] else links m k'.
Proof. unfold links, push_link. rewrite assoc_obj_set. by destruct (str_eqb k' k). Qed.

(** One step of the loop over the edges *)
Lemma add_edge_links byId st i e :
  let st' := add_edge byId st (i, e) in
  (∀ k, links (es_outgoing st') k =
        links (es_outgoing st) k ++ List.filter (λ l, str_eqb (ln_source l) k) (option_list (link_of byId e))) ∧
  (∀ k, links (es_incoming st') k =
        links (es_incoming st) k ++ List.filter (λ l, str_eqb (ln_target l) k) (option_list (link_of byId e))).
Proof.
  unfold add_edge, link_of.
  destruct (assoc (ed_source e) byId) as [[? s]|]; cbn [es_outgoing es_incoming option_list List.filter]; [|by split; intros; rewrite app_nil_r].
  destruct (assoc (ed_target e) byId) as [[? t]|]; cbn [es_outgoing es_incoming option_list List.filter]; [|by split; intros; rewrite app_nil_r].
  destruct (resolve_link s t e) as [l|] eqn:E; cbn [es_outgoing es_incoming option_list List.filter]; [|by split; intros; rewrite app_nil_r].
  apply resolve_link_ends in E as [Hs Ht]. split; intros k; rewrite links_push; cbn; rewrite ?Hs, ?Ht; unfold str_eqb;
    repeat case_bool_decide; subst; try done; by rewrite app_nil_r.
Qed.

Lemma index_edges_links nodes edges k :
  links (es_outgoing (index_edges nodes edges)) k = List.filter (λ l, str_eqb (ln_source l) k) (wf_links nodes edges) ∧
  links (es_incoming (index_edges nodes edges)) k = List.filter (λ l, str_eqb (ln_target l) k) (wf_links nodes edges).
Proof.
  unfold index_edges, wf_links. generalize (byId_of nodes) as byId. intros byId.
  assert (∀ edges i st,
    links (es_outgoing (foldl (add_edge byId) st (zip (seq i (length edges)) edges))) k =
      links (es_outgoing st) k ++ List.filter (λ l, str_eqb (ln_source l) k) (omap (link_of byId) edges) ∧
    links (es_incoming (foldl (add_edge byId) st (zip (seq i (length edges)) edges))) k =
      links (es_incoming st) k ++ List.filter (λ l, str_eqb (ln_target l) k) (omap (link_of byId) edges)) as H.
  { clear edges. induction edges as [|e edges IH]; intros i st; cbn [length seq zip zip_with foldl];
      [cbn; by rewrite !app_nil_r|].
    destruct (IH (S i) (add_edge byId st (i, e))) as [-> ->].
    destruct (add_edge_links byId st i e) as [-> ->].
    rewrite <-!app_assoc, <-!List.filter_app. cbn. by destruct (link_of byId e). }
  assert (∀ l : list wf_node, links (no_links l) k = []) as Hn.
  { intros l. unfold no_links, links, map_of. assert (default [] (assoc k (@nil (str * list wf_link))) = []) as H0 by done.
    revert H0. generalize (@nil (str * list wf_link)) as m. induction l as [|n l IHl]; cbn; [done|].
    intros m Hm. apply IHl. rewrite assoc_obj_set. by destruct (str_eqb k (nd_id n)). }
  destruct (H edges 0 (EdgeState (no_links nodes) (no_links nodes) [] [])) as [-> ->]. cbn [es_outgoing es_incoming]. by rewrite !Hn.
Qed.

Lemma keys_map_of {A B} (l : list (str * A)) (l' : list (str * B)) : keys l = keys l' → keys (map_of l) = keys (map_of l').
Proof.
  unfold map_of. assert (keys (@nil (str * A)) = keys (@nil (str * B))) as H by done. revert l' H.
  generalize (@nil (str * A)) as m, (@nil (str * B)) as m'.
  induction l as [|[k v] l IH]; intros m m' [|[k' v'] l'] Hm Hl; try done. injection Hl as -> Hl. cbn.
  apply IH; [|done]. by rewrite !keys_obj_set, Hm.
Qed.

Lemma add_edge_keys byId st ie ks :
  keys byId = ks → keys (es_outgoing st) = ks → keys (es_incoming st) = ks →
  keys (es_outgoing (add_edge byId st ie)) = ks ∧ keys (es_incoming (add_edge byId st ie)) = ks.
Proof.
  intros Hb Ho Hi. destruct ie as [i e]. unfold add_edge.
  destruct (assoc (ed_source e) byId) as [[? s]|] eqn:Es; [|done].
  destruct (assoc (ed_target e) byId) as [[? t]|] eqn:Et; [|done].
  destruct (resolve_link s t e); [|done]. cbn [es_outgoing es_incoming]. unfold push_link.
  rewrite !keys_obj_set, Ho, Hi, !(proj2 (member_true _ _)); [done| |]; rewrite <-Hb, assoc_keys; eauto.
Qed.

Lemma indexed_snd nodes : map snd (indexed nodes) = nodes.
Proof. unfold indexed. apply snd_zip. by rewrite length_seq. Qed.

Lemma index_edges_keys nodes edges :
  keys (es_outgoing (index_edges nodes edges)) = keys (byId_of nodes) ∧
  keys (es_incoming (index_edges nodes edges)) = keys (byId_of nodes).
Proof.
  unfold index_edges. assert (keys (no_links nodes) = keys (byId_of nodes)) as H0.
  { apply keys_map_of. unfold keys. rewrite !map_map. cbn. rewrite <-(indexed_snd nodes) at 1. by rewrite map_map. }
  assert (keys (es_outgoing (EdgeState (no_links nodes) (no_links nodes) [] [])) = keys (byId_of nodes) ∧
          keys (es_incoming (EdgeState (no_links nodes) (no_links nodes) [] [])) = keys (byId_of nodes)) as H by done.
  revert H. generalize (EdgeState (no_links nodes) (no_links nodes) [] []) as st.
  induction (zip _ edges) as [|ie l IH]; cbn [foldl]; intros st H; [done|].
  apply IH. by apply add_edge_keys; [|apply H..].
Qed.

(** ** Reachability *)

Section Reach.
Variables (nodes : list wf_node) (edges : list wf_edge).
Let g := graph_of nodes edges.

(** The nodes' ids and the edges between them *)
Definition ids : list str := keys (byId_of nodes).
Definition flows (a b : str) : Prop := ∃ l, l ∈ wf_links nodes edges ∧ ln_source l = a ∧ ln_target l = b.

Lemma elem_filter_links (f : wf_link → bool) l ls : l ∈ List.filter f ls ↔ l ∈ ls ∧ f l = true.
Proof. by rewrite !list_elem_of_In, filter_In. Qed.

Lemma outs_spec id l : l ∈ outs_of g id ↔ l ∈ wf_links nodes edges ∧ ln_source l = id.
Proof.
  unfold outs_of, g, graph_of. cbn [g_outgoing]. destruct (index_edges_links nodes edges id) as [-> _].
  by rewrite elem_filter_links, str_eqb_eq.
Qed.
Lemma ins_spec id l : l ∈ ins_of g id ↔ l ∈ wf_links nodes edges ∧ ln_target l = id.
Proof.
  unfold ins_of, g, graph_of. cbn [g_incoming]. destruct (index_edges_links nodes edges id) as [_ ->].
  by rewrite elem_filter_links, str_eqb_eq.
Qed.
Lemma targets_spec a b : b ∈ targets g a ↔ flows a b.
Proof.
  unfold targets, flows. rewrite list_elem_of_fmap. setoid_rewrite outs_spec. naive_solver.
Qed.
Lemma sources_spec a b : a ∈ sources g b ↔ flows a b.
Proof.
  unfold sources, flows. rewrite list_elem_of_fmap. setoid_rewrite ins_spec. naive_solver.
Qed.

Lemma flows_ids a b : flows a b → a ∈ ids ∧ b ∈ ids.
Proof.
  intros (l & Hl & <- & <-). unfold wf_links in Hl. apply list_elem_of_omap in Hl as (e & _ & He).
  apply link_of_ends in He as (-> & -> & ? & ?). done.
Qed.
Lemma reach_ids a b : rtc flows a b → a ∈ ids → b ∈ ids.
Proof. induction 1 as [|a b c H _ IH]; [done|]. intros _. apply IH, (flows_ids _ _ H). Qed.
Lemma targets_closed x : x ∉ ids → targets g x = [].
Proof.
  intros Hx. apply elem_of_nil_inv. intros y ?%targets_spec. by apply Hx, (flows_ids x y).
Qed.
Lemma sources_closed x : x ∉ ids → sources g x = [].
Proof.
  intros Hx. apply elem_of_nil_inv. intros y ?%sources_spec. by apply Hx, (flows_ids y x).
Qed.
Lemma fuel_enough : length ids < search_fuel g.
Proof. unfold ids, keys, search_fuel, g, graph_of. cbn [g_byId]. rewrite length_map. lia. Qed.

(** A search with a goal and nodes to stop at: a path to the goal that avoids the latter *)
Lemma finds_spec goal stop start :
  finds g goal stop start = true ↔
  ∃ y, rtc (λ a b, flows a b ∧ goal a = false ∧ stop a = false) start y ∧ goal y = true.
Proof.
  unfold finds. rewrite (dfs_exact (targets g) (λ x, if goal x then Some true else if stop x then Some false else None)
                           ids targets_closed _ _ fuel_enough).
  unfold leads_to. assert (∀ x, (if goal x then Some true else if stop x then Some false else None) = Some true ↔ goal x = true) as Hg.
  { intros x. destruct (goal x); [done|]. by destruct (stop x). }
  split; intros (y & Hp & Hy); exists y; (split; [|by apply Hg]); (eapply rtc_subrel; [|exact Hp]).
  - intros a b [Ha Hb]. rewrite targets_spec in Hb. destruct (goal a), (stop a); naive_solver.
  - intros a b (Hb & Ha & Hs). rewrite targets_spec, Ha, Hs. done.
Qed.

(** [canReach] is reachability. *)
Lemma canReach_spec a b : canReach g a b = true ↔ rtc flows a b.
Proof.
  unfold canReach. rewrite finds_spec. split.
  - intros (y & Hp & ->%str_eqb_eq). eapply rtc_subrel; [|exact Hp]. by intros ? ? [? _].
  - intros Hp. exists b. split; [|apply str_eqb_refl].
    induction Hp as [|a c b Hf _ IH]; [done|]. destruct (decide (b = a)) as [->|Hne]; [done|].
    eapply rtc_l; [|exact IH]. split; [done|]. split; [|done]. by unfold str_eqb; rewrite bool_decide_false.
Qed.

Lemma reach_set_spec x y : y ∈ reach_set g (targets g) x ↔ rtc flows x y.
Proof.
  unfold reach_set. rewrite (visited_exact _ ids targets_closed _ _ _ fuel_enough).
  split; apply rtc_subrel; intros a b; apply targets_spec.
Qed.
Lemma lead_set_spec x y : y ∈ reach_set g (sources g) x ↔ rtc flows y x.
Proof.
  unfold reach_set. rewrite (visited_exact _ ids sources_closed _ _ _ fuel_enough).
  split.
  - induction 1 as [|a b c H _ IH]; [done|]. eapply rtc_r; [exact IH|]. by apply sources_spec.
  - induction 1 as [|a b c H _ IH]; [done|]. eapply rtc_r; [exact IH|]. by apply sources_spec.
Qed.
End Reach.

Lemma no_link_keys_spec m k : NoDup (keys m) → k ∈ no_link_keys m ↔ k ∈ keys m ∧ links m k = [].
Proof.
  intros Hn. unfold no_link_keys, links. rewrite list_elem_of_fmap. split.
  - intros ([k' l] & -> & H). apply list_elem_of_In, filter_In in H as [H Hl]. cbn in *.
    apply list_elem_of_In in H. pose proof (proj2 (assoc_nodup _ _ _ Hn) H) as ->. split.
    + by apply (list_elem_of_fmap_2 fst) in H.
    + by destruct l.
  - intros [Hk Hl]. apply assoc_keys in Hk as [l Hk]. rewrite Hk in Hl. cbn in Hl. subst l.
    exists (k, []). split; [done|]. apply list_elem_of_In, filter_In. split; [|done].
    by apply list_elem_of_In, assoc_elem.
Qed.
Lemma no_link_keys_nodup m : NoDup (keys m) → NoDup (no_link_keys m).
Proof.
  unfold keys, no_link_keys. induction m as [|[k l] m IH]; cbn; [intros _; apply NoDup_nil_2|].
  intros [Hk Hn]%NoDup_cons. destruct (Nat.eqb (length l) 0); cbn; [|auto].
  apply NoDup_cons. split; [|auto]. intros ([k' l'] & -> & H)%list_elem_of_fmap. apply Hk.
  apply list_elem_of_In, filter_In in H as [H _]. apply list_elem_of_In in H.
  by apply (list_elem_of_fmap_2 fst) in H.
Qed.

(** ** Checks that report nothing *)

Lemma issue_if_nil b m p : issue_if b m p = [] ↔ b = false.
Proof. by destruct b. Qed.
Lemma app_nil_iff {A} (l k : list A) : l ++ k = [] ↔ l = [] ∧ k = [].
Proof. split; [apply app_eq_nil | by intros [-> ->]]. Qed.
Lemma flat_map_nil {A B} (f : A → list B) l : flat_map f l = [] ↔ ∀ a, a ∈ l → f a = [].
Proof.
  induction l as [|a l IH]; cbn; [split; [by intros _ a ?%elem_of_nil|done]|].
  rewrite app_nil_iff, IH. split; [intros [H1 H2] b [->|?]%elem_of_cons; auto|].
  intros H. split; [apply H; by left|]. intros b Hb. apply H. by right.
Qed.
Lemma outcome_mapM_ok {E A B} (f : A → outcome E B) l k : mapM f l = Ok k ↔ Forall2 (λ a b, f a = Ok b) l k.
Proof.
  revert k. induction l as [|a l IH]; intros k; cbn.
  - split; [by intros [= <-] | by inversion 1].
  - rewrite outcome_bind_ok. setoid_rewrite outcome_bind_ok. split.
    + intros (b & Hb & k' & Hk & H). injection H as <-. constructor; [done|by apply IH].
    + inversion 1; subst. eexists. split; [done|]. eexists. split; [by apply IH|done].
Qed.
Lemma mapM_concat_nil {E A B} (f : A → outcome E (list B)) l :
  outcome_map (@concat _) (mapM f l) = Ok [] ↔ ∀ a, a ∈ l → f a = Ok [].
Proof.
  trans (mapM f l = Ok (replicate (length l) [])).
  - destruct (mapM f l) as [k|e] eqn:E1; cbn; [|done]. apply outcome_mapM_ok in E1. split.
    + intros [= H]. f_equal. clear -E1 H. induction E1 as [|a b l k _ _ IH]; [done|]. cbn in *.
      apply app_nil_iff in H as [-> H]. by rewrite IH.
    + intros [= ->]. f_equal. clear. by induction l.
  - rewrite outcome_mapM_ok, <-Forall_forall. induction l as [|a l IH]; [done|]. cbn.
    rewrite Forall_cons, <-IH. split; [by inversion 1|]. intros [? ?]. by constructor.
Qed.

Lemma check_unique_nil {A} (key : A → str) f i seen (l : list A) :
  (∀ i a, f i a true ≠ []) → check_distinct key f i seen l = [] →
  NoDup (map key l) ∧ (∀ a, a ∈ l → (key a ∉ seen) ∧ ∃ i, f i a false = []).
Proof.
  intros Hf. revert i seen. induction l as [|a l IH]; cbn; intros i seen.
  { intros _. split; [apply NoDup_nil_2|]. by intros a ?%elem_of_nil. }
  intros [H1 H2]%app_nil_iff. apply IH in H2 as [Hn Ha].
  destruct (member (key a) seen) eqn:Em; [by apply Hf in H1|]. apply member_false in Em. split.
  - apply NoDup_cons. split; [|done]. intros (b & Hk & Hb)%list_elem_of_fmap.
    destruct (Ha b Hb) as [Hs _]. apply Hs. rewrite Hk. by left.
  - intros b [->|Hb]%elem_of_cons; [by eauto|]. destruct (Ha b Hb) as [Hs ?]. split; [|done].
    intros Hin. apply Hs. by right.
Qed.

(** A definition that passed the refinement *)
Definition accepted (w : workflow) : Prop := refine_workflow w = Ok [].

Lemma schema_ok v w : workflowDefinitionV2Schema v = Ok w ↔ workflow_shape v = Some w ∧ accepted w.
Proof.
  unfold workflowDefinitionV2Schema, accepted. destruct (workflow_shape v) as [w'|]; cbn;
    [|split; [done|by intros [? _]]].
  destruct (refine_workflow w') as [[|i rest]|[]] eqn:E; cbn; split; try done; try (intros [= <-]; done);
    intros [[= <-] H]; congruence.
Qed.

(** What each part of the validation establishes *)
Record accepted_parts (w : workflow) : Prop := {
  ap_ids : NoDup (map nd_id (wf_nodes w));
  ap_config : ∀ n, n ∈ wf_nodes w → ∃ c, validate workflowBlockRegistry (nd_type n) (nd_version n) (nd_config n) = Ok c;
  ap_edges : es_issues (index_edges (wf_nodes w) (wf_edges w)) = [];
  ap_ends : check_ends (graph_of (wf_nodes w) (wf_edges w)) (wf_edges w) = [];
  ap_node : ∀ kn, kn ∈ byId_of (wf_nodes w) → check_node (graph_of (wf_nodes w) (wf_edges w)) kn = [];
  ap_publish : ∀ n, n ∈ indexed (wf_nodes w) → check_publish (graph_of (wf_nodes w) (wf_edges w)) n = Ok [];
  ap_context : ∀ n, n ∈ indexed (wf_nodes w) → check_context (graph_of (wf_nodes w) (wf_edges w)) n = Ok [];
  ap_conversations : check_conversations (graph_of (wf_nodes w) (wf_edges w)) (indexed (wf_nodes w)) = Ok [];
  ap_terminal : check_terminal (graph_of (wf_nodes w) (wf_edges w)) = [];
  ap_reachable : check_reachable (graph_of (wf_nodes w) (wf_edges w)) (wf_nodes w) (wf_edges w) = [];
  ap_leads : check_leads (graph_of (wf_nodes w) (wf_edges w)) (wf_nodes w) = [];
  ap_components : ∀ c, c ∈ components (graph_of (wf_nodes w) (wf_edges w)) →
    check_component (graph_of (wf_nodes w) (wf_edges w)) c = [];
}.

Lemma accepted_inv w : accepted w → accepted_parts w.
Proof.
  unfold accepted, refine_workflow, validateGraphTopology. cbv zeta.
  intros (top & Ht & H)%outcome_bind_ok. injection H as H.
  apply outcome_bind_ok in Ht as (pub & Hpub & Ht). apply outcome_bind_ok in Ht as (ctx & Hctx & Ht).
  apply outcome_bind_ok in Ht as (conv & Hconv & Ht). injection Ht as <-.
  repeat match goal with H : _ ++ _ = [] |- _ => apply app_nil_iff in H as [? ?] end. subst.
  rewrite mapM_concat_nil in Hpub, Hctx.
  repeat match goal with H : flat_map _ _ = [] |- _ => rewrite flat_map_nil in H end.
  match goal with H : check_distinct nd_id _ _ _ _ = [] |- _ =>
    apply check_unique_nil in H as [Hn Hc]; [|by intros ? ? ?] end.
  constructor; try assumption. intros n (_ & i & Hi)%Hc. unfold check_block in Hi. cbn in Hi.
  destruct (validate _ _ _ _) as [c|]; [by exists c|done].
Qed.

Lemma add_edge_clean byId st i e :
  es_issues (add_edge byId st (i, e)) = [] →
  es_issues st = [] ∧ ∃ l, link_of byId e = Some l ∧ (semantic_key l ∉ es_semantic st) ∧
    es_semantic (add_edge byId st (i, e)) = semantic_key l :: es_semantic st.
Proof.
  unfold add_edge, link_of.
  destruct (assoc (ed_source e) byId) as [[? s]|]; [|cbn; by intros [_ ?]%app_nil_iff].
  destruct (assoc (ed_target e) byId) as [[? t]|]; [|cbn; by intros [_ ?]%app_nil_iff].
  destruct (resolve_link s t e) as [l|]; cbn [es_issues es_semantic]; [|by intros [_ ?]%app_nil_iff].
  intros [H1 H2]%app_nil_iff. apply issue_if_nil, member_false in H2. eauto 10.
Qed.

Lemma fold_edges_clean byId edges i st :
  es_issues (foldl (add_edge byId) st (zip (seq i (length edges)) edges)) = [] →
  es_issues st = [] ∧ (∀ e, e ∈ edges → is_Some (link_of byId e)) ∧
  NoDup (map semantic_key (omap (link_of byId) edges)) ∧
  ∀ l, l ∈ omap (link_of byId) edges → semantic_key l ∉ es_semantic st.
Proof.
  revert i st. induction edges as [|e edges IH]; intros i st; cbn [length seq zip zip_with foldl].
  { intros H. split_and!; [done|by intros e ?%elem_of_nil|apply NoDup_nil_2|by intros e ?%elem_of_nil]. }
  intros (H1 & H2 & H3 & H4)%IH. apply add_edge_clean in H1 as (H0 & l & Hl & Hs & He). rewrite He in H4.
  change (omap (link_of byId) (e :: edges)) with
    (match link_of byId e with Some y => y :: omap (link_of byId) edges | None => omap (link_of byId) edges end).
  rewrite Hl. split_and!; [done| | |].
  - intros e' [->|?]%elem_of_cons; eauto.
  - cbn. apply NoDup_cons. split; [|done]. intros (l' & Hk & Hin)%list_elem_of_fmap.
    apply (H4 l' Hin). rewrite Hk. by left.
  - intros l' [->|Hin]%elem_of_cons; [done|]. intros Hx. apply (H4 l' Hin). by right.
Qed.

Section Accepted.
Variable w : workflow.
Hypothesis Hacc : accepted w.
Let parts : accepted_parts w := accepted_inv w Hacc.
Let nodes := wf_nodes w.
Let edges := wf_edges w.
Let g := graph_of nodes edges.

Lemma accepted_edges : (∀ e, e ∈ edges → is_Some (link_of (byId_of nodes) e)) ∧ NoDup (wf_links nodes edges).
Proof.
  pose proof (ap_edges _ parts) as H. apply fold_edges_clean in H as (_ & H1 & H2 & _). split; [done|].
  by apply NoDup_fmap_1 in H2.
Qed.

Lemma accepted_byId : byId_of nodes = map (λ n, (nd_id n.2, n)) (indexed nodes).
Proof.
  apply map_of_nodup. unfold keys. rewrite map_map. cbn. rewrite <-map_map, indexed_snd. apply (ap_ids _ parts).
Qed.
Lemma accepted_ids : ids nodes = map nd_id nodes.
Proof.
  unfold ids, keys. rewrite accepted_byId, map_map. cbn. by rewrite <-(map_map snd nd_id), indexed_snd.
Qed.
Lemma accepted_node n : n ∈ nodes → ∃ i, (nd_id n, (i, n)) ∈ byId_of nodes ∧ (i, n) ∈ indexed nodes.
Proof.
  intros Hn. rewrite accepted_byId. rewrite <-(indexed_snd nodes) in Hn.
  apply list_elem_of_fmap in Hn as ([i n'] & -> & Hn). exists i. split; [|done].
  by apply (list_elem_of_fmap_2 (λ n, (nd_id n.2, n))) in Hn.
Qed.
Lemma accepted_node_of n : n ∈ nodes → node_of g (nd_id n) = Some n.
Proof.
  intros (i & Hn & _)%accepted_node. unfold node_of, g, graph_of. cbn [g_byId].
  assert (assoc (nd_id n) (byId_of nodes) = Some (i, n)) as -> by (by apply assoc_nodup; [apply map_of_keys_nodup|]).
  done.
Qed.

(** The edges of the definition, by their ends *)
Definition edge_from_to (a b : str) : Prop := ∃ e, e ∈ edges ∧ ed_source e = a ∧ ed_target e = b.

Lemma flows_edges a b : flows nodes edges a b ↔ edge_from_to a b.
Proof.
  unfold flows, edge_from_to, wf_links. setoid_rewrite list_elem_of_omap. split.
  - intros (l & (e & He & Hl) & <- & <-). exists e. apply link_of_ends in Hl as (-> & -> & _). done.
  - intros (e & He & <- & <-). destruct (proj1 accepted_edges e He) as [l Hl]. exists l.
    pose proof (link_of_ends _ _ _ Hl) as (-> & -> & _). eauto.
Qed.
Lemma reach_edges a b : rtc (flows nodes edges) a b ↔ rtc edge_from_to a b.
Proof. split; apply rtc_subrel; intros x y; apply flows_edges. Qed.

Lemma outgoing_keys : keys (g_outgoing g) = ids nodes ∧ keys (g_incoming g) = ids nodes.
Proof. apply index_edges_keys. Qed.
Lemma ids_nodup : NoDup (ids nodes).
Proof. apply map_of_keys_nodup. Qed.

Lemma terminal_spec t : t ∈ terminals g ↔ t ∈ ids nodes ∧ ∀ b, ¬ flows nodes edges t b.
Proof.
  unfold terminals. destruct outgoing_keys as [Ho _]. rewrite no_link_keys_spec by (rewrite Ho; apply ids_nodup).
  rewrite Ho. apply and_iff_compat_l. change (links (g_outgoing g) t) with (outs_of g t). split.
  - intros H b (l & Hl & Hs & _). assert (l ∈ outs_of g t) as Hin by (by apply outs_spec).
    rewrite H in Hin. by apply elem_of_nil in Hin.
  - intros H. apply elem_of_nil_inv. intros l [Hl Hs]%outs_spec. by apply (H (ln_target l)); exists l.
Qed.
Lemma root_spec r : r ∈ no_link_keys (g_incoming g) ↔ r ∈ ids nodes ∧ ∀ a, ¬ flows nodes edges a r.
Proof.
  destruct outgoing_keys as [_ Hi]. rewrite no_link_keys_spec by (rewrite Hi; apply ids_nodup).
  rewrite Hi. apply and_iff_compat_l. change (links (g_incoming g) r) with (ins_of g r). split.
  - intros H a (l & Hl & _ & Ht). assert (l ∈ ins_of g r) as Hin by (by apply ins_spec).
    rewrite H in Hin. by apply elem_of_nil in Hin.
  - intros H. apply elem_of_nil_inv. intros l [Hl Hs]%ins_spec. by apply (H (ln_source l)); exists l.
Qed.

(** A condition's edge that leads back to the condition *)
Definition loop_edge (b : str) : Prop :=
  ∃ e, e ∈ edges ∧ is_condition g (ed_source e) = true ∧ ed_target e = b ∧
       rtc (flows nodes edges) b (ed_source e).
Lemma cycleRoots_spec b : b ∈ cycleRoots g edges ↔ loop_edge b.
Proof.
  unfold cycleRoots, loop_edge. rewrite list_elem_of_fmap. split.
  - intros (e & -> & He). apply list_elem_of_In, filter_In in He as [He H]. apply list_elem_of_In in He.
    apply andb_true_iff in H as [Hc Hr]. apply canReach_spec in Hr. eauto.
  - intros (e & He & Hc & <- & Hr). exists e. split; [done|]. apply list_elem_of_In, filter_In.
    split; [by apply list_elem_of_In|]. apply andb_true_iff. split; [done|]. by apply canReach_spec.
Qed.

Lemma singleton_length {A} (l : list A) : negb (Nat.eqb (length l) 1) = false → ∃ a, l = [a].
Proof. destruct l as [|a [|b l]]; try done. by exists a. Qed.

Lemma accepted_ends : ∃ e t, entries g edges = [e] ∧ terminals g = [t].
Proof.
  pose proof (ap_ends _ parts) as H. unfold check_ends in H. fold nodes edges g in H.
  apply app_nil_iff in H as [H1 H2]. apply issue_if_nil in H1, H2.
  apply singleton_length in H1 as [e ?], H2 as [t ?]. eauto.
Qed.

(** The entry: the only node without incoming edges, or, when every node has
    one, the only target of an edge by which a Condition repeats. *)
Lemma entry_spec e :
  entries g edges = [e] →
  (e ∈ ids nodes) ∧
  ((∀ r, r ∈ ids nodes → (∀ a, ¬ flows nodes edges a r) ↔ r = e) ∨
   (∀ r, r ∈ ids nodes → ∃ a, flows nodes edges a r) ∧ (∀ b, loop_edge b ↔ b = e)).
Proof.
  unfold entries. destruct (no_link_keys (g_incoming g)) as [|r l] eqn:E; cbn.
  - intros H. assert (∀ b, loop_edge b ↔ b = e) as Hb.
    { intros b. rewrite <-cycleRoots_spec, <-elem_of_dedup, H. apply list_elem_of_singleton. }
    split.
    + destruct (proj2 (Hb e) eq_refl) as (ed & He & _ & <- & _).
      destruct (proj1 accepted_edges ed He) as [l Hl]. by apply link_of_ends in Hl as (_ & _ & _ & ?).
    + right. split; [|done]. intros r Hr. destruct (ins_of g r) as [|l ls] eqn:Ei.
      * assert (r ∈ no_link_keys (g_incoming g)) as Hin; [|by rewrite E in Hin; apply elem_of_nil in Hin].
        destruct outgoing_keys as [_ Hi]. apply no_link_keys_spec; rewrite Hi; [apply ids_nodup|done].
      * exists (ln_source l). assert (l ∈ ins_of g r) as [Hl <-]%ins_spec by (rewrite Ei; by left). by exists l.
  - intros [= -> ->]. assert (∀ r, r ∈ [e] ↔ r ∈ ids nodes ∧ ∀ a, ¬ flows nodes edges a r) as H
      by (intros r; rewrite <-E; apply root_spec).
    split; [by apply H; left|]. left. intros r Hr. rewrite <-list_elem_of_singleton, H. naive_solver.
Qed.

Lemma covers_ids (l : list str) :
  NoDup l → (∀ x, x ∈ l → x ∈ ids nodes) → length l = length nodes → ∀ x, x ∈ ids nodes → x ∈ l.
Proof.
  intros Hn Hs Hl x Hx. rewrite !list_elem_of_In in *. revert x Hx. apply NoDup_length_incl.
  - by apply NoDup_ListNoDup.
  - rewrite accepted_ids, length_map. lia.
  - intros y Hy. apply list_elem_of_In, Hs. by apply list_elem_of_In.
Qed.

(** Every node lies between the entry and the terminal. *)
Lemma accepted_between e t x :
  entries g edges = [e] → terminals g = [t] → x ∈ ids nodes →
  rtc (flows nodes edges) e x ∧ rtc (flows nodes edges) x t.
Proof.
  intros He Ht Hx. pose proof (ap_reachable _ parts) as Hr. pose proof (ap_leads _ parts) as Hl.
  unfold check_reachable, check_leads in *. fold nodes edges g in Hr, Hl. rewrite He in Hr. rewrite Ht in Hl.
  apply issue_if_nil, negb_false_iff, Nat.eqb_eq in Hr, Hl. split.
  - apply reach_set_spec. apply covers_ids; [apply visited_nodup| |done|done].
    intros y Hy%reach_set_spec. eapply reach_ids; [exact Hy|]. by apply entry_spec.
  - apply lead_set_spec. apply covers_ids; [apply visited_nodup| |done|done].
    intros y Hy%lead_set_spec. assert (t ∈ ids nodes) as Hi by (by apply terminal_spec; rewrite Ht; left).
    apply rtc_inv in Hy as [->|(z & Hz & _)]; [done|]. by apply flows_ids in Hz as [? _].
Qed.
End Accepted.
