(* ===== verification/WorkflowShape.v ===== *)
(** * The shape of an accepted workflow

    What the checks of a node mean: Conditions, Joins and the fan-outs they
    close, merges of exclusive or repeated routes, and the nodes a
    configuration refers to. *)

From stdpp Require Import relations.
From S2P Require Import Prelude JsString Json Layout Libs Contract GithubClient GraphSearch WorkflowBlocks WorkflowGraph WorkflowPlan WorkflowGraphFacts.

(** The resolved edges into and out of a node, and the type of a node *)
Definition links_in (w : workflow) (id : str) : list wf_link :=
  List.filter (λ l, str_eqb (ln_target l) id) (wf_links (wf_nodes w) (wf_edges w)).
Definition links_out (w : workflow) (id : str) : list wf_link :=
  List.filter (λ l, str_eqb (ln_source l) id) (wf_links (wf_nodes w) (wf_edges w)).
Definition typed (w : workflow) (t id : str) : Prop := ∃ n, n ∈ wf_nodes w ∧ nd_id n = id ∧ nd_type n = t.

Section Shape.
Variable w : workflow.
Hypothesis Hacc : accepted w.
Let parts : accepted_parts w := accepted_inv w Hacc.
Let nodes := wf_nodes w.
Let edges := wf_edges w.
Let g := graph_of nodes edges.
Let flow := flows nodes edges.

Lemma ins_links id : ins_of g id = links_in w id.
Proof. apply (index_edges_links nodes edges id). Qed.
Lemma outs_links id : outs_of g id = links_out w id.
Proof. apply (index_edges_links nodes edges id). Qed.

Lemma has_type_spec t id : has_type g t id = true ↔ typed w t id.
Proof.
  unfold has_type, typed. split.
  - destruct (node_of g id) as [n|] eqn:E; [|done]. intros <-%str_eqb_eq. exists n.
    unfold node_of, g, graph_of in E. cbn [g_byId] in E. destruct (assoc id (byId_of nodes)) as [[i m]|] eqn:Ea; [|done].
    injection E as ->. apply assoc_elem in Ea. unfold nodes in Ea. rewrite (accepted_byId w Hacc) in Ea.
    apply list_elem_of_fmap in Ea as ([j m] & [= -> <- <-] & Hm). split; [|done].
    apply (list_elem_of_fmap_2 snd) in Hm. by rewrite indexed_snd in Hm.
  - intros (n & Hn & <- & <-). pose proof (accepted_node_of w Hacc n Hn) as Hg. fold nodes edges g in Hg.
    rewrite Hg. apply str_eqb_refl.
Qed.

(** The checks of a node say nothing. *)
Lemma node_checked n : n ∈ nodes → ∃ i, check_node g (nd_id n, (i, n)) = [].
Proof.
  intros Hn. destruct (accepted_node w Hacc n Hn) as (i & Hi & _). exists i. by apply (ap_node _ parts).
Qed.

(** ** Conditions *)

Lemma condition_shape n :
  n ∈ nodes → nd_type n = t_condition →
  ∃ i t f, links_in w (nd_id n) = [i] ∧ links_out w (nd_id n) ≡ₚ [t; f] ∧
           ln_sourcePort t = p_true ∧ ln_sourcePort f = p_false.
Proof.
  intros Hn Ht. destruct (node_checked n Hn) as [i H]. unfold check_node in H. rewrite Ht, str_eqb_refl in H.
  cbv zeta in H. rewrite app_nil_r in H. unfold check_condition in H. apply app_nil_iff in H as [H1 H2].
  apply issue_if_nil, singleton_length in H1 as [l Hl]. apply issue_if_nil in H2.
  rewrite !orb_false_iff, !negb_false_iff, !Nat.eqb_eq in H2. destruct H2 as [[H2 H3] H4].
  rewrite ins_links in Hl. rewrite outs_links in H2, H3, H4. exists l.
  destruct (links_out w (nd_id n)) as [|a [|b [|c ls]]]; try discriminate. clear H2. unfold count_port in *. cbn in *.
  assert (p_true ≠ p_false) by done.
  destruct (str_eqb (ln_sourcePort a) p_true) eqn:E1, (str_eqb (ln_sourcePort b) p_true) eqn:E2; cbn in H3; try discriminate;
  destruct (str_eqb (ln_sourcePort a) p_false) eqn:E3, (str_eqb (ln_sourcePort b) p_false) eqn:E4; cbn in H4; try discriminate;
  rewrite ?str_eqb_eq in *; try congruence.
  - by exists a, b.
  - exists b, a. split_and!; [done|apply perm_swap|done..].
Qed.

(** ** Joins *)

Lemma sole_source_spec b o : sole_source g b = Some o ↔ ∃ l, links_in w b = [l] ∧ ln_source l = o.
Proof.
  unfold sole_source. rewrite ins_links. destruct (links_in w b) as [|l [|? ?]]; naive_solver.
Qed.
Lemma leads_only_spec b id : leads_only_to g id b = true ↔ ∃ l, links_out w b = [l] ∧ ln_target l = id.
Proof.
  unfold leads_only_to. rewrite outs_links. destruct (links_out w b) as [|l [|? ?]]; rewrite ?str_eqb_eq; naive_solver.
Qed.

(** The branches between a fan-out and its Join *)
Definition branch (origin id b : str) : Prop :=
  (∃ l, links_in w b = [l] ∧ ln_source l = origin) ∧ (∃ l, links_out w b = [l] ∧ ln_target l = id).

Lemma branches_nodup origin id ls :
  (∀ l, l ∈ ls → l ∈ links_in w id) → NoDup ls → (∀ b, b ∈ map ln_source ls → branch origin id b) →
  NoDup (map ln_source ls).
Proof.
  intros Hin Hn Hb. apply NoDup_fmap_2_strong; [|done]. intros l l' Hl Hl' Heq.
  destruct (Hb (ln_source l)) as [_ (k & Hk & _)]; [by apply list_elem_of_fmap_2|].
  assert (∀ m, m ∈ ls → ln_source m = ln_source l → m = k) as H; [|rewrite (H l), (H l'); done].
  intros m Hm Hs. assert (m ∈ links_out w (ln_source l)) as Hmk.
  { apply elem_filter_links. split; [|by apply str_eqb_eq]. by apply Hin, elem_filter_links in Hm as [? _]. }
  rewrite Hk in Hmk. by apply list_elem_of_singleton in Hmk.
Qed.

Lemma join_shape n :
  n ∈ nodes → nd_type n = t_join →
  ∃ origin, ¬ typed w t_condition origin ∧ 2 ≤ length (links_in w (nd_id n)) ∧ length (links_out w (nd_id n)) = 1 ∧
    map ln_target (links_out w origin) ≡ₚ map ln_source (links_in w (nd_id n)) ∧
    ∀ b, b ∈ map ln_source (links_in w (nd_id n)) → branch origin (nd_id n) b.
Proof.
  intros Hn Ht. destruct (node_checked n Hn) as [i H]. unfold check_node in H. rewrite Ht in H.
  change (str_eqb t_join t_condition) with false in H. rewrite str_eqb_refl in H. cbv zeta in H.
  apply app_nil_iff in H as [H _]. unfold check_join in H. apply app_nil_iff in H as [H1 H].
  apply app_nil_iff in H as [H2 H3]. apply issue_if_nil in H1, H2, H3.
  apply Nat.ltb_ge in H1. apply negb_false_iff, Nat.eqb_eq in H2. apply negb_false_iff in H3.
  rewrite ins_links in H1, H3. rewrite outs_links in H2.
  unfold structured in H3. cbv zeta in H3.
  destruct (map (sole_source g) (map ln_source (links_in w (nd_id n)))) as [|[origin|] os] eqn:Eo; try discriminate.
  rewrite !andb_true_iff, !forallb_true_elem in H3. destruct H3 as [[[[_ H3] H4] H5] H6].
  apply negb_true_iff in H4. apply Nat.eqb_eq in H5. rewrite <-Eo in H3.
  assert (∀ b, b ∈ map ln_source (links_in w (nd_id n)) → branch origin (nd_id n) b) as Hb.
  { intros b Hb. split; [|by apply leads_only_spec, H6].
    apply sole_source_spec. apply (bool_decide_eq_true_1 _ (H3 _ (list_elem_of_fmap_2 _ _ _ Hb))). }
  assert (NoDup (links_in w (nd_id n))) as Hnd.
  { unfold links_in. apply NoDup_ListNoDup, List.NoDup_filter, NoDup_ListNoDup. apply (accepted_edges w Hacc). }
  exists origin. split_and!; [|done|done| |done].
  - rewrite <-has_type_spec. unfold is_condition in H4. congruence.
  - symmetry. apply submseteq_length_Permutation.
    + apply NoDup_submseteq; [by eapply branches_nodup|]. intros b Hin. destruct (Hb b Hin) as [(l & Hl & <-) _].
      apply list_elem_of_fmap. exists l. assert (l ∈ links_in w b) as [Hl1 Hl2]%elem_filter_links by (rewrite Hl; by left).
      apply str_eqb_eq in Hl2. split; [done|]. apply elem_filter_links. split; [done|]. apply str_eqb_refl.
    + rewrite <-outs_links, !length_map in *. lia.
Qed.

(** ** Fan-outs *)

Lemma joinsFor_spec start j :
  j ∈ joinsFor g start ↔ typed w t_join j ∧ rtc (λ a b, flow a b ∧ ¬ typed w t_join a) start j.
Proof.
  unfold joinsFor. rewrite list_elem_of_In, filter_In, <-in_rev, <-list_elem_of_In. unfold is_join at 1.
  rewrite has_type_spec. unfold reach_set.
  rewrite (visited_exact (before_join g) (ids nodes)); [|intros x Hx|apply fuel_enough].
  - rewrite Logic.and_comm. apply and_iff_compat_l. split; apply rtc_subrel; intros a b; unfold before_join, is_join.
    + destruct (has_type g t_join a) eqn:E; [by intros ?%elem_of_nil|]. intros Hf%targets_spec. split; [done|].
      rewrite <-has_type_spec. congruence.
    + intros [Hf Ha]. rewrite <-has_type_spec in Ha. destruct (has_type g t_join a); [by destruct Ha|].
      by apply targets_spec.
  - unfold before_join. destruct (is_join g x); [done|]. by apply targets_closed.
Qed.

Lemma common_joins_spec outs j :
  outs ≠ [] → j ∈ common_joins g outs ↔ ∀ l, l ∈ outs → j ∈ joinsFor g (ln_target l).
Proof.
  intros Ho. unfold common_joins. rewrite list_elem_of_In, filter_In, <-list_elem_of_In, forallb_true_elem.
  setoid_rewrite list_elem_of_fmap. split.
  - intros [_ H] l Hl. apply member_true, H. eauto.
  - intros H. split.
    + destruct outs as [|l ls]; [done|]. cbn. apply H. by left.
    + intros x (l & -> & Hl). by apply member_true, H.
Qed.

Lemma containsApproval_spec j start x :
  containsApproval g j start = false → rtc (λ a b, flow a b ∧ a ≠ j) start x → x ≠ j → ¬ typed w t_approval x.
Proof.
  intros Hno Hp Hx Ha. apply not_true_iff_false in Hno. apply Hno, finds_spec. clear Hno.
  induction Hp as [x|x y z [Hf Hj] _ IH].
  - exists x. split; [done|]. apply andb_true_iff. split; [|by apply has_type_spec].
    unfold str_eqb. by rewrite bool_decide_false.
  - destruct IH as (u & Hu & Hg); [done|done|]. destruct (has_type g t_approval x) eqn:E.
    + exists x. split; [done|]. apply andb_true_iff. split; [|done]. unfold str_eqb. by rewrite bool_decide_false.
    + exists u. split; [|done]. eapply rtc_l; [|exact Hu]. cbv beta. rewrite E, andb_false_r. split_and!; [done..|].
      unfold str_eqb. by rewrite bool_decide_false.
Qed.

Lemma fan_out_shape n :
  n ∈ nodes → nd_type n ≠ t_condition →
  length (links_out w (nd_id n)) ≤ 3 ∧
  (2 ≤ length (links_out w (nd_id n)) →
   ∃ j, typed w t_join j ∧ ∀ l, l ∈ links_out w (nd_id n) →
     rtc (λ a b, flow a b ∧ ¬ typed w t_join a) (ln_target l) j ∧
     ∀ x, rtc (λ a b, flow a b ∧ a ≠ j) (ln_target l) x → x ≠ j → ¬ typed w t_approval x).
Proof.
  intros Hn Ht. destruct (node_checked n Hn) as [i H]. unfold check_node in H. cbv zeta in H.
  assert (str_eqb (nd_type n) t_condition = false) as Hc by (unfold str_eqb; by rewrite bool_decide_false).
  rewrite Hc in H. apply app_nil_iff in H as [_ H]. rewrite outs_links in H. unfold check_fan_out in H.
  apply app_nil_iff in H as [H1 H2]. apply issue_if_nil, Nat.ltb_ge in H1. split; [done|]. intros H3.
  assert ((1 <? length (links_out w (nd_id n)))%nat = true) as Hl by (apply Nat.ltb_lt; lia). rewrite Hl in H2.
  destruct (common_joins g (links_out w (nd_id n))) as [|j js] eqn:E; [done|]. exists j.
  assert (j ∈ common_joins g (links_out w (nd_id n))) as Hj by (rewrite E; by left).
  rewrite common_joins_spec in Hj by (intros Hnil; rewrite Hnil in H3; cbn in H3; lia).
  apply issue_if_nil in H2. split.
  - destruct (links_out w (nd_id n)) as [|l ls]; [cbn in H3; lia|]. by apply (joinsFor_spec (ln_target l)), Hj; left.
  - intros l Hin. split; [by apply joinsFor_spec, Hj|]. intros x. apply containsApproval_spec.
    apply not_true_iff_false. intros Ha. apply not_true_iff_false in H2. apply H2, existsb_exists. exists l.
    split; [by apply list_elem_of_In|done].
Qed.

(** ** Merges *)

Lemma controlled_path p x q y :
  rtc (moves (targets g) (λ hasCondition x, if str_eqb x y then Some (hasCondition || is_condition g x) else None)
         (λ hasCondition x, hasCondition || is_condition g x)) (p, x) (q, y) →
  rtc flow x y ∧ (q = true → p = true ∨ ∃ c, typed w t_condition c ∧ rtc flow x c ∧ rtc flow c y).
Proof.
  intros H. remember (p, x) as a eqn:Ea. remember (q, y) as b eqn:Eb. revert p x Ea.
  induction H as [a|a c b [_ [Hq Hc]] _ IH]; intros p x ->.
  - injection Eb as -> ->. split; [done|]. by left.
  - destruct c as [p' x']. cbn in *. subst p'. apply targets_spec in Hc. destruct (IH Eb _ _ eq_refl) as [H1 H2].
    split; [by eapply rtc_l|]. intros Ht. destruct (H2 Ht) as [[H3|H3]%orb_true_iff|(c & ? & ? & ?)].
    + by left.
    + right. exists x. split; [by apply has_type_spec|]. split; [done|]. by eapply rtc_l.
    + right. exists c. split; [done|]. split; [|done]. by eapply rtc_l.
Qed.

Lemma controlled_cycle_spec id source :
  controlled_cycle g id source = true → ∃ c, typed w t_condition c ∧ rtc flow id c ∧ rtc flow c source.
Proof.
  unfold controlled_cycle. intros H. destruct (dfs _ _ _ _ _ _ _ _ _) as [b seen] eqn:E. cbn in H. subst b.
  apply (dfs_sound Datatypes.id false) in E as (q & y & Hp & Hy); [|done..]. destruct (str_eqb y source) eqn:Es; [|done].
  apply str_eqb_eq in Es as ->. injection Hy as Hy. apply controlled_path in Hp as [Hp Hc].
  apply orb_true_iff in Hy as [Hy|Hy].
  - by destruct (Hc Hy).
  - exists source. split; [by apply has_type_spec|done].
Qed.

Lemma route_leads_spec id c p :
  route_leads g id (links_in w id) c p = true →
  ∃ l y, l ∈ links_out w c ∧ ln_sourcePort l = p ∧ rtc (λ a b, flow a b ∧ a ≠ id) (ln_target l) y ∧ flow y id.
Proof.
  unfold route_leads, route_start. rewrite outs_links. destruct (find_list _ _) as [l|] eqn:E; [|done].
  apply find_some in E as [Hl Hp]. apply list_elem_of_In in Hl. apply str_eqb_eq in Hp. cbn. intros [_ H]%andb_true_iff.
  apply finds_spec in H as (y & Hy & Hg). exists l, y. split_and!; [done|done| |].
  - eapply rtc_subrel; [|exact Hy]. intros a b (Hf & _ & Ha). split; [done|]. intros ->. by rewrite str_eqb_refl in Ha.
  - apply existsb_exists in Hg as (k & Hk & <-%str_eqb_eq). apply list_elem_of_In, elem_filter_links in Hk as [Hk Ht].
    apply str_eqb_eq in Ht. by exists k.
Qed.

Lemma merge_shape n :
  n ∈ nodes → nd_type n ≠ t_condition → nd_type n ≠ t_join → 2 ≤ length (links_in w (nd_id n)) →
  (∃ c l, typed w t_condition c ∧ l ∈ links_in w (nd_id n) ∧ rtc flow (nd_id n) c ∧ rtc flow c (ln_source l)) ∨
  (∃ c, typed w t_condition c ∧ ∀ p, p ∈ [p_true; p_false] → ∃ l y, l ∈ links_out w c ∧ ln_sourcePort l = p ∧
     rtc (λ a b, flow a b ∧ a ≠ nd_id n) (ln_target l) y ∧ flow y (nd_id n)).
Proof.
  intros Hn Ht Hj H2. destruct (node_checked n Hn) as [i H]. unfold check_node in H. cbv zeta in H.
  assert (str_eqb (nd_type n) t_condition = false) as Hc by (unfold str_eqb; by rewrite bool_decide_false).
  assert (str_eqb (nd_type n) t_join = false) as Hc' by (unfold str_eqb; by rewrite bool_decide_false).
  rewrite Hc, Hc' in H. apply app_nil_iff in H as [H _]. rewrite ins_links in H. unfold check_merge in H.
  assert ((1 <? length (links_in w (nd_id n)))%nat = true) as Hl by (apply Nat.ltb_lt; lia). rewrite Hl in H.
  apply issue_if_nil in H. apply andb_false_iff in H as [H|H]; apply negb_false_iff, existsb_exists in H.
  - right. destruct H as ([id [k m]] & Hm & [Hm1 Hm2]%andb_true_iff). cbn in *. exists (nd_id m). split.
    + apply list_elem_of_In in Hm. apply str_eqb_eq in Hm1. exists m. split; [|done].
      unfold nodes in Hm. rewrite (accepted_byId w Hacc) in Hm. apply list_elem_of_fmap in Hm as ([j m'] & [= -> -> ->] & Hm).
      apply (list_elem_of_fmap_2 snd) in Hm. by rewrite indexed_snd in Hm.
    + intros p Hp. apply route_leads_spec. rewrite andb_true_r in Hm2. apply andb_true_iff in Hm2 as [? ?].
      by rewrite !elem_of_cons, elem_of_nil in Hp; destruct Hp as [->|[->|[]]].
  - left. destruct H as (l & Hl1 & Hl2). apply list_elem_of_In in Hl1.
    apply controlled_cycle_spec in Hl2 as (c & ? & ? & ?). by exists c, l.
Qed.

(** ** References of configurations *)

Lemma prop_ok k v r : raw_prop k v = Ok r → r = prop_opt k v.
Proof. destruct v; cbn; congruence. Qed.

Lemma node_at_spec v m : node_at g v = Some m → m ∈ nodes ∧ v = JStr (nd_id m).
Proof.
  destruct v as [| | | |s| | |]; try done. cbn. unfold node_of, g, graph_of. cbn [g_byId].
  destruct (assoc s (byId_of nodes)) as [[i n]|] eqn:E; [|done]. intros [= ->]. apply assoc_elem in E.
  unfold nodes in E. rewrite (accepted_byId w Hacc) in E. apply list_elem_of_fmap in E as ([j m'] & [= -> -> ->] & Hm).
  apply (list_elem_of_fmap_2 snd) in Hm. by rewrite indexed_snd in Hm.
Qed.

Lemma context_shape n l v :
  n ∈ nodes → nd_type n = t_agent → v2_or_v3 n = true →
  prop_opt "includeNodeOutputs" (prop_opt "context" (nd_config n)) = JArr l → v ∈ l →
  ∃ m, m ∈ nodes ∧ v = JStr (nd_id m) ∧ nd_id m ≠ nd_id n ∧ nd_type m = t_agent ∧ v2_or_v3 m = true ∧
       prop_opt "publishOutput" (prop_opt "context" (nd_config m)) = JBool true ∧ rtc flow (nd_id m) (nd_id n).
Proof.
  intros Hn Ht Hv Hl Hin. destruct (accepted_node w Hacc n Hn) as (i & _ & Hi).
  pose proof (ap_context _ parts _ Hi) as H. fold nodes edges g in H. unfold check_context in H. cbn [snd] in H.
  unfold agent_node in H. rewrite Ht, str_eqb_refl, Hv in H. cbn [andb] in H.
  apply outcome_bind_ok in H as (c & ->%prop_ok & H). rewrite Hl in H. cbn [iterate mbind outcome_bind] in H.
  rewrite mapM_concat_nil in H. specialize (H v Hin). unfold check_context_source in H.
  apply outcome_bind_ok in H as (c & Hc & H). injection H as H. apply issue_if_nil, negb_false_iff in H.
  unfold context_source_ok in H. destruct v as [| | | |s| | |]; try discriminate.
  destruct (node_at g (JStr s)) as [m|] eqn:Em; [|discriminate].
  pose proof (node_at_spec _ _ Em) as [Hm [= ->]]. rewrite !andb_true_iff in H. cbn [snd] in H.
  destruct H as [[[[H1 H2] H3] H4] H5]. exists m. cbn [source_context] in Hc. rewrite H2, H3 in Hc. cbn in Hc.
  apply prop_ok in Hc as ->. apply str_eqb_eq in H2. apply canReach_spec in H5. split_and!; try done.
  - intros Heq. by rewrite Heq, str_eqb_refl in H1.
  - by destruct (prop_opt "publishOutput" _) as [| |[]| | | | |].
Qed.

Lemma publish_shape n :
  n ∈ nodes → nd_type n = t_publish →
  ∃ l, prop_opt "sourceNodeId" (nd_config n) = JStr (ln_source l) ∧ typed w t_agent (ln_source l) ∧
       links_in w (nd_id n) = [l].
Proof.
  intros Hn Ht. destruct (accepted_node w Hacc n Hn) as (i & _ & Hi).
  pose proof (ap_publish _ parts _ Hi) as H. fold nodes edges g in H. unfold check_publish in H.
  rewrite Ht, str_eqb_refl in H. apply outcome_bind_ok in H as (v & ->%prop_ok & H). injection H as H.
  apply issue_if_nil, negb_false_iff in H. rewrite ins_links in H.
  destruct (prop_opt "sourceNodeId" (nd_config n)) as [| | | |s| | |]; try done.
  destruct (links_in w (nd_id n)) as [|l [|? ?]]; try done. rewrite !andb_true_iff in H.
  destruct H as [[_ H1] <-%str_eqb_eq]. exists l. split_and!; [done| |done]. by apply has_type_spec.
Qed.

(** A node that continues the conversation of another one *)
Definition continues (a b : str) : Prop :=
  ∃ n o, n ∈ nodes ∧ nd_id n = a ∧ nd_type n = t_agent ∧ nd_version n = 3%Z ∧
         prop_opt "conversation" (nd_config n) = JObj o ∧ field (js "sourceNodeId") o = JStr b.

Lemma pairwise_nil {A B} (f : A → A → list B) l a b :
  pairwise f l = [] → a ∈ l → b ∈ l → a ≠ b → f a b = [] ∨ f b a = [].
Proof.
  induction l as [|c l IH]; cbn; [by intros _ ?%elem_of_nil|]. intros [H1 H2]%app_nil_iff.
  rewrite flat_map_nil in H1. intros [->|Ha]%elem_of_cons [->|Hb]%elem_of_cons Hne; [done|left|right|]; auto.
Qed.

Lemma conversation_one a r : conversation_of a = Ok r → r = [] ∨ ∃ v, r = [(a, v)].
Proof.
  unfold conversation_of. destruct (_ && _); [|intros [= <-]; by left].
  intros (v & _ & Hr)%outcome_bind_ok. injection Hr as <-. destruct (truthy v); [right; eauto|by left].
Qed.

Lemma conversations_distinct l cs :
  NoDup (map (λ n : inode, nd_id n.2) l) → outcome_map (@concat _) (mapM conversation_of l) = Ok cs →
  NoDup (map (λ c : inode * jsval, nd_id c.1.2) cs).
Proof.
  destruct (mapM conversation_of l) as [ks|] eqn:Em; [|done]. cbn. intros Hn [= <-]. apply outcome_mapM_ok in Em.
  induction Em as [|a r l ks Hr Hf IH]; cbn; [apply NoDup_nil_2|]. cbn in Hn. apply NoDup_cons in Hn as [Ha Hn].
  rewrite map_app. destruct (conversation_one _ _ Hr) as [->|[v ->]]; cbn; [by apply IH|].
  apply NoDup_cons. split; [|by apply IH]. intros (c & Heq & Hc)%list_elem_of_fmap. apply Ha. rewrite Heq.
  assert (c.1 ∈ l) as Hin; [|by apply (list_elem_of_fmap_2 (λ n : inode, nd_id n.2)) in Hin].
  clear -Hf Hc. induction Hf as [|a r l ks Hr _ IH]; cbn in Hc; [by apply elem_of_nil in Hc|].
  apply elem_of_app in Hc as [Hc|Hc]; [|right; auto].
  destruct (conversation_one _ _ Hr) as [->|[v ->]]; [by apply elem_of_nil in Hc|]. apply list_elem_of_singleton in Hc as ->. by left.
Qed.

Section Lineage.
Variables (conversations : list (inode * jsval)).
Hypothesis Hconv : outcome_map (@concat _) (mapM conversation_of (indexed nodes)) = Ok conversations.
Hypothesis Hchecked : ∀ c, c ∈ conversations → check_conversation g (parents conversations) c = [].
Hypothesis Hnonempty : ∀ n, n ∈ nodes → nonempty (nd_id n) = true.
Let parent := parents conversations.

Lemma mapM_concat_elem {E A B} (f : A → outcome E (list B)) l k b :
  outcome_map (@concat _) (mapM f l) = Ok k → b ∈ k ↔ ∃ a r, a ∈ l ∧ f a = Ok r ∧ b ∈ r.
Proof.
  destruct (mapM f l) as [ks|] eqn:Em; [|done]. cbn. intros [= <-]. apply outcome_mapM_ok in Em.
  induction Em as [|a r l ks Hr _ IH]; cbn.
  - split; [by intros ?%elem_of_nil|]. by intros (? & ? & ?%elem_of_nil & _).
  - rewrite elem_of_app, IH. setoid_rewrite elem_of_cons. split.
    + intros [?|(a' & r' & ? & ?)]; [exists a, r|exists a', r']; naive_solver.
    + intros (a' & r' & [->|?] & ? & ?); [left; congruence|right; eauto].
Qed.

Lemma conversation_elem c : c ∈ conversations ↔
  c.1 ∈ indexed nodes ∧ nd_type c.1.2 = t_agent ∧ nd_version c.1.2 = 3%Z ∧
  truthy (prop_opt "conversation" (nd_config c.1.2)) = true ∧
  c.2 = prop_opt "sourceNodeId" (prop_opt "conversation" (nd_config c.1.2)).
Proof.
  rewrite (mapM_concat_elem _ _ _ _ Hconv). unfold conversation_of. split.
  - intros (n & r & Hn & Hr & Hc). destruct (agent_node n.2 && (nd_version n.2 =? 3)%Z) eqn:Ea; [|injection Hr as <-; by apply elem_of_nil in Hc].
    apply andb_true_iff in Ea as [Ha%str_eqb_eq Hv%Z.eqb_eq]. apply outcome_bind_ok in Hr as (v & ->%prop_ok & Hr).
    injection Hr as <-. destruct (truthy _) eqn:Et; [|by apply elem_of_nil in Hc].
    apply list_elem_of_singleton in Hc as ->. done.
  - destruct c as [n v]. cbn. intros (Hn & Ha & Hv & Ht & ->). exists n. unfold agent_node. rewrite Ha, Hv, str_eqb_refl. cbn.
    destruct (nd_config n.2) as [| | | | | |o|]; try discriminate. cbn. eexists. split; [done|]. split; [done|].
    cbn in Ht. rewrite Ht. by left.
Qed.

Lemma conversations_nodup : NoDup (map (λ c : inode * jsval, nd_id c.1.2) conversations).
Proof.
  eapply conversations_distinct; [|exact Hconv]. pose proof (ap_ids _ parts) as Hn. fold nodes in Hn.
  by rewrite <-(indexed_snd nodes), map_map in Hn.
Qed.

Lemma parent_spec a v : (∃ i, assoc a parent = Some (i, v)) ↔ ∃ c, c ∈ conversations ∧ nd_id c.1.2 = a ∧ c.2 = v.
Proof.
  unfold parent, parents. rewrite map_of_nodup; [|unfold keys; rewrite map_map; apply conversations_nodup].
  setoid_rewrite assoc_nodup; [|unfold keys; rewrite map_map; apply conversations_nodup].
  setoid_rewrite list_elem_of_fmap. split.
  - intros (i & c & [= -> -> ->] & Hc). by exists c.
  - intros (c & Hc & <- & <-). exists c.1.1, c. done.
Qed.

Lemma conversation_source c :
  c ∈ conversations → ∃ m, m ∈ nodes ∧ c.2 = JStr (nd_id m) ∧ nd_type m = t_agent ∧ nd_id m ≠ nd_id c.1.2 ∧
    rtc flow (nd_id m) (nd_id c.1.2) ∧ chain_cycles (chain_fuel parent) parent c.2 [nd_id c.1.2] = false.
Proof.
  intros Hc. pose proof (Hchecked c Hc) as H. unfold check_conversation in H. fold parent in H. cbv zeta in H.
  assert ((parent_of parent c).2 = c.2) as Hp.
  { unfold parent_of. destruct (proj2 (parent_spec (nd_id c.1.2) c.2)) as [i Hi]; [by exists c|].
    exact (f_equal (λ o, (default (c.1.1, c.2) o).2) Hi). }
  rewrite Hp in H. apply app_nil_iff in H as [H1 H2]. apply issue_if_nil in H1, H2. apply negb_false_iff in H1.
  unfold conversation_source_ok in H1. destruct c.2 as [| | | |s| | |]; try discriminate.
  destruct (node_at g (JStr s)) as [m|] eqn:Em; [|discriminate]. apply node_at_spec in Em as [Hm [= ->]].
  rewrite !andb_true_iff in H1. destruct H1 as [[H1 H3%str_eqb_eq] H4%canReach_spec]. exists m. split_and!; try done.
  intros Heq. by rewrite Heq, str_eqb_refl in H1.
Qed.

(** The map of parents holds exactly the continuations. *)
Lemma continues_spec a b : continues a b ↔ ∃ i, assoc a parent = Some (i, JStr b).
Proof.
  rewrite parent_spec. split.
  - intros (n & o & Hn & <- & Ht & Hv & Ho & Hb). rewrite <-(indexed_snd nodes) in Hn.
    apply list_elem_of_fmap in Hn as ([i m] & -> & Hm). exists ((i, m), JStr b). split; [|done].
    apply conversation_elem. cbn. cbn in *. rewrite Ho. cbn. done.
  - intros (c & Hc & <- & Hb). destruct (conversation_source c Hc) as (m & _ & Hm & _).
    apply conversation_elem in Hc as (Hi & Ht & Hv & _ & Hs). rewrite Hm in Hb. injection Hb as Hb.
    rewrite Hm in Hs. symmetry in Hs. destruct (prop_opt "conversation" (nd_config c.1.2)) as [| | | | | |o|] eqn:Eo; try discriminate.
    exists c.1.2, o. split_and!; try done; [|cbn in Hs; by rewrite Hs, Hb].
    rewrite <-(indexed_snd nodes). by apply list_elem_of_fmap_2.
Qed.
Lemma continues_det a b c : continues a b → continues a c → b = c.
Proof. intros [i Hi]%continues_spec [j Hj]%continues_spec. congruence. Qed.
Lemma no_parent a : assoc a parent = None ↔ ∀ b, ¬ continues a b.
Proof.
  split; [intros H b [i Hi]%continues_spec; congruence|]. intros H. destruct (assoc a parent) as [[i v]|] eqn:E; [|done].
  destruct (proj1 (parent_spec a v)) as (c & Hc & _ & Hv); [by eauto|].
  destruct (conversation_source c Hc) as (m & _ & Hm & _). exfalso. apply (H (nd_id m)), continues_spec. exists i.
  by rewrite E, <-Hv, Hm.
Qed.
Lemma continues_node a b : continues a b → ∃ m n, m ∈ nodes ∧ nd_id m = b ∧ nd_type m = t_agent ∧ a ≠ b ∧ n ∈ nodes ∧ nd_id n = a ∧ rtc flow b a.
Proof.
  intros Hc. pose proof Hc as (n & _ & Hn & <- & _). apply continues_spec in Hc as Hi. destruct Hi as [i Hi].
  destruct (proj1 (parent_spec (nd_id n) (JStr b))) as (c & Hin & Hid & Hv); [by eauto|].
  destruct (conversation_source c Hin) as (m & Hm & Hv' & Ht & Hne & Hr & _). rewrite Hv in Hv'. injection Hv' as ->.
  rewrite Hid in Hne, Hr. exists m, n. split_and!; done.
Qed.

(** Every chain of continuations ends. *)
Lemma chain_ends fuel s seen :
  unmarked (keys parent) seen < fuel → chain_cycles fuel parent (JStr s) seen = false →
  ∃ r, rtc continues s r ∧ ∀ b, ¬ continues r b.
Proof.
  revert s seen. induction fuel as [|fuel IH]; intros s seen Hf; [lia|]. cbn.
  destruct (assoc s parent) as [[i v]|] eqn:E; [|intros _; exists s; split; [done|by apply no_parent]].
  destruct (proj1 (parent_spec s v)) as (c & Hc & Hid & Hv); [by eauto|].
  destruct (conversation_source c Hc) as (m & Hm & Hv' & _).
  assert (v = JStr (nd_id m)) as -> by congruence.
  assert (nonempty s = true) as ->.
  { rewrite <-Hid. apply Hnonempty. apply conversation_elem in Hc as [Hc _]. rewrite <-(indexed_snd nodes).
    by apply list_elem_of_fmap_2. }
  intros [H1 H2]%orb_false_iff. apply member_false in H1.
  assert (unmarked (keys parent) (s :: seen) < unmarked (keys parent) seen) as Hu.
  { apply unmarked_cons; [|done]. apply assoc_keys. eauto. }
  apply IH in H2 as (r & Hr & Hend); [|lia].
  exists r. split; [|done]. eapply rtc_l; [|exact Hr]. apply continues_spec. eauto.
Qed.

Lemma chain_fuel_enough seen : unmarked (keys parent) seen < chain_fuel parent.
Proof.
  pose proof (unmarked_bound (keys parent) seen) as Hu. unfold chain_fuel, keys in *. rewrite length_map in Hu. lia.
Qed.

Lemma lineage_ends a : ∃ r, rtc continues a r ∧ ∀ b, ¬ continues r b.
Proof.
  destruct (assoc a parent) as [[i v]|] eqn:E; [|exists a; split; [done|by apply no_parent]].
  destruct (proj1 (parent_spec a v)) as (c & Hc & Hid & Hv); [by eauto|].
  destruct (conversation_source c Hc) as (m & _ & Hv' & _ & _ & _ & Hch). rewrite Hv' in Hch.
  apply chain_ends in Hch as (r & Hr & Hend); [|apply chain_fuel_enough].
  exists r. split; [|done]. eapply rtc_l; [|exact Hr]. apply continues_spec. exists i. congruence.
Qed.

(** A lineage has no cycle. *)
Lemma lineage_acyclic a : ¬ tc continues a a.
Proof.
  destruct (lineage_ends a) as (r & Hr & Hend).
  assert (Acc (λ y x, continues x y) a) as Hacc'.
  { induction Hr as [x|x y z Hxy _ IH]; constructor; intros u Hu; [by destruct (Hend u)|].
    rewrite (continues_det _ _ _ Hu Hxy). by apply IH. }
  clear Hr. induction Hacc' as [a _ IH]. intros Hc.
  inversion Hc as [x y Hxy|x y z Hxy Hyz]; subst.
  - by apply (IH a).
  - apply (IH y Hxy). by eapply tc_r.
Qed.

(** [conversationRoot] computes the node a lineage starts from. *)
Lemma conversationRoot_spec fuel k a r seen :
  unmarked (keys parent) seen < fuel → rtc continues a r → (∀ b, ¬ continues r b) →
  (∀ x, rtc continues a x → x ∉ seen) → (conversationRoot fuel parent (k, JStr a) seen).2 = JStr r.
Proof.
  intros Hf Hr Hend. revert fuel k seen Hf. induction Hr as [x|x y z Hxy _ IH]; intros fuel k seen Hf Hs.
  - destruct fuel as [|fuel]; [done|]. cbn. by rewrite (proj2 (no_parent x) Hend).
  - destruct fuel as [|fuel]; [lia|]. cbn. apply continues_spec in Hxy as Hi. destruct Hi as [i Hi]. rewrite Hi.
    assert (x ∉ seen) as Hx by (by apply Hs). rewrite (proj2 (member_false _ _) Hx). apply IH; [done| |].
    + assert (unmarked (keys parent) (x :: seen) < unmarked (keys parent) seen); [|lia].
      apply unmarked_cons; [|done]. apply assoc_keys. eauto.
    + intros u Hu [->|Hin]%elem_of_cons; [|revert Hin; apply Hs; by eapply rtc_l].
      apply (lineage_acyclic x). eapply tc_rtc_r; [by apply tc_once|done].
Qed.
Lemma root_of_spec a r : rtc continues a r → (∀ b, ¬ continues r b) → (root_of parent a).2 = JStr r.
Proof.
  intros Hr Hend. apply conversationRoot_spec; [apply chain_fuel_enough|done..|]. intros x _. apply not_elem_of_nil.
Qed.
End Lineage.

Lemma check_order_spec cs (a b : inode * jsval) :
  (root_of (parents cs) (nd_id a.1.2)).2 = (root_of (parents cs) (nd_id b.1.2)).2 →
  (∃ r, (root_of (parents cs) (nd_id a.1.2)).2 = JStr r) → check_order g (parents cs) a b = [] →
  rtc flow (nd_id a.1.2) (nd_id b.1.2) ∨ rtc flow (nd_id b.1.2) (nd_id a.1.2).
Proof.
  intros Heq [r Hr] H. unfold check_order in H. cbv zeta in H. apply issue_if_nil in H. rewrite !andb_false_iff in H.
  destruct H as [[H|H]|H].
  - unfold same_root in H. rewrite <-Heq, Hr, str_eqb_refl in H. done.
  - left. by apply negb_false_iff, canReach_spec in H.
  - right. by apply negb_false_iff, canReach_spec in H.
Qed.

Lemma accepted_lineage :
  (∀ n, n ∈ nodes → nonempty (nd_id n) = true) →
  (∀ a, ¬ tc continues a a) ∧
  (∀ a b, continues a b → typed w t_agent b ∧ a ≠ b ∧ rtc flow b a) ∧
  (∀ a b a' b' r, continues a a' → continues b b' → rtc continues a r → rtc continues b r →
     rtc flow a b ∨ rtc flow b a).
Proof.
  intros Hne. pose proof (ap_conversations _ parts) as H. fold nodes edges g in H.
  apply outcome_bind_ok in H as (cs & Hcs & H). injection H as [H1 H2]%app_nil_iff. rewrite flat_map_nil in H1.
  split_and!.
  - intros a. by apply (lineage_acyclic cs).
  - intros a b Hc. apply (continues_node cs) in Hc as (m & n & Hm & <- & Ht & Hab & _ & _ & Hr); [|done..].
    split_and!; [by exists m|done|done].
  - intros a b a' b' r Ha Hb Hra Hrb. destruct (decide (a = b)) as [->|Hab]; [by left|].
    destruct (lineage_ends cs Hcs H1 Hne r) as (t & Ht & Hend).
    assert (∀ x y, continues x y → ∃ c : inode * jsval, c ∈ cs ∧ nd_id c.1.2 = x) as Helem.
    { intros x y Hx. apply (continues_spec cs) in Hx; [|done..]. apply (parent_spec cs) in Hx as (c & ? & ? & _); [|done]. by exists c. }
    destruct (Helem _ _ Ha) as (ca & Hca & <-), (Helem _ _ Hb) as (cb & Hcb & <-).
    assert (∀ c : inode * jsval, rtc continues (nd_id c.1.2) r → (root_of (parents cs) (nd_id c.1.2)).2 = JStr t) as Hroot.
    { intros c Hc. apply root_of_spec; [done..| |done]. by transitivity r. }
    destruct (pairwise_nil _ _ ca cb H2) as [H|H]; [done|done|congruence| |].
    + apply (check_order_spec cs); [| |done]; rewrite ?(Hroot ca), ?(Hroot cb); eauto.
    + apply or_comm. apply (check_order_spec cs); [| |done]; rewrite ?(Hroot ca), ?(Hroot cb); eauto.
Qed.
End Shape.
