(* ===== verification/TarjanFacts.v ===== *)
(** * The strongly connected components the validator computes

    [components] is the validator's Tarjan search. Its invariant follows the
    classical argument: nodes are new, active (their visit has begun), or
    finished; a node on the stack reaches an active node below it and is
    reached by the active nodes below it; a popped component is closed. The
    result, [components_exact], is that the search returns exactly the classes
    of mutual reachability. *)

From stdpp Require Import relations.
From S2P Require Import Prelude JsString Json Layout Libs Contract GithubClient GraphSearch WorkflowBlocks WorkflowGraph WorkflowPlan WorkflowGraphFacts.

Section Tarjan.
Variable g : graph.
Let E (a b : str) : Prop := b ∈ targets g a.

Definition idx (st : tarjan) (x : str) : Prop := x ∈ keys (t_indexes st).
Definition num (st : tarjan) (x : str) : nat := num_at (t_indexes st) x.
Definition low (st : tarjan) (x : str) : nat := num_at (t_low st) x.
Definition popped (st : tarjan) (x : str) : Prop := ∃ c, c ∈ t_components st ∧ x ∈ c.

Record tarjan_inv (active : list str) (st : tarjan) : Prop := {
  ti_bound : ∀ x, idx st x → num st x < t_index st;
  ti_split : ∀ x, idx st x ↔ x ∈ t_stack st ∨ popped st x;
  ti_nodup : NoDup (t_stack st);
  ti_disjoint : ∀ x, x ∈ t_stack st → ¬ popped st x;
  ti_active : ∀ x, x ∈ active → x ∈ t_stack st;
  ti_closed : ∀ x y, popped st x → E x y → popped st y;
  ti_finished : ∀ x y, idx st x → x ∉ active → E x y → idx st y;
  ti_down : ∀ x, x ∈ t_stack st → ∃ y, y ∈ active ∧ num st y ≤ num st x ∧ rtc E x y;
  ti_up : ∀ x y, y ∈ active → x ∈ t_stack st → num st y ≤ num st x → rtc E y x;
  ti_scc : ∀ c x y, c ∈ t_components st → x ∈ c → y ∈ c ↔ rtc E x y ∧ rtc E y x;
}.

(** What later states keep *)
Record extends (st st' : tarjan) : Prop := {
  ex_keep : ∀ x, idx st x → idx st' x ∧ num st' x = num st x ∧ low st' x = low st x;
  ex_index : t_index st ≤ t_index st';
  ex_new : ∀ x, idx st' x → ¬ idx st x → t_index st ≤ num st' x;
}.

Lemma extends_refl st : extends st st.
Proof. split; [done|done|]. by intros x ? ?. Qed.
Lemma extends_trans a b c : extends a b → extends b c → extends a c.
Proof.
  intros H1 H2. split.
  - intros x Hx. destruct (ex_keep _ _ H1 x Hx) as (Hb & H3 & H4). destruct (ex_keep _ _ H2 x Hb) as (? & -> & ->). done.
  - pose proof (ex_index _ _ H1). pose proof (ex_index _ _ H2). lia.
  - intros x Hc Ha. destruct (decide (x ∈ keys (t_indexes b))) as [Hb|Hb].
    + destruct (ex_keep _ _ H2 x Hb) as (_ & -> & _). by apply (ex_new _ _ H1).
    + pose proof (ex_new _ _ H2 x Hc Hb). pose proof (ex_index _ _ H1). lia.
Qed.

(** ** The steps *)

Lemma num_at_set k v m x : num_at (obj_set k v m) x = if str_eqb x k then v else num_at m x.
Proof. unfold num_at. rewrite assoc_obj_set. by destruct (str_eqb x k). Qed.
Lemma str_eqb_ne a b : a ≠ b → str_eqb a b = false.
Proof. intros H. unfold str_eqb. by rewrite bool_decide_false. Qed.

Lemma indexed_node_spec st x : indexed_node st x = true ↔ idx st x.
Proof.
  unfold indexed_node, idx. rewrite assoc_keys. destruct (assoc x (t_indexes st)); [by split; eauto|].
  split; [done|by intros [? ?]].
Qed.

(** The start of a visit *)
Lemma discover_spec active st id :
  tarjan_inv active st → ¬ idx st id → (∀ y, y ∈ active → rtc E y id) →
  tarjan_inv (id :: active) (discover id st) ∧ extends st (discover id st) ∧
  num (discover id st) id = t_index st ∧ low (discover id st) id = t_index st.
Proof.
  intros I Hid Hact.
  assert (num (discover id st) id = t_index st) as Hn by (unfold num, discover; cbn [t_indexes]; by rewrite num_at_set, str_eqb_refl).
  assert (∀ x, idx st x → x ≠ id) as Hne by (intros x Hx ->; done).
  assert (∀ x, idx (discover id st) x ↔ x = id ∨ idx st x) as Hidx by (intros x; apply elem_keys_set).
  assert (∀ x, x ≠ id → num (discover id st) x = num st x) as Hnum.
  { intros x Hx. unfold num, discover. cbn [t_indexes]. by rewrite num_at_set, str_eqb_ne. }
  assert (∀ x, x ∈ t_stack st → idx st x) as Hst by (intros x ?; apply (ti_split _ _ I); by left).
  assert (∀ x, popped st x → idx st x) as Hpo by (intros x ?; apply (ti_split _ _ I); by right).
  assert (∀ x, x ∈ active → x ≠ id) as Hact' by (intros x ?; by apply Hne, Hst, (ti_active _ _ I)).
  split_and!; [split|split|done|unfold low, discover; cbn [t_low]; by rewrite num_at_set, str_eqb_refl].
  - intros x [->|Hx]%Hidx; [rewrite Hn; cbn; lia|]. rewrite Hnum by auto. cbn. pose proof (ti_bound _ _ I x Hx). lia.
  - intros x. rewrite Hidx, (ti_split _ _ I). cbn. rewrite elem_of_cons. unfold popped. cbn. tauto.
  - cbn. apply NoDup_cons. split; [|apply (ti_nodup _ _ I)]. intros ?. by apply Hid, Hst.
  - change (t_stack (discover id st)) with (id :: t_stack st). intros x [->|Hx]%elem_of_cons; [intros Hp; by apply Hid, Hpo|]. by apply (ti_disjoint _ _ I).
  - change (t_stack (discover id st)) with (id :: t_stack st). intros x [->|Hx]%elem_of_cons; [by left|right; by apply (ti_active _ _ I)].
  - apply (ti_closed _ _ I).
  - intros x y [->|Hx]%Hidx Hna Hxy; [exfalso; apply Hna; by left|]. apply Hidx. right.
    apply (ti_finished _ _ I x y); [done| |done]. intros ?. apply Hna. by right.
  - change (t_stack (discover id st)) with (id :: t_stack st). intros x [->|Hx]%elem_of_cons; [exists id; split; [by left|]; by split|].
    destruct (ti_down _ _ I x Hx) as (y & Hy & Hle & Hr). exists y. split; [by right|]. split; [|done].
    by rewrite (Hnum y (Hact' y Hy)), (Hnum x (Hne x (Hst x Hx))).
  - change (t_stack (discover id st)) with (id :: t_stack st). intros x y [->|Hy]%elem_of_cons [->|Hx]%elem_of_cons Hle; [done| |by apply Hact|].
    + rewrite Hn, Hnum in Hle by auto. pose proof (ti_bound _ _ I x (Hst x Hx)). lia.
    + apply (ti_up _ _ I); [done|done|]. by rewrite (Hnum y (Hact' y Hy)), (Hnum x (Hne x (Hst x Hx))) in Hle.
  - apply (ti_scc _ _ I).
  - intros x Hx. split; [apply Hidx; by right|]. split; [by apply Hnum, Hne|].
    unfold low, discover. cbn [t_low]. by rewrite num_at_set, str_eqb_ne by auto.
  - cbn. lia.
  - intros x [->|Hx]%Hidx Hn'; [rewrite Hn; done|done].
Qed.

Lemma lower_inv active id n st : tarjan_inv active st → tarjan_inv active (lower id n st).
Proof. intros []. by split. Qed.
Lemma low_lower id n st x : low (lower id n st) x = if str_eqb x id then Nat.min (low st id) n else low st x.
Proof. unfold low, lower. cbn [t_low]. apply num_at_set. Qed.

Lemma pop_until_app id s rest : id ∉ s → pop_until id (s ++ id :: rest) = (s ++ [id], rest).
Proof.
  induction s as [|x s IH]; cbn; intros H; [by rewrite str_eqb_refl|]. apply not_elem_of_cons in H as [Hx H].
  rewrite str_eqb_ne by done. by rewrite IH.
Qed.

(** ** The end of a visit *)

(** The state of the visit of [id], begun in [st0], when its successors have been visited *)
Record visited_all (active : list str) (id : str) (st0 st : tarjan) (s : list str) : Prop := {
  va_inv0 : tarjan_inv active st0;
  va_inv : tarjan_inv (id :: active) st;
  va_ext : extends st0 st;
  va_id : ¬ idx st0 id ∧ idx st id ∧ num st id = t_index st0;
  va_stack : t_stack st = s ++ id :: t_stack st0;
  va_fresh : ∀ y, y ∈ s → ¬ idx st0 y ∧ num st id < num st y;
  va_low : low st id ≤ num st id ∧ ∃ z, z ∈ t_stack st ∧ rtc E id z ∧ num st z = low st id;
}.
(** No edge from the new part of the stack goes below the node's link. *)
Definition crosses (id : str) (st0 st : tarjan) (s : list str) : Prop :=
  ∀ y z, y ∈ s → z ∈ t_stack st0 → E y z → low st id ≤ num st z.
Definition scanned (id : str) (st0 st : tarjan) (t : str) : Prop := idx st t ∧ (t ∈ t_stack st0 → low st id ≤ num st t).

(** What a visit achieves *)
Record visit_post (active : list str) (id : str) (st0 st : tarjan) : Prop := {
  vp_inv : tarjan_inv active st;
  vp_ext : extends st0 st;
  vp_id : idx st id;
  vp_stack : ∃ s, t_stack st = s ++ t_stack st0 ∧ (∀ y, y ∈ s → ¬ idx st0 y) ∧
    ∀ y z, y ∈ s → z ∈ t_stack st0 → E y z → low st id ≤ num st z;
  vp_low : low st id = num st id ∨ ∃ z, z ∈ t_stack st ∧ rtc E id z ∧ num st z = low st id;
}.

Section Finish.
Variables (active : list str) (id : str) (st0 st : tarjan) (s : list str).
Hypothesis V : visited_all active id st0 st s.
Hypothesis Hcross : crosses id st0 st s.
Hypothesis Hscan : ∀ t, E id t → scanned id st0 st t.
Let I0 := va_inv0 _ _ _ _ _ V.
Let I := va_inv _ _ _ _ _ V.
Let Hstack := va_stack _ _ _ _ _ V.

Lemma old_num x : x ∈ t_stack st0 → num st x = num st0 x ∧ num st0 x < num st id.
Proof.
  intros Hx. assert (idx st0 x) as Hi by (apply (ti_split _ _ I0); by left).
  destruct (ex_keep _ _ (va_ext _ _ _ _ _ V) x Hi) as (_ & -> & _). split; [done|].
  destruct (va_id _ _ _ _ _ V) as (_ & _ & ->). by apply (ti_bound _ _ I0).
Qed.
Lemma stack_parts x : x ∈ t_stack st ↔ x ∈ s ∨ x = id ∨ x ∈ t_stack st0.
Proof. rewrite Hstack, elem_of_app, elem_of_cons. done. Qed.
Lemma id_not_above : id ∉ s.
Proof. intros Hs. apply (va_fresh _ _ _ _ _ V) in Hs as [_ ?]. lia. Qed.
Lemma above_not_active x : x ∈ s → x ∉ id :: active.
Proof.
  intros Hs [->|Ha]%elem_of_cons; [by apply id_not_above|]. apply (va_fresh _ _ _ _ _ V) in Hs as [Hn _].
  apply Hn, (ti_split _ _ I0). left. by apply (ti_active _ _ I0).
Qed.
Lemma step_known x y : x ∈ s ++ [id] → E x y → idx st y.
Proof.
  intros [Hx| ->%list_elem_of_singleton]%elem_of_app Hxy; [|by apply Hscan].
  apply (ti_finished _ _ I x y); [|by apply above_not_active|done].
  apply (ti_split _ _ I). left. apply stack_parts. by left.
Qed.

(** When the node is the lowest it reaches, no edge leaves to the old stack. *)
Section Pop.
Hypothesis Hlow : low st id = num st id.

Lemma edge_stays x y : x ∈ s ++ [id] → E x y → y ∈ s ++ [id] ∨ popped st y.
Proof.
  intros Hx Hxy. pose proof (step_known x y Hx Hxy) as Hy. apply (ti_split _ _ I) in Hy as [Hy|Hy]; [|by right].
  left. apply stack_parts in Hy as [Hy|[->|Hy]]; [apply elem_of_app; by left|apply elem_of_app; right; by left|].
  exfalso. destruct (old_num y Hy) as [Hn1 Hn2]. assert (low st id ≤ num st y); [|lia].
  apply elem_of_app in Hx as [Hx| ->%list_elem_of_singleton]; [by apply (Hcross x)|by apply Hscan].
Qed.
Lemma popped_closed x y : popped st x → rtc E x y → popped st y.
Proof. intros Hx Hr. revert Hx. induction Hr; [done|]. intros. apply IHHr. by eapply (ti_closed _ _ I). Qed.
Lemma stays_rtc x y : x ∈ s ++ [id] → rtc E x y → y ∈ s ++ [id] ∨ popped st y.
Proof.
  intros Hx Hr. revert Hx. induction Hr as [|x y z Hxy Hr IH]; [by left|]. intros Hx.
  destruct (edge_stays x y Hx Hxy) as [Hy|Hy]; [by apply IH|right; by eapply popped_closed].
Qed.
Lemma own_stack x : x ∈ s ++ [id] → x ∈ t_stack st.
Proof. intros [Hx| ->%list_elem_of_singleton]%elem_of_app; apply stack_parts; auto. Qed.

Lemma to_id x : x ∈ s ++ [id] → rtc E x id ∧ rtc E id x.
Proof.
  intros Hx. split.
  - destruct (ti_down _ _ I x (own_stack x Hx)) as (y & Hy & _ & Hr).
    apply elem_of_cons in Hy as [->|Hy]; [done|exfalso]. pose proof (ti_active _ _ I0 y Hy) as Hy0.
    destruct (stays_rtc x y Hx Hr) as [Hin|Hin].
    + apply elem_of_app in Hin as [Hin| ->%list_elem_of_singleton].
      * apply (above_not_active y Hin). by right.
      * destruct (old_num id Hy0). lia.
    + apply (ti_disjoint _ _ I y); [|done]. apply stack_parts. auto.
  - apply (ti_up _ _ I); [by left|by apply own_stack|].
    apply elem_of_app in Hx as [Hx| ->%list_elem_of_singleton]; [|done].
    apply (va_fresh _ _ _ _ _ V) in Hx as [_ ?]. lia.
Qed.

Lemma own_class x y : x ∈ s ++ [id] → y ∈ s ++ [id] ↔ rtc E x y ∧ rtc E y x.
Proof.
  intros Hx. split.
  - intros Hy. destruct (to_id x Hx), (to_id y Hy). split; by transitivity id.
  - intros [H1 H2]. destruct (stays_rtc x y Hx H1) as [?|Hp]; [done|].
    exfalso. apply (ti_disjoint _ _ I x (own_stack x Hx)). by eapply popped_closed.
Qed.
End Pop.

(** The state after a pop *)
Lemma popped_state :
  low st id = num st id →
  finish id st = Tarjan (t_index st) (t_indexes st) (t_low st) (t_stack st0) (t_components st ++ [s ++ [id]]).
Proof.
  intros Hl. unfold finish. fold (low st id) (num st id). rewrite Hl, Nat.eqb_refl, Hstack.
  by rewrite pop_until_app by apply id_not_above.
Qed.

Lemma nodup_parts : NoDup (t_stack st0) ∧ (id ∉ t_stack st0) ∧ ∀ x, x ∈ s → x ∉ t_stack st0.
Proof.
  pose proof (ti_nodup _ _ I) as H. rewrite Hstack in H. apply NoDup_app in H as (_ & H1 & H2).
  apply NoDup_cons in H2 as [H2 H3]. split_and!; [done|done|]. intros x Hx Hin. apply (H1 x Hx). by right.
Qed.

Lemma finish_pop_inv : low st id = num st id → tarjan_inv active (finish id st).
Proof.
  intros Hl. rewrite popped_state by done. destruct nodup_parts as (Hn & Hid & Hdis).
  set (st' := Tarjan _ _ _ _ _). assert (∀ x, popped st' x ↔ popped st x ∨ x ∈ s ++ [id]) as Hp.
  { intros x. unfold popped, st'. cbn [t_components]. split.
    - intros (c & [Hc| ->%list_elem_of_singleton]%elem_of_app & Hx); [left; by exists c|by right].
    - intros [(c & Hc & Hx)|Hx]; [exists c|exists (s ++ [id])]; (split; [|done]); apply elem_of_app; [by left|right; by left]. }
  assert (∀ x, x ∈ t_stack st0 → x ∉ s ++ [id]) as Hnot.
  { intros x Hx [Hs| ->%list_elem_of_singleton]%elem_of_app; [by apply (Hdis x)|done]. }
  split.
  - apply (ti_bound _ _ I).
  - intros x. rewrite Hp. change (idx st' x) with (idx st x). rewrite (ti_split _ _ I x), stack_parts.
    change (t_stack st') with (t_stack st0). rewrite elem_of_app, list_elem_of_singleton. tauto.
  - done.
  - intros x Hx. rewrite Hp. intros [Hq|Hq]; [|by apply (Hnot x)].
    apply (ti_disjoint _ _ I x); [|done]. apply stack_parts. auto.
  - apply (ti_active _ _ I0).
  - intros x y. rewrite !Hp. intros [Hx|Hx] Hxy; [left; by eapply (ti_closed _ _ I)|].
    destruct (edge_stays Hl x y Hx Hxy); auto.
  - intros x y Hx Ha Hxy. change (idx st y). destruct (decide (x = id)) as [->|Hne]; [by apply Hscan|].
    apply (ti_finished _ _ I x y); [done| |done]. by intros [->|?]%elem_of_cons.
  - intros x Hx. destruct (ti_down _ _ I0 x Hx) as (y & Hy & Hle & Hr). exists y. split; [done|]. split; [|done].
    change (num st y ≤ num st x). destruct (old_num x Hx) as [-> _].
    by destruct (old_num y (ti_active _ _ I0 y Hy)) as [-> _].
  - intros x y Hy Hx Hle. apply (ti_up _ _ I0); [done|done|]. change (num st y ≤ num st x) in Hle.
    destruct (old_num x Hx) as [Hx' _]. destruct (old_num y (ti_active _ _ I0 y Hy)) as [Hy' _]. lia.
  - intros c x y [Hc| ->%list_elem_of_singleton]%elem_of_app Hx; [by apply (ti_scc _ _ I c)|].
    by apply own_class.
Qed.

Lemma finish_keep_inv : low st id ≠ num st id → tarjan_inv active st.
Proof.
  intros Hl. destruct (va_low _ _ _ _ _ V) as (Hle & z & Hz & Hr & Hnz).
  assert (z ∈ t_stack st0) as Hz0.
  { apply stack_parts in Hz as [Hz|[->|Hz]]; [|lia|done]. apply (va_fresh _ _ _ _ _ V) in Hz as [_ ?]. lia. }
  destruct (ti_down _ _ I0 z Hz0) as (y & Hy & Hyz & Hry).
  assert (num st y < num st id) as Hlt.
  { destruct (old_num z Hz0). destruct (old_num y (ti_active _ _ I0 y Hy)). lia. }
  destruct I as [B1 B2 B3 B4 B5 B6 B7 B8 B9 B10]. split; try done.
  - intros x Hx. apply B5. by right.
  - intros x u Hx Ha Hxu. destruct (decide (x = id)) as [->|Hne]; [by apply Hscan|].
    apply (B7 x u); [done| |done]. by intros [->|?]%elem_of_cons.
  - intros x Hx. destruct (B8 x Hx) as (u & [->|Hu]%elem_of_cons & Hle' & Hru).
    + exists y. split; [done|]. split; [lia|]. transitivity id; [done|]. by transitivity z.
    + by exists u.
  - intros x u Hu. apply B9. by right.
Qed.

Lemma finish_spec : visit_post active id st0 (finish id st).
Proof.
  destruct (va_id _ _ _ _ _ V) as (_ & Hi & _). destruct (decide (low st id = num st id)) as [Hl|Hl].
  - pose proof (finish_pop_inv Hl) as Hinv. rewrite popped_state in * by done. split; try done.
    + destruct (va_ext _ _ _ _ _ V). by split.
    + exists []. split; [done|]. split; by intros y; intros; exfalso; eapply not_elem_of_nil.
    + by left.
  - assert (finish id st = st) as ->.
    { unfold finish. fold (low st id) (num st id). by rewrite (proj2 (Nat.eqb_neq _ _) Hl). }
    split; [by apply finish_keep_inv|apply (va_ext _ _ _ _ _ V)|done| |right; apply (va_low _ _ _ _ _ V)].
    exists (s ++ [id]). rewrite Hstack, <-app_assoc. split; [done|]. split.
    + intros y [Hy| ->%list_elem_of_singleton]%elem_of_app; [by apply (va_fresh _ _ _ _ _ V)|apply (va_id _ _ _ _ _ V)].
    + intros y u [Hy| ->%list_elem_of_singleton]%elem_of_app Hu Hyu; [by apply (Hcross y)|by apply Hscan].
Qed.
End Finish.

(** ** The loop over the successors *)

Section Scan.
Variables (active : list str) (id : str) (st0 : tarjan).

Lemma stack_idx st s x : visited_all active id st0 st s → x ∈ t_stack st → idx st x.
Proof. intros V Hx. apply (ti_split _ _ (va_inv _ _ _ _ _ V)). by left. Qed.
Lemma stack_old st s x : visited_all active id st0 st s → x ∈ t_stack st0 → x ∈ t_stack st.
Proof. intros V Hx. rewrite (va_stack _ _ _ _ _ V). apply elem_of_app. right. by right. Qed.

(** A lower link for the node, found on the stack *)
Lemma lower_spec st s n z :
  visited_all active id st0 st s → (n < low st id → z ∈ t_stack st ∧ rtc E id z ∧ num st z = n) →
  visited_all active id st0 (lower id n st) s.
Proof.
  intros V Hz. assert (low (lower id n st) id = Nat.min (low st id) n) as Hl by (by rewrite low_lower, str_eqb_refl).
  destruct V as [V1 V2 V3 (V4 & V5 & V6) V7 V8 (V10 & z0 & Hz0)]. split; try done.
  - by apply lower_inv.
  - destruct V3 as [W1 W2 W3]. split; [|done|done]. intros x Hx. destruct (W1 x Hx) as (? & ? & ?). split_and!; [done|done|].
    rewrite low_lower, str_eqb_ne; [done|]. by intros ->.
  - rewrite Hl. change (num (lower id n st)) with (num st). split; [lia|].
    destruct (decide (n < low st id)) as [Hn|Hn].
    + exists z. destruct (Hz Hn) as (? & ? & ?). split_and!; [done|done|lia].
    + exists z0. destruct Hz0 as (? & ? & ?). split_and!; [done|done|lia].
Qed.
Lemma scanned_lower st n u : scanned id st0 st u → scanned id st0 (lower id n st) u.
Proof.
  intros [H1 H2]. split; [done|]. intros Hu. rewrite low_lower, str_eqb_refl. specialize (H2 Hu).
  change (num (lower id n st) u) with (num st u). lia.
Qed.

(** The visit of a new successor *)
Lemma visit_spec st s st1 t :
  visited_all active id st0 st s → E id t → ¬ idx st t → visit_post (id :: active) t st st1 →
  crosses id st0 st s → ∃ s1, visited_all active id st0 st1 (s1 ++ s) ∧
    crosses id st0 (lower id (low st1 t) st1) (s1 ++ s) ∧ low st1 id = low st id.
Proof.
  intros V Ht Hnew [P1 P2 P3 (s1 & P4 & P5 & P6) _] Hc.
  destruct (va_id _ _ _ _ _ V) as (Hi0 & Hi & Hni).
  destruct (ex_keep _ _ P2 id Hi) as (Hi1 & Hn1 & Hl1).
  assert (∀ x, x ∈ t_stack st → num st1 x = num st x) as Hnum.
  { intros x Hx. by apply (ex_keep _ _ P2), (stack_idx _ s). }
  exists s1. split_and!; [| |done].
  - split.
    + apply (va_inv0 _ _ _ _ _ V).
    + done.
    + eapply extends_trans; [apply (va_ext _ _ _ _ _ V)|done].
    + split_and!; [done|done|by rewrite Hn1].
    + by rewrite P4, (va_stack _ _ _ _ _ V), app_assoc.
    + intros y [Hy|Hy]%elem_of_app; rewrite Hn1.
      * split; [intros Hy0; apply (P5 y Hy); by apply (va_ext _ _ _ _ _ V)|].
        assert (idx st1 y) as Hy1 by (apply (ti_split _ _ P1); left; rewrite P4; apply elem_of_app; by left).
        pose proof (ex_new _ _ P2 y Hy1 (P5 y Hy)). pose proof (ti_bound _ _ (va_inv _ _ _ _ _ V) id Hi). lia.
      * rewrite Hnum; [by apply (va_fresh _ _ _ _ _ V)|]. rewrite (va_stack _ _ _ _ _ V). apply elem_of_app. by left.
    + rewrite Hl1, Hn1. destruct (va_low _ _ _ _ _ V) as (? & z & Hz & Hr & Hnz). split; [done|]. exists z.
      rewrite Hnum by done. split_and!; [rewrite P4; apply elem_of_app; by right|done|done].
  - intros y z Hy Hz Hyz. rewrite low_lower, str_eqb_refl. change (num (lower id (low st1 t) st1) z) with (num st1 z).
    apply elem_of_app in Hy as [Hy|Hy].
    + pose proof (P6 y z Hy (stack_old _ _ _ V Hz) Hyz). lia.
    + pose proof (Hc y z Hy Hz Hyz). rewrite Hl1, (Hnum z) by (by eapply stack_old). lia.
Qed.

(** One successor *)
Lemma scan_spec visit st s t :
  visited_all active id st0 st s → crosses id st0 st s → E id t →
  (¬ idx st t → visit_post (id :: active) t st (visit t st)) →
  ∃ s', visited_all active id st0 (scan_target visit id st t) s' ∧ crosses id st0 (scan_target visit id st t) s' ∧
    scanned id st0 (scan_target visit id st t) t ∧
    ∀ u, scanned id st0 st u → scanned id st0 (scan_target visit id st t) u.
Proof.
  intros V Hc Ht Hvisit. unfold scan_target. destruct (indexed_node st t) eqn:Ei; cbn [negb].
  - apply indexed_node_spec in Ei. destruct (member t (t_stack st)) eqn:Em.
    + apply member_true in Em. exists s. split_and!.
      * apply (lower_spec _ _ _ t V). intros _. split_and!; [done|by apply rtc_once|done].
      * intros y z Hy Hz Hyz. rewrite low_lower, str_eqb_refl. pose proof (Hc y z Hy Hz Hyz).
        change (num (lower id _ st) z) with (num st z). lia.
      * split; [done|]. intros _. rewrite low_lower, str_eqb_refl. fold (num st t). change (num (lower id _ st) t) with (num st t). lia.
      * intros u. apply scanned_lower.
    + apply member_false in Em. exists s. split_and!; [done|done| |done]. split; [done|].
      intros Hin. exfalso. by eapply Em, stack_old.
  - assert (¬ idx st t) as Hn by (rewrite <-indexed_node_spec; congruence). specialize (Hvisit Hn).
    destruct (visit_spec _ _ _ _ V Ht Hn Hvisit Hc) as (s1 & V1 & Hc1 & Hl1). exists (s1 ++ s).
    pose proof (vp_ext _ _ _ _ Hvisit) as Hext. destruct (va_low _ _ _ _ _ V) as [Hlow _].
    destruct (va_id _ _ _ _ _ V) as (_ & Hi & _). split_and!.
    + assert (∃ z, low (visit t st) t < low (visit t st) id →
        z ∈ t_stack (visit t st) ∧ rtc E id z ∧ num (visit t st) z = low (visit t st) t) as [z Hz].
      { destruct (vp_low _ _ _ _ Hvisit) as [Heq|(z & Hz & Hr & Hnz)].
        - exists t. intros Hlt. pose proof (ex_new _ _ Hext t (vp_id _ _ _ _ Hvisit) Hn).
          pose proof (ti_bound _ _ (va_inv _ _ _ _ _ V) id Hi). lia.
        - exists z. intros _. split_and!; [done| |done]. by eapply rtc_l. }
      by apply (lower_spec _ _ _ z V1).
    + done.
    + split; [apply (vp_id _ _ _ _ Hvisit)|]. intros Hin. exfalso. apply Hn. eapply stack_idx, stack_old; done.
    + intros u [Hu Hu']. apply scanned_lower. destruct (ex_keep _ _ Hext u Hu) as (Hu1 & Hn1 & _).
      split; [done|]. rewrite Hl1, Hn1. done.
Qed.
End Scan.

(** ** The whole search *)

Variable nodes : list str.
Hypothesis targets_known : ∀ a b, E a b → b ∈ nodes.

(** Nodes that have no index yet *)
Definition unindexed (st : tarjan) : nat := unmarked nodes (keys (t_indexes st)).

Lemma strong_spec fuel active id st :
  tarjan_inv active st → ¬ idx st id → (∀ y, y ∈ active → rtc E y id) → id ∈ nodes → unindexed st ≤ fuel →
  visit_post active id st (strong fuel g id st).
Proof.
  revert active id st. induction fuel as [|fuel IH]; intros active id st I Hid Hact Hin Hf.
  { pose proof (unmarked_cons nodes id (keys (t_indexes st)) Hin Hid). unfold unindexed in Hf. lia. }
  cbn [strong]. destruct (discover_spec active st id I Hid Hact) as (I1 & X1 & N1 & L1).
  assert (visited_all active id st (discover id st) []) as V.
  { split; try done.
    - split_and!; [done| |done]. apply elem_keys_set. by left.
    - by intros y ?%elem_of_nil.
    - rewrite L1, N1. split; [done|]. exists id. split_and!; [by left|done|done]. }
  assert (∀ ts st1 s, (∀ t, t ∈ ts → E id t) → visited_all active id st st1 s → crosses id st st1 s →
    ∃ s', let st2 := foldl (scan_target (strong fuel g) id) st1 ts in
      visited_all active id st st2 s' ∧ crosses id st st2 s' ∧ (∀ t, t ∈ ts → scanned id st st2 t) ∧
      ∀ u, scanned id st st1 u → scanned id st st2 u) as Hloop.
  { clear V. induction ts as [|t ts IHts]; intros st1 s Hts V Hc; cbn [foldl].
    { exists s. split_and!; [done|done|by intros t ?%elem_of_nil|done]. }
    destruct (scan_spec active id st (strong fuel g) st1 s t V Hc) as (s1 & V1 & C1 & S1 & K1); [apply Hts; by left| |].
    { intros Hn. apply IH; [apply (va_inv _ _ _ _ _ V)|done| |apply (targets_known id), Hts; by left|].
      - assert (E id t) as Ht by (apply Hts; by left).
        intros y [->|Hy]%elem_of_cons; [by apply rtc_once|]. eapply rtc_r; [by apply Hact|done].
      - assert (unindexed st1 ≤ unmarked nodes (id :: keys (t_indexes st))).
        { apply unmarked_mono. intros x [->|Hx]%elem_of_cons; [apply (va_id _ _ _ _ _ V)|].
          by apply (ex_keep _ _ (va_ext _ _ _ _ _ V)). }
        pose proof (unmarked_cons nodes id (keys (t_indexes st)) Hin Hid). unfold unindexed in *. lia. }
    assert (∀ t, t ∈ ts → E id t) as Hts' by (intros; apply Hts; by right).
    destruct (IHts _ s1 Hts' V1 C1) as (s' & V' & C' & S' & K').
    exists s'. split_and!; [done|done| |auto]. intros u [->|Hu]%elem_of_cons; auto. }
  destruct (Hloop (targets g id) (discover id st) []) as (s & V' & C' & S' & _); [done|done|by intros y z ?%elem_of_nil|].
  eapply finish_spec; [exact V'|exact C'|]. intros t Ht. by apply S'.
Qed.

Lemma empty_stack st : tarjan_inv [] st → t_stack st = [].
Proof. intros I. apply elem_of_nil_inv. intros x Hx. by destruct (ti_down _ _ I x Hx) as (y & ?%elem_of_nil & _). Qed.

Lemma initial_inv : tarjan_inv [] (Tarjan 0 [] [] [] []).
Proof.
  assert (∀ x, ¬ popped (Tarjan 0 [] [] [] []) x) as Hp by (by intros x (c & ?%elem_of_nil & _)).
  assert (∀ x, ¬ idx (Tarjan 0 [] [] [] []) x) as Hi by (by intros x ?%elem_of_nil).
  split.
  - by intros x ?%Hi.
  - intros x. split; [by intros ?%Hi|]. by intros [?%elem_of_nil|?%Hp].
  - apply NoDup_nil_2.
  - by intros x ?%elem_of_nil.
  - by intros x ?%elem_of_nil.
  - by intros x y ?%Hp.
  - by intros x y ?%Hi.
  - by intros x ?%elem_of_nil.
  - by intros x y ?%elem_of_nil.
  - by intros c x y ?%elem_of_nil.
Qed.

(** The components are the classes of mutual reachability, and cover the nodes. *)
Lemma search_exact ids0 :
  (∀ x, x ∈ ids0 → x ∈ nodes) → length nodes ≤ search_fuel g →
  let st := foldl (λ st id, if indexed_node st id then st else strong (search_fuel g) g id st) (Tarjan 0 [] [] [] []) ids0 in
  tarjan_inv [] st ∧ ∀ x, x ∈ ids0 → popped st x.
Proof.
  intros Hsub Hf. assert (∀ l st, (∀ x, x ∈ l → x ∈ nodes) → tarjan_inv [] st →
    let st' := foldl (λ st id, if indexed_node st id then st else strong (search_fuel g) g id st) st l in
    tarjan_inv [] st' ∧ (∀ x, idx st x → idx st' x) ∧ ∀ x, x ∈ l → idx st' x) as H.
  { induction l as [|a l IH]; intros st Hl I; cbn [foldl]; [split_and!; [done|done|by intros x ?%elem_of_nil]|].
    destruct (indexed_node st a) eqn:Ea.
    - destruct (IH st) as (J & K & L); [intros; apply Hl; by right|done|]. split_and!; [done|done|].
      intros x [->|Hx]%elem_of_cons; [|auto]. by apply K, indexed_node_spec.
    - assert (¬ idx st a) as Hn by (rewrite <-indexed_node_spec; congruence).
      assert (visit_post [] a st (strong (search_fuel g) g a st)) as P.
      { apply strong_spec; [done|done|by intros y ?%elem_of_nil|apply Hl; by left|].
        unfold unindexed. pose proof (unmarked_bound nodes (keys (t_indexes st))). lia. }
      destruct (IH (strong (search_fuel g) g a st)) as (J & K & L); [intros; apply Hl; by right|apply P|].
      split_and!; [done| |].
      + intros x Hx. apply K. by apply (ex_keep _ _ (vp_ext _ _ _ _ P)).
      + intros x [->|Hx]%elem_of_cons; [apply K, (vp_id _ _ _ _ P)|auto]. }
  destruct (H ids0 _ Hsub initial_inv) as (J & _ & L). split; [done|]. intros x Hx.
  apply L, (ti_split _ _ J) in Hx as [Hx|Hx]; [|done]. rewrite (empty_stack _ J) in Hx. by apply elem_of_nil in Hx.
Qed.
End Tarjan.

(** The validator's components, on a graph built from a definition *)
Lemma components_exact nodes edges :
  let g := graph_of nodes edges in
  (∀ x, x ∈ ids nodes → ∃ c, c ∈ components g ∧ x ∈ c) ∧
  ∀ c x y, c ∈ components g → x ∈ c →
    y ∈ c ↔ rtc (flows nodes edges) x y ∧ rtc (flows nodes edges) y x.
Proof.
  intros g. destruct (search_exact g (ids nodes)) with (ids0 := ids nodes) as [I P].
  - intros a b Hb. apply targets_spec in Hb. by apply flows_ids in Hb as [_ ?].
  - done.
  - pose proof (fuel_enough nodes edges). fold g in H. lia.
  - split; [apply P|]. intros c x y Hc Hx. rewrite (ti_scc _ _ _ I c x y Hc Hx).
    assert (∀ a b, rtc (λ a b, b ∈ targets g a) a b ↔ rtc (flows nodes edges) a b) as Hr; [|by rewrite !Hr].
    intros a b. split; apply rtc_subrel; intros u v; apply targets_spec.
Qed.
