(* ===== verification/WorkflowPlanFacts.v ===== *)
(** * The entry and the plan of an accepted workflow

    [graphEntryNode] recomputes the entry from the raw edges; on an accepted
    definition it is the validator's entry. Compiling an accepted definition
    fails only for a missing agent or an unexpanded subworkflow. *)

From stdpp Require Import relations.
From S2P Require Import Prelude JsString Json Layout Libs Contract GithubClient GraphSearch WorkflowBlocks WorkflowGraph WorkflowPlan WorkflowGraphFacts.

(** ** Counts of incoming edges *)

Lemma nodup_singleton {A} (l : list A) e : NoDup l → (∀ x, x ∈ l ↔ x = e) → l = [e].
Proof.
  intros Hn Hl. destruct l as [|a l]; [exfalso; by eapply not_elem_of_nil, (Hl e)|].
  assert (a = e) as -> by (apply Hl; by left). f_equal. apply elem_of_nil_inv. intros x Hx.
  apply NoDup_cons in Hn as [Hn _]. assert (x = e) as -> by (apply Hl; by right). done.
Qed.

Definition occurrences (k : str) (l : list str) : nat := length (List.filter (str_eqb k) l).

Lemma count_in_assoc l m k :
  assoc k (foldl count_in m l) =
  match assoc k m with
  | Some c => Some ((λ n, n + occurrences k l) <$> c)
  | None => if member k l then Some None else None
  end.
Proof.
  revert m. induction l as [|x l IH]; cbn; intros m.
  { destruct (assoc k m) as [[n|]|]; cbn; [by rewrite Nat.add_0_r|done..]. }
  rewrite IH. unfold count_in. rewrite assoc_obj_set. unfold occurrences, member. cbn.
  destruct (str_eqb k x) eqn:E; cbn.
  - apply str_eqb_eq in E as ->. destruct (assoc x m) as [[n|]|]; cbn; [|done|by rewrite bool_decide_true by left].
    do 2 f_equal. lia.
  - destruct (assoc k m) as [[n|]|]; cbn; [done|done|].
    rewrite (bool_decide_ext (k ∈ l) (k ∈ x :: l)); [done|]. rewrite elem_of_cons.
    split; [by right|]. intros [->|?]; [by rewrite str_eqb_refl in E|done].
Qed.

Lemma keys_count_in l m : NoDup (keys m) → NoDup (keys (foldl count_in m l)).
Proof. revert m. induction l as [|x l IH]; cbn; intros m H; [done|]. by apply IH, keys_nodup_set. Qed.

Lemma root_ids_spec m k : NoDup (keys m) → k ∈ root_ids m ↔ assoc k m = Some (Some 0).
Proof.
  intros Hn. unfold root_ids. rewrite list_elem_of_fmap, assoc_nodup by done. split.
  - intros ([k' c] & -> & H). apply list_elem_of_In, filter_In in H as [H Hc]. cbn in *.
    apply bool_decide_eq_true in Hc as ->. by apply list_elem_of_In.
  - intros H. exists (k, Some 0). split; [done|]. apply list_elem_of_In, filter_In. split; [by apply list_elem_of_In|].
    by apply bool_decide_eq_true.
Qed.
Lemma root_ids_nodup m : NoDup (keys m) → NoDup (root_ids m).
Proof.
  unfold keys, root_ids. induction m as [|[k c] m IH]; cbn; [intros _; apply NoDup_nil_2|].
  intros [Hk Hn]%NoDup_cons. destruct (bool_decide (c = Some 0)); cbn; [|auto].
  apply NoDup_cons. split; [|auto]. intros ([k' c'] & -> & H)%list_elem_of_fmap. apply Hk.
  apply list_elem_of_In, filter_In in H as [H _]. apply list_elem_of_In in H.
  by apply (list_elem_of_fmap_2 fst) in H.
Qed.

Lemma zero_counts_assoc nodes k :
  assoc k (zero_counts nodes) = if member k (map nd_id nodes) then Some (Some 0) else None.
Proof.
  unfold zero_counts, map_of.
  assert (∀ m, assoc k (foldl (λ m kv, obj_set kv.1 kv.2 m) m (map (λ n, (nd_id n, Some 0)) nodes)) =
               if member k (map nd_id nodes) then Some (Some 0) else assoc k m) as H; [|by rewrite H].
  induction nodes as [|n nodes IH]; intros m; cbn [map foldl]; [done|]. rewrite IH, assoc_obj_set. cbn [fst snd].
  unfold member. destruct (str_eqb k (nd_id n)) eqn:E.
  - apply str_eqb_eq in E as ->. rewrite (bool_decide_true (_ ∈ _ :: _)) by left. by case_bool_decide.
  - rewrite (bool_decide_ext (k ∈ map nd_id nodes) (k ∈ nd_id n :: map nd_id nodes)); [done|]. rewrite elem_of_cons.
    split; [by right|]. intros [->|?]; [by rewrite str_eqb_refl in E|done].
Qed.

Lemma occurrences_0 k l : occurrences k l = 0 ↔ k ∉ l.
Proof.
  unfold occurrences. induction l as [|x l IH]; cbn; [split; [intros _; apply not_elem_of_nil|done]|].
  rewrite not_elem_of_cons. destruct (str_eqb k x) eqn:E; cbn.
  - apply str_eqb_eq in E as ->. split; [done|by intros [? _]].
  - rewrite IH. split; [|tauto]. intros H. split; [|done]. intros ->. by rewrite str_eqb_refl in E.
Qed.

(** The nodes no edge of the list points to (or leaves) *)
Lemma roots_of_edges nodes (ends : list str) k :
  k ∈ root_ids (foldl count_in (zero_counts nodes) ends) ↔ k ∈ map nd_id nodes ∧ (k ∉ ends).
Proof.
  rewrite root_ids_spec by apply keys_count_in, map_of_keys_nodup.
  rewrite count_in_assoc, zero_counts_assoc. destruct (member k (map nd_id nodes)) eqn:E.
  - apply member_true in E. cbn. rewrite <-occurrences_0. split; [by intros [= ->] | by intros [_ ->]].
  - apply member_false in E. split; [by destruct (member k ends) | by intros [? _]].
Qed.

(** ** The entry *)

Section Entry.
Variable w : workflow.
Hypothesis Hacc : accepted w.
Let nodes := wf_nodes w.
Let edges := wf_edges w.
Let g := graph_of nodes edges.

Lemma edge_ids e : e ∈ edges → ed_source e ∈ map nd_id nodes ∧ ed_target e ∈ map nd_id nodes.
Proof.
  intros He. destruct (proj1 (accepted_edges w Hacc) e He) as [l Hl].
  apply link_of_ends in Hl as (_ & _ & ? & ?). unfold nodes. by rewrite <-(accepted_ids w Hacc).
Qed.

(** The adjacency lists *)
Lemma push_targets es m :
  (∀ e, e ∈ es → is_Some (assoc (ed_source e) m)) →
  ∃ m', foldl (λ m e, m ≫= λ m, push_target m e) (Ok m) es = Ok m' ∧ keys m' = keys m ∧
    ∀ k l, assoc k m = Some l → assoc k m' = Some (l ++ map ed_target (List.filter (λ e, str_eqb (ed_source e) k) es)).
Proof.
  revert m. induction es as [|e es IH]; cbn; intros m He.
  { exists m. split_and!; [done..|]. intros k l ->. by rewrite app_nil_r. }
  destruct (He e) as [l Hl]; [by left|]. unfold push_target at 2. rewrite Hl.
  destruct (IH (obj_set (ed_source e) (l ++ [ed_target e]) m)) as (m' & Hm & Hk & Ha).
  { intros e' Hin. rewrite assoc_obj_set. destruct (str_eqb _ _); [eauto|]. apply He. by right. }
  exists m'. split_and!; [done| |].
  - rewrite Hk, keys_obj_set, (proj2 (member_true _ _)); [done|]. apply assoc_keys; eauto.
  - intros k l' Hk'. destruct (str_eqb (ed_source e) k) eqn:E; cbn.
    + apply str_eqb_eq in E as <-. assert (l' = l) as -> by congruence.
      rewrite (Ha _ (l ++ [ed_target e])), <-app_assoc; [done|]. by rewrite assoc_obj_set, str_eqb_refl.
    + apply Ha. rewrite assoc_obj_set. destruct (str_eqb k (ed_source e)) eqn:E'; [|done].
      apply str_eqb_eq in E' as ->. by rewrite str_eqb_refl in E.
Qed.

Definition adjacency (out : list (str * list str)) : Prop :=
  keys out = map nd_id nodes ∧
  ∀ k, k ∈ map nd_id nodes → assoc k out = Some (map ed_target (List.filter (λ e, str_eqb (ed_source e) k) edges)).

Lemma adjacency_built : ∃ out,
  foldl (λ m e, m ≫= λ m, push_target m e) (Ok (map_of (map (λ n, (nd_id n, [])) nodes))) edges = Ok out ∧
  adjacency out.
Proof.
  assert (map_of (map (λ n, (nd_id n, @nil str)) nodes) = map (λ n, (nd_id n, [])) nodes) as ->.
  { apply map_of_nodup. unfold keys. rewrite map_map. apply (ap_ids _ (accepted_inv _ Hacc)). }
  assert (∀ k, k ∈ map nd_id nodes → assoc k (map (λ n, (nd_id n, @nil str)) nodes) = Some []) as Hn.
  { intros k (n & -> & Hn)%list_elem_of_fmap. apply assoc_nodup.
    - unfold keys. rewrite map_map. apply (ap_ids _ (accepted_inv _ Hacc)).
    - by apply (list_elem_of_fmap_2 (λ n, (nd_id n, @nil str))) in Hn. }
  destruct (push_targets edges (map (λ n, (nd_id n, [])) nodes)) as (out & H1 & H2 & H3).
  { intros e [He _]%edge_ids. rewrite Hn by done. eauto. }
  exists out. split; [done|]. split; [rewrite H2; unfold keys; by rewrite map_map|].
  intros k Hk. by rewrite (H3 _ _ (Hn k Hk)).
Qed.

Lemma adjacency_next out a b : adjacency out → b ∈ default [] (assoc a out) ↔ edge_from_to w a b.
Proof.
  intros [Hk Ho]. unfold edge_from_to. destruct (decide (a ∈ map nd_id nodes)) as [Ha|Ha].
  - rewrite Ho by done. cbn. rewrite list_elem_of_fmap. setoid_rewrite list_elem_of_In. setoid_rewrite filter_In.
    setoid_rewrite <-list_elem_of_In. setoid_rewrite str_eqb_eq. naive_solver.
  - assert (assoc a out = None) as -> by (apply eq_None_not_Some; rewrite <-assoc_keys, Hk; done).
    split; [by intros ?%elem_of_nil|]. intros (e & He & <- & _). by apply edge_ids in He as [? _].
Qed.

(** The search for a way back to a Condition, with a throw taken as a hit *)
Section Back.
Variables (out : list (str * list str)) (source start : str).
Hypothesis Hout : adjacency out.
Hypothesis Hstart : start ∈ map nd_id nodes.
Let next := λ x, default [] (assoc x out).
Let hit := λ x, if str_eqb x source then Some true else match assoc x out with Some _ => None | None => Some true end.

Lemma back_known y : rtc (λ a b, b ∈ next a) start y → y ∈ map nd_id nodes ∧ is_Some (assoc y out).
Proof.
  intros Hy. assert (y ∈ map nd_id nodes) as Hn; [|split; [done|by rewrite (proj2 Hout y Hn)]].
  revert Hstart. induction Hy as [|x z y Hz _ IH]; [done|]. intros _. apply IH.
  apply (adjacency_next _ _ _ Hout) in Hz as (e & He & _ & <-). by apply edge_ids.
Qed.

Lemma back_search :
  (dfs id false next (λ _ : unit, hit) (λ _ _, ()) (S (length out)) () start []).1 = true ↔
  rtc (edge_from_to w) start source.
Proof.
  assert (∀ a b, b ∈ next a ↔ edge_from_to w a b) as Hn by (intros a b; apply (adjacency_next _ _ _ Hout)).
  rewrite (dfs_exact next hit (map nd_id nodes)); [split| |].
  - intros (y & Hp & Hy). assert (rtc (λ a b, b ∈ next a) start y) as Hp'.
    { eapply rtc_subrel; [|exact Hp]. by intros ? ? [_ ?]. }
    assert (y = source) as ->.
    { apply back_known in Hp' as [_ [l Hl]]. unfold hit in Hy. destruct (str_eqb y source) eqn:E; [by apply str_eqb_eq|].
      by rewrite Hl in Hy. }
    eapply rtc_subrel; [|exact Hp']. intros a b. apply Hn.
  - intros Hp. exists source. split; [|unfold hit; by rewrite str_eqb_refl].
    pose proof back_known as Hk. revert Hk. induction Hp as [|x z y Hz Hp IH]; [done|]. intros Hk.
    destruct (decide (x = y)) as [->|Hne]; [done|]. apply Hn in Hz. eapply rtc_l; [|apply IH].
    + split; [|done]. unfold hit, str_eqb. rewrite bool_decide_false by done.
      destruct (proj2 (Hk x (rtc_refl _ _))) as [l ->]. done.
    + by apply Hk, rtc_once.
    + intros u Hu. apply Hk. by eapply rtc_l.
  - intros x Hx. unfold next. destruct (assoc x out) eqn:E; [|done].
    exfalso. apply Hx. rewrite <-(proj1 Hout). apply assoc_keys. eauto.
  - rewrite <-(proj1 Hout). unfold keys. rewrite length_map. lia.
Qed.

(** [visits] does not throw, and answers whether there is a way back. *)
Lemma visits_spec :
  ∃ b, visits out source start = Ok b ∧ (b = true ↔ rtc (edge_from_to w) start source).
Proof.
  unfold visits.
  set (hit3 := λ (_ : unit) x, if str_eqb x source then Some Yes else match assoc x out with Some _ => None | None => Some Fails end).
  assert (dfs id false next (λ _ : unit, hit) (λ _ _, ()) (S (length out)) () start [] =
          prod_map answer_ends id (dfs answer_ends No next hit3 (λ _ _, ()) (S (length out)) () start [])) as Him.
  { apply dfs_image; [done..|]. intros p x. unfold hit, hit3. destruct (str_eqb x source); [done|]. by destruct (assoc x out). }
  pose proof back_search as Hex. rewrite Him in Hex. fold next.
  destruct (dfs answer_ends No next hit3 _ _ _ _ _) as [[] seen] eqn:E; [by exists true | by exists false |exfalso].
  destruct (dfs_sound answer_ends No next hit3 _ _ _ _ _ _ _ eq_refl E eq_refl) as ([] & y & Hp & Hy).
  apply (rtc_congruence snd (λ a b, b ∈ next a)) in Hp; [|by intros [[] a] [[] c] (? & _ & ?)].
  apply back_known in Hp as [_ [l Hl]]. unfold hit3 in Hy. destruct (str_eqb y source); [done|].
  cbn in Hl. by rewrite Hl in Hy.
Qed.
End Back.

Lemma entry_candidate_spec out e : adjacency out → e ∈ edges → ∃ l,
  entry_candidate (byId_of nodes) out e = Ok l ∧
  ∀ b, b ∈ l ↔ is_condition g (ed_source e) = true ∧ ed_target e = b ∧ rtc (flows nodes edges) b (ed_source e).
Proof.
  intros Hout He. unfold entry_candidate. change (type_in (byId_of nodes) t_condition (ed_source e)) with
    (match assoc (ed_source e) (byId_of nodes) with Some (_, n) => str_eqb (nd_type n) t_condition | None => false end).
  assert (is_condition g (ed_source e) =
    match assoc (ed_source e) (byId_of nodes) with Some (_, n) => str_eqb (nd_type n) t_condition | None => false end) as <-.
  { unfold is_condition, has_type, node_of. change (g_byId g) with (byId_of nodes). by destruct (assoc _ _) as [[? ?]|]. }
  destruct (is_condition g (ed_source e)).
  - destruct (visits_spec out (ed_source e) (ed_target e) Hout) as (b & -> & Hb); [by apply edge_ids|].
    cbn. eexists. split; [done|]. intros x.
    pose proof (reach_edges w Hacc x (ed_source e)) as Hr. fold nodes edges in Hr. rewrite Hr.
    destruct b; [rewrite list_elem_of_singleton|rewrite elem_of_nil]; naive_solver.
  - exists []. split; [done|]. intros x. rewrite elem_of_nil. naive_solver.
Qed.

Lemma entry_candidates out : adjacency out → ∃ candidates,
  outcome_map (@concat _) (mapM (entry_candidate (byId_of nodes) out) edges) = Ok candidates ∧
  ∀ b, b ∈ candidates ↔ loop_edge w b.
Proof.
  intros Hout. unfold loop_edge. fold nodes edges g.
  assert (∀ es, (∀ e, e ∈ es → e ∈ edges) → ∃ candidates,
    outcome_map (@concat _) (mapM (entry_candidate (byId_of nodes) out) es) = Ok candidates ∧
    ∀ b, b ∈ candidates ↔ ∃ e, e ∈ es ∧ is_condition g (ed_source e) = true ∧ ed_target e = b ∧
                               rtc (flows nodes edges) b (ed_source e)) as H; [|by apply H].
  induction es as [|e es IH]; intros Hes.
  { exists []. split; [done|]. intros b. split; [by intros ?%elem_of_nil|]. by intros (? & ?%elem_of_nil & _). }
  destruct IH as (cs & Hcs & Hb); [intros e' ?; apply Hes; by right|].
  assert (∃ l, entry_candidate (byId_of nodes) out e = Ok l ∧
               ∀ b, b ∈ l ↔ is_condition g (ed_source e) = true ∧ ed_target e = b ∧ rtc (flows nodes edges) b (ed_source e))
    as (l & Hl & Hl').
  { by apply entry_candidate_spec; [|apply Hes; left]. }
  exists (l ++ cs). split.
  - cbn. rewrite Hl. cbn. destruct (mapM _ es) as [k|]; [|done]. cbn in *. by injection Hcs as <-.
  - intros b. rewrite elem_of_app, Hl', Hb. setoid_rewrite elem_of_cons. naive_solver.
Qed.

(** The entry computed from the raw edges is the validator's. *)
Lemma graphEntryNode_entry e : entries g edges = [e] → graphEntryNode nodes edges = Ok e.
Proof.
  intros He. destruct (entry_spec w Hacc e He) as [Hi Hcases]. fold nodes edges in Hi, Hcases.
  assert (ids nodes = map nd_id nodes) as Hids by (apply (accepted_ids w Hacc)). rewrite Hids in Hi, Hcases.
  assert (∀ r, (r ∉ map ed_target edges) ↔ ∀ a, ¬ flows nodes edges a r) as Hno.
  { intros r. assert (∀ a, flows nodes edges a r ↔ edge_from_to w a r) as Hf by (intros a; apply (flows_edges w Hacc)).
    setoid_rewrite Hf. unfold edge_from_to. fold edges.
    rewrite list_elem_of_fmap. naive_solver. }
  set (roots := root_ids (foldl count_in (zero_counts nodes) (map ed_target edges))).
  assert (∀ r, r ∈ roots ↔ r ∈ map nd_id nodes ∧ ∀ a, ¬ flows nodes edges a r) as Hr.
  { intros r. unfold roots. rewrite roots_of_edges, Hno. done. }
  unfold graphEntryNode. fold roots. destruct Hcases as [H1|[H1 H2]].
  - assert (roots = [e]) as ->; [|done]. apply nodup_singleton.
    + apply root_ids_nodup, keys_count_in, map_of_keys_nodup.
    + intros r. rewrite Hr. split; [intros [? ?]; by apply H1|]. intros ->. split; [done|]. by apply H1.
  - assert (roots = []) as ->.
    { apply elem_of_nil_inv. intros r [Hr1 Hr2]%Hr. destruct (H1 r Hr1) as [a Ha]. by apply (Hr2 a). }
    destruct adjacency_built as (out & -> & Hout). cbn.
    destruct (entry_candidates out Hout) as (cs & -> & Hcs). cbn.
    assert (dedup cs = [e]) as Hd.
    { apply nodup_singleton; [apply NoDup_dedup|]. intros b. rewrite elem_of_dedup, Hcs. apply H2. }
    destruct cs as [|c cs]; [done|]. rewrite Hd. cbn. f_equal.
    by apply H2, Hcs; left.
Qed.
End Entry.
