(* ===== verification/WorkflowAccepted.v ===== *)
(** * Accepted workflow definitions: the guarantees

    The theorems about [workflowDefinitionV2Schema]: what holds of every
    definition it returns, stated over the definition's own nodes and edges.
    Witnesses are at the end of the development (WorkflowExamples). *)

From stdpp Require Import relations.
From S2P Require Import Prelude JsString Json Layout Libs Contract GithubClient GraphSearch WorkflowBlocks WorkflowGraph WorkflowPlan WorkflowGraphFacts WorkflowShape TarjanFacts WorkflowPlanFacts.

(** ** Shapes *)

Lemma mapM_option_elem {A B} (f : A → option B) l k b : mapM f l = Some k → b ∈ k → ∃ a, a ∈ l ∧ f a = Some b.
Proof.
  intros H%mapM_Some_1 Hb. apply list_elem_of_lookup in Hb as [i Hi].
  destruct (Forall2_lookup_r _ _ _ _ _ H Hi) as (a & Ha & Hf). exists a. split; [by eapply list_elem_of_lookup_2|done].
Qed.
Lemma p_id_ok v s : p_id v = Some s → is_definition_id s = true.
Proof.
  unfold p_id, z_id. destruct v; try done. cbn. destruct (is_definition_id s0) eqn:E; [|done]. by intros [= <-].
Qed.
Lemma definition_id_nonempty s : is_definition_id s = true → nonempty s = true.
Proof. intros [H _]%andb_true_iff. by apply nonempty_true, is_artifact_id_nonempty. Qed.

(** The limits of a definition *)
Record shape_ok (w : workflow) : Prop := {
  so_nodes : 1 ≤ length (wf_nodes w) ≤ MAX_WORKFLOW_STEPS;
  so_edges : length (wf_edges w) ≤ MAX_STEP_EXECUTIONS;
  so_ids : ∀ n, n ∈ wf_nodes w → is_definition_id (nd_id n) = true;
  so_ends : ∀ e, e ∈ wf_edges w → is_definition_id (ed_source e) = true ∧ is_definition_id (ed_target e) = true;
  so_version : ∀ n, n ∈ wf_nodes w → (1 ≤ nd_version n)%Z;
  so_steps : (1 ≤ wf_maxStepExecutions w ≤ Z.of_nat MAX_STEP_EXECUTIONS)%Z;
}.

Ltac inv_some :=
  repeat match goal with
         | H : _ ≫= _ = Some _ |- _ => apply bind_Some in H as (? & ? & H)
         end.

Lemma int_in_ok lo hi v z : z_int_in lo hi v = Some z → (lo ≤ z ≤ hi)%Z.
Proof.
  destruct v as [| | |[n| | |]| | | |]; try discriminate. cbn. destruct (_ && _) eqn:E; [|discriminate].
  apply andb_true_iff in E as [E1%Z.leb_le E2%Z.leb_le]. by intros [= <-].
Qed.

Lemma node_schema_ok v n : workflowNodeSchema v = Some n → is_definition_id (nd_id n) = true ∧ (1 ≤ nd_version n)%Z.
Proof.
  unfold workflowNodeSchema. intros H. inv_some. injection H as <-. cbn. split; [by eapply p_id_ok|].
  by match goal with H : z_int_in _ _ _ = Some _ |- _ => apply int_in_ok in H as [? _] end.
Qed.
Lemma edge_schema_ok v e :
  workflowEdgeSchema v = Some e → is_definition_id (ed_source e) = true ∧ is_definition_id (ed_target e) = true.
Proof. unfold workflowEdgeSchema. intros H. inv_some. injection H as <-. cbn. split; by eapply p_id_ok. Qed.

Lemma array_ok {A} lo hi (p : jsval → option A) v l :
  z_array_of lo hi p v = Some l → lo ≤ length l ≤ hi ∧ ∀ a, a ∈ l → ∃ u, p u = Some a.
Proof.
  unfold z_array_of. destruct v as [| | | | |k| |]; try done. destruct (_ && _) eqn:E; [|done].
  apply andb_true_iff in E as [E1%Nat.leb_le E2%Nat.leb_le]. intros H. split.
  - apply mapM_Some_1, Forall2_length in H. lia.
  - intros a Ha. destruct (mapM_option_elem _ _ _ _ H Ha) as (u & _ & ?). eauto.
Qed.

Lemma workflow_shape_ok v w : workflow_shape v = Some w → shape_ok w.
Proof.
  unfold workflow_shape. intros H. inv_some. injection H as <-.
  repeat match goal with H : z_array_of _ _ _ _ = Some _ |- _ => apply array_ok in H as [? ?] end.
  match goal with HN : ∀ a, a ∈ _ → ∃ u, workflowNodeSchema u = _, HE : ∀ a, a ∈ _ → ∃ u, workflowEdgeSchema u = _ |- _ =>
    split; cbn [wf_nodes wf_edges wf_maxStepExecutions]; [done|lia| | | |by eapply int_in_ok];
      [intros n [u Hu]%HN|intros e [u Hu]%HE|intros n [u Hu]%HN] end.
  - by eapply node_schema_ok.
  - by eapply edge_schema_ok.
  - by eapply node_schema_ok.
Qed.

(** ** The theorems *)

Section Guarantees.
Variables (v : jsval) (w : workflow).
Hypothesis Hparsed : workflowDefinitionV2Schema v = Ok w.

Lemma parsed_shape : shape_ok w.
Proof. apply schema_ok in Hparsed as [H _]. by eapply workflow_shape_ok. Qed.
Lemma parsed_accepted : accepted w.
Proof. by apply schema_ok in Hparsed as [_ ?]. Qed.

Lemma cycle_condition x :
  tc (edge_from_to w) x x →
  ∃ c d, typed w t_condition c ∧ rtc (edge_from_to w) x c ∧ rtc (edge_from_to w) c x ∧
         edge_from_to w c d ∧ ¬ rtc (edge_from_to w) d x.
Proof.
  pose proof parsed_accepted as Hacc. set (g := graph_of (wf_nodes w) (wf_edges w)).
  assert (∀ a b, rtc (flows (wf_nodes w) (wf_edges w)) a b ↔ rtc (edge_from_to w) a b) as Hr by apply (reach_edges w Hacc).
  assert (∀ a b, edge_from_to w a b ↔ b ∈ targets g a) as Ht.
  { intros a b. unfold g. by rewrite targets_spec, (flows_edges w Hacc). }
  intros Hx. assert (∃ y, edge_from_to w x y ∧ rtc (edge_from_to w) y x) as (y & Hxy & Hyx).
  { inversion Hx as [? ? H|? y ? H H']; subst; [by exists x|]. exists y. split; [done|by apply tc_rtc]. }
  destruct (components_exact (wf_nodes w) (wf_edges w)) as [Hcov Hcls]. fold g in Hcov, Hcls.
  destruct (Hcov x) as (k & Hk & Hxk).
  { apply (flows_edges w Hacc), flows_ids in Hxy as [? _]. done. }
  pose proof (ap_components _ (accepted_inv w Hacc) k Hk) as Hc. fold g in Hc. unfold check_component in Hc.
  assert (cyclic g k = true) as Hcyc.
  { unfold cyclic. apply orb_true_iff. destruct k as [|a [|b k]]; [by apply elem_of_nil in Hxk| |by left].
    apply list_elem_of_singleton in Hxk as ->. right. apply existsb_exists. exists y.
    rewrite <-list_elem_of_In, <-Ht, str_eqb_eq. split; [done|]. symmetry. apply list_elem_of_singleton.
    apply (Hcls _ a y Hk); [by left|]. rewrite !Hr. split; [by apply rtc_once|done]. }
  rewrite Hcyc in Hc. apply app_nil_iff in Hc as [_ Hc]. apply issue_if_nil, negb_false_iff, existsb_exists in Hc as (c & Hck & Hc).
  apply list_elem_of_In in Hck. apply andb_true_iff in Hc as [Hc1 Hc2]. apply existsb_exists in Hc2 as (d & Hd & Hdk).
  apply list_elem_of_In in Hd. apply negb_true_iff, member_false in Hdk. apply Ht in Hd as Hcd.
  destruct (proj1 (Hcls k x c Hk Hxk) Hck) as [Hxc Hcx]. rewrite Hr in Hxc, Hcx.
  exists c, d. split_and!; [by apply (has_type_spec w Hacc)|done|done|done|]. intros Hdx. apply Hdk.
  apply (Hcls k x d Hk Hxk). rewrite !Hr. split; [by eapply rtc_r|done].
Qed.
End Guarantees.

(** C4: An accepted definition has distinct node ids and edges between its own
    nodes; every node is reachable from one entry, the node [graphEntryNode]
    computes, and leads to one terminal, the only node without outgoing edges,
    an agent, a reusable workflow or a publication. The entry is the only node
    without incoming edges or, when every node has one, the target of an edge
    by which a Condition repeats. *)
Theorem workflow_connected v w (Hparsed : workflowDefinitionV2Schema v = Ok w) :
  NoDup (map nd_id (wf_nodes w)) ∧
  (∀ a b, edge_from_to w a b → a ∈ map nd_id (wf_nodes w) ∧ b ∈ map nd_id (wf_nodes w)) ∧
  ∃ entry terminal,
    graphEntryNode (wf_nodes w) (wf_edges w) = Ok entry ∧
    (∀ n, n ∈ map nd_id (wf_nodes w) → rtc (edge_from_to w) entry n ∧ rtc (edge_from_to w) n terminal) ∧
    (∀ n, n ∈ map nd_id (wf_nodes w) → (∀ b, ¬ edge_from_to w n b) ↔ n = terminal) ∧
    (∃ t, t ∈ [t_agent; t_subworkflow; t_publish] ∧ typed w t terminal) ∧
    ((∀ n, n ∈ map nd_id (wf_nodes w) → (∀ a, ¬ edge_from_to w a n) ↔ n = entry) ∨
     (∀ n, n ∈ map nd_id (wf_nodes w) → ∃ a, edge_from_to w a n) ∧
     ∃ c, typed w t_condition c ∧ edge_from_to w c entry ∧ rtc (edge_from_to w) entry c).
Proof.
  pose proof (parsed_accepted v w Hparsed) as Hacc. pose proof (accepted_inv w Hacc) as parts.
  assert (∀ a b, flows (wf_nodes w) (wf_edges w) a b ↔ edge_from_to w a b) as Hf by apply (flows_edges w Hacc).
  split_and!; [apply (ap_ids _ parts)|intros a b; rewrite <-Hf, <-(accepted_ids w Hacc); apply flows_ids|].
  destruct (accepted_ends w Hacc) as (e & t & He & Ht). exists e, t. rewrite <-(accepted_ids w Hacc). split_and!.
  - by apply (graphEntryNode_entry w Hacc).
  - intros n Hn. rewrite <-!(reach_edges w Hacc). by apply (accepted_between w Hacc).
  - intros n Hn. setoid_rewrite <-Hf.
    assert (n ∈ terminals (graph_of (wf_nodes w) (wf_edges w)) ↔ n = t) as Hn'
      by (rewrite Ht; apply list_elem_of_singleton).
    rewrite (terminal_spec w n) in Hn'. tauto.
  - pose proof (ap_terminal _ parts) as H. unfold check_terminal in H. rewrite Ht in H.
    apply issue_if_nil, negb_false_iff in H. rewrite !orb_true_iff, !(has_type_spec w Hacc) in H.
    destruct H as [[H|H]|H]; [exists t_agent|exists t_subworkflow|exists t_publish]; (split; [|done]); set_solver.
  - destruct (entry_spec w Hacc e He) as [_ [H|[H1 H2]]]; [left|right].
    + intros n Hn. setoid_rewrite <-Hf. by apply H.
    + split; [setoid_rewrite <-Hf; apply H1|]. destruct (proj2 (H2 e) eq_refl) as (ed & Hed & Hc & Hte & Hr).
      exists (ed_source ed). split_and!; [by apply (has_type_spec w Hacc)|by exists ed|by apply (reach_edges w Hacc)].
Qed.


(** C13: In an accepted definition a publication directly follows the agent it
    publishes; every output an agent includes in its context comes from
    another agent that publishes it and leads to the agent; and a conversation
    continues that of another agent that leads to its node, without cycles,
    with any two continuations of one lineage ordered by the graph. *)
Theorem references_resolved v w (Hparsed : workflowDefinitionV2Schema v = Ok w) :
  let flow := flows (wf_nodes w) (wf_edges w) in
  (∀ n, n ∈ wf_nodes w → nd_type n = t_publish →
     ∃ l, prop_opt "sourceNodeId" (nd_config n) = JStr (ln_source l) ∧ typed w t_agent (ln_source l) ∧
          links_in w (nd_id n) = [l]) ∧
  (∀ n l u, n ∈ wf_nodes w → nd_type n = t_agent → v2_or_v3 n = true →
     prop_opt "includeNodeOutputs" (prop_opt "context" (nd_config n)) = JArr l → u ∈ l →
     ∃ m, m ∈ wf_nodes w ∧ u = JStr (nd_id m) ∧ nd_id m ≠ nd_id n ∧ nd_type m = t_agent ∧ v2_or_v3 m = true ∧
          prop_opt "publishOutput" (prop_opt "context" (nd_config m)) = JBool true ∧ rtc flow (nd_id m) (nd_id n)) ∧
  (∀ a, ¬ tc (continues w) a a) ∧
  (∀ a b, continues w a b → typed w t_agent b ∧ a ≠ b ∧ rtc flow b a) ∧
  (∀ a b a' b' r, continues w a a' → continues w b b' → rtc (continues w) a r → rtc (continues w) b r →
     rtc flow a b ∨ rtc flow b a).
Proof.
  pose proof (parsed_accepted v w Hparsed) as Hacc. cbv zeta. split; [by apply publish_shape|].
  split; [by apply context_shape|]. apply (accepted_lineage w Hacc).
  intros n Hn. apply definition_id_nonempty. by apply (so_ids _ (parsed_shape v w Hparsed)).
Qed.

(** C5: In an accepted definition, from every node on a cycle a Condition of
    the same cyclic region can be reached that has an edge out of the region:
    no region repeats without a decision that can end it. *)
Theorem cycles_controlled v w x
    (Hparsed : workflowDefinitionV2Schema v = Ok w) (Hx : tc (edge_from_to w) x x) :
  ∃ c d, typed w t_condition c ∧ rtc (edge_from_to w) x c ∧ rtc (edge_from_to w) c x ∧
         edge_from_to w c d ∧ ¬ rtc (edge_from_to w) d x.
Proof. by eapply cycle_condition. Qed.

(** C11: Tarjan's search computes exactly the strongly connected components of
    the graph, for any nodes and edges: every node is in a component, and two
    nodes share one exactly when each can be reached from the other. *)
Theorem components_are_classes nodes edges :
  let g := graph_of nodes edges in
  (∀ x, x ∈ map nd_id nodes → ∃ c, c ∈ components g ∧ x ∈ c) ∧
  ∀ c x y, c ∈ components g → x ∈ c →
    y ∈ c ↔ rtc (flows nodes edges) x y ∧ rtc (flows nodes edges) y x.
Proof.
  destruct (components_exact nodes edges) as [H1 H2]. split; [|done]. intros x Hx. apply H1.
  unfold ids, byId_of. apply elem_map_of. unfold keys. rewrite map_map. cbn.
  by rewrite <-(map_map snd nd_id), indexed_snd.
Qed.
