(* ===== verification/WorkflowCompile.v ===== *)
(** * Compiling an accepted workflow

    [compile_exact] gives the result of [compileWorkflowV2ExecutionPlan] on
    every accepted definition: the plan, or the error for a missing agent or
    an unexpanded subworkflow. The lemmas show that a configuration its block's
    schema returned passes the plan's schema unchanged. *)

From stdpp Require Import relations.
From S2P Require Import Prelude JsString Regex Json Layout Libs Contract GithubClient GraphSearch WorkflowBlocks WorkflowGraph WorkflowPlan WorkflowGraphFacts WorkflowShape TarjanFacts WorkflowPlanFacts WorkflowAccepted.

(** ** Keys of blocks *)

Lemma dec_no_at z : 64%N ∉ dec_of_Z z.
Proof.
  assert (∀ n, 64%N ∉ dec_of_N n) as Hd.
  { intros n Hin. destruct (dec_of_N_spec n) as (ds & E & H & _). rewrite E in Hin.
    rewrite Forall_forall in H. by specialize (H _ Hin). }
  destruct z; cbn [dec_of_Z]; [apply Hd..|]. intros [H|H]%elem_of_cons; [done|by apply Hd in H].
Qed.
Lemma dec_of_Z_inj a b : dec_of_Z a = dec_of_Z b → a = b.
Proof.
  intros H. pose proof (parse_num_dec a [] I) as Ha. pose proof (parse_num_dec b [] I) as Hb.
  rewrite !app_nil_r in *. congruence.
Qed.
Lemma last_split {A} (x : A) a b d e : x ∉ d → x ∉ e → a ++ x :: d = b ++ x :: e → a = b ∧ d = e.
Proof.
  intros Hd He. revert b. induction a as [|y a IH]; intros [|z b] H; cbn in H.
  - by injection H.
  - injection H as -> ->. exfalso. apply Hd, elem_of_app. right. by left.
  - injection H as -> <-. exfalso. apply He, elem_of_app. right. by left.
  - injection H as -> H. apply IH in H as [-> ->]. done.
Qed.
Lemma block_key_inj t v t' v' : block_key t v = block_key t' v' → t = t' ∧ v = v'.
Proof.
  unfold block_key. change (js "@") with [64%N]. cbn [app].
  intros [-> H]%last_split; [|apply dec_no_at..]. split; [done|by apply dec_of_Z_inj].
Qed.
Lemma resolve_block t v b :
  registry_resolve workflowBlockRegistry t v = Ok b → b ∈ standard_blocks ∧ t = block_type b ∧ v = block_version b.
Proof. intros [H1 H2]%resolve_standard. by apply block_key_inj in H2 as [-> ->]. Qed.

(** ** Parsed objects *)

(** [p'] accepts what [p] returned, unchanged. *)
Definition again (p p' : schema) : Prop := ∀ v v', p v = Some v' → p' v' = Some v'.

Lemma has_key_keys k o : has_key k o = true ↔ k ∈ keys o.
Proof.
  unfold has_key, keys. rewrite existsb_exists, list_elem_of_fmap. setoid_rewrite str_eqb_eq.
  setoid_rewrite list_elem_of_In. naive_solver.
Qed.
Lemma field_app k o o' : k ∉ keys o → field k (o ++ o') = field k o'.
Proof.
  unfold field, keys. induction o as [|[k' v] o IH]; cbn; [done|]. intros [Hk H]%not_elem_of_cons.
  assert (str_eqb k k' = false) as -> by (unfold str_eqb; by rewrite bool_decide_false). by apply IH.
Qed.
Lemma field_none k o : k ∉ keys o → field k o = JUndefined.
Proof. intros H. rewrite <-(app_nil_r o), field_app by done. done. Qed.

Lemma z_shape_keys shape o o' k : z_shape shape o = Some o' → k ∈ keys o' → k ∈ map fst shape.
Proof.
  revert o'. induction shape as [|[k' p] shape IH]; cbn; intros o'; [by intros [= <-]|].
  intros H. inv_some. injection H as <-. destruct (_ && _).
  - intros Hk. right. by eapply IH.
  - intros [->|Hk]%elem_of_cons; [by left|right; by eapply IH].
Qed.

Lemma z_shape_again shape shape' o o' pre :
  Forall2 (λ a b, a.1 = b.1 ∧ again a.2 b.2) shape shape' → NoDup (map fst shape) →
  (∀ k, k ∈ map fst shape → k ∉ keys pre) → z_shape shape o = Some o' → z_shape shape' (pre ++ o') = Some o'.
Proof.
  intros H. revert o' pre. induction H as [|[k p] [k' p'] shape shape' [Hk' Hp] _ IH]; cbn; intros o' pre Hn Hpre.
  { by intros [= <-]. }
  cbn in Hk', Hp. subst k'. apply NoDup_cons in Hn as [Hk Hn]. intros H. inv_some. injection H as <-.
  rename x into v, x0 into rest. match goal with H : z_shape shape o = Some rest |- _ => rename H into Hr end.
  match goal with H : p _ = Some v |- _ => rename H into Hv end.
  assert (k ∉ keys pre) as Hkp by (apply Hpre; by left).
  assert (k ∉ keys rest) as Hkr by (intros Hin; by eapply Hk, z_shape_keys).
  destruct (is_undefined v && negb (has_key k o)) eqn:Ev.
  - apply andb_true_iff in Ev as [Eu _]. assert (v = JUndefined) as -> by (by destruct v).
    rewrite field_app, field_none by done. rewrite (Hp _ _ Hv). cbn.
    rewrite (IH rest pre); [|done| |done]; [|intros k2 H2; apply Hpre; by right]. cbn.
    assert (has_key k (pre ++ rest) = false) as ->; [|done].
    apply not_true_iff_false. rewrite has_key_keys. unfold keys. rewrite map_app. by intros [?|?]%elem_of_app.
  - rewrite field_app by done. unfold field at 1. cbn [assoc]. rewrite str_eqb_refl. cbn [default].
    cbn. rewrite (Hp _ _ Hv). cbn.
    change ((k, v) :: rest) with ([(k, v)] ++ rest). rewrite app_assoc.
    rewrite (IH rest (pre ++ [(k, v)])); [|done| |done].
    + cbn. assert (has_key k ((pre ++ [(k, v)]) ++ rest) = true) as ->; [|by rewrite andb_false_r].
      apply has_key_keys. unfold keys. rewrite !map_app. apply elem_of_app. left. apply elem_of_app. right. by left.
    + intros k2 H2. unfold keys. rewrite map_app. intros [Hin|Hin]%elem_of_app; [by apply (Hpre k2); [right|]|].
      apply list_elem_of_singleton in Hin. cbn in Hin. subst k2. done.
Qed.

Lemma z_object_again shape shape' :
  Forall2 (λ a b, a.1 = b.1 ∧ again a.2 b.2) shape shape' → NoDup (map fst shape) → again (z_object shape) (z_object shape').
Proof.
  intros H Hn v v'. unfold z_object. destruct v as [| | | | | |o|]; try done. destruct (forallb _ o); [|done].
  destruct (z_shape shape o) as [o'|] eqn:E; [|done]. intros [= <-].
  rewrite (proj2 (forallb_true_elem _ _)).
  - assert (z_shape shape' ([] ++ o') = Some o') as Hz
      by (eapply z_shape_again; [done|done|by intros k _ ?%elem_of_nil|done]).
    cbn in Hz. by rewrite Hz.
  - intros [k u] Hk. apply existsb_exists. apply (list_elem_of_fmap_2 fst) in Hk.
    apply (z_shape_keys _ _ _ _ E) in Hk. assert (map fst shape = map fst shape') as Hf.
    { clear -H. induction H as [|a b l l' [Hab _] _ IH]; [done|]. cbn. congruence. }
    rewrite Hf in Hk. apply list_elem_of_fmap in Hk as (s & -> & Hin).
    exists s. split; [by apply list_elem_of_In|apply str_eqb_refl].
Qed.

Lemma z_shape_field shape o o' k p :
  z_shape shape o = Some o' → NoDup (map fst shape) → (k, p) ∈ shape → ∃ u, p u = Some (field k o').
Proof.
  revert o'. induction shape as [|[k' p'] shape IH]; cbn; intros o' H Hn; [by intros ?%elem_of_nil|].
  apply NoDup_cons in Hn as [Hk Hn]. inv_some. injection H as <-.
  rename x into v, x0 into rest. match goal with H : z_shape shape o = Some rest |- _ => rename H into Hr end.
  assert (k' ∉ keys rest) as Hkr by (intros Hin; by eapply Hk, z_shape_keys).
  intros [[= -> ->]|Hin]%elem_of_cons.
  - exists (field k' o). destruct (is_undefined v && _) eqn:Ev.
    + rewrite (field_none k' rest) by done. apply andb_true_iff in Ev as [Ev _]. by destruct v.
    + unfold field at 2. cbn. by rewrite str_eqb_refl.
  - destruct (IH rest Hr Hn Hin) as [u Hu]. exists u. rewrite Hu. destruct (is_undefined v && _); [done|].
    f_equal. change ((k', v) :: rest) with ([(k', v)] ++ rest). rewrite field_app; [done|].
    intros ->%list_elem_of_singleton. apply Hk. by apply (list_elem_of_fmap_2 fst) in Hin.
Qed.
Lemma z_object_field shape v c k p :
  z_object shape v = Some c → NoDup (map fst shape) → (js k, p) ∈ shape → ∃ u, p u = Some (prop_opt k c).
Proof.
  unfold z_object. destruct v as [| | | | | |o|]; try done. destruct (forallb _ o); [|done].
  destruct (z_shape shape o) as [o'|] eqn:E; [|done]. intros [= <-]. by apply z_shape_field with (o := o).
Qed.

(** ** The schemas of blocks and plans *)

Lemma again_id : again z_id z_id.
Proof.
  intros v v'. unfold z_id. destruct v; try done. cbn. destruct (is_definition_id s) eqn:E; [|done].
  intros [= <-]. cbn. by rewrite E.
Qed.
Lemma again_text lo hi : again (z_text lo hi) (z_text lo hi).
Proof.
  intros v v'. unfold z_text. destruct v; try done. cbn. destruct (_ && _) eqn:E; [|done].
  intros [= <-]. cbn. by rewrite E.
Qed.
Lemma again_trim hi : again (z_trim hi) (z_trim hi).
Proof.
  intros v v'. unfold z_trim. destruct v; try done. cbn. destruct (_ && _) eqn:E; [|done].
  intros [= <-]. cbn. rewrite trim_idemp. by rewrite E.
Qed.
Lemma again_bool : again z_bool z_bool.
Proof. intros v v'. destruct v; try done. by intros [= <-]. Qed.
Lemma again_word w : again (z_word w) (z_word w).
Proof.
  intros v v'. unfold z_word. destruct v; try done. destruct (str_eqb s w) eqn:E; [|done]. intros [= <-]. by rewrite E.
Qed.
Lemma again_opt p p' : again p p' → again (z_opt p) (z_opt p').
Proof.
  intros H v v' Hv. destruct v'; [done|..]; cbn; destruct v; cbn in Hv; try discriminate; by eapply H.
Qed.
Lemma again_or d p p' : again p p' → p' d = Some d → again (z_or d p) p'.
Proof. intros H Hd v v' Hv. destruct v; cbn in Hv; [congruence|..]; by eapply H. Qed.
Lemma again_list p p' n : again p p' → again (z_list p n) (z_list p' n).
Proof.
  intros H v v'. unfold z_list. destruct v as [| | | | |l| |]; try done. destruct (length l <=? n)%nat eqn:E; [|done].
  destruct (mapM p l) as [l'|] eqn:Em; [|done]. intros [= <-]. apply mapM_Some_1 in Em.
  rewrite <-(Forall2_length _ _ _ Em), E. assert (mapM p' l' = Some l') as ->; [|done].
  apply mapM_Some_2. induction Em as [|a b l l' Hab _ IH]; [constructor|]. constructor; [by eapply H|].
  apply IH. apply Nat.leb_le in E. apply Nat.leb_le. cbn in E. lia.
Qed.

(** Field by field; [other] handles a nested object. *)
Ltac again_object other :=
  apply z_object_again;
  [repeat (constructor; [split; [reflexivity|cbn [snd];
     repeat first [apply again_id | apply again_text | apply again_trim | apply again_bool | apply again_word
                  | apply again_list | apply again_opt | apply again_or; [|reflexivity] | other]]|]); constructor
  |apply (bool_decide_eq_true_1 (NoDup _)); vm_compute; reflexivity].

Lemma again_context : again agentContextSchema planContextSchema.
Proof. again_object fail. Qed.

Lemma fixed_ok id t v s c :
  is_definition_id id = true → plan_config t v = Some s → s c = Some c →
  genericPlanNode (PlanNode id t v c) = Some (PlanNode id t v c).
Proof. intros Hid Hp Hc. unfold genericPlanNode. cbn. rewrite Hp. cbn. rewrite Hc. cbn. by rewrite Hid. Qed.
Lemma plain_ok id t v s s' u c :
  is_definition_id id = true → plan_config t v = Some s' → again s s' → s u = Some c →
  genericPlanNode (PlanNode id t v c) = Some (PlanNode id t v c).
Proof. intros Hid Hp Ha Hc. eapply fixed_ok; [done|exact Hp|by eapply Ha]. Qed.

Lemma z_object_1 k p v : p v = Some v → z_object [(k, p)] (JObj [(k, v)]) = Some (JObj [(k, v)]).
Proof.
  intros H. unfold z_object, has_key. cbn [forallb existsb fst]. rewrite str_eqb_refl. cbn [orb andb z_shape].
  assert (field k [(k, v)] = v) as -> by (unfold field; cbn [assoc]; by rewrite str_eqb_refl).
  rewrite H. cbn. by rewrite str_eqb_refl, andb_false_r.
Qed.
Lemma z_object_2 k p v k' p' v' : k ≠ k' → p v = Some v → p' v' = Some v' →
  z_object [(k, p); (k', p')] (JObj [(k, v); (k', v')]) = Some (JObj [(k, v); (k', v')]).
Proof.
  intros Hk H H'. unfold z_object, has_key. cbn [forallb existsb fst].
  assert (str_eqb k' k = false) as Hk' by (unfold str_eqb; rewrite bool_decide_false; congruence).
  rewrite !str_eqb_refl, Hk'. cbn [orb andb z_shape].
  assert (field k [(k, v); (k', v')] = v) as -> by (unfold field; cbn [assoc]; by rewrite str_eqb_refl).
  assert (field k' [(k, v); (k', v')] = v') as -> by (unfold field; cbn [assoc]; by rewrite Hk', str_eqb_refl).
  rewrite H, H'. cbn. by rewrite Hk', !str_eqb_refl, !andb_false_r.
Qed.

Lemma agent_v1_ok id c u :
  is_definition_id id = true → z_id u = Some (prop_opt "agentId" c) →
  genericPlanNode (agent_v1 id c) = Some (agent_v1 id c).
Proof. intros Hid Hu. eapply fixed_ok; [done|reflexivity|]. apply z_object_1. by eapply again_id. Qed.
Lemma agent_v2_ok id c u u' :
  is_definition_id id = true → z_id u = Some (prop_opt "agentId" c) →
  agentContextSchema u' = Some (prop_opt "context" c) → genericPlanNode (agent_v2 id c) = Some (agent_v2 id c).
Proof.
  intros Hid Hu Hc. eapply fixed_ok; [done|reflexivity|]. apply z_object_2; [done|by eapply again_id|].
  apply again_context in Hc. by destruct (prop_opt "context" c).
Qed.

(** The fields of a parsed agent configuration *)
Lemma agent_fields shape v c :
  z_object shape v = Some c → NoDup (map fst shape) → (js "agentId", z_id) ∈ shape →
  (js "context", z_opt agentContextSchema) ∈ shape →
  (∃ u, z_id u = Some (prop_opt "agentId" c)) ∧
  (active_context (prop_opt "context" c) = true → ∃ u, agentContextSchema u = Some (prop_opt "context" c)).
Proof.
  intros Hc Hn Ha Hx. split; [by eapply z_object_field|]. intros Hact.
  destruct (z_object_field _ _ _ _ _ Hc Hn Hx) as [u Hu]. exists u. destruct u; cbn in Hu; try done.
  injection Hu as Hu. by rewrite <-Hu in Hact.
Qed.

Lemma agent_plan_ok n c shape :
  is_definition_id (nd_id n) = true → nd_type n = t_agent → v2_or_v3 n = true →
  z_object shape (nd_config n) = Some c → NoDup (map fst shape) → (js "agentId", z_id) ∈ shape →
  (js "context", z_opt agentContextSchema) ∈ shape →
  (nd_version n = 3%Z → ∃ s, plan_config t_agent 3 = Some s ∧ again (z_object shape) s) →
  genericPlanNode (plan_node_of n c) = Some (plan_node_of n c).
Proof.
  intros Hid Ht Hv Hc Hn Ha Hx H3. destruct (agent_fields _ _ _ Hc Hn Ha Hx) as [[u Hu] Hact].
  unfold plan_node_of, agent_node. rewrite Ht, str_eqb_refl, Hv. cbn [andb].
  destruct ((nd_version n =? 3)%Z && truthy (prop_opt "conversation" c)) eqn:E3.
  - apply andb_true_iff in E3 as [E3%Z.eqb_eq _]. destruct (H3 E3) as (s & Hs & Hag). by eapply plain_ok.
  - destruct (active_context (prop_opt "context" c)) eqn:Ea; [|by eapply agent_v1_ok].
    destruct (Hact eq_refl) as [u' Hu']. by eapply agent_v2_ok.
Qed.

(** The plan's schema accepts, unchanged, what a block's schema returned. *)
Lemma plan_node_ok n c :
  is_definition_id (nd_id n) = true → nd_type n ≠ t_subworkflow →
  validate workflowBlockRegistry (nd_type n) (nd_version n) (nd_config n) = Ok c →
  genericPlanNode (plan_node_of n c) = Some (plan_node_of n c).
Proof.
  intros Hid Hsub (b & (Hb & Ht & Hv)%resolve_block & Hc%from_option_throw_ok)%outcome_bind_ok.
  assert (∀ s, plan_config (block_type b) (block_version b) = Some s → again (block_schema b) s →
    agent_node n && v2_or_v3 n = false → genericPlanNode (plan_node_of n c) = Some (plan_node_of n c)) as Hplain.
  { intros s Hs Hag Hf. unfold plan_node_of. rewrite Hf, Ht, Hv. by eapply plain_ok. }
  unfold standard_blocks in Hb. rewrite !elem_of_cons, elem_of_nil in Hb.
  destruct Hb as [->|[->|[->|[->|[->|[->|[->|[->|[]]]]]]]]]; cbn [block_type block_version block_schema] in *.
  - eapply Hplain; [reflexivity|again_object fail|]. unfold v2_or_v3. rewrite Hv. apply andb_false_r.
  - eapply agent_plan_ok; [done|done|unfold v2_or_v3; by rewrite Hv|exact Hc| | | |by rewrite Hv];
      [apply (bool_decide_eq_true_1 (NoDup _)); vm_compute; reflexivity|by left|by right; left].
  - eapply agent_plan_ok; [done|done|unfold v2_or_v3; by rewrite Hv|exact Hc| | | |];
      [apply (bool_decide_eq_true_1 (NoDup _)); vm_compute; reflexivity|by left|by right; left|].
    intros _. eexists. split; [reflexivity|]. again_object ltac:(first [apply again_context | again_object fail]).
  - eapply Hplain; [reflexivity|again_object fail|]. unfold agent_node. by rewrite Ht.
  - eapply Hplain; [reflexivity|again_object fail|]. unfold agent_node. by rewrite Ht.
  - eapply Hplain; [reflexivity|again_object fail|]. unfold agent_node. by rewrite Ht.
  - done.
  - eapply Hplain; [reflexivity|again_object fail|]. unfold agent_node. by rewrite Ht.
Qed.

(** ** The parts of a plan *)

Lemma subworkflow_unplanned z : plan_config t_subworkflow z = None.
Proof. unfold plan_config. change (str_eqb t_subworkflow t_agent) with false. by destruct (z =? 1)%Z. Qed.

Lemma port_ids b d q : b ∈ standard_blocks → q ∈ interface b d → is_definition_id (port_id q) = true.
Proof.
  intros Hb Hq.
  assert (forallb (λ b, forallb (λ q, is_definition_id (port_id q)) (interface b Inputs ++ interface b Outputs)) standard_blocks = true)
    as Hc by (by vm_compute).
  rewrite forallb_true_elem in Hc. specialize (Hc b Hb). cbn beta in Hc. rewrite forallb_true_elem in Hc. apply Hc, elem_of_app.
  destruct d; [by left|by right].
Qed.
Lemma port_ok t v d given p : port workflowBlockRegistry t v d given = Ok p → is_definition_id p = true.
Proof.
  unfold port. intros (b & (Hb & _)%resolve_block & H)%outcome_bind_ok. cbv zeta in H.
  match type of H with context [match ?o with Some _ => _ | None => _ end] => destruct o as [r|] end; [|done].
  destruct (nonempty r && _) eqn:E; [|done]. injection H as <-. apply andb_true_iff in E as [_ E].
  apply existsb_exists in E as (q & Hin & <-%str_eqb_eq). by eapply port_ids, list_elem_of_In.
Qed.
Lemma resolve_link_ok s t e l :
  resolve_link s t e = Ok l → is_definition_id (ed_source e) = true → is_definition_id (ed_target e) = true →
  plan_edge_ok l = true.
Proof.
  unfold resolve_link. intros (p & Hp%port_ok & H)%outcome_bind_ok Hs Ht.
  apply outcome_bind_ok in H as (q & Hq%port_ok & H). injection H as <-. unfold plan_edge_ok. cbn. by rewrite Hs, Ht, Hp, Hq.
Qed.

Lemma references_ok n c :
  validate workflowBlockRegistry (nd_type n) (nd_version n) (nd_config n) = Ok c →
  ∃ r, node_references n = Ok r.
Proof.
  unfold validate, node_references, references. destruct (registry_resolve _ _ _) as [b|]; [|done]. cbn. intros ->. cbn. eauto.
Qed.

Lemma find_app {A} (f : A → bool) l k :
  find_list f (l ++ k) = match find_list f l with Some a => Some a | None => find_list f k end.
Proof. unfold find_list. induction l as [|x l IH]; cbn; [done|]. by destruct (f x). Qed.

(** Every agent is looked up, in the order of the references. *)
Lemma agents_checked agents nodes :
  (∀ n, n ∈ nodes → ∃ r, node_references n = Ok r) →
  ∃ refs, workflowAgentReferences nodes = Ok refs ∧
    match find_list (λ a, negb (member a agents)) refs with
    | Some a => mapM (check_agents agents) nodes = Throw (WfError (js "missing_agent:" ++ a))
    | None => ∃ us, mapM (check_agents agents) nodes = Ok us
    end.
Proof.
  intros H. unfold workflowAgentReferences. induction nodes as [|n nodes IH].
  { exists []. split; [done|]. by exists []. }
  destruct (H n) as [r Hr]; [by left|]. destruct IH as (refs & Hrefs & Hm); [intros m Hm; apply H; by right|].
  assert (check_agents agents n = match find_list (λ a, negb (member a agents)) (agentIds r) with
          | Some a => Throw (WfError (js "missing_agent:" ++ a)) | None => Ok () end) as Hn.
  { unfold check_agents. by rewrite Hr. }
  exists (agentIds r ++ refs). split.
  { cbn. rewrite Hr. cbn. destruct (mapM node_references nodes) as [ks|] eqn:Ek; [|done]. cbn in *. by injection Hrefs as <-. }
  rewrite find_app. cbn [mapM]. rewrite Hn. destruct (find_list _ (agentIds r)) as [a|]; [done|]. cbn.
  destruct (find_list _ refs) as [a|]; [by rewrite Hm|]. destruct Hm as [us ->]. cbn. eauto.
Qed.

Section Compile.
Variables (v : jsval) (w : workflow).
Hypothesis Hparsed : workflowDefinitionV2Schema v = Ok w.
Let Hacc : accepted w := parsed_accepted v w Hparsed.
Let nodes := wf_nodes w.
Let edges := wf_edges w.

(** The parsed configurations *)
Lemma configs_parsed : ∃ configs,
  Forall2 (λ n c, validate workflowBlockRegistry (nd_type n) (nd_version n) (nd_config n) = Ok c) nodes configs.
Proof.
  pose proof (ap_config _ (accepted_inv w Hacc)) as H. fold nodes in H.
  induction nodes as [|n l IH]; [by exists []|]. destruct (H n) as [c Hc]; [by left|].
  destruct IH as [cs Hcs]; [intros m Hm; apply H; by right|]. exists (c :: cs). by constructor.
Qed.

Lemma nodes_compiled configs :
  Forall2 (λ n c, validate workflowBlockRegistry (nd_type n) (nd_version n) (nd_config n) = Ok c) nodes configs →
  mapM compile_node nodes = Ok (zip_with plan_node_of nodes configs).
Proof.
  intros H. apply outcome_mapM_ok. induction H as [|n c l cs Hc _ IH]; cbn; [constructor|]. constructor; [|done].
  unfold compile_node. by rewrite Hc.
Qed.

Lemma edges_compiled : mapM (compile_edge (byId_of nodes)) edges = Ok (wf_links nodes edges).
Proof.
  apply outcome_mapM_ok. unfold wf_links. pose proof (proj1 (accepted_edges w Hacc)) as H. fold nodes edges in H.
  induction edges as [|e l IH]; [constructor|]. destruct (H e) as [k Hk]; [by left|].
  change (omap (link_of (byId_of nodes)) (e :: l)) with
    (match link_of (byId_of nodes) e with Some y => y :: omap (link_of (byId_of nodes)) l | None => omap (link_of (byId_of nodes)) l end).
  rewrite Hk. constructor; [|apply IH; intros e' He'; apply H; by right].
  unfold compile_edge. unfold link_of in Hk. destruct (assoc (ed_source e) _) as [[? s]|]; [|done].
  destruct (assoc (ed_target e) _) as [[? t]|]; [|done]. destruct (resolve_link s t e); [|done]. cbn. congruence.
Qed.
Lemma edges_plan_ok : forallb plan_edge_ok (wf_links nodes edges) = true.
Proof.
  apply forallb_true_elem. intros l (e & He & Hl)%list_elem_of_omap. unfold link_of in Hl.
  destruct (assoc (ed_source e) _) as [[? s]|]; [|done]. destruct (assoc (ed_target e) _) as [[? t]|]; [|done].
  destruct (resolve_link s t e) as [l'|] eqn:E; [|done]. injection Hl as ->.
  eapply resolve_link_ok; [exact E|..]; by apply (so_ends _ (parsed_shape v w Hparsed)).
Qed.

(** The terminal of the plan *)
Lemma terminal_compiled : ∃ t,
  terminals (graph_of nodes edges) = [t] ∧ root_ids (foldl count_in (zero_counts nodes) (map ed_source edges)) = [t].
Proof.
  unfold nodes, edges. destruct (accepted_ends w Hacc) as (_ & t & _ & Ht). exists t. split; [done|].
  apply nodup_singleton; [apply root_ids_nodup, keys_count_in, map_of_keys_nodup|].
  intros x. rewrite roots_of_edges, <-(list_elem_of_singleton x t), <-Ht, (terminal_spec w x).
  rewrite (accepted_ids w Hacc). apply and_iff_compat_l.
  assert (∀ b, flows (wf_nodes w) (wf_edges w) x b ↔ edge_from_to w x b) as Hf by (intros b; apply (flows_edges w Hacc)).
  setoid_rewrite Hf. unfold edge_from_to. rewrite list_elem_of_fmap. naive_solver.
Qed.

Lemma entry_compiled : ∃ e, graphEntryNode nodes edges = Ok e ∧ e ∈ map nd_id nodes.
Proof.
  destruct (accepted_ends w Hacc) as (e & _ & He & _). exists e. split; [by apply (graphEntryNode_entry w Hacc)|].
  unfold nodes. rewrite <-(accepted_ids w Hacc). by apply (entry_spec w Hacc).
Qed.

(** The plan's schema on the compiled nodes *)
Lemma nodes_checked configs :
  Forall2 (λ n c, validate workflowBlockRegistry (nd_type n) (nd_version n) (nd_config n) = Ok c) nodes configs →
  mapM genericPlanNode (zip_with plan_node_of nodes configs) =
    if existsb (λ n, str_eqb (nd_type n) t_subworkflow) nodes then None else Some (zip_with plan_node_of nodes configs).
Proof.
  pose proof (so_ids _ (parsed_shape v w Hparsed)) as Hid. fold nodes in Hid.
  intros H. induction H as [|n c l cs Hc _ IH]; [done|]. cbn.
  assert (is_definition_id (nd_id n) = true) as Hn by (apply Hid; by left).
  destruct (str_eqb (nd_type n) t_subworkflow) eqn:Es.
  - apply str_eqb_eq in Es. cbn. assert (genericPlanNode (plan_node_of n c) = None) as ->; [|done].
    unfold genericPlanNode, plan_node_of, agent_node. rewrite Es. cbn [str_eqb]. change (str_eqb t_subworkflow t_agent) with false.
    cbn [andb pn_type pn_version]. by rewrite subworkflow_unplanned.
  - rewrite (plan_node_ok n c); [|done| |done]; [|intros Heq; by rewrite Heq, str_eqb_refl in Es]. cbn.
    rewrite IH by (intros m Hm; apply Hid; by right). by destruct (existsb _ l).
Qed.
End Compile.

(** What compiling an accepted definition returns *)
Lemma compile_result v w agents (Hparsed : workflowDefinitionV2Schema v = Ok w) :
  ∃ refs configs entry terminal,
    workflowAgentReferences (wf_nodes w) = Ok refs ∧
    Forall2 (λ n c, validate workflowBlockRegistry (nd_type n) (nd_version n) (nd_config n) = Ok c) (wf_nodes w) configs ∧
    graphEntryNode (wf_nodes w) (wf_edges w) = Ok entry ∧
    terminals (graph_of (wf_nodes w) (wf_edges w)) = [terminal] ∧
    compileWorkflowV2ExecutionPlan v agents =
      match find_list (λ a, negb (member a agents)) refs with
      | Some a => Throw (WfError (js "missing_agent:" ++ a))
      | None =>
          if existsb (λ n, str_eqb (nd_type n) t_subworkflow) (wf_nodes w) then Throw WfShape
          else Ok (Plan (zip_with plan_node_of (wf_nodes w) configs) (wf_links (wf_nodes w) (wf_edges w))
                     entry terminal (wf_maxStepExecutions w))
      end.
Proof.
  pose proof (parsed_shape v w Hparsed) as Hshape. pose proof (parsed_accepted v w Hparsed) as Hacc.
  destruct (configs_parsed v w Hparsed) as [configs Hc]. destruct (terminal_compiled v w Hparsed) as (t & Ht & Hrt).
  destruct (entry_compiled v w Hparsed) as (e & He & Hin).
  destruct (agents_checked agents (wf_nodes w)) as (refs & Hrefs & Hchk).
  { intros n Hn. destruct (ap_config _ (accepted_inv w Hacc) n Hn) as [c Hcn]. by eapply references_ok. }
  exists refs, configs, e, t. split_and!; [done..|]. unfold compileWorkflowV2ExecutionPlan. rewrite Hparsed. cbn [mbind outcome_bind].
  cbv zeta. destruct (find_list _ refs) as [a|]; [by rewrite Hchk|]. destruct Hchk as [us ->]. cbn [mbind outcome_bind].
  rewrite (nodes_compiled w configs Hc). cbn [mbind outcome_bind].
  rewrite (edges_compiled v w Hparsed). cbn [mbind outcome_bind]. rewrite He, Hrt. cbn [mbind outcome_bind head from_option_throw].
  unfold genericWorkflowExecutionPlanSchema. cbn [pl_nodes pl_edges pl_entry pl_terminal pl_maxStepExecutions].
  rewrite (nodes_checked v w Hparsed configs Hc). destruct (existsb _ (wf_nodes w)); [done|]. cbn [from_option_throw mbind outcome_bind].
  rewrite (edges_plan_ok v w Hparsed). destruct Hshape as [S1 S2 S3 _ _ S6].
  assert (∀ x, x ∈ map nd_id (wf_nodes w) → is_definition_id x = true) as Hids
    by (intros x (n & -> & Hn)%list_elem_of_fmap; by apply S3).
  assert (length (zip_with plan_node_of (wf_nodes w) configs) = length (wf_nodes w)) as Hlen
    by (by eapply length_zip_with_same_l).
  assert (length (wf_links (wf_nodes w) (wf_edges w)) = length (wf_edges w)) as Hle.
  { pose proof (edges_compiled v w Hparsed) as H%outcome_mapM_ok. symmetry. by eapply Forall2_length. }
  assert (t ∈ map nd_id (wf_nodes w)) as Htin.
  { assert (t ∈ root_ids (foldl count_in (zero_counts (wf_nodes w)) (map ed_source (wf_edges w)))) as [? _]%roots_of_edges
      by (rewrite Hrt; by left). done. }
  rewrite Hlen, Hle, (Hids e Hin), (Hids t Htin), (proj2 (Nat.leb_le _ _) (proj1 S1)), (proj2 (Nat.leb_le _ _) (proj2 S1)),
    (proj2 (Nat.leb_le _ _) S2), (proj2 (Z.leb_le _ _) (proj1 S6)), (proj2 (Z.leb_le _ _) (proj2 S6)). done.
Qed.


(** ** What the runtime sees *)

Lemma again_plan_context : again planContextSchema planContextSchema.
Proof. again_object fail. Qed.
Lemma plan_config_again t v s : plan_config t v = Some s → again s s.
Proof.
  unfold plan_config. intros H.
  repeat match type of H with
         | (if ?b then _ else _) = _ => destruct b
         | Some _ = Some _ => injection H as <-
         | None = Some _ => discriminate H
         end;
  again_object ltac:(first [apply again_plan_context | again_object fail]).
Qed.
Lemma checked_fixed n0 n : genericPlanNode n0 = Some n → genericPlanNode n = Some n.
Proof.
  unfold genericPlanNode. destruct (plan_config (pn_type n0) (pn_version n0)) as [s|] eqn:Es; [|done]. cbn.
  destruct (s (pn_config n0)) as [c|] eqn:Ec; [|done]. cbn. destruct (is_definition_id (pn_id n0)) eqn:Ei; [|done].
  intros [= <-]. cbn. rewrite Es. cbn. rewrite (plan_config_again _ _ _ Es _ _ Ec). cbn. by rewrite Ei.
Qed.

(** The node the runtime gets: the same block, an agent without its conversation *)
Definition hidden (n n' : plan_node) : Prop :=
  pn_id n' = pn_id n ∧ pn_type n' = pn_type n ∧
  (pn_type n = t_agent → (pn_version n' ≤ 2)%Z ∧ prop_opt "agentId" (pn_config n') = prop_opt "agentId" (pn_config n) ∧
     (prop_opt "context" (pn_config n') = prop_opt "context" (pn_config n) ∨ active_context (prop_opt "context" (pn_config n)) = false) ∧
     prop_opt "conversation" (pn_config n') = JUndefined) ∧
  (pn_type n ≠ t_agent → n' = n).

Lemma strict_missing shape v c k : z_object shape v = Some c → js k ∉ map fst shape → prop_opt k c = JUndefined.
Proof.
  unfold z_object. destruct v as [| | | | | |o|]; try done. destruct (forallb _ o); [|done].
  destruct (z_shape shape o) as [o'|] eqn:E; [|done]. intros [= <-] Hk. cbn. apply field_none.
  intros Hin. by eapply Hk, z_shape_keys.
Qed.

Lemma project_node_ok n : genericPlanNode n = Some n → genericPlanNode (project_node n) = Some (project_node n) ∧ hidden n (project_node n).
Proof.
  intros Hn. destruct n as [id t ver c]. unfold project_node, hidden. cbn [pn_id pn_type pn_version pn_config].
  destruct (str_eqb t t_agent) eqn:Et.
  2: { cbn [andb]. split; [done|]. split_and!; [done|done| |done]. intros ->. by rewrite str_eqb_refl in Et. }
  apply str_eqb_eq in Et as ->. cbn [andb]. pose proof Hn as Hn'. unfold genericPlanNode in Hn'. cbn [pn_id pn_type pn_version pn_config] in Hn'.
  destruct (plan_config t_agent ver) as [s|] eqn:Es; [|done]. cbn [mbind option_bind] in Hn'.
  destruct (s c) as [c'|] eqn:Ec; [|done]. cbn [mbind option_bind] in Hn'. destruct (is_definition_id id) eqn:Ei; [|done].
  injection Hn' as ->. change (plan_config t_agent ver) with
    (if (ver =? 1)%Z then Some (z_object [(js "agentId", z_id)])
     else if (ver =? 2)%Z then Some (z_object [(js "agentId", z_id); (js "context", z_opt planContextSchema)])
     else if (ver =? 3)%Z then
       Some (z_object [(js "agentId", z_id); (js "context", z_opt planContextSchema);
                       (js "conversation", z_opt (z_object [(js "sourceNodeId", z_id)]))]) else None) in Es.
  destruct (ver =? 3)%Z eqn:E3.
  - apply Z.eqb_eq in E3 as ->. cbn in Es. injection Es as <-.
    destruct (z_object_field _ _ _ "agentId" z_id Ec) as [u Hu];
      [apply (bool_decide_eq_true_1 (NoDup _)); vm_compute; reflexivity|by left|].
    destruct (z_object_field _ _ _ "context" (z_opt planContextSchema) Ec) as [u' Hu'];
      [apply (bool_decide_eq_true_1 (NoDup _)); vm_compute; reflexivity|by right; left|].
    destruct (active_context (prop_opt "context" c)) eqn:Ea.
    + split; [|split_and!; try done; intros _; split_and!; try done; by left].
      eapply fixed_ok; [done|reflexivity|]. apply z_object_2; [done|by eapply again_id|].
      by eapply (again_opt _ _ again_plan_context).
    + split; [by eapply agent_v1_ok|]. split_and!; try done. intros _. split_and!; try done. by right.
  - split; [done|]. split_and!; try done. intros _.
    destruct (ver =? 1)%Z eqn:E1; [|destruct (ver =? 2)%Z eqn:E2; [|done]]; injection Es as <-;
      (split_and!; [cbn; rewrite ?Z.eqb_eq in *; lia|done|by left|eapply strict_missing; [exact Ec|eval_decide]]).
Qed.

(** The projection for the runtime service of a plan its schema accepted
    never fails and keeps ids, types, edges, entry, terminal and limit; an
    agent keeps its agent id, and its context if it selects anything, and
    loses its conversation; every other node is unchanged. *)
Theorem runtime_plan_private p0 p (Hplan : genericWorkflowExecutionPlanSchema p0 = Ok p) :
  ∃ p', projectExecutionPlanForRuntime p = Ok p' ∧ Forall2 hidden (pl_nodes p) (pl_nodes p') ∧
    pl_edges p' = pl_edges p ∧ pl_entry p' = pl_entry p ∧ pl_terminal p' = pl_terminal p ∧
    pl_maxStepExecutions p' = pl_maxStepExecutions p.
Proof.
  unfold genericWorkflowExecutionPlanSchema in Hplan. apply outcome_bind_ok in Hplan as (ns & Hns%from_option_throw_ok & H).
  match type of H with (if ?b then _ else _) = _ => destruct b eqn:Eb end; [|done]. injection H as <-.
  assert (∀ n, n ∈ ns → genericPlanNode n = Some n) as Hfix.
  { intros n Hn. destruct (mapM_option_elem _ _ _ _ Hns Hn) as (n0 & _ & H0). by eapply checked_fixed. }
  assert (mapM genericPlanNode (map project_node ns) = Some (map project_node ns)) as Hm.
  { clear -Hfix. induction ns as [|n ns IH]; [done|]. cbn. destruct (project_node_ok n) as [-> _]; [apply Hfix; by left|].
    cbn. rewrite IH; [done|]. intros m Hm. apply Hfix. by right. }
  unfold projectExecutionPlanForRuntime, genericWorkflowExecutionPlanSchema.
  cbn [pl_nodes pl_edges pl_entry pl_terminal pl_maxStepExecutions]. rewrite Hm. cbn [from_option_throw mbind outcome_bind].
  rewrite length_map, Eb. eexists. split; [done|]. cbn. split_and!; [|done..].
  clear -Hfix. induction ns as [|n ns IH]; [constructor|]. cbn. constructor.
  - apply project_node_ok, Hfix. by left.
  - apply IH. intros m Hm. apply Hfix. by right.
Qed.
