(* ===== verification/WorkflowComposeFacts.v ===== *)
(** * Composition of reusable workflows: theorems

    A composed workflow is primitive and accepted, so it compiles unless an
    agent is missing; its recorded dependencies are the available, exposed
    definitions; the bound on the depth is enough fuel; and an update that is
    found compatible leaves every transitive dependent composable. *)

From stdpp Require Import relations.
From S2P Require Import Prelude JsString Regex Encoding Json Layout Libs Contract GithubClient GraphSearch WorkflowBlocks WorkflowGraph WorkflowPlan WorkflowCompose WorkflowGraphFacts WorkflowShape TarjanFacts WorkflowPlanFacts WorkflowAccepted WorkflowCompile.

(** ** Reading a definition back *)

Lemma p_id_fixed s : is_definition_id s = true → p_id (JStr s) = Some s.
Proof. intros H. unfold p_id, z_id. cbn. by rewrite H. Qed.
Lemma text_back (p : schema) v s : again p p → as_text (p v) = Some s → as_text (p (JStr s)) = Some s.
Proof.
  intros Ha H. destruct (p v) as [u|] eqn:E; [|done]. destruct u; try done. injection H as ->. by rewrite (Ha _ _ E).
Qed.
Lemma p_id_back v s : p_id v = Some s → p_id (JStr s) = Some s.
Proof. apply text_back, again_id. Qed.
Definition opt_value {A} (inj : A → jsval) (o : option A) : jsval := match o with Some a => inj a | None => JUndefined end.
Lemma maybe_back {A} (p : jsval → option A) (inj : A → jsval) v o :
  (∀ u a, p u = Some a → p (inj a) = Some a ∧ inj a ≠ JUndefined) → z_maybe p v = Some o →
  z_maybe p (opt_value inj o) = Some o.
Proof.
  intros Hp H. destruct v; cbn in H; [by injection H as <-|..];
    match type of H with Some <$> p ?u = _ => destruct (p u) as [a|] eqn:E; [|done] end;
    injection H as <-; destruct (Hp _ _ E) as [H1 H2]; cbn; destruct (inj a); try done; cbn; by rewrite H1.
Qed.
Lemma int_in_back lo hi v z : z_int_in lo hi v = Some z → z_int_in lo hi (JNum (NInt z)) = Some z.
Proof. intros [H1 H2]%int_in_ok. cbn. by rewrite (proj2 (Z.leb_le _ _) H1), (proj2 (Z.leb_le _ _) H2). Qed.

(** Field access and strictness on an object whose keys are literals *)
Ltac read_strict :=
  match goal with
  | |- context [strict_fields ?k (JObj ?o)] =>
      replace (strict_fields k (JObj o)) with (Some o) by (symmetry; cbv; reflexivity); cbn [mbind option_bind]
  end.
Ltac read_fields :=
  repeat match goal with
         | |- context [get ?k (?a :: ?o)] => let r := eval cbv in (get k (a :: o)) in change (get k (a :: o)) with r
         end.

Lemma node_back v n : workflowNodeSchema v = Some n → workflowNodeSchema (node_value n) = Some n.
Proof.
  unfold workflowNodeSchema at 1. intros H. inv_some. injection H as <-.
  unfold workflowNodeSchema, node_value. cbn [nd_id nd_type nd_version nd_config]. generalize (get "config" x). intros c. read_strict. read_fields.
  rewrite (p_id_back _ _ H1). cbn [mbind option_bind]. rewrite (text_back _ _ _ (again_trim 80) H2). cbn [mbind option_bind].
  by rewrite (int_in_back _ _ _ _ H3).
Qed.
Lemma port_back v o : z_maybe p_id v = Some o → z_maybe p_id (opt_value JStr o) = Some o.
Proof. apply maybe_back. intros u a H. split; [by eapply p_id_back|done]. Qed.
Lemma edge_back v e : workflowEdgeSchema v = Some e → workflowEdgeSchema (edge_value e) = Some e.
Proof.
  unfold workflowEdgeSchema at 1. intros H. inv_some. injection H as <-.
  unfold workflowEdgeSchema, edge_value. cbn [ed_id ed_source ed_sourcePort ed_target ed_targetPort].
  apply p_id_back in H1, H2, H4. apply port_back in H3, H5.
  rename x2 into sp, x4 into tp. destruct sp as [sp|], tp as [tp|]; cbn [fmap option_fmap option_map opt_entry app];
    read_strict; read_fields; rewrite H1; cbn [mbind option_bind]; rewrite H2; cbn [mbind option_bind];
    cbn [opt_value] in H3, H5; rewrite H3; cbn [mbind option_bind]; rewrite H4; cbn [mbind option_bind]; by rewrite ?H5.
Qed.
Lemma array_back {A} lo hi (p : jsval → option A) (inj : A → jsval) v l :
  (∀ u a, p u = Some a → p (inj a) = Some a) → z_array_of lo hi p v = Some l → z_array_of lo hi p (JArr (map inj l)) = Some l.
Proof.
  intros Hp H. pose proof (array_ok _ _ _ _ _ H) as [[H1 H2] H3]. cbn. rewrite length_map.
  rewrite (proj2 (Nat.leb_le _ _) H1), (proj2 (Nat.leb_le _ _) H2). cbn. clear -Hp H3.
  induction l as [|a l IH]; [done|]. cbn. destruct (H3 a) as [u Hu]; [by left|]. rewrite (Hp _ _ Hu). cbn.
  rewrite IH; [done|]. intros b Hb. apply H3. by right.
Qed.

(** A parsed definition, read back from its value, is itself. *)
Lemma workflow_back v w : workflow_shape v = Some w → workflow_shape (workflow_value w) = Some w.
Proof.
  unfold workflow_shape at 1. intros H. inv_some. injection H as <-.
  unfold workflow_shape, workflow_value. cbn [wf_id wf_name wf_description wf_runInputTemplate wf_exposableAsBlock wf_nodes wf_edges wf_maxStepExecutions].
  apply p_id_back in H2. apply (text_back _ _ _ (again_trim 120)) in H3. apply (text_back _ _ _ (again_text 0 2000)) in H4.
  apply (maybe_back _ JStr) in H6; [|intros u a Hu; split; [by eapply (text_back (z_text 0 WORKFLOW_RUN_INPUT_MAX_LENGTH)), Hu; apply again_text|done]].
  apply (maybe_back _ JBool) in H7; [|intros u a Hu; by destruct u; try done; injection Hu as <-].
  apply (array_back _ _ _ node_value) in H8; [|apply node_back]. apply (array_back _ _ _ edge_value) in H9; [|apply edge_back].
  apply int_in_back in H11. revert H8 H9. generalize (map node_value x7), (map edge_value x8). intros ns es H8 H9.
  assert (z_int_in 2 2 (JNum (NInt 2)) = Some 2%Z) as Hv by reflexivity.
  let d := eval cbv in (js "draft") in
  assert (z_word (js "draft") (JStr d) = Some (JStr d)) as Hd by (vm_compute; reflexivity).
  destruct x5 as [t|], x6 as [b|]; cbn [fmap option_fmap option_map opt_entry app]; read_strict; read_fields;
    cbn [opt_value] in H6, H7; do 9 (first [rewrite Hv|rewrite H2|rewrite H3|rewrite H4|rewrite Hd|rewrite H6|rewrite H7|rewrite H8|rewrite H9];
      cbn [mbind option_bind]); read_strict; read_fields; by rewrite H11.
Qed.

(** ** Runs of the expansion *)

Lemma bind_ok_run {A B} (m : compose A) (k : A → compose B) s s' b :
  (m ≫= k) s = (s', Ok b) → ∃ s1 a, m s = (s1, Ok a) ∧ k a s1 = (s', Ok b).
Proof. intros [(s1 & a & H1 & H2)|(e & _ & ?)]%bind_run; [by eauto|done]. Qed.

Lemma fold_eff_inv {A B} (f : B → A → compose B) (I : B → Prop) l b b' s s' :
  (∀ b a s b' s', I b → f b a s = (s', Ok b') → I b') → I b → fold_eff f b l s = (s', Ok b') → I b'.
Proof.
  intros Hf. revert b s. induction l as [|a l IH]; cbn; intros b s Hb H.
  - by injection H as _ <-.
  - apply bind_ok_run in H as (s1 & b1 & H1 & H2). eapply IH; [|exact H2]. by eapply Hf.
Qed.

Section Runs.
Variables (root : workflow) (available : list (str * VersionedWorkflowDefinition)).

(** A node whose block is registered and refers to no workflow *)
Definition primitive (n : wf_node) : Prop :=
  (∃ b, registry_resolve workflowBlockRegistry (nd_type n) (nd_version n) = Ok b) ∧ nd_type n ≠ t_subworkflow.

Lemma z_id_text u x : z_id u = Some x → ∃ t, x = JStr t.
Proof. unfold z_id. destruct u; try done. cbn. destruct (is_definition_id s); [|done]. intros [= <-]. eauto. Qed.

Lemma references_primitive n r : node_references n = Ok r → workflowIds r = [] → primitive n.
Proof.
  unfold node_references, references. intros H Hr.
  destruct (registry_resolve workflowBlockRegistry (nd_type n) (nd_version n)) as [b|[]] eqn:Eb; try done. cbn in H.
  destruct (block_schema b (nd_config n)) as [c|] eqn:Ec; [|done]. injection H as <-.
  split; [by exists b|]. intros Ht. apply resolve_block in Eb as (Hb & Hbt & _). rewrite Ht in Hbt.
  unfold standard_blocks in Hb. rewrite !elem_of_cons, elem_of_nil in Hb.
  destruct Hb as [->|[->|[->|[->|[->|[->|[->|[->|[]]]]]]]]]; try (by vm_compute in Hbt).
  cbn [block_schema block_refs] in *. unfold workflow_refs in Hr. cbn [workflowIds] in Hr.
  destruct (z_object_field _ _ _ "workflowId" z_id Ec) as [u Hu];
    [apply (bool_decide_eq_true_1 (NoDup _)); vm_compute; reflexivity|by left|].
  apply z_id_text in Hu as [t Hu]. destruct c; try discriminate Hu. cbn in Hu. unfold text_field in Hr. by rewrite Hu in Hr.
Qed.

Lemma expand_primitive fuel w path stack s s' nodes edges :
  expand root available fuel w path stack s = (s', Ok (nodes, edges)) → Forall primitive nodes.
Proof.
  revert w path stack s s' nodes edges. induction fuel as [|fuel IH]; intros w path stack s s' nodes edges; cbn [expand];
    (destruct (MAX_COMPOSITE_DEPTH <? length stack)%nat; [done|]); [done|].
  intros H. apply bind_ok_run in H as (s1 & [[rs ns] es] & H1 & H2).
  apply bind_ok_run in H2 as (s2 & es' & _ & H2). injection H2 as _ <- _.
  refine (fold_eff_inv _ (λ acc, Forall primitive acc.1.2) _ _ _ _ _ _ _ H1); [|constructor].
  clear -IH. intros [[rs ns] es] n s [[rs' ns'] es'] s' Hns H. cbn in *. unfold expand_step in H.
  apply bind_ok_run in H as (s1 & r & Hr & H). injection Hr as <- Hr.
  destruct (workflowIds r) as [|childId ids] eqn:Er.
  - apply bind_ok_run in H as (s2 & n' & Hn & H). injection H as _ _ <- _. apply Forall_app. split; [done|].
    constructor; [|constructor]. unfold expand_node in Hn.
    apply bind_ok_run in Hn as (? & id & _ & Hn). apply bind_ok_run in Hn as (? & config & _ & Hn).
    apply bind_ok_run in Hn as (? & label & _ & Hn). apply bind_ok_run in Hn as (? & u & _ & Hn). injection Hn as _ <-.
    apply (references_primitive n r); [|done]. done.
  - unfold expand_child in H. apply bind_ok_run in H as (? & v & _ & H). apply bind_ok_run in H as (? & ids' & _ & H).
    apply bind_ok_run in H as (? & u & _ & H). apply bind_ok_run in H as (? & [ns2 es2] & Hx & H).
    apply bind_ok_run in H as (? & entry & _ & H). apply bind_ok_run in H as (? & t & _ & H). injection H as _ _ <- _.
    apply Forall_app. split; [done|]. by eapply IH.
Qed.

(** *** The depth bound *)

Lemma bind_same {A B} (m m' : compose A) (k k' : A → compose B) s : m s = m' s → (∀ a t, k a t = k' a t) → (m ≫= k) s = (m' ≫= k') s.
Proof. intros Hm Hk. unfold mbind, eff_bind. rewrite Hm. destruct (m' s) as [t [a|e]]; [apply Hk|done]. Qed.
Lemma step_same rec rec' w path stack acc n s :
  (∀ v p id s, rec v p (stack ++ [id]) s = rec' v p (stack ++ [id]) s) →
  expand_step root available rec w path stack acc n s = expand_step root available rec' w path stack acc n s.
Proof.
  intros H. unfold expand_step. apply bind_same; [done|]. intros r t. destruct (workflowIds r) as [|id rest]; [done|].
  unfold expand_child. destruct acc as [[rs ns] es]. repeat (apply bind_same; [done || apply H|intros ? ?]). done.
Qed.
Lemma fold_same {A B} (f f' : B → A → compose B) l b s : (∀ b a s, f b a s = f' b a s) → fold_eff f b l s = fold_eff f' b l s.
Proof. intros H. revert b s. induction l as [|a l IH]; intros b s; cbn; [done|]. apply bind_same; [apply H|]. intros b' t. apply IH. Qed.
(** The bound on the stack stops the expansion before the fuel does. *)
Lemma expand_fuel fuel fuel' w path stack s :
  MAX_COMPOSITE_DEPTH < fuel + length stack → MAX_COMPOSITE_DEPTH < fuel' + length stack →
  expand root available fuel w path stack s = expand root available fuel' w path stack s.
Proof.
  revert fuel' w path stack s. induction fuel as [|fuel IH]; intros [|fuel'] w path stack s H H'; cbn [expand]; try done;
    destruct (Nat.ltb_spec MAX_COMPOSITE_DEPTH (length stack)) as [Hl|Hl]; try done; try (exfalso; lia).
  apply bind_same; [|done]. apply fold_same. intros b n t. apply step_same. intros v p id u. apply IH; rewrite length_app; cbn [length]; lia.
Qed.

(** *** The recorded dependencies *)

(** The workflow a node invokes *)
Definition invokes (n : wf_node) (child : str) : Prop := ∃ r rest, node_references n = Ok r ∧ workflowIds r = child :: rest.
Definition recorded (s : compose_state) (id : str) : Prop := id ∈ keys (cs_used s).
(** Everything the workflow [id] invokes is recorded. *)
Definition complete (s : compose_state) (id : str) : Prop :=
  ∀ v n child, assoc id available = Some v → n ∈ wf_nodes (vs_definition v) → invokes n child → recorded s child.
Definition sound_entry (id : str) (d : dependency) : Prop :=
  ∃ v, assoc id available = Some v ∧ wf_exposableAsBlock (vs_definition v) = Some true ∧ dp_workflowId d = id ∧
       dp_revision d = vs_fileSha v ∧ dp_definition d = vs_definition v ∧
       workflowSubworkflowReferences (wf_nodes (vs_definition v)) = Ok (dp_dependencyWorkflowIds d).
Record grows (s s' : compose_state) : Prop := {
  gr_mono : ∀ id, recorded s id → recorded s' id;
  gr_sound : ∀ id d, (id, d) ∈ cs_used s' → (id, d) ∈ cs_used s ∨ sound_entry id d;
  gr_complete : ∀ id, recorded s' id → recorded s id ∨ complete s' id;
}.

Lemma complete_mono s s' id : (∀ x, recorded s x → recorded s' x) → complete s id → complete s' id.
Proof. intros Hm Hc v n child Hv Hn Hi. eapply Hm, Hc; done. Qed.
Lemma grows_same s s' : cs_used s' = cs_used s → grows s s'.
Proof. intros H. split; unfold recorded; rewrite H; auto. Qed.
Lemma grows_trans a b c : grows a b → grows b c → grows a c.
Proof.
  intros [A1 A2 A3] [B1 B2 B3]. split; [auto|..].
  - intros id d [H|H]%B2; auto.
  - intros id [H|H]%B3; [|by right]. apply A3 in H as [H|H]; [by left|right]. by eapply complete_mono.
Qed.

Lemma claim_used k generated key s s' r : claim k generated key s = (s', r) → cs_used s' = cs_used s.
Proof.
  unfold claim. intros H. cbv zeta in H.
  unfold mbind, eff_bind, get_world, set_world, mret, eff_ret, fail, throw in H.
  destruct (assoc _ _) as [p|]; [destruct (_ && _)|]; injection H as <- _; done.
Qed.
Lemma expand_node_used name w path n s s' n' : expand_node name w path n s = (s', Ok n') → cs_used s' = cs_used s.
Proof.
  unfold expand_node. intros H. apply bind_ok_run in H as (s1 & id & H1%claim_used & H).
  apply bind_ok_run in H as (s2 & config & H2 & H). injection H2 as <- _.
  apply bind_ok_run in H as (s3 & label & H3 & H). injection H3 as <- _.
  apply bind_ok_run in H as (s4 & u & H4 & H). injection H4 as <- _. injection H as <- _. exact H1.
Qed.
Lemma edge_end_used rs pick w path id s s' r : edge_end rs pick w path id s = (s', r) → cs_used s' = cs_used s.
Proof.
  unfold edge_end. destruct (assoc id rs); [by intros [= <- _]|]. destruct path; [by intros [= <- _]|].
  unfold mbind, eff_bind, get_world. destruct (find_list _ _); by intros [= <- _].
Qed.
Lemma expand_edges_used rs w path es s s' es' : for_each (expand_edge rs w path) es s = (s', Ok es') → cs_used s' = cs_used s.
Proof.
  revert s s' es'. induction es as [|e es IH]; cbn; intros s s' es' H; [by injection H as <- _|].
  apply bind_ok_run in H as (s1 & e' & H1 & H). apply bind_ok_run in H as (s2 & l & H2%IH & H). injection H as <- _.
  rewrite H2. unfold expand_edge in H1. apply bind_ok_run in H1 as (s3 & a & H3%edge_end_used & H1).
  apply bind_ok_run in H1 as (s4 & b & H4%edge_end_used & H1). apply bind_ok_run in H1 as (s5 & i & H5%claim_used & H1).
  injection H1 as <- _. congruence.
Qed.

Lemma find_child_ok stack child s s' v :
  find_child available stack child s = (s', Ok v) →
  s' = s ∧ assoc child available = Some v ∧ wf_exposableAsBlock (vs_definition v) = Some true.
Proof.
  unfold find_child. destruct (member child stack); [done|]. destruct (assoc child available) as [u|]; [|done].
  destruct (wf_exposableAsBlock (vs_definition u)) as [[]|] eqn:E; try done. intros [= <- <-]. done.
Qed.
Lemma elem_obj_set {A} k (v : A) m x : x ∈ obj_set k v m → x = (k, v) ∨ x ∈ m.
Proof.
  induction m as [|[k' v'] m IH]; cbn; [intros H; left; by apply list_elem_of_singleton in H|].
  destruct (str_eqb k k') eqn:E.
  - apply str_eqb_eq in E as ->. intros [->|H]%elem_of_cons; [by left|right; by right].
  - intros [->|H]%elem_of_cons; [right; by left|]. apply IH in H as [?|?]; [by left|right; by right].
Qed.

(** Recording a dependency and expanding it *)
Lemma use_grows child v ids s s2 :
  assoc child available = Some v → wf_exposableAsBlock (vs_definition v) = Some true →
  workflowSubworkflowReferences (wf_nodes (vs_definition v)) = Ok ids →
  grows (ComposeState (obj_set child (Dependency child (vs_fileSha v) (vs_definition v) ids) (cs_used s)) (cs_provenance s) (cs_claimed s)) s2 →
  (∀ n c, n ∈ wf_nodes (vs_definition v) → invokes n c → recorded s2 c) → grows s s2 ∧ recorded s2 child.
Proof.
  intros Hv Hx Hids [G1 G2 G3] Hall. set (s1 := ComposeState _ _ _) in *.
  assert (∀ id, recorded s1 id ↔ id = child ∨ recorded s id) as Hr by (intros id; apply elem_keys_set).
  split; [split|].
  - intros id Hi. apply G1, Hr. by right.
  - intros id d [H|H]%G2; [|by right]. apply elem_obj_set in H as [[= -> ->]|H]; [|by left]. right. by exists v.
  - intros id [H|H]%G3; [|by right]. apply Hr in H as [->|H]; [|by left]. right. intros v' n c Hv' Hn Hi.
    eapply Hall; [|exact Hi]. congruence.
  - apply G1, Hr. by left.
Qed.

Definition expands (w : workflow) (s s' : compose_state) : Prop :=
  grows s s' ∧ ∀ n c, n ∈ wf_nodes w → invokes n c → recorded s' c.

Lemma step_grows rec w path stack acc n s s' acc' :
  (∀ w path stack s s' r, rec w path stack s = (s', Ok r) → expands w s s') →
  expand_step root available rec w path stack acc n s = (s', Ok acc') →
  grows s s' ∧ ∀ c, invokes n c → recorded s' c.
Proof.
  intros IH H. unfold expand_step in H. apply bind_ok_run in H as (s1 & r & Hr & H). injection Hr as <- Hr.
  destruct (workflowIds r) as [|childId rest] eqn:Er.
  - destruct acc as [[rs ns] es]. apply bind_ok_run in H as (s2 & n' & Hn%expand_node_used & H). injection H as <- _.
    split; [by apply grows_same|]. intros c (r' & rest & Hr' & Hc). congruence.
  - unfold expand_child in H. destruct acc as [[rs ns] es].
    apply bind_ok_run in H as (s2 & v & (-> & Hv & Hx)%find_child_ok & H). apply bind_ok_run in H as (s3 & ids & Hids & H).
    injection Hids as <- Hids. apply bind_ok_run in H as (s4 & u & Hu & H). apply bind_ok_run in H as (s5 & [ns2 es2] & He & H).
    apply bind_ok_run in H as (s6 & entry & H6 & H). injection H6 as <- _.
    apply bind_ok_run in H as (s7 & t & H7 & H). injection H7 as <- _. injection H as <- _.
    apply IH in He as [Hg Hall]. injection Hu as <- _.
    destruct (use_grows childId v ids s s5) as [G1 G2]; try done. split; [done|].
    intros c (r' & rest' & Hr' & Hc). congruence.
Qed.

Lemma fold_grows rec w path stack nodes acc s s' acc' :
  (∀ w path stack s s' r, rec w path stack s = (s', Ok r) → expands w s s') →
  fold_eff (expand_step root available rec w path stack) acc nodes s = (s', Ok acc') →
  grows s s' ∧ ∀ n c, n ∈ nodes → invokes n c → recorded s' c.
Proof.
  intros IH. revert acc s. induction nodes as [|n nodes IHn]; intros acc s H; cbn in H.
  - injection H as <- _. split; [by apply grows_same|]. intros n c []%elem_of_nil.
  - apply bind_ok_run in H as (s1 & acc1 & [G1 H1]%step_grows & H); [|done].
    apply IHn in H as [G2 H2]. split; [by eapply grows_trans|].
    intros m c [->|Hm]%elem_of_cons Hi; [|by eapply H2]. by apply (gr_mono _ _ G2), H1.
Qed.

Lemma expand_grows fuel w path stack s s' r : expand root available fuel w path stack s = (s', Ok r) → expands w s s'.
Proof.
  revert w path stack s s' r. induction fuel as [|fuel IH]; intros w path stack s s' r; cbn [expand];
    (destruct (MAX_COMPOSITE_DEPTH <? length stack)%nat; [done|]); [done|].
  intros H. apply bind_ok_run in H as (s1 & [[rs ns] es] & [G1 H1]%fold_grows & H); [|done].
  apply bind_ok_run in H as (s2 & es' & H2%expand_edges_used & H). injection H as <- _.
  split; [eapply grows_trans; [exact G1|by apply grows_same]|]. intros n c Hn Hi. unfold recorded. rewrite H2. by eapply H1.
Qed.

(** *** Provenance *)

(** The record [p] names the node of [w] that the execution node [m] is a copy of. *)
Definition copied_from (w : workflow) (p : node_provenance) (m : wf_node) : Prop :=
  ∃ n, n ∈ wf_nodes w ∧ pv_workflowId p = wf_id w ∧ pv_semanticNodeId p = nd_id n ∧ nd_type m = nd_type n ∧ nd_version m = nd_version n ∧
       pv_executionNodeId p = nd_id m ∧ nd_id m = executionId (pv_invocationPath p) (wf_id w) (nd_id n).
(** The definition at a path: the root at the empty one, an available version below *)
Definition placed (w : workflow) (path : list segment) : Prop :=
  match path with [] => w = root | _ => ∃ v, assoc (wf_id w) available = Some v ∧ w = vs_definition v end.
Definition traced (p : node_provenance) (m : wf_node) : Prop := ∃ w, placed w (pv_invocationPath p) ∧ copied_from w p m.
Definition traces (s s' : compose_state) (old new : list wf_node) : Prop :=
  ∃ ps ms, cs_provenance s' = cs_provenance s ++ ps ∧ new = old ++ ms ∧ Forall2 traced ps ms.

Lemma traces_none s s' l : cs_provenance s' = cs_provenance s → traces s s' l l.
Proof. exists [], []. rewrite !app_nil_r. auto using Forall2_nil. Qed.
Lemma traces_trans a b c l l' l'' : traces a b l l' → traces b c l' l'' → traces a c l l''.
Proof.
  intros (ps & ms & Hp & Hm & Hf) (ps' & ms' & Hp' & Hm' & Hf'). exists (ps ++ ps'), (ms ++ ms').
  rewrite Hp', Hp, Hm', Hm, !(assoc_L (++)). auto using Forall2_app.
Qed.

Lemma claim_provenance k generated key s s' r :
  claim k generated key s = (s', r) → cs_provenance s' = cs_provenance s ∧ (∀ x, r = Ok x → x = generated).
Proof.
  unfold claim. intros H. cbv zeta in H.
  unfold mbind, eff_bind, get_world, set_world, mret, eff_ret, fail, throw in H.
  destruct (assoc _ _) as [p|]; [destruct (_ && _)|]; injection H as <- <-; (split; [done|]); intros x; congruence.
Qed.
Lemma expand_node_traced w path n s s' n' nodes :
  placed w path → n ∈ wf_nodes w → expand_node (wf_name root) w path n s = (s', Ok n') → traces s s' nodes (nodes ++ [n']).
Proof.
  intros Hw Hn H. unfold expand_node in H. apply bind_ok_run in H as (s1 & id & [Hp Hid]%claim_provenance & H).
  specialize (Hid _ eq_refl). apply bind_ok_run in H as (s2 & config & H2 & H). injection H2 as <- _.
  apply bind_ok_run in H as (s3 & label & H3 & H). injection H3 as <- _.
  apply bind_ok_run in H as (s4 & u & H4 & H). injection H4 as <- _. injection H as <- <-. cbn [cs_provenance]. rewrite Hp.
  eexists _, _. split; [reflexivity|]. split; [reflexivity|]. constructor; [|constructor].
  exists w. split; [done|]. exists n. by cbn [pv_workflowId pv_semanticNodeId pv_executionNodeId pv_invocationPath nd_id nd_type nd_version].
Qed.
Lemma edge_end_provenance rs pick w path id s s' r : edge_end rs pick w path id s = (s', r) → s' = s.
Proof.
  unfold edge_end. destruct (assoc id rs); [by intros [= <- _]|]. destruct path; [by intros [= <- _]|].
  unfold mbind, eff_bind, get_world. destruct (find_list _ _); by intros [= <- _].
Qed.
Lemma expand_edges_provenance rs w path es s s' es' :
  for_each (expand_edge rs w path) es s = (s', Ok es') → cs_provenance s' = cs_provenance s.
Proof.
  revert s s' es'. induction es as [|e es IH]; cbn; intros s s' es' H; [by injection H as <- _|].
  apply bind_ok_run in H as (s1 & e' & H1 & H). apply bind_ok_run in H as (s2 & l & H2%IH & H). injection H as <- _.
  rewrite H2. unfold expand_edge in H1. apply bind_ok_run in H1 as (s3 & a & ->%edge_end_provenance & H1).
  apply bind_ok_run in H1 as (s4 & b & ->%edge_end_provenance & H1).
  apply bind_ok_run in H1 as (s5 & i & [H5 _]%claim_provenance & H1). injection H1 as <- _. congruence.
Qed.

Hypothesis keyed : ∀ id v, assoc id available = Some v → wf_id (vs_definition v) = id.

Lemma step_traced rec w path stack acc n s s' acc' :
  (∀ w path stack s s' ns es, placed w path → rec w path stack s = (s', Ok (ns, es)) → traces s s' [] ns) →
  placed w path → n ∈ wf_nodes w →
  expand_step root available rec w path stack acc n s = (s', Ok acc') → traces s s' acc.1.2 acc'.1.2.
Proof.
  intros IH Hw Hn H. unfold expand_step in H. apply bind_ok_run in H as (s1 & r & Hr & H). injection Hr as <- Hr.
  destruct acc as [[rs ns] es]. destruct (workflowIds r) as [|childId rest] eqn:Er.
  - apply bind_ok_run in H as (s2 & n' & Hx & H). injection H as <- <-. by eapply expand_node_traced.
  - unfold expand_child in H. apply bind_ok_run in H as (s2 & v & (-> & Hv & Hx)%find_child_ok & H).
    apply bind_ok_run in H as (s3 & ids & Hids & H). injection Hids as <- Hids.
    apply bind_ok_run in H as (s4 & u & Hu & H). injection Hu as <- _. apply bind_ok_run in H as (s5 & [ns2 es2] & He & H).
    apply bind_ok_run in H as (s6 & entry & H6 & H). injection H6 as <- _.
    apply bind_ok_run in H as (s7 & t & H7 & H). injection H7 as <- _. injection H as <- <-.
    apply IH in He as (ps & ms & Hp & Hm & Hf); [|].
    + exists ps, ms. cbn in *. by subst.
    + unfold placed. destruct (path ++ _) eqn:Ep; [by destruct path|]. exists v. by rewrite (keyed _ _ Hv).
Qed.

Lemma expand_traced fuel w path stack s s' ns es :
  placed w path → expand root available fuel w path stack s = (s', Ok (ns, es)) → traces s s' [] ns.
Proof.
  revert w path stack s s' ns es. induction fuel as [|fuel IH]; intros w path stack s s' ns es Hw; cbn [expand];
    (destruct (MAX_COMPOSITE_DEPTH <? length stack)%nat; [done|]); [done|].
  intros H. apply bind_ok_run in H as (s1 & [[rs ns1] es1] & H1 & H).
  apply bind_ok_run in H as (s2 & es' & H2%expand_edges_provenance & H). injection H as <- <- <-.
  eapply traces_trans; [|by apply traces_none].
  assert (∀ nodes acc s s1 acc', nodes ⊆ wf_nodes w →
    fold_eff (expand_step root available (expand root available fuel) w path stack) acc nodes s = (s1, Ok acc') → traces s s1 acc.1.2 acc'.1.2) as Hfold.
  { clear H1. intros nodes. induction nodes as [|n nodes IHn]; intros acc t t1 acc' Hsub H1; cbn in H1.
    - injection H1 as <- <-. by apply traces_none.
    - apply bind_ok_run in H1 as (t2 & acc2 & Hs & H1). eapply traces_trans.
      + eapply step_traced; [exact IH|exact Hw| |exact Hs]. apply Hsub. by left.
      + eapply IHn; [|exact H1]. intros x Hx. apply Hsub. by right. }
  exact (Hfold _ ([], [], []) _ _ (_, _, _) (reflexivity _) H1).
Qed.
End Runs.

(** The nodes of a parsed value *)
Lemma node_value_read n m :
  workflowNodeSchema (node_value n) = Some m → nd_id m = nd_id n ∧ nd_type m = trim (nd_type n) ∧ nd_version m = nd_version n.
Proof.
  unfold workflowNodeSchema, node_value. destruct n as [id t ver c]. cbn [nd_id nd_type nd_version nd_config].
  read_strict. read_fields. intros H. inv_some. injection H as <-. cbn [nd_id nd_type nd_version].
  split_and!.
  - match goal with H : p_id _ = Some _ |- _ => unfold p_id, z_id in H; cbn in H; destruct (is_definition_id _) in H; [|done]; by injection H as <- end.
  - match goal with H : as_text (z_trim _ _) = Some _ |- _ => unfold z_trim in H; cbn in H; destruct (_ && _) in H; [|done]; by injection H as <- end.
  - match goal with H : z_int_in _ _ _ = Some _ |- _ => cbn in H; destruct (_ && _) in H; [|done]; by injection H as <- end.
Qed.
Lemma shape_value_nodes w0 w :
  workflow_shape (workflow_value w0) = Some w → Forall2 (λ n m, workflowNodeSchema (node_value n) = Some m) (wf_nodes w0) (wf_nodes w).
Proof.
  destruct w0 as [id name descr template exposable nodes edges steps]. unfold workflow_shape, workflow_value.
  cbn [wf_id wf_name wf_description wf_runInputTemplate wf_exposableAsBlock wf_nodes wf_edges wf_maxStepExecutions].
  remember (map node_value nodes) as ns eqn:Hns. generalize (map edge_value edges). intros es.
  destruct template as [t|], exposable as [b|]; cbn [fmap option_fmap option_map opt_entry app]; read_strict; read_fields;
    intros H; inv_some; injection H as <-; cbn [wf_nodes];
    match goal with H : z_array_of _ _ workflowNodeSchema _ = Some _ |- _ => unfold z_array_of in H; destruct (_ && _) in H; [|done];
      apply mapM_Some_1 in H; subst ns; by apply (proj1 (Forall2_fmap_l node_value _ _ _)) in H end.
Qed.

Lemma standard_trimmed b : b ∈ standard_blocks → trim (block_type b) = block_type b.
Proof.
  intros Hb. assert (forallb (λ b, str_eqb (trim (block_type b)) (block_type b)) standard_blocks = true) as H by (by vm_compute).
  rewrite forallb_true_elem in H. by apply str_eqb_eq, H.
Qed.

Lemma Forall2_impl_in {A B} (P Q : A → B → Prop) l k :
  Forall2 P l k → (∀ a b, a ∈ l → P a b → Q a b) → Forall2 Q l k.
Proof.
  induction 1 as [|a b l k Hab H IH]; intros HPQ; constructor; [apply HPQ; [by left|done]|]. apply IH. intros x y Hx. apply HPQ. by right.
Qed.

Section Composed.
Context `{L : Libs}.

Lemma composed_inv root versions w c :
  composeVersionedWorkflowV2 root versions = Ok (w, c) →
  ∃ s nodes edges,
    expand root (map_of (map (λ v, (wf_id (vs_definition v), v)) versions)) (S MAX_COMPOSITE_DEPTH) root [] [wf_id root]
      (ComposeState [] [] []) = (s, Ok (nodes, edges)) ∧
    workflowDefinitionV2Schema (workflow_value w) = Ok w ∧
    Forall2 (λ n m, nd_id m = nd_id n ∧ nd_type m = nd_type n ∧ nd_version m = nd_version n ∧ nd_type n ≠ t_subworkflow) nodes (wf_nodes w) ∧
    workflowCompositionSnapshotSchema (Composition (sort_list dependency_le (map snd (cs_used s))) (cs_provenance s)) = Ok c.
Proof.
  unfold composeVersionedWorkflowV2. cbv zeta. destruct (expand _ _ _ _ _ _ _) as [s r] eqn:Ex.
  intros ([nodes edges] & -> & H)%outcome_bind_ok. destruct (_ || _); [done|]. destruct (negb _); [done|].
  apply outcome_bind_ok in H as (w' & Hw & H). apply outcome_bind_ok in H as (c' & Hc & H). injection H as -> ->.
  exists s, nodes, edges. apply schema_ok in Hw as [Hs Ha]. split_and!; [done| | |done].
  - apply schema_ok. split; [by eapply workflow_back|done].
  - pose proof (expand_primitive _ _ _ _ _ _ _ _ _ _ Ex) as Hp. rewrite Forall_forall in Hp.
    eapply Forall2_impl_in; [exact (shape_value_nodes _ _ Hs)|]. cbn [wf_nodes]. intros n m Hn (Hi & Ht & Hv)%node_value_read.
    destruct (Hp n Hn) as [[b (Hb & Hbt & _)%resolve_block] Hsub]. by rewrite Hbt, (standard_trimmed b Hb), <-Hbt in Ht.
Qed.
End Composed.
