(* ===== verification/WorkflowComposed.v ===== *)
(** * Composition of reusable workflows: what a composition guarantees

    The theorems on [composeVersionedWorkflowV2] and on the check of an update
    of a reusable workflow, from the lemmas on runs of [expand]. *)

From stdpp Require Import relations.
From S2P Require Import Prelude JsString Regex Encoding Json Layout Libs Contract GithubClient GraphSearch WorkflowBlocks WorkflowGraph WorkflowPlan WorkflowCompose WorkflowGraphFacts WorkflowShape TarjanFacts WorkflowPlanFacts WorkflowAccepted WorkflowCompile WorkflowComposeFacts.

(** ** The available versions *)

(** The version an id resolves to: the last of the list *)
Definition latest (versions : list VersionedWorkflowDefinition) (id : str) : option VersionedWorkflowDefinition :=
  assoc id (map_of (map (λ v, (wf_id (vs_definition v), v)) versions)).

Lemma elem_map_of_pair {A} (l : list (str * A)) x : x ∈ map_of l → x ∈ l.
Proof.
  assert (∀ m, x ∈ foldl (λ m kv, obj_set kv.1 kv.2 m) m l → x ∈ m ∨ x ∈ l) as H.
  { induction l as [|[k v] l IH]; cbn; [auto|]. intros m [[->|H]%elem_obj_set|H]%IH; auto; [right; by left|right; by right]. }
  intros Hx. destruct (H [] Hx) as [[]%elem_of_nil|]; done.
Qed.
Lemma latest_spec versions id v : latest versions id = Some v → v ∈ versions ∧ wf_id (vs_definition v) = id.
Proof.
  intros H%assoc_elem%elem_map_of_pair. apply list_elem_of_fmap in H as (u & [= -> ->] & Hu). done.
Qed.

(** ** The snapshot *)

Lemma dedup_from_length {A} `{!EqDecision A} (seen l : list A) : length (dedup_from seen l) ≤ length l.
Proof. revert seen. induction l as [|x l IH]; intros seen; cbn; [done|]. case_decide; cbn; [etrans; [apply IH|]|pose proof (IH (x :: seen))]; lia. Qed.
Lemma dedup_length_nodup {A} `{!EqDecision A} (l : list A) : length (dedup l) = length l → NoDup l.
Proof.
  unfold dedup. intros H. enough (∀ seen, length (dedup_from seen l) = length l → NoDup l ∧ ∀ x, x ∈ l → x ∉ seen) as H' by by apply (H' []).
  clear H. induction l as [|x l IH]; intros seen; cbn; [intros _; split; [constructor|by intros x ?%elem_of_nil]|].
  case_decide as Hx; cbn; intros H; [pose proof (dedup_from_length seen l); lia|].
  destruct (IH (x :: seen)) as [Hnd Hs]; [lia|]. split; [constructor; [|done]; intros Hin; by apply (Hs x Hin); left|].
  intros y [->|Hy]%elem_of_cons; [done|]. intros Hin. apply (Hs y Hy). by right.
Qed.

Lemma snapshot_inv c0 c :
  workflowCompositionSnapshotSchema c0 = Ok c →
  Forall2 (λ d d', parse_dependency d = Ok d') (co_dependencies c0) (co_dependencies c) ∧
  co_nodes c = map trim_provenance (co_nodes c0) ∧ NoDup (map dp_workflowId (co_dependencies c)) ∧
  NoDup (map pv_executionNodeId (co_nodes c)).
Proof.
  unfold workflowCompositionSnapshotSchema. cbv zeta. destruct (existsb _ _); [done|]. destruct (_ && _); [|done].
  intros (ds & Hds%outcome_mapM_ok & H)%outcome_bind_ok. destruct (distinct_issues _) eqn:Ei; [|done]. injection H as <-.
  cbn [co_dependencies co_nodes] in *. split_and!; [done..| |];
    apply dedup_length_nodup; unfold distinct_issues, issue_if in Ei; cbn [co_dependencies co_nodes] in Ei;
    rewrite length_map; apply Nat.eqb_eq;
    apply app_eq_nil in Ei as [E1 E2]; repeat (case_match; try done); by apply negb_false_iff.
Qed.
Lemma parse_dependency_inv d d' :
  parse_dependency d = Ok d' →
  dp_workflowId d' = dp_workflowId d ∧ dp_revision d' = dp_revision d ∧ dp_dependencyWorkflowIds d' = dp_dependencyWorkflowIds d ∧
  workflowDefinitionV2Schema (workflow_value (dp_definition d)) = Ok (dp_definition d').
Proof. intros (w & Hw & H)%outcome_bind_ok. destruct (dependency_ok d); [|done]. by injection H as <-. Qed.

(** A node refers to at most one workflow. *)
Lemma references_single n r id : node_references n = Ok r → id ∈ workflowIds r → invokes n id.
Proof.
  intros H Hid. exists r. unfold node_references, references in H.
  destruct (registry_resolve workflowBlockRegistry (nd_type n) (nd_version n)) as [b|[]] eqn:Eb; try done. cbn in H.
  destruct (block_schema b (nd_config n)) as [c|] eqn:Ec; [|done]. injection H as <-.
  exists []. split; [unfold node_references, references; rewrite Eb; cbn; by rewrite Ec|].
  apply resolve_block in Eb as (Hb & _). unfold standard_blocks in Hb. rewrite !elem_of_cons, elem_of_nil in Hb.
  destruct Hb as [->|[->|[->|[->|[->|[->|[->|[->|[]]]]]]]]]; cbn in Hid |- *; try by apply elem_of_nil in Hid.
  unfold text_field in *. destruct c; try by apply elem_of_nil in Hid. destruct (field _ _); try by apply elem_of_nil in Hid.
  by apply list_elem_of_singleton in Hid as ->.
Qed.

Lemma Forall2_elem_r {A B} (P : A → B → Prop) l k b : Forall2 P l k → b ∈ k → ∃ a, a ∈ l ∧ P a b.
Proof. intros H (i & Hi)%list_elem_of_lookup. destruct (Forall2_lookup_r _ _ _ _ _ H Hi) as (a & Ha & HP). eauto using list_elem_of_lookup_2. Qed.
Lemma Forall2_elem_l {A B} (P : A → B → Prop) l k a : Forall2 P l k → a ∈ l → ∃ b, b ∈ k ∧ P a b.
Proof. intros H (i & Hi)%list_elem_of_lookup. destruct (Forall2_lookup_l _ _ _ _ _ H Hi) as (b & Hb & HP). eauto using list_elem_of_lookup_2. Qed.

Lemma subworkflow_references_elem nodes ids id :
  workflowSubworkflowReferences nodes = Ok ids → id ∈ ids ↔ ∃ n r, n ∈ nodes ∧ node_references n = Ok r ∧ id ∈ workflowIds r.
Proof.
  unfold workflowSubworkflowReferences. destruct (mapM node_references nodes) as [rs|] eqn:E; [|done]. cbn. intros [= <-].
  apply outcome_mapM_ok in E. rewrite list_elem_of_In, in_flat_map. split.
  - intros (r & Hr%list_elem_of_In & Hid%list_elem_of_In). destruct (Forall2_elem_r _ _ _ _ E Hr) as (n & Hn & Hnr). eauto.
  - intros (n & r & Hn & Hnr & Hid). destruct (Forall2_elem_l _ _ _ _ E Hn) as (r' & Hr' & Hnr'). exists r'.
    rewrite <-!list_elem_of_In. split; [done|]. congruence.
Qed.
Lemma existsb_no {A} (f : A → bool) l : (∀ x, x ∈ l → f x = false) → existsb f l = false.
Proof. intros H. induction l as [|x l IH]; cbn; [done|]. rewrite (H x) by (by left). apply IH. intros y Hy. apply H. by right. Qed.
Lemma plan_ids nodes configs :
  length nodes = length configs → map pn_id (zip_with plan_node_of nodes configs) = map nd_id nodes.
Proof.
  revert configs. induction nodes as [|n nodes IH]; intros [|c configs] Hl; try done. cbn. rewrite IH by (by injection Hl). f_equal.
  unfold plan_node_of, agent_v1, agent_v2. by repeat case_match.
Qed.

Section Composition.
Context `{L : Libs}.
Variables (root w : workflow) (versions : list VersionedWorkflowDefinition) (c : composition).
Hypothesis Hcomposed : composeVersionedWorkflowV2 root versions = Ok (w, c).

Definition has_dependency (id : str) : Prop := id ∈ map dp_workflowId (co_dependencies c).

(** The snapshot's dependencies are the recorded ones: each is a sound entry,
    everything it invokes is there, and so is what the root invokes. *)
Lemma frozen_dependencies :
  (∀ d, d ∈ co_dependencies c →
     ∃ v, latest versions (dp_workflowId d) = Some v ∧ wf_exposableAsBlock (vs_definition v) = Some true ∧
          dp_revision d = vs_fileSha v ∧ workflowDefinitionV2Schema (workflow_value (vs_definition v)) = Ok (dp_definition d) ∧
          workflowSubworkflowReferences (wf_nodes (vs_definition v)) = Ok (dp_dependencyWorkflowIds d) ∧
          ∀ n id, n ∈ wf_nodes (vs_definition v) → invokes n id → has_dependency id) ∧
  (∀ n id, n ∈ wf_nodes root → invokes n id → has_dependency id).
Proof.
  apply composed_inv in Hcomposed as (s & nodes & edges & Hx & _ & _ & Hc). apply expand_grows in Hx as [[_ Hs Hcm] Hroot].
  apply snapshot_inv in Hc as (Hf & _). cbn [co_dependencies] in Hf.
  assert (∀ id d, (id, d) ∈ cs_used s → sound_entry (map_of (map (λ v, (wf_id (vs_definition v), v)) versions)) id d) as Hsound.
  { intros id d Hd. by destruct (Hs id d Hd) as [[]%elem_of_nil|]. }
  assert (∀ id, recorded s id → has_dependency id) as Hrec.
  { intros id ([id' d] & -> & Hd)%list_elem_of_fmap. destruct (Hsound _ _ Hd) as (v & _ & _ & Hid & _).
    destruct (Forall2_elem_l _ _ _ d Hf) as (d' & Hd' & (E & _)%parse_dependency_inv);
      [rewrite sort_list_perm; apply list_elem_of_fmap; by exists (id', d)|].
    apply list_elem_of_fmap. exists d'. cbn. by rewrite E. }
  split; [|intros n id Hn Hi; by eapply Hrec, Hroot].
  intros d' Hd'. destruct (Forall2_elem_r _ _ _ _ Hf Hd') as (d & Hd & (E1 & E2 & E3 & E4)%parse_dependency_inv).
  rewrite sort_list_perm in Hd. apply list_elem_of_fmap in Hd as ([id d0] & -> & Hd). cbn [snd] in *.
  destruct (Hsound _ _ Hd) as (v & Hv & Hx & Hid & Hr & Hdef & Hrefs). exists v.
  rewrite Hdef in E4. rewrite E1, E2, E3, Hid. split_and!; try done.
  intros n x Hn Hi. apply Hrec. destruct (Hcm id) as [[]%elem_of_nil|Hc]; [apply list_elem_of_fmap; by exists (id, d0)|].
  by eapply Hc.
Qed.

Lemma executionId_trim path wid n : executionId (map trim_segment path) wid n = executionId path wid n.
Proof.
  unfold executionId. destruct path as [|s path]; [done|]. cbn [map]. unfold scope_key. f_equal. f_equal. f_equal. f_equal.
  cbn. f_equal. f_equal. induction path as [|t path IH]; cbn; [done|]. by rewrite IH.
Qed.

(** The provenance records are those of the composed nodes, in order. *)
Definition origin (p : node_provenance) (m : wf_node) : Prop :=
  ∃ v n, match pv_invocationPath p with [] => v = root | _ => ∃ u, latest versions (wf_id v) = Some u ∧ v = vs_definition u end ∧
         n ∈ wf_nodes v ∧ pv_workflowId p = wf_id v ∧ pv_semanticNodeId p = nd_id n ∧ nd_type m = nd_type n ∧
         nd_version m = nd_version n ∧ pv_executionNodeId p = nd_id m ∧
         nd_id m = executionId (pv_invocationPath p) (wf_id v) (nd_id n).
Lemma traced_nodes : Forall2 origin (co_nodes c) (wf_nodes w) ∧ NoDup (map nd_id (wf_nodes w)) ∧ Forall (λ m, nd_type m ≠ t_subworkflow) (wf_nodes w).
Proof.
  apply composed_inv in Hcomposed as (s & nodes & edges & Hx & _ & Hn & Hc). apply snapshot_inv in Hc as (_ & -> & _ & Hnd).
  apply expand_traced in Hx as (ps & ms & Hp & Hm & Hf); [|intros id v Hv; by destruct (latest_spec _ _ _ Hv)|done].
  cbn in Hp, Hm. cbn [co_nodes] in *. subst nodes. rewrite Hp in Hnd |- *.
  assert (Forall2 origin (map trim_provenance ps) (wf_nodes w)) as Ho.
  { apply (proj2 (Forall2_fmap_l trim_provenance _ _ _)). clear -Hf Hn. revert Hn. generalize (wf_nodes w). intros l Hn. revert l Hn.
    induction Hf as [|p m ps ms (v & Hpl & n & Hin & E1 & E2 & E3 & E4 & E5 & E6) Hf IH]; intros l Hn; [by apply Forall2_nil_inv_l in Hn as ->|].
    apply Forall2_cons_inv_l in Hn as (m' & l' & (F1 & F2 & F3 & _) & Hn & ->). constructor; [|by apply IH].
    exists v, n. cbn. rewrite executionId_trim, F1, F2, F3. split_and!; try done. by destruct (pv_invocationPath p). }
  split_and!; [done| |].
  - replace (map nd_id (wf_nodes w)) with (map pv_executionNodeId (map trim_provenance ps)); [done|].
    clear -Ho. induction Ho as [|p m ps' ms (v & n & _ & _ & _ & _ & _ & _ & E & _) _ IH]; cbn; congruence.
  - clear -Hn. induction Hn as [|n m l k (_ & E & _ & H) _ IH]; constructor; congruence.
Qed.
End Composition.


(** C28: Every node of a composed workflow is primitive, has its own id, and is
    traced: the provenance lists, in the same order, the workflow and the
    node each execution node copies (type and version kept), the root's for an
    empty path and an available version's otherwise, and the execution id is
    the one derived from that path. *)
Theorem composition_traced `{L : Libs} root versions w c
    (Hcomposed : composeVersionedWorkflowV2 root versions = Ok (w, c)) :
  Forall2 (origin root versions) (co_nodes c) (wf_nodes w) ∧ NoDup (map nd_id (wf_nodes w)) ∧
  Forall (λ m, nd_type m ≠ t_subworkflow) (wf_nodes w).
Proof. exact (traced_nodes _ _ _ _ Hcomposed). Qed.

(** A composed workflow always compiles, unless an agent is missing: when
    every agent it refers to is available the compiler returns a plan with the
    composed nodes and limit, and otherwise it names the first missing agent. *)
Theorem composition_compiles `{L : Libs} root versions w c agents
    (Hcomposed : composeVersionedWorkflowV2 root versions = Ok (w, c)) :
  ∃ refs, workflowAgentReferences (wf_nodes w) = Ok refs ∧
    match find_list (λ a, negb (member a agents)) refs with
    | Some a => compileWorkflowV2ExecutionPlan (workflow_value w) agents = Throw (WfError (js "missing_agent:" ++ a))
    | None => ∃ plan, compileWorkflowV2ExecutionPlan (workflow_value w) agents = Ok plan ∧
                map pn_id (pl_nodes plan) = map nd_id (wf_nodes w) ∧ pl_maxStepExecutions plan = wf_maxStepExecutions w
    end.
Proof.
  destruct (traced_nodes _ _ _ _ Hcomposed) as (_ & _ & Hsub). apply composed_inv in Hcomposed as (s & nodes & edges & _ & Hw & _ & _).
  destruct (compile_result _ _ agents Hw) as (refs & configs & entry & t & Hr & Hf & _ & _ & Hc). exists refs. split; [done|].
  destruct (find_list _ refs); [done|]. rewrite (existsb_no (λ n, str_eqb (nd_type n) t_subworkflow)) in Hc.
  - eexists. split; [exact Hc|]. split; [|done]. cbn [pl_nodes]. by eapply plan_ids, Forall2_length.
  - intros n Hn. rewrite Forall_forall in Hsub. apply not_true_is_false. intros E%str_eqb_eq. by apply (Hsub n Hn).
Qed.

(** ** Changing a reusable workflow *)

Section Update.
Variables (cur : str) (candidates : list workflow).

(** The definition [x] refers to the workflow [y]. *)
Definition refers (x y : str) : Prop :=
  ∃ d ids, d ∈ candidates ∧ wf_id d = x ∧ workflowSubworkflowReferences (wf_nodes d) = Ok ids ∧ y ∈ ids.
Definition touched (x : str) : Prop := rtc refers x cur.

Hypothesis readable : ∀ d, d ∈ candidates → ∃ ids, workflowSubworkflowReferences (wf_nodes d) = Ok ids.

(** One pass adds touched workflows only, each once, and stops growing when
    the set is closed. *)
Lemma pass_spec cs affected :
  cs ⊆ candidates → NoDup affected → Forall touched affected →
  ∃ added, affected_pass affected cs = Ok (affected ++ added) ∧ NoDup (affected ++ added) ∧ Forall touched (affected ++ added) ∧
    added ⊆ map wf_id cs ∧
    (added = [] → ∀ d ids y, d ∈ cs → workflowSubworkflowReferences (wf_nodes d) = Ok ids → y ∈ ids → y ∈ affected → wf_id d ∈ affected).
Proof.
  revert affected. induction cs as [|d cs IH]; intros affected Hsub Hnd Ht; cbn [affected_pass].
  { exists []. rewrite app_nil_r. split_and!; [done..|]. intros _ d ids y []%elem_of_nil. }
  assert (cs ⊆ candidates) as Hsub' by set_solver.
  destruct (member (wf_id d) affected) eqn:Em.
  { destruct (IH affected Hsub' Hnd Ht) as (added & H1 & H2 & H3 & H4 & H5). exists added. split_and!; [done..|set_solver|].
    intros E d' ids y [->|Hd]%elem_of_cons Hids Hy Hya; [by apply member_true|by eapply H5]. }
  destruct (readable d) as [ids Hids]; [set_solver|]. unfold depends_on. rewrite Hids. cbn [outcome_map mbind outcome_bind].
  destruct (existsb (λ id, member id affected) ids) eqn:Ex.
  - apply existsb_exists in Ex as (y & Hy%list_elem_of_In & Hya%member_true).
    assert (wf_id d ∉ affected) as Hn by (intros ?%member_true; congruence).
    assert (touched (wf_id d)) as Htd.
    { rewrite Forall_forall in Ht. eapply rtc_l; [|by apply Ht]. exists d, ids. split_and!; [set_solver|done..]. }
    destruct (IH (affected ++ [wf_id d]) Hsub') as (added & H1 & H2 & H3 & H4 & H5).
    { apply NoDup_app. split_and!; [done| |apply NoDup_singleton]. intros x Hx ->%list_elem_of_singleton. done. }
    { apply Forall_app. by split; [|constructor]. }
    exists ([wf_id d] ++ added). rewrite (assoc_L (++)). split_and!; [done..|set_solver|done].
  - destruct (IH affected Hsub' Hnd Ht) as (added & H1 & H2 & H3 & H4 & H5). exists added. split_and!; [done..|set_solver|].
    intros E d' ids' y [->|Hd]%elem_of_cons Hids' Hy Hya; [|by eapply H5]. exfalso.
    assert (existsb (λ id, member id affected) ids = true); [|congruence]. apply existsb_exists. exists y.
    rewrite <-list_elem_of_In. split; [congruence|by apply member_true].
Qed.

Lemma closed_touched affected :
  cur ∈ affected → Forall touched affected →
  (∀ d ids y, d ∈ candidates → workflowSubworkflowReferences (wf_nodes d) = Ok ids → y ∈ ids → y ∈ affected → wf_id d ∈ affected) →
  ∀ x, x ∈ affected ↔ touched x.
Proof.
  intros Hc Ht Hcl x. split; [by rewrite Forall_forall in Ht; auto|]. unfold touched. intros H.
  remember cur as z eqn:Ez. induction H as [|x y z (d & ids & Hd & <- & Hids & Hy) _ IH]; [by subst|]. eapply Hcl; eauto.
Qed.

(** Enough passes: each one but the last adds an id of the candidates. *)
Lemma affected_spec fuel affected :
  cur ∈ affected → NoDup affected → Forall touched affected → affected ⊆ cur :: map wf_id candidates →
  length candidates + 2 ≤ fuel + length affected →
  ∃ result, affected_workflows fuel affected candidates = Ok result ∧ ∀ x, x ∈ result ↔ touched x.
Proof.
  revert affected. induction fuel as [|fuel IH]; intros affected Hc Hnd Ht Hsub Hl.
  { exfalso. pose proof (NoDup_submseteq _ _ Hnd Hsub) as Hle%submseteq_length. cbn in Hle. rewrite length_map in Hle. lia. }
  cbn [affected_workflows]. destruct (pass_spec candidates affected) as (added & -> & H2 & H3 & H4 & H5); [done..|].
  cbn [mbind outcome_bind]. rewrite length_app. destruct (Nat.eqb_spec (length affected + length added) (length affected)) as [E|E].
  - destruct added; [|cbn in E; lia]. rewrite app_nil_r. exists affected. split; [done|]. exact (closed_touched affected Hc Ht (H5 eq_refl)).
  - apply IH; [set_solver|done|done|set_solver|]. rewrite length_app. lia.
Qed.
End Update.

Section Compatible.
Context `{L : Libs}.

Lemma check_dependents_spec cur affected all cs :
  check_dependents cur affected all cs =
  if forallb (λ d, str_eqb (wf_id d) cur || negb (member (wf_id d) affected) || is_ok (validateAndComposeWorkflow d all)) cs
  then Ok () else Throw (WfError (js "workflow_dependency_incompatible")).
Proof.
  induction cs as [|d cs IH]; [done|]. cbn [check_dependents forallb]. destruct (str_eqb _ _ || _); [exact IH|].
  by destruct (validateAndComposeWorkflow d all).
Qed.
End Compatible.

(** C29: The check of an update of a reusable workflow is exact: among the
    definitions with the update applied, it passes when every workflow that
    refers to the updated one, directly or through others, still composes, and
    fails closed with [workflow_dependency_incompatible] otherwise; its loop
    over the dependents ends within one pass more than there are definitions. *)
Theorem update_compatible `{L : Libs} current proposed definitions
    (candidates := map (λ d, if str_eqb (wf_id d) (wf_id current) then proposed else d) definitions)
    (Hread : ∀ d, d ∈ candidates → ∃ ids, workflowSubworkflowReferences (wf_nodes d) = Ok ids) :
  let fine := ∀ d, d ∈ candidates → wf_id d ≠ wf_id current → rtc (refers candidates) (wf_id d) (wf_id current) →
                is_ok (validateAndComposeWorkflow d candidates) = true in
  (fine ∧ assertReusableWorkflowUpdateCompatible current proposed definitions = Ok ()) ∨
  (¬ fine ∧ assertReusableWorkflowUpdateCompatible current proposed definitions =
              Throw (WfError (js "workflow_dependency_incompatible"))).
Proof.
  intros fine. unfold assertReusableWorkflowUpdateCompatible. fold candidates. cbv zeta.
  destruct (affected_spec (wf_id current) candidates Hread (S (length candidates)) [wf_id current]) as (affected & -> & Ha).
  { by left. } { apply NoDup_singleton. } { by repeat constructor. } { set_solver. } { cbn. lia. }
  cbn [mbind outcome_bind]. rewrite check_dependents_spec.
  destruct (forallb _ candidates) eqn:Ef; [left|right]; (split; [|done]).
  - rewrite forallb_true_elem in Ef. intros d Hd Hne Ht. specialize (Ef d Hd).
    apply orb_true_iff in Ef as [[E%str_eqb_eq|E]%orb_true_iff|]; [done| |done].
    apply negb_true_iff in E. apply Ha, member_true in Ht. congruence.
  - intros Hf. apply not_true_iff_false in Ef. apply Ef, forallb_true_elem. intros d Hd.
    destruct (str_eqb (wf_id d) (wf_id current)) eqn:E1; [done|]. destruct (member (wf_id d) affected) eqn:E2; [|done].
    cbn. apply Hf; [done| |by apply Ha, member_true]. intros E. by rewrite E, str_eqb_refl in E1.
Qed.
