(* ===== verification/WorkflowExamples.v ===== *)
(** * Workflow definitions: examples

    Witnesses of the theorems on accepted definitions, at a workflow with a
    loop, a fan-out, a conversation and a publication; and runs that show
    where the validator accepts, or fails on, what its messages rule out. *)

From stdpp Require Import relations.
From S2P Require Import Prelude JsString Json Layout Libs Contract GithubClient GraphSearch WorkflowBlocks WorkflowGraph WorkflowPlan WorkflowGraphFacts WorkflowShape TarjanFacts WorkflowPlanFacts WorkflowAccepted WorkflowCompile.

(** ** JSON definitions *)

Definition node_js (id type : string) (version : Z) (config : list (str * jsval)) : jsval :=
  JObj [(js "id", JStr (js id)); (js "blockType", JStr (js type)); (js "blockVersion", JNum (NInt version));
        (js "config", JObj config)].
Definition agent_js (id : string) : jsval := node_js id "agent" 1 [(js "agentId", JStr (js "writer"))].
Definition condition_js (id : string) : jsval :=
  node_js id "condition" 1 [(js "operator", JStr (js "contains")); (js "value", JStr (js "approved"))].
Definition join_js (id : string) : jsval := node_js id "join" 1 [].
Definition edge_js (id source target : string) : jsval :=
  JObj [(js "id", JStr (js id)); (js "source", JStr (js source)); (js "target", JStr (js target))].
Definition route_js (id source p target : string) : jsval :=
  JObj [(js "id", JStr (js id)); (js "source", JStr (js source)); (js "sourcePort", JStr (js p));
        (js "target", JStr (js target))].
Definition workflow_js (nodes edges : list jsval) : jsval :=
  JObj [(js "schemaVersion", JNum (NInt 2)); (js "id", JStr (js "sample")); (js "name", JStr (js "Sample"));
        (js "description", JStr []); (js "status", JStr (js "draft")); (js "nodes", JArr nodes); (js "edges", JArr edges);
        (js "limits", JObj [(js "maxStepExecutions", JNum (NInt 20))])].
Definition parsed (v : jsval) : workflow :=
  match workflowDefinitionV2Schema v with Ok w => w | Throw _ => Workflow [] [] [] None None [] [] 0 end.

(** A draft is reviewed until approved, then checked by two agents, completed
    in the draft's conversation and published. *)
Definition sample : jsval := workflow_js
  [agent_js "start";
   node_js "draft" "agent" 3 [(js "agentId", JStr (js "writer")); (js "context", JObj [(js "publishOutput", JBool true)])];
   condition_js "review"; agent_js "split"; agent_js "check-a"; agent_js "check-b"; join_js "merge";
   node_js "final" "agent" 3
     [(js "agentId", JStr (js "editor"));
      (js "context", JObj [(js "includeNodeOutputs", JArr [JStr (js "draft")])]);
      (js "conversation", JObj [(js "sourceNodeId", JStr (js "draft"))])];
   node_js "publish" "publish-github-pr" 1
     [(js "sourceNodeId", JStr (js "final")); (js "title", JStr (js "Change")); (js "body", JStr []); (js "draft", JBool true)]]
  [edge_js "e1" "start" "draft"; edge_js "e2" "draft" "review"; route_js "e3" "review" "false" "draft";
   route_js "e4" "review" "true" "split"; edge_js "e5" "split" "check-a"; edge_js "e6" "split" "check-b";
   edge_js "e7" "check-a" "merge"; edge_js "e8" "check-b" "merge"; edge_js "e9" "merge" "final";
   edge_js "e10" "final" "publish"].

(** ** Witnesses *)

Lemma workflow_connected_witness :
  workflowDefinitionV2Schema sample = Ok (parsed sample) ∧
  graphEntryNode (wf_nodes (parsed sample)) (wf_edges (parsed sample)) = Ok (js "start") ∧
  ∃ entry terminal, graphEntryNode (wf_nodes (parsed sample)) (wf_edges (parsed sample)) = Ok entry ∧
    ∀ n, n ∈ map nd_id (wf_nodes (parsed sample)) →
      rtc (edge_from_to (parsed sample)) entry n ∧ rtc (edge_from_to (parsed sample)) n terminal.
Proof.
  split; [vm_compute; reflexivity|]. split; [vm_compute; reflexivity|].
  destruct (workflow_connected sample (parsed sample)) as (_ & _ & entry & terminal & H1 & H2 & _);
    [vm_compute; reflexivity|].
  exists entry, terminal. exact (conj H1 H2).
Defined.

Definition node_named (id : string) : wf_node :=
  default (Node [] [] 0 JNull) (find_list (λ n, str_eqb (nd_id n) (js id)) (wf_nodes (parsed sample))).


Lemma references_resolved_witness :
  continues (parsed sample) (js "final") (js "draft") ∧ typed (parsed sample) t_agent (js "draft") ∧
  rtc (flows (wf_nodes (parsed sample)) (wf_edges (parsed sample))) (js "draft") (js "final").
Proof.
  assert (continues (parsed sample) (js "final") (js "draft")) as Hc.
  { exists (node_named "final"), [(js "sourceNodeId", JStr (js "draft"))].
    split; [apply (list_elem_of_lookup_2 _ 7); vm_compute; reflexivity|]. repeat split; vm_compute; reflexivity. }
  split; [exact Hc|].
  destruct (references_resolved sample (parsed sample)) as (_ & _ & _ & H & _); [vm_compute; reflexivity|].
  destruct (H _ _ Hc) as (H1 & _ & H2). exact (conj H1 H2).
Defined.

Lemma edge_by_index w i a b :
  option_map (λ e, (ed_source e, ed_target e)) (wf_edges w !! i) = Some (a, b) → edge_from_to w a b.
Proof.
  destruct (wf_edges w !! i) as [e|] eqn:E; [|done]. intros [= <- <-]. exists e.
  split; [by eapply list_elem_of_lookup_2|done].
Qed.

Lemma cycles_controlled_witness :
  tc (edge_from_to (parsed sample)) (js "draft") (js "draft") ∧
  ∃ c d, typed (parsed sample) t_condition c ∧ rtc (edge_from_to (parsed sample)) (js "draft") c ∧
    edge_from_to (parsed sample) c d ∧ ¬ rtc (edge_from_to (parsed sample)) d (js "draft").
Proof.
  assert (tc (edge_from_to (parsed sample)) (js "draft") (js "draft")) as Hc.
  { eapply tc_l; [apply (edge_by_index _ 1 _ (js "review")); vm_compute; reflexivity|].
    apply tc_once, (edge_by_index _ 2). vm_compute. reflexivity. }
  split; [exact Hc|].
  destruct (cycles_controlled sample (parsed sample) (js "draft")) as (c & d & H1 & H2 & _ & H3 & H4);
    [vm_compute; reflexivity|exact Hc|].
  exists c, d. exact (conj H1 (conj H2 (conj H3 H4))).
Defined.

Definition plan_of (agents : list str) : execution_plan :=
  match compileWorkflowV2ExecutionPlan sample agents with Ok p => p | Throw _ => Plan [] [] [] [] 0 end.


Lemma runtime_plan_private_witness :
  genericWorkflowExecutionPlanSchema (plan_of [js "writer"; js "editor"]) = Ok (plan_of [js "writer"; js "editor"]) ∧
  ∃ p', projectExecutionPlanForRuntime (plan_of [js "writer"; js "editor"]) = Ok p' ∧
    Forall2 hidden (pl_nodes (plan_of [js "writer"; js "editor"])) (pl_nodes p').
Proof.
  split; [vm_compute; reflexivity|].
  destruct (runtime_plan_private (plan_of [js "writer"; js "editor"]) (plan_of [js "writer"; js "editor"])) as (p' & H1 & H2 & _);
    [vm_compute; reflexivity|].
  exists p'. exact (conj H1 H2).
Defined.

(** ** What the validator lets through *)

Definition unjoined : jsval := workflow_js
  [agent_js "e"; condition_js "c"; agent_js "x"; agent_js "y"; agent_js "n"; agent_js "a"; agent_js "b"; agent_js "o";
   agent_js "p1"; agent_js "p2"; join_js "j"; agent_js "t"]
  [edge_js "e1" "e" "c"; route_js "e2" "c" "true" "x"; route_js "e3" "c" "false" "y"; edge_js "e4" "x" "n";
   edge_js "e5" "y" "n"; edge_js "e6" "n" "a"; edge_js "e7" "n" "b"; edge_js "e8" "a" "o"; edge_js "e9" "b" "o";
   edge_js "e10" "o" "p1"; edge_js "e11" "o" "p2"; edge_js "e12" "p1" "j"; edge_js "e13" "p2" "j"; edge_js "e14" "j" "t"].

(** With a Condition upstream, two parallel branches of an agent (a and b, both
    successors of n) merge at an agent (o) that is not a Join, and the
    definition is accepted: the check for exclusive routes only asks that both
    routes of some Condition lead to a predecessor. *)
Theorem parallel_merge_accepted :
  workflowDefinitionV2Schema unjoined = Ok (parsed unjoined) ∧
  targets (graph_of (wf_nodes (parsed unjoined)) (wf_edges (parsed unjoined))) (js "n") = [js "a"; js "b"] ∧
  sources (graph_of (wf_nodes (parsed unjoined)) (wf_edges (parsed unjoined))) (js "o") = [js "a"; js "b"] ∧
  has_type (graph_of (wf_nodes (parsed unjoined)) (wf_edges (parsed unjoined))) t_agent (js "o") = true.
Proof. repeat split; vm_compute; reflexivity. Qed.

Definition unconditional : jsval := workflow_js
  [agent_js "e"; agent_js "n"; agent_js "a"; agent_js "b"; agent_js "o"; agent_js "p1"; agent_js "p2"; join_js "j";
   condition_js "c"; agent_js "t"]
  [edge_js "e1" "e" "n"; edge_js "e2" "n" "a"; edge_js "e3" "n" "b"; edge_js "e4" "a" "n"; edge_js "e5" "b" "o";
   edge_js "e6" "o" "p1"; edge_js "e7" "o" "p2"; edge_js "e8" "p1" "j"; edge_js "e9" "p2" "j"; edge_js "e10" "j" "c";
   route_js "e11" "c" "true" "n"; route_js "e12" "c" "false" "t"].

(** A cycle of two agents (n and a) without a Condition is accepted when its
    region has one elsewhere: the rule is checked per region, not per cycle. *)
Theorem cycle_without_condition_accepted :
  workflowDefinitionV2Schema unconditional = Ok (parsed unconditional) ∧
  js "a" ∈ targets (graph_of (wf_nodes (parsed unconditional)) (wf_edges (parsed unconditional))) (js "n") ∧
  targets (graph_of (wf_nodes (parsed unconditional)) (wf_edges (parsed unconditional))) (js "a") = [js "n"] ∧
  has_type (graph_of (wf_nodes (parsed unconditional)) (wf_edges (parsed unconditional))) t_agent (js "n") = true ∧
  has_type (graph_of (wf_nodes (parsed unconditional)) (wf_edges (parsed unconditional))) t_agent (js "a") = true.
Proof. split; [vm_compute; reflexivity|]. split; [eval_decide|]. repeat split; vm_compute; reflexivity. Qed.

(** A node without a configuration makes the schema throw a [TypeError]
    instead of reporting an issue: the graph checks read [config.context]
    (agents) and [config.sourceNodeId] (publications) of unvalidated nodes. *)
Theorem missing_config_throws :
  workflowDefinitionV2Schema
    (workflow_js [JObj [(js "id", JStr (js "a")); (js "blockType", JStr (js "agent")); (js "blockVersion", JNum (NInt 2))]] []) =
    Throw WfTypeError ∧
  workflowDefinitionV2Schema
    (workflow_js [agent_js "a"; JObj [(js "id", JStr (js "p")); (js "blockType", JStr (js "publish-github-pr"));
                                      (js "blockVersion", JNum (NInt 1)); (js "config", JNull)]] [edge_js "e" "a" "p"]) =
    Throw WfTypeError.
Proof. split; vm_compute; reflexivity. Qed.
