(* ===== verification/WorkflowComposeExamples.v ===== *)
(** * Composition of reusable workflows: examples

    Witnesses of the theorems on compositions, at a workflow that invokes a
    reusable one twice; and the composition of a reusable workflow that
    publishes, which fails. *)

From stdpp Require Import relations.
From S2P Require Import Prelude JsString Json Layout Libs Contract GithubClient GraphSearch WorkflowBlocks WorkflowGraph WorkflowPlan WorkflowCompose WorkflowGraphFacts WorkflowPlanFacts WorkflowAccepted WorkflowCompile WorkflowComposeFacts WorkflowComposed WorkflowExamples.

#[local] Existing Instance ToyLibs.toy.

Definition named_js (id name : string) (exposable : bool) (nodes edges : list jsval) : jsval :=
  JObj [(js "schemaVersion", JNum (NInt 2)); (js "id", JStr (js id)); (js "name", JStr (js name));
        (js "description", JStr []); (js "status", JStr (js "draft")); (js "exposableAsBlock", JBool exposable);
        (js "nodes", JArr nodes); (js "edges", JArr edges);
        (js "limits", JObj [(js "maxStepExecutions", JNum (NInt 20))])].
Definition call_js (id workflow : string) : jsval := node_js id "subworkflow" 1 [(js "workflowId", JStr (js workflow))].

Definition review_flow : workflow := parsed (named_js "review" "Review" true [agent_js "read"; agent_js "judge"] [edge_js "e1" "read" "judge"]).
Definition main_flow : workflow :=
  parsed (named_js "main" "Main" false [call_js "first" "review"; agent_js "fix"; call_js "second" "review"]
            [edge_js "e1" "first" "fix"; edge_js "e2" "fix" "second"]).
Definition stored : list VersionedWorkflowDefinition := [Versioned main_flow (js "sha-1"); Versioned review_flow (js "sha-2")].
Definition composed : workflow * composition :=
  match composeVersionedWorkflowV2 main_flow stored with Ok r => r | Throw _ => (main_flow, Composition [] []) end.


Lemma composition_traced_witness :
  composeVersionedWorkflowV2 main_flow stored = Ok (composed.1, composed.2) ∧ length (wf_nodes composed.1) = 5 ∧
  NoDup (map nd_id (wf_nodes composed.1)).
Proof.
  assert (composeVersionedWorkflowV2 main_flow stored = Ok (composed.1, composed.2)) as H by (vm_compute; reflexivity).
  split; [exact H|]. split; [vm_compute; reflexivity|]. destruct (composition_traced _ _ _ _ H) as (_ & Hn & _). exact Hn.
Defined.

Lemma composition_compiles_witness :
  composeVersionedWorkflowV2 main_flow stored = Ok (composed.1, composed.2) ∧
  compileWorkflowV2ExecutionPlan (workflow_value composed.1) [] = Throw (WfError (js "missing_agent:writer")) ∧
  is_ok (compileWorkflowV2ExecutionPlan (workflow_value composed.1) [js "writer"]) = true ∧
  ∃ refs, workflowAgentReferences (wf_nodes composed.1) = Ok refs.
Proof.
  assert (composeVersionedWorkflowV2 main_flow stored = Ok (composed.1, composed.2)) as H by (vm_compute; reflexivity).
  split; [exact H|]. split; [vm_compute; reflexivity|]. split; [vm_compute; reflexivity|].
  destruct (composition_compiles _ _ _ _ [] H) as (refs & Hr & _). exact (ex_intro _ refs Hr).
Defined.

(** The update that stops exposing the reusable workflow *)
Definition hidden_flow : workflow := parsed (named_js "review" "Review" false [agent_js "read"; agent_js "judge"] [edge_js "e1" "read" "judge"]).

Lemma update_compatible_witness :
  assertReusableWorkflowUpdateCompatible review_flow review_flow [main_flow; review_flow] = Ok () ∧
  assertReusableWorkflowUpdateCompatible review_flow hidden_flow [main_flow; review_flow] =
    Throw (WfError (js "workflow_dependency_incompatible")) ∧
  ¬ (∀ d, d ∈ [main_flow; hidden_flow] → wf_id d ≠ js "review" → rtc (refers [main_flow; hidden_flow]) (wf_id d) (js "review") →
       is_ok (validateAndComposeWorkflow d [main_flow; hidden_flow]) = true).
Proof.
  split; [vm_compute; reflexivity|].
  assert (assertReusableWorkflowUpdateCompatible review_flow hidden_flow [main_flow; review_flow] =
    Throw (WfError (js "workflow_dependency_incompatible"))) as H by (vm_compute; reflexivity).
  split; [exact H|].
  destruct (update_compatible review_flow hidden_flow [main_flow; review_flow]) as [[_ H']|[H' _]].
  - intros d Hd. exists (match workflowSubworkflowReferences (wf_nodes d) with Ok l => l | Throw _ => [] end).
    apply list_elem_of_In in Hd. destruct Hd as [<-|[<-|[]]]; vm_compute; reflexivity.
  - rewrite H in H'. discriminate H'.
  - exact H'.
Defined.

(** A reusable workflow that ends in a publication is accepted on its own and
    its terminal is one the composition admits, but no workflow can invoke it:
    the execution ids replace the nodes' ids while the publication's
    [sourceNodeId] is left as it was, so the composed graph is refused. *)
Definition publishing_flow : workflow :=
  parsed (named_js "release" "Release" true
            [agent_js "write";
             node_js "publish" "publish-github-pr" 1
               [(js "sourceNodeId", JStr (js "write")); (js "title", JStr (js "Change")); (js "body", JStr []); (js "draft", JBool true)]]
            [edge_js "e1" "write" "publish"]).
Definition caller_flow : workflow :=
  parsed (named_js "main" "Main" false [agent_js "plan"; call_js "release" "release"] [edge_js "e1" "plan" "release"]).
Theorem reusable_publication_refused :
  wf_id publishing_flow = js "release" ∧ wf_id caller_flow = js "main" ∧
  is_ok (composeVersionedWorkflowV2 publishing_flow []) = true ∧
  match composeVersionedWorkflowV2 caller_flow [Versioned publishing_flow (js "sha")] with
  | Throw (WfIssues issues) => negb (Nat.eqb (length issues) 0)
  | _ => false
  end = true.
Proof. repeat split; vm_compute; reflexivity. Qed.
