(* ===== verification/RunTables.v ===== *)
(** * Workflow runs: the tables and their statements

    The tables [workflow_runs], [workflow_step_attempts] and
    [workflow_approvals] (src/migrations/0003, 0012, 0013 and 0018) with the
    statements of [src/lib/workflow-d1-storage.ts] and
    [src/lib/workflow-approvals.ts] that change them, as values of
    [sql_write]: several workers share the tables, and a theorem for all
    sequences of statements is one for all interleavings of their calls. The
    columns that are never updated are kept decoded ([run_frozen]). *)

From S2P Require Import Prelude JsString Json Layout D1 WorkflowPlan.

(** ** Rows *)

Inductive RunStatus := Queued | Running | WaitingApproval | Cancelling | RunSucceeded | RunFailed | RunCancelled.
Inductive StepStatus := Pending | Starting | WaitingProvider | Succeeded | Failed | Cancelled.
Inductive CancellationResult := CCancelled | CPending | CAlreadyTerminal | CUnsupported | CSafeFailure.
Inductive WorkflowLaunchState := Unclaimed | Launching | Attached | LaunchFailed.
#[export] Instance RunStatus_eq_dec : EqDecision RunStatus.
Proof. solve_decision. Defined.
#[export] Instance StepStatus_eq_dec : EqDecision StepStatus.
Proof. solve_decision. Defined.
#[export] Instance CancellationResult_eq_dec : EqDecision CancellationResult.
Proof. solve_decision. Defined.
#[export] Instance WorkflowLaunchState_eq_dec : EqDecision WorkflowLaunchState.
Proof. solve_decision. Defined.

(** The columns written when a run is created; [rf_plan] is a plan with a
    version, [rf_agents] the id and the connection of each agent snapshot,
    [rf_connections] the management and the credential source of each connection. *)
Record run_frozen := RunFrozen {
  rf_id : str;
  rf_engine2 : bool;
  rf_plan : option execution_plan;
  rf_agents : list (str * (str * str));
  rf_connections : list (option str * option str);
  rf_initialInput : str;
  rf_clientIdempotencyKey : option str;
  rf_createdAt : str;
}.
Record launch_columns := LaunchColumns {
  la_state : WorkflowLaunchState;
  la_generation : Z;
  la_instance : option str;
  la_reserved : option str;
  la_failure : option str;
  la_attemptedAt : option str;
}.
Record result_columns := ResultColumns {
  re_finalOutput : option str;
  re_finalExternalUrl : option str;
  re_completedAt : option str;
  re_failureCode : option str;
  re_failureMessage : option str;
  re_diagnostics : option str;
}.
Record run_row := RunRow {
  rr_frozen : run_frozen;
  rr_status : RunStatus;
  rr_current : option str;
  rr_launch : launch_columns;
  rr_result : result_columns;
  rr_cancelRequestedAt : option str;
  rr_cancellation : option CancellationResult;
  rr_startedAt : option str;
  rr_updatedAt : str;
  rr_version : Z;
}.

Record attempt_key := AttemptKey { ak_run : str; ak_step : str; ak_iteration : Z; ak_attempt : Z }.
#[export] Instance attempt_key_eq_dec : EqDecision attempt_key.
Proof. solve_decision. Defined.
Record ConversationSourceIdentity := ConversationSource {
  so_runId : str;
  so_stepId : str;
  so_activationId : option str;
  so_iteration : Z;
  so_attempt : Z;
}.
#[export] Instance ConversationSource_eq_dec : EqDecision ConversationSourceIdentity.
Proof. solve_decision. Defined.
Record step_failure := StepFailure { fl_category : str; fl_safeMessage : str; fl_retryable : bool }.
Record attempt_row := AttemptRow {
  at_key : attempt_key;
  at_activation : option str;
  at_agent : str;
  at_connection : str;
  at_status : StepStatus;
  at_input : option str;
  at_output : option str;
  at_externalUrl : option str;
  at_task : option str;
  at_state : option str;
  at_taskUrl : option str;
  at_polls : Z;
  at_delay : option Z;
  at_startedAt : option str;
  at_completedAt : option str;
  at_failure : option step_failure;
  at_source : option ConversationSourceIdentity;
  at_transport : option jsval;
}.

Record approval_identity := ApprovalIdentity {
  ai_requestId : str;
  ai_runId : str;
  ai_generation : Z;
  ai_nodeId : str;
  ai_activationId : str;
  ai_interruptId : str;
  ai_message : str;
  ai_reviewText : str;
  ai_requestedAt : str;
}.
Record approval_row := ApprovalRow {
  ap_identity : approval_identity;
  ap_approved : bool;
  ap_approvedAt : option str;
  ap_consumedAt : option str;
}.

(** Attempts and approvals are in the order of their row ids. *)
Record run_db := RunDb {
  db_runs : gmap (list N) run_row;
  db_attempts : list attempt_row;
  db_approvals : list approval_row;
}.

Inductive run_error := RunError (message : str) | RunDatabaseError.
#[export] Instance run_error_eq_dec : EqDecision run_error.
Proof. solve_decision. Defined.

Definition status_in (l : list RunStatus) (s : RunStatus) : bool := existsb (λ x, bool_decide (x = s)) l.
Definition step_in (l : list StepStatus) (s : StepStatus) : bool := existsb (λ x, bool_decide (x = s)) l.
Definition launch_in (l : list WorkflowLaunchState) (s : WorkflowLaunchState) : bool := existsb (λ x, bool_decide (x = s)) l.
Definition terminal : list RunStatus := [RunSucceeded; RunFailed; RunCancelled].
Definition active : list RunStatus := [Queued; Running; WaitingApproval].
Definition started_states : list StepStatus := [Starting; WaitingProvider].

(** [COALESCE(a, b)] *)
Definition coalesce {A} (a : option A) (b : A) : option A := match a with Some _ => a | None => Some b end.
Definition first_of {A} (a b : option A) : option A := match a with Some _ => a | None => b end.
Definition opt_is (a : option str) (s : str) : bool := match a with Some t => str_eqb t s | None => false end.
Definition is_null {A} (a : option A) : bool := match a with None => true | Some _ => false end.
(** A string column as JavaScript tests it: neither null nor empty *)
Definition filled_column (a : option str) : bool := match a with Some (_ :: _) => true | _ => false end.

(** ** Updates of a run *)

Definition run_id (r : run_row) : str := rf_id (rr_frozen r).
Definition generation (r : run_row) : Z := la_generation (rr_launch r).
Definition touch (now : str) (r : run_row) : run_row :=
  RunRow (rr_frozen r) (rr_status r) (rr_current r) (rr_launch r) (rr_result r) (rr_cancelRequestedAt r)
    (rr_cancellation r) (rr_startedAt r) now (rr_version r).
(** [state_version=state_version+1] *)
Definition bump (r : run_row) : run_row :=
  RunRow (rr_frozen r) (rr_status r) (rr_current r) (rr_launch r) (rr_result r) (rr_cancelRequestedAt r)
    (rr_cancellation r) (rr_startedAt r) (rr_updatedAt r) (rr_version r + 1).
Definition with_status (s : RunStatus) (r : run_row) : run_row :=
  RunRow (rr_frozen r) s (rr_current r) (rr_launch r) (rr_result r) (rr_cancelRequestedAt r)
    (rr_cancellation r) (rr_startedAt r) (rr_updatedAt r) (rr_version r).
Definition with_current (c : option str) (r : run_row) : run_row :=
  RunRow (rr_frozen r) (rr_status r) c (rr_launch r) (rr_result r) (rr_cancelRequestedAt r)
    (rr_cancellation r) (rr_startedAt r) (rr_updatedAt r) (rr_version r).
Definition with_launch (l : launch_columns) (r : run_row) : run_row :=
  RunRow (rr_frozen r) (rr_status r) (rr_current r) l (rr_result r) (rr_cancelRequestedAt r)
    (rr_cancellation r) (rr_startedAt r) (rr_updatedAt r) (rr_version r).
Definition with_result (e : result_columns) (r : run_row) : run_row :=
  RunRow (rr_frozen r) (rr_status r) (rr_current r) (rr_launch r) e (rr_cancelRequestedAt r)
    (rr_cancellation r) (rr_startedAt r) (rr_updatedAt r) (rr_version r).
Definition with_started (now : str) (r : run_row) : run_row :=
  RunRow (rr_frozen r) (rr_status r) (rr_current r) (rr_launch r) (rr_result r) (rr_cancelRequestedAt r)
    (rr_cancellation r) (coalesce (rr_startedAt r) now) (rr_updatedAt r) (rr_version r).
Definition with_cancel_request (now : str) (r : run_row) : run_row :=
  RunRow (rr_frozen r) (rr_status r) (rr_current r) (rr_launch r) (rr_result r) (coalesce (rr_cancelRequestedAt r) now)
    (rr_cancellation r) (rr_startedAt r) (rr_updatedAt r) (rr_version r).
Definition with_cancellation (c : option CancellationResult) (r : run_row) : run_row :=
  RunRow (rr_frozen r) (rr_status r) (rr_current r) (rr_launch r) (rr_result r) (rr_cancelRequestedAt r)
    c (rr_startedAt r) (rr_updatedAt r) (rr_version r).
Definition set_diagnostics (d : option str) (e : result_columns) : result_columns :=
  ResultColumns (re_finalOutput e) (re_finalExternalUrl e) (re_completedAt e) (re_failureCode e) (re_failureMessage e) d.

(** [UPDATE workflow_runs SET ... WHERE id=? AND ...]: the number of changed rows *)
Definition update_run (id : str) (cond : run_row → bool) (f : run_row → run_row) (d : run_db) : run_db * outcome run_error Z :=
  match db_runs d !! id with
  | Some r => if cond r then (RunDb (<[id := f r]> (db_runs d)) (db_attempts d) (db_approvals d), Ok 1%Z) else (d, Ok 0%Z)
  | None => (d, Ok 0%Z)
  end.
(** [EXISTS (SELECT 1 FROM workflow_runs WHERE id=? AND ...)] *)
Definition exists_run (id : str) (cond : run_row → bool) (d : run_db) : bool :=
  match db_runs d !! id with Some r => cond r | None => false end.

(** ** Updates of attempts *)

Definition update_where (cond : attempt_row → bool) (f : attempt_row → attempt_row) (d : run_db) : run_db * outcome run_error Z :=
  (RunDb (db_runs d) (map (λ a, if cond a then f a else a) (db_attempts d)) (db_approvals d),
   Ok (Z.of_nat (length (List.filter cond (db_attempts d))))).
Definition update_attempt (k : attempt_key) (cond : attempt_row → bool) : (attempt_row → attempt_row) → run_db → run_db * outcome run_error Z :=
  update_where (λ a, bool_decide (at_key a = k) && cond a).
Definition exists_attempt (cond : attempt_row → bool) (d : run_db) : bool := existsb cond (db_attempts d).
Definition of_step (r s : str) (a : attempt_row) : bool := str_eqb (ak_run (at_key a)) r && str_eqb (ak_step (at_key a)) s.
Definition of_activation (r s act : str) (a : attempt_row) : bool := of_step r s a && opt_is (at_activation a) act.

(** INSERT with the primary key, the index on activations and the foreign key *)
Definition same_activation (a b : attempt_row) : bool :=
  match at_activation a with
  | Some act => of_activation (ak_run (at_key a)) (ak_step (at_key a)) act b && (ak_attempt (at_key a) =? ak_attempt (at_key b))%Z
  | None => false
  end.
Definition insert_attempt (a : attempt_row) (d : run_db) : run_db * outcome run_error Z :=
  if existsb (λ b, bool_decide (at_key b = at_key a) || same_activation a b) (db_attempts d) || is_null (db_runs d !! ak_run (at_key a))
  then (d, Throw RunDatabaseError)
  else (RunDb (db_runs d) (db_attempts d ++ [a]) (db_approvals d), Ok 1%Z).

Definition fresh_attempt (k : attempt_key) (act : option str) (agent connection : str) (source : option ConversationSourceIdentity) : attempt_row :=
  AttemptRow k act agent connection Pending None None None None None None 0 None None None None source None.
(** The attempt after [a], as the INSERT of a retry selects it *)
Definition next_key (k : attempt_key) : attempt_key := AttemptKey (ak_run k) (ak_step k) (ak_iteration k) (ak_attempt k + 1).
Definition retry_of (a : attempt_row) : attempt_row :=
  fresh_attempt (next_key (at_key a)) (at_activation a) (at_agent a) (at_connection a) (at_source a).
(** [INSERT ... SELECT ... FROM workflow_step_attempts WHERE (key) AND ...] *)
Definition insert_retry (k : attempt_key) (cond : attempt_row → bool) (d : run_db) : run_db * outcome run_error Z :=
  match List.find (λ a, bool_decide (at_key a = k) && cond a) (db_attempts d) with
  | Some a => insert_attempt (retry_of a) d
  | None => (d, Ok 0%Z)
  end.
(** [COALESCE(MAX(iteration),0)] *)
Definition max_iteration (r s : str) (d : run_db) : Z :=
  match map (λ a, ak_iteration (at_key a)) (List.filter (of_step r s) (db_attempts d)) with
  | [] => 0%Z
  | i :: l => foldr Z.max i l
  end.

(** *** The columns each UPDATE sets *)

Definition started_attempt (input now : str) (a : attempt_row) : attempt_row :=
  AttemptRow (at_key a) (at_activation a) (at_agent a) (at_connection a) Starting (Some input) (at_output a) (at_externalUrl a)
    (at_task a) (Some (js "starting")) (at_taskUrl a) (at_polls a) (at_delay a) (Some now) (at_completedAt a) (at_failure a)
    (at_source a) (at_transport a).
Definition bound_attempt (source : ConversationSourceIdentity) (a : attempt_row) : attempt_row :=
  AttemptRow (at_key a) (at_activation a) (at_agent a) (at_connection a) (at_status a) (at_input a) (at_output a) (at_externalUrl a)
    (at_task a) (at_state a) (at_taskUrl a) (at_polls a) (at_delay a) (at_startedAt a) (at_completedAt a) (at_failure a)
    (Some source) (at_transport a).
Definition diagnosed_attempt (transport : jsval) (a : attempt_row) : attempt_row :=
  AttemptRow (at_key a) (at_activation a) (at_agent a) (at_connection a) (at_status a) (at_input a) (at_output a) (at_externalUrl a)
    (at_task a) (at_state a) (at_taskUrl a) (at_polls a) (at_delay a) (at_startedAt a) (at_completedAt a) (at_failure a)
    (at_source a) (Some transport).
Definition delayed_attempt (delay : Z) (a : attempt_row) : attempt_row :=
  AttemptRow (at_key a) (at_activation a) (at_agent a) (at_connection a) (at_status a) (at_input a) (at_output a) (at_externalUrl a)
    (at_task a) (at_state a) (at_taskUrl a) (at_polls a) (Some delay) (at_startedAt a) (at_completedAt a) (at_failure a)
    (at_source a) (at_transport a).
Definition tasked_attempt (task : str) (delay : Z) (a : attempt_row) : attempt_row :=
  AttemptRow (at_key a) (at_activation a) (at_agent a) (at_connection a) WaitingProvider (at_input a) (at_output a) (at_externalUrl a)
    (Some task) (Some (js "pending")) (at_taskUrl a) (at_polls a) (Some delay) (at_startedAt a) (at_completedAt a) (at_failure a)
    (at_source a) (at_transport a).
Definition progressed_attempt (state : str) (delay : Z) (output url : option str) (a : attempt_row) : attempt_row :=
  AttemptRow (at_key a) (at_activation a) (at_agent a) (at_connection a) (at_status a) (at_input a) (first_of output (at_output a))
    (at_externalUrl a) (at_task a) (Some state) (first_of url (at_taskUrl a)) (at_polls a) (Some delay) (at_startedAt a)
    (at_completedAt a) (at_failure a) (at_source a) (at_transport a).
Definition polled_attempt (delay : Z) (a : attempt_row) : attempt_row :=
  AttemptRow (at_key a) (at_activation a) (at_agent a) (at_connection a) (at_status a) (at_input a) (at_output a) (at_externalUrl a)
    (at_task a) (at_state a) (at_taskUrl a) (at_polls a + 1) (Some delay) (at_startedAt a) (at_completedAt a) (at_failure a)
    (at_source a) (at_transport a).
Definition completed_attempt (output : str) (url : option str) (now : str) (a : attempt_row) : attempt_row :=
  AttemptRow (at_key a) (at_activation a) (at_agent a) (at_connection a) Succeeded (at_input a) (Some output) url
    (at_task a) (Some (js "completed")) (at_taskUrl a) (at_polls a) (at_delay a) (at_startedAt a) (Some now) (at_failure a)
    (at_source a) (at_transport a).
Definition failed_attempt (failure : step_failure) (now : str) (a : attempt_row) : attempt_row :=
  AttemptRow (at_key a) (at_activation a) (at_agent a) (at_connection a) Failed (at_input a) (at_output a) (at_externalUrl a)
    (at_task a) (at_state a) (at_taskUrl a) (at_polls a) (at_delay a) (at_startedAt a) (Some now) (Some failure)
    (at_source a) (at_transport a).
Definition cancelled_attempt (now : str) (a : attempt_row) : attempt_row :=
  AttemptRow (at_key a) (at_activation a) (at_agent a) (at_connection a) Cancelled (at_input a) (at_output a) (at_externalUrl a)
    (at_task a) (at_state a) (at_taskUrl a) (at_polls a) (at_delay a) (at_startedAt a) (coalesce (at_completedAt a) now) (at_failure a)
    (at_source a) (at_transport a).

(** ** Approvals *)

Definition request_is (id run : str) (a : approval_row) : bool :=
  str_eqb (ai_requestId (ap_identity a)) id && str_eqb (ai_runId (ap_identity a)) run.
Definition same_request (i j : approval_identity) : bool :=
  str_eqb (ai_requestId i) (ai_requestId j) ||
  (str_eqb (ai_runId i) (ai_runId j) && (ai_generation i =? ai_generation j)%Z && str_eqb (ai_activationId i) (ai_activationId j)).
Definition insert_approval (i : approval_identity) (d : run_db) : run_db * outcome run_error Z :=
  if existsb (λ a, same_request i (ap_identity a)) (db_approvals d) || is_null (db_runs d !! ai_runId i)
  then (d, Throw RunDatabaseError)
  else (RunDb (db_runs d) (db_attempts d) (db_approvals d ++ [ApprovalRow i false None None]), Ok 1%Z).
Definition update_approval (cond : approval_row → bool) (f : approval_row → approval_row) (d : run_db) : run_db * outcome run_error Z :=
  (RunDb (db_runs d) (db_attempts d) (map (λ a, if cond a then f a else a) (db_approvals d)),
   Ok (Z.of_nat (length (List.filter cond (db_approvals d))))).

(** ** Statements *)

Inductive sql_write :=
| InsertRun (r : run_row)
| ClaimLaunch (instance now id : str) (gen : Z)
| TakeoverLaunch (now id : str) (gen : Z) (reserved attempted : option str)
| AttachInstance (instance now id : str) (gen : Z)
| FailLaunch (message now now' id : str) (gen : Z) (instance : str)
| InsertActivation (run step activation agent connection : str)
| ClaimAttempt (input now : str) (k : attempt_key)
| StartRun (step now run : str)
| BindSource (source : ConversationSourceIdentity) (k : attempt_key)
| RecordTransport (transport : jsval) (k : attempt_key)
| SetDelay (delay : Z) (k : attempt_key) (task : str)
| PersistTask (task : str) (delay : Z) (k : attempt_key)
| PersistProgress (state : str) (delay : Z) (output url : option str) (k : attempt_key)
| IncrementPolls (delay : Z) (k : attempt_key)
| CompleteAttempt (output : str) (url : option str) (now : str) (k : attempt_key)
| FailAttempt (failure : step_failure) (now : str) (k : attempt_key)
| CompleteRun (output : str) (url : option str) (now now' run step : str)
| RecordFailure (code message now run : str)
| SetDiagnostics (json : option str) (now run : str) (gen : Z)
| FailRun (code message : str) (json : option str) (now now' run : str) (gen : option Z)
| RequestCancel (now now' run : str)
| SetCancellation (next : CancellationResult) (now run : str) (current : option CancellationResult)
| CancelAttempts (now run : str)
| CancelRun (now now' run : str)
| RetryActivation (activation : str) (k : attempt_key)
| RetryCurrent (k : attempt_key)
| RetryManual (k : attempt_key)
| ResetRun (step now run : str) (gen : Z)
| InsertApproval (i : approval_identity)
| AwaitApproval (node now run : str) (gen : Z)
| Approve (now request run : str)
| ResumeRun (now run request : str)
| ConsumeApproval (now request run : str).

Definition not_cancelled (r : run_row) : bool := is_null (rr_cancelRequestedAt r).
Definition open_approval (request run : str) (a : approval_row) : bool :=
  request_is request run a && ap_approved a && is_null (ap_consumedAt a).

(** The instance id of a run is UNIQUE. *)
Definition attach_run (instance now id : str) (gen : Z) (d : run_db) : run_db * outcome run_error Z :=
  let cond r := (generation r =? gen)%Z && launch_in [Launching] (la_state (rr_launch r)) && opt_is (la_reserved (rr_launch r)) instance in
  if exists_run id cond d && existsb (λ kr, negb (str_eqb kr.1 id) && opt_is (la_instance (rr_launch kr.2)) instance) (map_to_list (db_runs d))
  then (d, Throw RunDatabaseError)
  else update_run id cond
         (λ r, bump (touch now (with_status Queued
            (with_launch (LaunchColumns Attached (generation r) (Some instance) (la_reserved (rr_launch r)) None (la_attemptedAt (rr_launch r)))
              (with_result (ResultColumns (re_finalOutput (rr_result r)) (re_finalExternalUrl (rr_result r)) None None None None) r))))) d.

Definition exec_write (w : sql_write) (d : run_db) : run_db * outcome run_error Z :=
  match w with
  | InsertRun r =>
      if negb (is_null (db_runs d !! run_id r)) ||
         match rf_clientIdempotencyKey (rr_frozen r) with
         | Some key => existsb (λ kr, opt_is (rf_clientIdempotencyKey (rr_frozen kr.2)) key) (map_to_list (db_runs d))
         | None => false
         end
      then (d, Throw RunDatabaseError)
      else (RunDb (<[run_id r := r]> (db_runs d)) (db_attempts d) (db_approvals d), Ok 1%Z)
  | ClaimLaunch instance now id gen =>
      update_run id (λ r, (generation r =? gen)%Z && launch_in [Unclaimed; LaunchFailed] (la_state (rr_launch r)) &&
                          status_in [Queued; RunFailed] (rr_status r))
        (λ r, bump (touch now (with_launch
           (LaunchColumns Launching (generation r) (la_instance (rr_launch r)) (Some instance) None (Some now)) r))) d
  | TakeoverLaunch now id gen reserved attempted =>
      update_run id (λ r, (generation r =? gen)%Z && launch_in [Launching] (la_state (rr_launch r)) &&
                          match reserved with Some s => opt_is (la_reserved (rr_launch r)) s | None => false end &&
                          match attempted with Some s => opt_is (la_attemptedAt (rr_launch r)) s | None => false end)
        (λ r, bump (touch now (with_launch
           (LaunchColumns (la_state (rr_launch r)) (generation r) (la_instance (rr_launch r)) (la_reserved (rr_launch r))
              (la_failure (rr_launch r)) (Some now)) r))) d
  | AttachInstance instance now id gen => attach_run instance now id gen d
  | FailLaunch message now now' id gen instance =>
      update_run id (λ r, (generation r =? gen)%Z && launch_in [Launching] (la_state (rr_launch r)) && opt_is (la_reserved (rr_launch r)) instance)
        (λ r, bump (touch now' (with_status RunFailed (with_launch
           (LaunchColumns LaunchFailed (generation r) (la_instance (rr_launch r)) (la_reserved (rr_launch r)) (Some message) (la_attemptedAt (rr_launch r)))
           (with_result (ResultColumns (re_finalOutput (rr_result r)) (re_finalExternalUrl (rr_result r)) (Some now)
              (Some (js "internal_error")) (Some message) (re_diagnostics (rr_result r))) r))))) d
  | InsertActivation run step activation agent connection =>
      if negb (exists_attempt (of_activation run step activation) d) && exists_run run (λ r, is_null (re_failureCode (rr_result r))) d
      then insert_attempt (fresh_attempt (AttemptKey run step (max_iteration run step d + 1) 1) (Some activation) agent connection None) d
      else (d, Ok 0%Z)
  | ClaimAttempt input now k =>
      update_attempt k (λ a, step_in [Pending] (at_status a) &&
          exists_run (ak_run k) (λ r, rf_engine2 (rr_frozen r) && status_in [Queued; Running] (rr_status r) &&
                                      is_null (re_failureCode (rr_result r))) d)
        (started_attempt input now) d
  | StartRun step now run =>
      update_run run (λ r, rf_engine2 (rr_frozen r) && status_in [Queued; Running] (rr_status r))
        (λ r, bump (touch now (with_started now (with_current (Some step) (with_status Running r))))) d
  | BindSource source k =>
      update_attempt k (λ a, step_in [Pending; Starting] (at_status a) && is_null (at_source a)) (bound_attempt source) d
  | RecordTransport transport k => update_attempt k (λ a, step_in [Starting] (at_status a)) (diagnosed_attempt transport) d
  | SetDelay delay k task =>
      update_attempt k (λ a, step_in [WaitingProvider] (at_status a) && opt_is (at_task a) task) (delayed_attempt delay) d
  | PersistTask task delay k =>
      update_attempt k (λ a, step_in [Starting] (at_status a) && is_null (at_task a)) (tasked_attempt task delay) d
  | PersistProgress state delay output url k =>
      update_attempt k (λ a, step_in [WaitingProvider] (at_status a) && negb (is_null (at_task a))) (progressed_attempt state delay output url) d
  | IncrementPolls delay k => update_attempt k (λ a, step_in [WaitingProvider] (at_status a)) (polled_attempt delay) d
  | CompleteAttempt output url now k => update_attempt k (λ a, step_in started_states (at_status a)) (completed_attempt output url now) d
  | FailAttempt failure now k => update_attempt k (λ a, step_in started_states (at_status a)) (failed_attempt failure now) d
  | CompleteRun output url now now' run step =>
      update_run run (λ r, status_in [Running] (rr_status r) && (rf_engine2 (rr_frozen r) || opt_is (rr_current r) step) &&
                           exists_attempt (λ a, of_step run step a && step_in [Succeeded] (at_status a)) d)
        (λ r, touch now' (with_status RunSucceeded (with_current None
           (with_result (ResultColumns (Some output) url (Some now) (re_failureCode (rr_result r)) (re_failureMessage (rr_result r)) None) r)))) d
  | RecordFailure code message now run =>
      update_run run (λ r, rf_engine2 (rr_frozen r) && status_in active (rr_status r))
        (λ r, bump (touch now (with_result
           (ResultColumns (re_finalOutput (rr_result r)) (re_finalExternalUrl (rr_result r)) (re_completedAt (rr_result r))
              (coalesce (re_failureCode (rr_result r)) code) (coalesce (re_failureMessage (rr_result r)) message)
              (re_diagnostics (rr_result r))) r))) d
  | SetDiagnostics json now run gen =>
      update_run run (λ r, (generation r =? gen)%Z && status_in active (rr_status r))
        (λ r, bump (touch now (with_result (set_diagnostics json (rr_result r)) r))) d
  | FailRun code message json now now' run gen =>
      update_run run (λ r, status_in active (rr_status r) && match gen with Some g => (generation r =? g)%Z | None => true end)
        (λ r, touch now' (with_status RunFailed (with_result
           (ResultColumns (re_finalOutput (rr_result r)) (re_finalExternalUrl (rr_result r)) (Some now) (Some code) (Some message) json) r))) d
  | RequestCancel now now' run =>
      update_run run (λ r, status_in [Queued; Running; WaitingApproval; Cancelling] (rr_status r))
        (λ r, touch now' (with_cancel_request now (with_status Cancelling r))) d
  | SetCancellation next now run current =>
      update_run run (λ r, status_in [Cancelling] (rr_status r) && bool_decide (rr_cancellation r = current))
        (λ r, touch now (with_cancellation (Some next) r)) d
  | CancelAttempts now run =>
      update_where (λ a, str_eqb (ak_run (at_key a)) run && step_in [Pending; Starting; WaitingProvider] (at_status a) &&
                         exists_run run (λ r, status_in [Cancelling; RunCancelled] (rr_status r)) d)
        (cancelled_attempt now) d
  | CancelRun now now' run =>
      update_run run (λ r, status_in [Cancelling] (rr_status r))
        (λ r, bump (touch now' (with_status RunCancelled (with_result
           (ResultColumns (re_finalOutput (rr_result r)) (re_finalExternalUrl (rr_result r)) (coalesce (re_completedAt (rr_result r)) now)
              (re_failureCode (rr_result r)) (re_failureMessage (rr_result r)) None) r)))) d
  | RetryActivation activation k =>
      insert_retry k (λ a, opt_is (at_activation a) activation && step_in [Failed] (at_status a) &&
                           exists_run (ak_run k) (λ r, rf_engine2 (rr_frozen r) && status_in [Running] (rr_status r)) d) d
  | RetryCurrent k =>
      insert_retry k (λ a, step_in [Failed] (at_status a) &&
                           exists_run (ak_run k) (λ r, status_in [Running] (rr_status r) && opt_is (rr_current r) (ak_step k)) d) d
  | RetryManual k => insert_retry k (λ a, step_in [Failed] (at_status a)) d
  | ResetRun step now run gen =>
      update_run run (λ r, status_in [RunFailed] (rr_status r) && (generation r =? gen)%Z)
        (λ r, bump (touch now (with_current (Some step) (with_launch
           (LaunchColumns Unclaimed (generation r + 1) None None None (la_attemptedAt (rr_launch r)))
           (with_result (set_diagnostics None (rr_result r)) r))))) d
  | InsertApproval i =>
      if exists_run (ai_runId i) (λ r, (generation r =? ai_generation i)%Z && status_in active (rr_status r) && not_cancelled r) d
      then insert_approval i d else (d, Ok 0%Z)
  | AwaitApproval node now run gen =>
      update_run run (λ r, (generation r =? gen)%Z && status_in active (rr_status r) && not_cancelled r)
        (λ r, bump (touch now (with_current (Some node) (with_status WaitingApproval r)))) d
  | Approve now request run =>
      update_approval (λ a, request_is request run a && negb (ap_approved a) && is_null (ap_consumedAt a) &&
          exists_run run (λ r, (generation r =? ai_generation (ap_identity a))%Z && status_in [WaitingApproval] (rr_status r) && not_cancelled r) d)
        (λ a, ApprovalRow (ap_identity a) true (coalesce (ap_approvedAt a) now) (ap_consumedAt a)) d
  | ResumeRun now run request =>
      update_run run (λ r, status_in [WaitingApproval] (rr_status r) && not_cancelled r && existsb (open_approval request run) (db_approvals d))
        (λ r, bump (touch now (with_status Running r))) d
  | ConsumeApproval now request run =>
      update_approval (λ a, open_approval request run a &&
                            exists_run run (λ r, status_in [Running] (rr_status r) && not_cancelled r) d)
        (λ a, ApprovalRow (ap_identity a) (ap_approved a) (ap_approvedAt a) (Some now)) d
  end.

(** A batch is one transaction: a statement that fails undoes the others. *)
Fixpoint exec_batch (ws : list sql_write) (d : run_db) : run_db * outcome run_error (list Z) :=
  match ws with
  | [] => (d, Ok [])
  | w :: ws =>
      match exec_write w d with
      | (d1, Ok n) =>
          match exec_batch ws d1 with
          | (d2, Ok ns) => (d2, Ok (n :: ns))
          | (_, Throw e) => (d, Throw e)
          end
      | (_, Throw e) => (d, Throw e)
      end
  end.
