(* ===== verification/RunStorage.v ===== *)
(** * Workflow runs: storage, launch and approvals

    [D1WorkflowRunStorage] of [src/lib/workflow-d1-storage.ts], the launch of
    [src/lib/workflow-launch.ts], the approvals of
    [src/lib/workflow-approvals.ts] and the wait for one
    ([src/lib/workflow-worker-runtime.ts]).

    The world holds the tables with their faults, the clock, and the statements
    of other workers: each statement of a call is preceded by any number of
    theirs. Diagnostics are given serialised, and reading a row does not fail:
    the decoding of its JSON columns ([toRun]) is not modelled. *)

From S2P Require Import Prelude JsString Encoding JsDate Json Layout Libs Contract GithubClient D1 WorkflowGraph WorkflowPlan RunTables.

(** What the platform answers to the creation of an instance *)
Inductive creation := Created (id : str) | DuplicateInstance | CreationFailed.

Record run_world := RunWorld {
  rw_db : d1 run_db;
  rw_others : list (list sql_write);
  rw_clock : list str;
  rw_uuids : list str;
  rw_creations : list creation;
  rw_created : list str;
}.
Abbreviation RunM := (eff run_world run_error).

Definition tables (w : run_world) : run_db := d1_table (rw_db w).
Definition interfere (ws : list sql_write) (d : run_db) : run_db := foldl (λ d w, (exec_write w d).1) d ws.

(** One statement (or batch), after those of other workers *)
Definition statement {A} (s : run_db → run_db * outcome run_error A) : RunM A := λ w,
  let d := interfere (default [] (head (rw_others w))) (tables w) in
  let '(db, r) := d1_exec RunDatabaseError s (D1 d (d1_faults (rw_db w))) in
  (RunWorld db (tail (rw_others w)) (rw_clock w) (rw_uuids w) (rw_creations w) (rw_created w), r).
Definition query {A} (f : run_db → A) : RunM A := statement (λ d, (d, Ok (f d))).
Definition write (w : sql_write) : RunM Z := statement (exec_write w).
Definition batch (ws : list sql_write) : RunM (list Z) := statement (exec_batch ws).
(** [this.now()] *)
Definition now : RunM str := λ w,
  (RunWorld (rw_db w) (rw_others w) (tail (rw_clock w)) (rw_uuids w) (rw_creations w) (rw_created w), Ok (default [] (head (rw_clock w)))).
Definition randomUUID : RunM str := λ w,
  (RunWorld (rw_db w) (rw_others w) (rw_clock w) (tail (rw_uuids w)) (rw_creations w) (rw_created w), Ok (default [] (head (rw_uuids w)))).

Definition fails {A} (message : string) : RunM A := throw (RunError (js message)).
Definition require_that (b : bool) (message : string) : RunM unit := lift (guard_throw b (RunError (js message))).
(** [changed(result, code)] *)
Definition changed (n : Z) (code : string) : RunM unit := require_that (n =? 1)%Z code.

(** ** Reading *)

Record run_detail := RunDetail { de_run : run_row; de_attempts : list attempt_row }.

(** [ORDER BY iteration, rowid, attempt] *)
Definition attempts_of (id : str) (d : run_db) : list attempt_row :=
  sort_list (λ a b, (ak_iteration (at_key a) <=? ak_iteration (at_key b))%Z)
    (List.filter (λ a, str_eqb (ak_run (at_key a)) id) (db_attempts d)).
Definition getRun (id : str) : RunM (option run_detail) :=
  row ← query (λ d, db_runs d !! id);
  match row with
  | None => mret None
  | Some r => attempts ← query (attempts_of id); mret (Some (RunDetail r attempts))
  end.
Definition with_key (key : str) (d : run_db) : option str :=
  fst <$> List.find (λ kr, opt_is (rf_clientIdempotencyKey (rr_frozen kr.2)) key) (map_to_list (db_runs d)).
Definition findRunByIdempotencyKey (key : str) : RunM (option run_detail) :=
  row ← query (with_key key);
  match row with Some id => getRun id | None => mret None end.

(** [ORDER BY created_at DESC, id DESC LIMIT ?] *)
Definition newer_run (a b : run_row) : bool :=
  let x := rf_createdAt (rr_frozen a) in let y := rf_createdAt (rr_frozen b) in
  if str_eqb x y then str_leb (run_id b) (run_id a) else str_leb y x.
Definition listRuns (limit : Z) : RunM (list run_row) :=
  let bounded := Z.max 1 (Z.min 100 limit) in
  query (λ d, take (Z.to_nat bounded) (sort_list newer_run (map snd (map_to_list (db_runs d))))).

(** [filter(...).at(-1)] *)
Definition last_such {A} (f : A → bool) (l : list A) : option A := last (List.filter f l).
(** [ORDER BY key DESC LIMIT 1] *)
Definition greatest {A} (lt : A → A → bool) (l : list A) : option A :=
  foldl (λ best a, match best with Some b => if lt b a then Some a else best | None => Some a end) None l.
Definition attempt_lt (a b : attempt_row) : bool := (ak_attempt (at_key a) <? ak_attempt (at_key b))%Z.
Definition iteration_lt (a b : attempt_row) : bool :=
  (ak_iteration (at_key a) <? ak_iteration (at_key b))%Z ||
  ((ak_iteration (at_key a) =? ak_iteration (at_key b))%Z && attempt_lt a b).
Definition found_attempt (o : option attempt_row) : RunM attempt_row := lift (from_option_throw (RunError (js "attempt_not_found")) o).
Definition activation (r s id : str) : RunM attempt_row :=
  o ← query (λ d, greatest attempt_lt (List.filter (of_activation r s id) (db_attempts d))); found_attempt o.
Definition latest_attempt (r s : str) : RunM attempt_row :=
  o ← query (λ d, greatest iteration_lt (List.filter (of_step r s) (db_attempts d))); found_attempt o.
Definition read_attempt (k : attempt_key) : RunM attempt_row :=
  o ← query (λ d, List.find (λ a, bool_decide (at_key a = k)) (db_attempts d)); found_attempt o.

(** ** Creating and launching *)

Definition inserted_run (r : run_row) : run_row :=
  RunRow (rr_frozen r) Queued (rr_current r) (LaunchColumns Unclaimed (generation r) None None None None)
    (ResultColumns None None None None None None) None None None (rr_updatedAt r) 0.
Definition executable (r : run_row) : bool := rf_engine2 (rr_frozen r) && negb (is_null (rf_plan (rr_frozen r))).
Definition existing_run (key : option str) : RunM (option (option run_detail)) :=
  match key with
  | Some ((_ :: _) as key) =>
      existing ← query (with_key key);
      match existing with Some id => d ← getRun id; mret (Some d) | None => mret None end
  | _ => mret None
  end.
Definition createRun (r : run_row) : RunM (option run_detail) :=
  require_that (executable r) "legacy_run_read_only" ;;
  existing ← existing_run (rf_clientIdempotencyKey (rr_frozen r));
  match existing with
  | Some d => mret d
  | None =>
      inserted ← attempt (batch [InsertRun (inserted_run r)]);
      match inserted with
      | Ok _ => getRun (run_id r)
      | Throw e =>
          again ← existing_run (rf_clientIdempotencyKey (rr_frozen r));
          match again with Some d => mret d | None => throw e end
      end
  end.

Definition WORKFLOW_LAUNCH_STALE_MS : Z := 2 * 60 * 1000.
Inductive launch_claim := Claimed | StaleLaunchClaimed | LaunchInProgress | AlreadyAttached | TerminalRun.
(** [Date.parse(now) - Date.parse(at) < WORKFLOW_LAUNCH_STALE_MS], false on NaN *)
Definition recent (now at_ : str) : bool :=
  match Date_parse now, Date_parse at_ with Some a, Some b => (a - b <? WORKFLOW_LAUNCH_STALE_MS)%Z | _, _ => false end.
Definition claimWorkflowLaunch (id : str) (gen : Z) (instance : str) : RunM (launch_claim * option str) :=
  t ← now;
  n ← write (ClaimLaunch instance t id gen);
  if (n =? 1)%Z then mret (Claimed, Some instance) else
  detail ← getRun id;
  match detail with
  | None => mret (TerminalRun, Some instance)
  | Some (RunDetail r _) =>
      let l := rr_launch r in
      if status_in terminal (rr_status r) && negb (launch_in [LaunchFailed] (la_state l)) then mret (TerminalRun, Some instance)
      else if negb (la_generation l =? gen)%Z then fails "workflow_generation_conflict"
      else match la_state l with
           | Attached => mret (AlreadyAttached, la_instance l)
           | Launching =>
               match la_attemptedAt l with
               | Some ((_ :: _) as at_) =>
                   if recent t at_ then mret (LaunchInProgress, la_reserved l)
                   else
                     lift (guard_throw (negb (is_null (la_reserved l))) RunDatabaseError) ;; (* [bind] of undefined *)
                     m ← write (TakeoverLaunch t id gen (la_reserved l) (Some at_));
                     if (m =? 1)%Z then mret (StaleLaunchClaimed, la_reserved l) else
                     again ← getRun id;
                     match again with
                     | Some (RunDetail r' _) =>
                         if launch_in [Attached] (la_state (rr_launch r')) then mret (AlreadyAttached, la_instance (rr_launch r'))
                         else mret (LaunchInProgress, first_of (la_reserved (rr_launch r')) (la_reserved l))
                     | None => mret (LaunchInProgress, la_reserved l)
                     end
               | _ => mret (LaunchInProgress, la_reserved l)
               end
           | _ => fails "invalid_launch_state"
           end
  end.
Definition attachWorkflowInstance (id : str) (gen : Z) (instance : str) : RunM unit :=
  t ← now;
  n ← write (AttachInstance instance t id gen);
  if (n =? 1)%Z then mret () else
  detail ← getRun id;
  match detail with
  | Some (RunDetail r _) =>
      require_that ((generation r =? gen)%Z && launch_in [Attached] (la_state (rr_launch r)) && opt_is (la_instance (rr_launch r)) instance)
        "workflow_instance_conflict"
  | None => fails "workflow_instance_conflict"
  end.
Definition recordWorkflowLaunchFailure (id : str) (gen : Z) (instance message : str) : RunM unit :=
  t ← now; t' ← now; _ ← write (FailLaunch message t t' id gen instance); mret ().

(** ** Attempts *)

(** The agent of a node: its own, or that of the agent block a publication follows *)
Definition node_agent (plan : execution_plan) (n : plan_node) : option str :=
  let agent_of (m : plan_node) := match prop_opt "agentId" (pn_config m) with JStr s => Some s | _ => None end in
  if str_eqb (pn_type n) t_agent then agent_of n
  else match prop_opt "sourceNodeId" (pn_config n) with
       | JStr source => List.find (λ m, str_eqb (pn_id m) source && str_eqb (pn_type m) t_agent) (pl_nodes plan) ≫= agent_of
       | _ => None
       end.
Definition activation_node (d : option run_detail) (step : str) : option (run_detail * execution_plan * plan_node) :=
  detail ← d; plan ← rf_plan (rr_frozen (de_run detail));
  n ← List.find (λ n, str_eqb (pn_id n) step) (pl_nodes plan);
  if rf_engine2 (rr_frozen (de_run detail)) && (str_eqb (pn_type n) t_agent || str_eqb (pn_type n) t_publish) &&
     negb (status_in terminal (rr_status (de_run detail)))
  then Some (detail, plan, n) else None.
Definition invalid_activation : run_error := RunError (js "invalid_graph_activation").
Definition activated (run step act : str) : RunM attempt_row :=
  d ← getRun run;
  lift (from_option_throw invalid_activation (d ≫= λ d, last_such (of_activation run step act) (de_attempts d))).
Definition ensureGraphActivation (run step act : str) : RunM attempt_row :=
  lift (guard_throw (nonempty act && (length act <=? 128)%nat) invalid_activation) ;;
  d ← getRun run;
  '(detail, plan, n) ← lift (from_option_throw invalid_activation (activation_node d step));
  match last_such (of_activation run step act) (de_attempts detail) with
  | Some a => mret a
  | None =>
      lift (guard_throw (negb (filled_column (re_failureCode (rr_result (de_run detail))))) invalid_activation) ;;
      '(agent, connection) ← lift (from_option_throw invalid_activation
         (a ← node_agent plan n; if nonempty a then assoc a (rf_agents (rr_frozen (de_run detail))) else None));
      _ ← attempt (write (InsertActivation run step act agent connection));
      activated run step act
  end.

Definition current_attempt (run step : str) (act : option str) : RunM attempt_row :=
  match act with Some ((_ :: _) as act) => activation run step act | _ => latest_attempt run step end.
Definition claimGraphNode (run step input : str) (act : option str) : RunM (attempt_row * bool) :=
  t ← now;
  current ← current_attempt run step act;
  n ← write (ClaimAttempt input t (AttemptKey run step (ak_iteration (at_key current)) (ak_attempt (at_key current))));
  let claimed := (n =? 1)%Z in
  when claimed (_ ← write (StartRun step t run); mret ()) ;;
  a ← current_attempt run step act;
  if negb claimed && step_in [Pending] (at_status a) then
    detail ← getRun run;
    match detail with
    | Some (RunDetail r _) =>
        if rf_engine2 (rr_frozen r) && filled_column (re_failureCode (rr_result r)) then mret (a, claimed) else fails "invalid_step_claim"
    | None => fails "invalid_step_claim"
    end
  else mret (a, claimed).

Definition bindConversationSource (k : attempt_key) (source : ConversationSourceIdentity) : RunM attempt_row :=
  require_that (str_eqb (so_runId source) (ak_run k) && nonempty (so_stepId source) && (1 <=? so_iteration source)%Z &&
                (1 <=? so_attempt source)%Z) "invalid_conversation_source" ;;
  existing ← read_attempt k;
  match at_source existing with
  | Some s => require_that (bool_decide (s = source)) "conversation_source_conflict" ;; mret existing
  | None =>
      n ← write (BindSource source k);
      if (n =? 1)%Z then read_attempt k
      else raced ← read_attempt k;
           require_that (bool_decide (at_source raced = Some source)) "conversation_source_conflict" ;; mret raced
  end.
Definition recordProviderDiagnostics (k : attempt_key) (transport : jsval) : RunM unit :=
  n ← write (RecordTransport transport k); changed n "invalid_attempt_state".
Definition persistProviderTask (k : attempt_key) (task : str) (delay : Z) : RunM unit :=
  existing ← read_attempt k;
  match at_task existing with
  | Some ((_ :: _) as old) =>
      require_that (str_eqb old task) "provider_task_conflict" ;;
      n ← write (SetDelay delay k task); changed n "invalid_attempt_state"
  | _ => n ← write (PersistTask task delay k); changed n "invalid_attempt_state"
  end.
Definition persistProviderProgress (k : attempt_key) (state : str) (delay : Z) (output url : option str) : RunM unit :=
  n ← write (PersistProgress state delay output url k); changed n "invalid_attempt_state".
Definition incrementPollCount (k : attempt_key) (delay : Z) : RunM Z :=
  n ← write (IncrementPolls delay k); changed n "invalid_attempt_state" ;; a ← read_attempt k; mret (at_polls a).
Definition completeStep (k : attempt_key) (output : str) (url : option str) : RunM unit :=
  old ← read_attempt k;
  if step_in [Succeeded] (at_status old) then require_that (opt_is (at_output old) output) "completion_conflict"
  else t ← now; n ← write (CompleteAttempt output url t k); changed n "invalid_attempt_state".
Definition failStep (k : attempt_key) (failure : step_failure) : RunM unit :=
  old ← read_attempt k;
  if step_in [Failed] (at_status old) then mret ()
  else t ← now; n ← write (FailAttempt failure t k); changed n "invalid_attempt_state".

(** ** The end of a run *)

Definition has_status (l : list RunStatus) (d : option run_detail) : bool :=
  match d with Some d => status_in l (rr_status (de_run d)) | None => false end.
Definition completeRun (run step output : str) (url : option str) : RunM unit :=
  old ← getRun run;
  if has_status [RunSucceeded] old then mret ()
  else t ← now; t' ← now; n ← write (CompleteRun output url t t' run step); changed n "invalid_completion".
Definition recordGraphFailure (run code message : str) : RunM unit :=
  t ← now; n ← write (RecordFailure code message t run); require_that (negb (n =? 0)%Z) "invalid_run_state".
Inductive diagnostic_result := DUpdated | DGenerationChanged | DNoLongerActive.
Definition diagnosticMutationResult (run : str) (gen : Z) : RunM (option diagnostic_result) :=
  detail ← getRun run;
  match detail with
  | None => fails "run_not_found"
  | Some (RunDetail r _) =>
      mret (if negb (generation r =? gen)%Z then Some DGenerationChanged
            else if negb (status_in active (rr_status r)) then Some DNoLongerActive else None)
  end.
Definition set_diagnostics_json (run : str) (gen : Z) (json : option str) : RunM diagnostic_result :=
  t ← now;
  n ← write (SetDiagnostics json t run gen);
  if (n =? 1)%Z then mret DUpdated
  else o ← diagnosticMutationResult run gen; lift (from_option_throw (RunError (js "diagnostic_mutation_conflict")) o).
Definition recordOrchestrationDiagnostics (run : str) (gen : Z) (json : str) : RunM diagnostic_result :=
  set_diagnostics_json run gen (Some json).
Definition clearOrchestrationDiagnostics (run : str) (gen : Z) : RunM diagnostic_result := set_diagnostics_json run gen None.
Definition failRun (run code message : str) (json : option str) (gen : option Z) : RunM unit :=
  t ← now; t' ← now;
  n ← write (FailRun code message json t t' run gen);
  if (n =? 0)%Z then old ← getRun run; require_that (has_status terminal old) "invalid_run_state" else mret ().
Definition requestCancellation (run : str) : RunM RunStatus :=
  t ← now; t' ← now;
  n ← write (RequestCancel t t' run);
  if (n =? 0)%Z then
    old ← getRun run;
    match old with
    | Some d => require_that (status_in terminal (rr_status (de_run d))) "invalid_cancellation" ;; mret (rr_status (de_run d))
    | None => fails "invalid_cancellation"
    end
  else mret Cancelling.

Definition transitionCancellationResult (current : option CancellationResult) (next : CancellationResult) :
    outcome run_error CancellationResult :=
  match current with
  | None => Ok next
  | Some c =>
      if bool_decide (c = next) then Ok c
      else if bool_decide (c = CPending) && negb (bool_decide (next = CPending)) then Ok next
      else Throw (RunError (js "cancellation_result_conflict"))
  end.
Definition recordCancellationResult (run : str) (result : CancellationResult) : RunM unit :=
  detail ← getRun run;
  match detail with
  | Some (RunDetail r _) =>
      require_that (status_in [Cancelling] (rr_status r)) "invalid_cancellation" ;;
      next ← lift (transitionCancellationResult (rr_cancellation r) result);
      if bool_decide (rr_cancellation r = Some next) then mret () else
      t ← now;
      n ← write (SetCancellation next t run (rr_cancellation r));
      if (n =? 0)%Z then
        again ← getRun run;
        match again with
        | Some (RunDetail r' _) =>
            require_that (status_in [Cancelling] (rr_status r')) "cancellation_result_conflict" ;;
            settled ← lift (transitionCancellationResult (rr_cancellation r') result);
            require_that (bool_decide (rr_cancellation r' = Some settled)) "cancellation_result_conflict"
        | None => fails "cancellation_result_conflict"
        end
      else mret ()
  | None => fails "invalid_cancellation"
  end.
Definition cancelRun (run : str) : RunM unit :=
  t ← now; _ ← write (CancelAttempts t run);
  t' ← now; t'' ← now; n ← write (CancelRun t' t'' run);
  detail ← getRun run;
  if (n =? 0)%Z then require_that (has_status [RunCancelled] detail) "invalid_cancellation" else mret ().

(** ** Retries *)

Definition retry_prior (d : option run_detail) (status : RunStatus) (f : attempt_row → bool) (limit : Z) : option (run_row * attempt_row) :=
  detail ← d; prior ← last_such f (de_attempts detail);
  if status_in [status] (rr_status (de_run detail)) && step_in [Failed] (at_status prior) && (ak_attempt (at_key prior) <? limit)%Z
  then Some (de_run detail, prior) else None.
Definition invalid_retry : run_error := RunError (js "invalid_retry").
Definition createAutomaticRetryAttempt (run step : str) (act : option str) : RunM attempt_row :=
  d ← getRun run;
  let f := match act with Some ((_ :: _) as act) => of_activation run step act | _ => of_step run step end in
  '(_, prior) ← lift (from_option_throw invalid_retry (retry_prior d Running f 3));
  let k := AttemptKey run step (ak_iteration (at_key prior)) (ak_attempt (at_key prior)) in
  inserted ← attempt (n ← write (match act with Some ((_ :: _) as act) => RetryActivation act k | _ => RetryCurrent k end);
                      lift (guard_throw (n =? 1)%Z invalid_retry));
  match inserted with
  | Ok _ => read_attempt (next_key k)
  | Throw _ =>
      existing ← read_attempt (next_key k);
      lift (guard_throw (step_in [Pending] (at_status existing) && bool_decide (at_activation existing = at_activation prior)) invalid_retry) ;;
      mret existing
  end.
Definition prepareManualRetry (run step : str) : RunM (option run_detail) :=
  d ← getRun run;
  '(r, prior) ← lift (from_option_throw invalid_retry (retry_prior d RunFailed (of_step run step) 10));
  let k := AttemptKey run step (ak_iteration (at_key prior)) (ak_attempt (at_key prior)) in
  inserted ← attempt (n ← write (RetryManual k); lift (guard_throw (n =? 1)%Z invalid_retry));
  match inserted with Ok _ => mret () | Throw _ => _ ← read_attempt (next_key k); mret () end ;;
  t ← now;
  n ← write (ResetRun step t run (generation r));
  if (n =? 0)%Z then
    again ← getRun run;
    match again with
    | Some d' => lift (guard_throw (generation (de_run d') =? generation r + 1)%Z invalid_retry) ;; mret (Some d')
    | None => throw invalid_retry
    end
  else getRun run.

(** ** Launching an instance ([src/lib/workflow-launch.ts], [workflow-run-legacy.ts]) *)

Inductive legacy_reason := EngineV1 | HistoricalPlan | D1Configuration | BindingCredential.
Definition connection_reason (c : option str * option str) : option legacy_reason :=
  if opt_is c.1 (js "d1") then Some D1Configuration
  else if opt_is c.1 (js "git") && negb (opt_is c.2 (js "adt-vault")) then Some BindingCredential else None.
Definition legacyRunReadOnlyReason (r : run_row) : option legacy_reason :=
  if negb (rf_engine2 (rr_frozen r)) then Some EngineV1
  else if is_null (rf_plan (rr_frozen r)) then Some HistoricalPlan
  else head (omap connection_reason (rf_connections (rr_frozen r))).
Definition isLegacyRunReadOnly (r : run_row) : bool := negb (is_null (legacyRunReadOnlyReason r)).
Definition assertRunExecutable (r : run_row) : RunM unit := require_that (negb (isLegacyRunReadOnly r)) "legacy_run_read_only".

(** [binding.create({ id, ... })]; the ids asked for are recorded. *)
Definition create_instance (id : str) : RunM creation := λ w,
  (RunWorld (rw_db w) (rw_others w) (rw_clock w) (rw_uuids w) (tail (rw_creations w)) (rw_created w ++ [id]),
   Ok (default CreationFailed (head (rw_creations w)))).
Inductive launch_result := LAttached (id : option str) | LLaunched (id : str) | LInProgress (id : option str).
Definition instance_name (run : str) (gen : Z) : str := run ++ js "-g" ++ dec_of_Z gen.
Definition launch_unavailable {A} (run : str) (gen : Z) (instance : str) : RunM A :=
  recordWorkflowLaunchFailure run gen instance (js "The durable workflow could not be started.") ;;
  fails "workflow_launch_unavailable".
Definition launch_claimed (run : str) (gen : Z) (instance : str) : RunM launch_result :=
  answer ← create_instance instance;
  match answer with
  | Created id =>
      attached ← attempt (attachWorkflowInstance run gen instance);
      match attached with Ok _ => mret (LLaunched id) | Throw _ => launch_unavailable run gen instance end
  | DuplicateInstance => attachWorkflowInstance run gen instance ;; mret (LAttached (Some instance))
  | CreationFailed => launch_unavailable run gen instance
  end.
Definition ensureWorkflowLaunched (run : str) (gen : Z) : RunM launch_result :=
  detail ← getRun run;
  match detail with
  | None => fails "run_not_found"
  | Some d =>
      assertRunExecutable (de_run d) ;;
      '(claim, instance) ← claimWorkflowLaunch run gen (instance_name run gen);
      match claim with
      | TerminalRun => fails "invalid_launch_state"
      | AlreadyAttached => mret (LAttached instance)
      | LaunchInProgress => mret (LInProgress instance)
      | Claimed | StaleLaunchClaimed =>
          match instance with Some i => launch_claimed run gen i | None => fails "invalid_launch_state" end
      end
  end.
Definition reconcileWorkflowLaunch (d : run_detail) : RunM (option launch_result) :=
  let r := de_run d in
  assertRunExecutable r ;;
  match la_state (rr_launch r) with
  | Attached => mret None
  | Launching => if status_in terminal (rr_status r) then mret None
                 else x ← ensureWorkflowLaunched (run_id r) (generation r); mret (Some x)
  | _ => x ← ensureWorkflowLaunched (run_id r) (generation r); mret (Some x)
  end.

(** ** Approvals ([src/lib/workflow-approvals.ts]) *)

Section Approvals.
(** zod's [z.string().uuid()] *)
Variable is_uuid : str → bool.

Definition parse_request (id : str) : RunM unit := require_that (is_uuid id) "ZodError".
Definition approvalEventType (id : str) : RunM str := parse_request id ;; mret (js "approval-" ++ id).
(** [ORDER BY requested_at DESC LIMIT 1] *)
Definition requested_lt (a b : approval_row) : bool :=
  negb (str_leb (ai_requestedAt (ap_identity b)) (ai_requestedAt (ap_identity a))).
Definition active_approval (run : str) : RunM (option approval_row) :=
  query (λ d, greatest requested_lt (List.filter (λ a, str_eqb (ai_runId (ap_identity a)) run && is_null (ap_consumedAt a)) (db_approvals d))).
Definition get_approval (id : str) : RunM (option approval_row) :=
  parse_request id ;; query (λ d, List.find (λ a, str_eqb (ai_requestId (ap_identity a)) id) (db_approvals d)).

Record approval_input := ApprovalInput {
  in_runId : str;
  in_generation : Z;
  in_nodeId : str;
  in_activationId : str;
  in_interruptId : str;
  in_message : str;
  in_reviewText : str;
}.
Definition exact (a : approval_row) (i : approval_input) : bool :=
  str_eqb (ai_nodeId (ap_identity a)) (in_nodeId i) && str_eqb (ai_interruptId (ap_identity a)) (in_interruptId i) &&
  str_eqb (ai_message (ap_identity a)) (in_message i) && str_eqb (ai_reviewText (ap_identity a)) (in_reviewText i).
Definition find_request (i : approval_input) : RunM (option approval_row) :=
  query (λ d, List.find (λ a, str_eqb (ai_runId (ap_identity a)) (in_runId i) && (ai_generation (ap_identity a) =? in_generation i)%Z &&
                              str_eqb (ai_activationId (ap_identity a)) (in_activationId i)) (db_approvals d)).
Definition reuse (a : approval_row) (i : approval_input) : RunM approval_row :=
  require_that (exact a i) "approval_conflict" ;; mret a.
Definition recover_request (i : approval_input) : RunM approval_row :=
  existing ← find_request i;
  match existing with Some a => reuse a i | None => fails "approval_not_pending" end.
Definition require_approval (i : approval_input) : RunM approval_row :=
  require_that (negb ((262144 <? byte_length (in_reviewText i))%Z || (2000 <? length (in_message i))%nat ||
                      (256 <? length (in_activationId i))%nat || (256 <? length (in_interruptId i))%nat)) "approval_invalid" ;;
  existing ← find_request i;
  match existing with
  | Some a => reuse a i
  | None =>
      request ← randomUUID;
      t ← now;
      inserted ← attempt (write (InsertApproval (ApprovalIdentity request (in_runId i) (in_generation i) (in_nodeId i) (in_activationId i)
                                                   (in_interruptId i) (in_message i) (in_reviewText i) t)));
      match inserted with
      | Throw _ => recover_request i
      | Ok _ =>
          created ← get_approval request;
          match created with
          | None => recover_request i
          | Some a =>
              n ← write (AwaitApproval (in_nodeId i) t (in_runId i) (in_generation i));
              if (n =? 1)%Z then mret a else
              r ← query (λ d, db_runs d !! in_runId i);
              match r with
              | Some r => require_that (status_in [Cancelling; RunCancelled] (rr_status r) || filled_column (rr_cancelRequestedAt r)) "approval_not_pending" ;; mret a
              | None => fails "approval_not_pending"
              end
          end
      end
  end.

Record approval_answer := ApprovalAnswer { aa_approval : option approval_row; aa_idempotent : bool; aa_wakeRequired : bool }.
Definition approve (run request : str) : RunM approval_answer :=
  parse_request request ;;
  t ← now;
  n ← write (Approve t request run);
  approval ← get_approval request;
  if (n =? 1)%Z then mret (ApprovalAnswer approval false true) else
  match approval with
  | None => fails "approval_not_pending"
  | Some a =>
      if str_eqb (ai_runId (ap_identity a)) run then
        if ap_approved a then
          r ← query (λ d, db_runs d !! run);
          match r with
          | Some r =>
              require_that (negb (filled_column (rr_cancelRequestedAt r)) && negb (status_in [Cancelling; RunCancelled; RunFailed] (rr_status r))) "approval_not_pending" ;;
              mret (ApprovalAnswer approval true (negb (filled_column (ap_consumedAt a))))
          | None => fails "approval_not_pending"
          end
        else fails "approval_not_pending"
      else fails "approval_wrong_run"
  end.
Definition consume (run request : str) : RunM bool :=
  t ← now;
  counts ← batch [ResumeRun t run request; ConsumeApproval t request run];
  match counts with
  | [resumed; consumed] =>
      if negb (resumed =? 1)%Z then require_that (consumed =? 0)%Z "approval_consume_conflict" ;; mret false
      else require_that (consumed =? 1)%Z "approval_consume_conflict" ;; mret true
  | _ => mret false
  end.

(** ** Waiting for an approval ([waitForApprovalWake]) *)

Inductive wake := WakeApproved (request interrupt : str) | WakeCancelled.
Definition reconcileCancellation (run : str) : RunM bool :=
  detail ← getRun run;
  match detail with
  | Some (RunDetail r _) =>
      if negb (filled_column (rr_cancelRequestedAt r)) && negb (status_in [Cancelling; RunCancelled] (rr_status r)) then mret false
      else when (status_in [Cancelling] (rr_status r)) (cancelRun run) ;; mret true
  | None => mret false
  end.
Definition cancelled_wake (run : str) (status : option RunStatus) : RunM (option wake) :=
  when (bool_decide (status = Some Cancelling)) (cancelRun run) ;; mret (Some WakeCancelled).
(** One turn of the loop; [None] is another wait for the event. *)
Definition wake_turn (run request : str) : RunM (option wake) :=
  detail ← getRun run;
  durable ← get_approval request;
  match detail with
  | None => cancelled_wake run None
  | Some (RunDetail r _) =>
      if filled_column (rr_cancelRequestedAt r) || status_in [Cancelling; RunCancelled] (rr_status r) then cancelled_wake run (Some (rr_status r))
      else match durable with
           | None => fails "approval_not_pending"
           | Some a =>
               let answer := WakeApproved (ai_requestId (ap_identity a)) (ai_interruptId (ap_identity a)) in
               if ap_approved a then
                 if filled_column (ap_consumedAt a) then
                   require_that (status_in [Running] (rr_status r)) "approval_not_pending" ;; mret (Some answer)
                 else
                   done ← consume run (ai_requestId (ap_identity a));
                   if (done : bool) then mret (Some answer) else
                   again ← getRun run;
                   if has_status [Cancelling] again then cancelRun run ;; mret (Some WakeCancelled)
                   else fails "approval_consume_conflict"
               else mret None
           end
  end.
(** [fuel] bounds the number of waits. *)
Fixpoint wake_loop (fuel : nat) (run request : str) : RunM (option wake) :=
  match fuel with
  | O => mret None
  | S fuel => o ← wake_turn run request; match o with Some x => mret (Some x) | None => wake_loop fuel run request end
  end.
Definition waitForApprovalWake (fuel : nat) (i : approval_input) : RunM (option wake) :=
  require_that (nonempty (in_nodeId i) && nonempty (in_activationId i) && nonempty (in_interruptId i)) "approval_invalid" ;;
  cancelled ← reconcileCancellation (in_runId i);
  if (cancelled : bool) then mret (Some WakeCancelled) else
  required ← attempt (require_approval i);
  match required with
  | Ok a =>
      _ ← approvalEventType (ai_requestId (ap_identity a));
      wake_loop fuel (in_runId i) (ai_requestId (ap_identity a))
  | Throw e => again ← reconcileCancellation (in_runId i); if (again : bool) then mret (Some WakeCancelled) else throw e
  end.
End Approvals.
