(* ===== verification/RunFacts.v ===== *)
(** * Workflow runs: how the tables evolve

    Every statement of the storage, whoever issues it, takes the tables along
    [evolves]: attempts keep their identity and move forward only, an ended
    attempt and an ended run never change, an approval is consumed at most
    once. [run_wf] is the invariant of the tables. Since the relation is a
    preorder and the calls are made of statements, both hold through every
    call, fault and interleaving. *)

From S2P Require Import Prelude JsString Json Layout Libs D1 WorkflowPlan RunTables RunStorage.

(** ** Evolution *)

Definition step_ended (s : StepStatus) : bool := step_in [Succeeded; Failed; Cancelled] s.
Definition step_le (s t : StepStatus) : bool :=
  match s, t with
  | Pending, _ => true
  | Starting, Pending => false
  | Starting, _ => true
  | WaitingProvider, (Pending | Starting) => false
  | WaitingProvider, _ => true
  | _, _ => bool_decide (s = t)
  end.
Record attempt_evolves (a b : attempt_row) : Prop := {
  ae_identity : at_key b = at_key a ∧ at_activation b = at_activation a ∧ at_agent b = at_agent a ∧ at_connection b = at_connection a;
  ae_status : step_le (at_status a) (at_status b) = true;
  ae_task : ∀ t, at_task a = Some t → at_task b = Some t;
  ae_source : ∀ s, at_source a = Some s → at_source b = Some s;
  ae_polls : (at_polls a <= at_polls b)%Z;
  ae_input : at_status a ≠ Pending → at_input b = at_input a ∧ at_startedAt b = at_startedAt a;
  ae_ended : step_ended (at_status a) = true → b = a;
}.

(** A run that has succeeded or was cancelled, and is not being launched *)
Definition ended (r : run_row) : Prop := (rr_status r = RunSucceeded ∨ rr_status r = RunCancelled) ∧ la_state (rr_launch r) ≠ Launching.
Record run_evolves (r s : run_row) : Prop := {
  rv_frozen : rr_frozen s = rr_frozen r;
  rv_generation : (generation r <= generation s)%Z;
  rv_version : (rr_version r <= rr_version s)%Z;
  rv_cancel : ∀ t, rr_cancelRequestedAt r = Some t → rr_cancelRequestedAt s = Some t;
  rv_started : ∀ t, rr_startedAt r = Some t → rr_startedAt s = Some t;
  rv_ended : ended r → s = r;
}.
Record approval_evolves (a b : approval_row) : Prop := {
  pe_identity : ap_identity b = ap_identity a;
  pe_approved : ap_approved a = true → ap_approved b = true;
  pe_approvedAt : ∀ t, ap_approvedAt a = Some t → ap_approvedAt b = Some t;
  pe_consumed : ∀ t, ap_consumedAt a = Some t → ap_consumedAt b = Some t;
}.

Definition run_ended (d : run_db) (id : str) : Prop := ∃ r, db_runs d !! id = Some r ∧ ended r.
Definition idle (s : StepStatus) : Prop := s = Pending ∨ s = Cancelled.
(** A pending attempt of an ended run is never started. *)
Definition attempt_moves (d : run_db) (a b : attempt_row) : Prop :=
  attempt_evolves a b ∧ (run_ended d (ak_run (at_key a)) → at_status a = Pending → idle (at_status b)).
Record evolves (d e : run_db) : Prop := {
  ev_runs : ∀ id r, db_runs d !! id = Some r → ∃ s, db_runs e !! id = Some s ∧ run_evolves r s;
  ev_attempts : ∃ old new, db_attempts e = old ++ new ∧ Forall2 (attempt_moves d) (db_attempts d) old ∧
                  ∀ b, b ∈ new → run_ended d (ak_run (at_key b)) → idle (at_status b);
  ev_approvals : ∃ old new, db_approvals e = old ++ new ∧ Forall2 approval_evolves (db_approvals d) old;
}.

#[export] Instance attempt_evolves_preorder : PreOrder attempt_evolves.
Proof.
  split.
  - intros a. split; auto; [by destruct (at_status a)|lia].
  - intros a b c [[A1 [A2 [A3 A4]]] A5 A6 A7 A8 A9 A10] [[B1 [B2 [B3 B4]]] B5 B6 B7 B8 B9 B10]. split; auto.
    + split_and!; congruence.
    + by destruct (at_status a), (at_status b), (at_status c).
    + lia.
    + intros Ha. assert (at_status b ≠ Pending) as Hb by (intros Hb; rewrite Hb in A5; by destruct (at_status a)).
      destruct (A9 Ha), (B9 Hb). split; congruence.
    + intros Ha. specialize (A10 Ha) as ->. auto.
Qed.
#[export] Instance run_evolves_preorder : PreOrder run_evolves.
Proof.
  split.
  - intros r. split; auto; lia.
  - intros r s t [A1 A2 A3 A4 A5 A6] [B1 B2 B3 B4 B5 B6]. split; auto; [congruence|lia..|].
    intros H. specialize (A6 H) as ->. auto.
Qed.
#[export] Instance approval_evolves_preorder : PreOrder approval_evolves.
Proof. split; [intros a; by split|]. intros a b c [A1 A2 A3 A4] [B1 B2 B3 B4]. split; auto. congruence. Qed.

Lemma run_ended_evolves d e id : evolves d e → run_ended d id → run_ended e id.
Proof.
  intros H (r & Hr & He). destruct (ev_runs d e H id r Hr) as (s & Hs & Hv). exists s. by rewrite (rv_ended _ _ Hv He) in *.
Qed.
Lemma moves_trans d e : evolves d e → ∀ a b c, attempt_moves d a b → attempt_moves e b c → attempt_moves d a c.
Proof.
  intros He a b c [H1 H2] [H3 H4]. split; [by transitivity b|]. intros Hr Ha.
  destruct (ae_identity _ _ H1) as [Hk _]. destruct (H2 Hr Ha) as [Hb|Hb].
  - apply H4; [rewrite Hk; by eapply run_ended_evolves|done].
  - right. rewrite (ae_ended _ _ H3); [done|by rewrite Hb].
Qed.
Lemma idle_moves d b c : attempt_moves d b c → run_ended d (ak_run (at_key b)) → idle (at_status b) → idle (at_status c).
Proof.
  intros [H1 H2] Hr [Hb|Hb]; [by apply H2|]. right. rewrite (ae_ended _ _ H1); [done|by rewrite Hb].
Qed.

Lemma moves_refl d a : attempt_moves d a a.
Proof. split; [done|]. intros _ H. by left. Qed.
Lemma Forall2_each {A} (R : A → A → Prop) l : (∀ a, R a a) → Forall2 R l l.
Proof. intros H. induction l; by constructor. Qed.
Lemma Forall2_compose {A B C} (P : A → B → Prop) (Q : B → C → Prop) (R : A → C → Prop) l k m :
  (∀ a b c, P a b → Q b c → R a c) → Forall2 P l k → Forall2 Q k m → Forall2 R l m.
Proof.
  intros H Hl. revert m. induction Hl as [|a b l k Hab Hl IH]; intros m Hm; [by apply Forall2_nil_inv_l in Hm as ->; constructor|].
  apply Forall2_cons_inv_l in Hm as (c & m' & Hbc & Hm & ->). constructor; [by eapply H|by apply IH].
Qed.
Lemma grown_compose {A} (P Q R : A → A → Prop) (l m n o1 n1 o2 n2 : list A) :
  (∀ a b c, P a b → Q b c → R a c) → m = o1 ++ n1 → Forall2 P l o1 → n = o2 ++ n2 → Forall2 Q m o2 →
  ∃ x y, n = (x ++ y) ++ n2 ∧ Forall2 R l x ∧ Forall2 Q n1 y.
Proof.
  intros Hc -> Hl -> Hq. apply Forall2_app_inv_l in Hq as (x & y & Hx & Hy & ->). exists x, y.
  split; [done|]. split; [by eapply Forall2_compose|done].
Qed.
#[export] Instance evolves_preorder : PreOrder evolves.
Proof.
  split.
  - intros d. split; [intros id r Hr; by exists r| |].
    + exists (db_attempts d), []. rewrite app_nil_r. split; [done|]. split; [|by intros b ?%elem_of_nil].
      apply Forall2_each, moves_refl.
    + exists (db_approvals d), []. rewrite app_nil_r. split; [done|]. by apply Forall2_each.
  - intros d e f Hde Hef. split.
    + intros id r Hr. destruct (ev_runs _ _ Hde id r Hr) as (s & Hs & H1). destruct (ev_runs _ _ Hef id s Hs) as (t & Ht & H2).
      exists t. split; [done|by transitivity s].
    + destruct (ev_attempts _ _ Hde) as (o1 & n1 & E1 & F1 & G1). destruct (ev_attempts _ _ Hef) as (o2 & n2 & E2 & F2 & G2).
      destruct (grown_compose _ _ (attempt_moves d) _ _ _ _ _ _ _ (moves_trans d e Hde) E1 F1 E2 F2) as (x & y & -> & Hx & Hy).
      exists x, (y ++ n2). rewrite (assoc_L (++)). split; [done|]. split; [done|].
      intros b [Hb|Hb]%elem_of_app Hr; [|apply G2; [done|by eapply run_ended_evolves]].
      apply list_elem_of_lookup in Hb as [i Hb]. destruct (Forall2_lookup_r _ _ _ _ _ Hy Hb) as (a & Ha & Hab).
      pose proof (ae_identity _ _ (proj1 Hab)) as [Hk _]. rewrite Hk in Hr. eapply idle_moves; [exact Hab|by eapply run_ended_evolves|].
      apply G1; [by eapply list_elem_of_lookup_2|done].
    + destruct (ev_approvals _ _ Hde) as (o1 & n1 & E1 & F1). destruct (ev_approvals _ _ Hef) as (o2 & n2 & E2 & F2).
      destruct (grown_compose approval_evolves approval_evolves approval_evolves _ _ _ _ _ _ _ ltac:(intros a b c; apply transitivity) E1 F1 E2 F2)
        as (x & y & -> & Hx & _). exists x, (y ++ n2). by rewrite (assoc_L (++)).
Qed.

(** ** Statements *)

Lemma status_in_true l s : status_in l s = true ↔ s ∈ l.
Proof.
  unfold status_in. rewrite existsb_exists. setoid_rewrite <-list_elem_of_In. setoid_rewrite bool_decide_eq_true. naive_solver.
Qed.
Lemma step_in_true l s : step_in l s = true ↔ s ∈ l.
Proof.
  unfold step_in. rewrite existsb_exists. setoid_rewrite <-list_elem_of_In. setoid_rewrite bool_decide_eq_true. naive_solver.
Qed.
Lemma launch_in_true l s : launch_in l s = true ↔ s ∈ l.
Proof.
  unfold launch_in. rewrite existsb_exists. setoid_rewrite <-list_elem_of_In. setoid_rewrite bool_decide_eq_true. naive_solver.
Qed.
Ltac cond_cases H :=
  unfold active, started_states, terminal in H; repeat rewrite ?andb_true_iff, ?orb_true_iff, ?negb_true_iff, ?status_in_true, ?step_in_true, ?launch_in_true, ?Z.eqb_eq, ?elem_of_cons, ?elem_of_nil in H.

Lemma map_forall2 {A} (R : A → A → Prop) (cond : A → bool) (f : A → A) l :
  (∀ a, R a a) → (∀ a, a ∈ l → cond a = true → R a (f a)) → Forall2 R l (map (λ a, if cond a then f a else a) l).
Proof.
  intros Hr Hf. induction l as [|a l IH]; constructor.
  - destruct (cond a) eqn:E; [apply Hf; [by left|done]|done].
  - apply IH. intros x Hx. apply Hf. by right.
Qed.
Lemma evolves_runs (d : run_db) m : (∀ id r, db_runs d !! id = Some r → ∃ s, m !! id = Some s ∧ run_evolves r s) →
  evolves d (RunDb m (db_attempts d) (db_approvals d)).
Proof.
  intros H. destruct (reflexivity d : evolves d d) as [_ H1 H2]. by split.
Qed.
Lemma update_run_evolves id cond f d : (∀ r, cond r = true → run_evolves r (f r)) → evolves d (update_run id cond f d).1.
Proof.
  intros H. unfold update_run. destruct (db_runs d !! id) as [r|] eqn:E; [|done]. destruct (cond r) eqn:Ec; [|done]. cbn.
  apply evolves_runs. intros id' r' Hr. destruct (decide (id' = id)) as [->|Hne].
  - rewrite lookup_insert_eq. exists (f r). split; [done|]. rewrite E in Hr. injection Hr as <-. by apply H.
  - rewrite lookup_insert_ne by done. by exists r'.
Qed.
Lemma update_where_evolves cond f d :
  (∀ a, cond a = true → attempt_moves d a (f a)) → evolves d (update_where cond f d).1.
Proof.
  intros H. destruct (reflexivity d : evolves d d) as [H1 _ H2]. split; [done| |done]. cbn.
  exists (map (λ a, if cond a then f a else a) (db_attempts d)), []. rewrite app_nil_r. split; [done|].
  split; [|by intros b ?%elem_of_nil]. apply map_forall2; [apply moves_refl|auto].
Qed.
Lemma insert_attempt_evolves a d : at_status a = Pending → evolves d (insert_attempt a d).1.
Proof.
  intros H. unfold insert_attempt. destruct (_ || _); [done|]. destruct (reflexivity d : evolves d d) as [H1 _ H2].
  split; [done| |done]. cbn. exists (db_attempts d), [a]. split; [done|]. split.
  - apply Forall2_each, moves_refl.
  - intros b ->%list_elem_of_singleton _. by left.
Qed.
Lemma insert_retry_evolves k cond d : evolves d (insert_retry k cond d).1.
Proof. unfold insert_retry. destruct (List.find _ _); [|done]. by apply insert_attempt_evolves. Qed.
Lemma update_approval_evolves cond f d :
  (∀ a, cond a = true → approval_evolves a (f a)) → evolves d (update_approval cond f d).1.
Proof.
  intros H. destruct (reflexivity d : evolves d d) as [H1 H2 _]. split; [done|done|]. cbn.
  exists (map (λ a, if cond a then f a else a) (db_approvals d)), []. rewrite app_nil_r. split; [done|]. apply map_forall2; [done|auto].
Qed.

(** *** The columns a statement sets *)

Lemma run_columns r s :
  rr_frozen s = rr_frozen r → (generation r <= generation s)%Z → (rr_version r <= rr_version s)%Z →
  (∀ t, rr_cancelRequestedAt r = Some t → rr_cancelRequestedAt s = Some t) →
  (∀ t, rr_startedAt r = Some t → rr_startedAt s = Some t) →
  (rr_status r ≠ RunSucceeded ∧ rr_status r ≠ RunCancelled) ∨ la_state (rr_launch r) = Launching → run_evolves r s.
Proof. intros. split; auto. intros [Hs Hl]. naive_solver. Qed.
Ltac run_update := apply update_run_evolves; intros r Hc; cond_cases Hc; apply run_columns; cbn; try done; try lia;
  try (by intros t ->); destruct (rr_status r); naive_solver.

Lemma attempt_columns d a b :
  at_key b = at_key a → at_activation b = at_activation a → at_agent b = at_agent a → at_connection b = at_connection a →
  step_le (at_status a) (at_status b) = true → (∀ t, at_task a = Some t → at_task b = Some t) →
  (∀ s, at_source a = Some s → at_source b = Some s) → (at_polls a <= at_polls b)%Z →
  (at_status a ≠ Pending → at_input b = at_input a ∧ at_startedAt b = at_startedAt a) →
  step_ended (at_status a) = false → (run_ended d (ak_run (at_key a)) → at_status a = Pending → idle (at_status b)) →
  attempt_moves d a b.
Proof. intros. split; [split; auto; congruence|done]. Qed.
Ltac attempt_update := apply update_where_evolves; intros a Hc; cond_cases Hc; apply attempt_columns; cbn; try done; try lia;
  try (by intros t Ht; rewrite Ht in Hc; naive_solver); unfold idle; destruct (at_status a); naive_solver.

Lemma attach_evolves instance now id gen d : evolves d (attach_run instance now id gen d).1.
Proof. unfold attach_run. destruct (_ && _); [done|]. run_update. Qed.

Lemma claim_evolves input now k d : evolves d (exec_write (ClaimAttempt input now k) d).1.
Proof.
  apply update_where_evolves. intros a Hc. cond_cases Hc. destruct Hc as (Hk & [Hs|[]] & He). apply bool_decide_eq_true in Hk.
  apply attempt_columns; cbn; try done; try lia; rewrite ?Hs; try done. intros (r & Hr & [Hd _]) _. exfalso.
  unfold exists_run in He. rewrite <-Hk, Hr in He. cond_cases He.
  destruct Hd as [Hd|Hd]; rewrite Hd in He; destruct He as [[_ [|[|[]]]] _]; done.
Qed.

Lemma exec_write_evolves w d : evolves d (exec_write w d).1.
Proof.
  destruct w; cbn [exec_write];
    try solve [apply attach_evolves | apply insert_retry_evolves | apply claim_evolves | run_update | attempt_update].
  - destruct (_ || _) eqn:E; [done|]. cbn. apply orb_false_iff in E as [E _]. apply negb_false_iff in E.
    apply evolves_runs. intros id s Hs. exists s. split; [|done]. rewrite lookup_insert_ne; [done|]. intros Hid. by rewrite Hid, Hs in E.
  - destruct (_ && _); [|done]. by apply insert_attempt_evolves.
  - destruct (exists_run _ _ d); [|done]. unfold insert_approval. destruct (_ || _); [done|].
    destruct (reflexivity d : evolves d d) as [H1 H2 _]. split; [done|done|]. exists (db_approvals d), [ApprovalRow i false None None].
    split; [done|]. by apply Forall2_each.
  - apply update_approval_evolves. intros a Hc. split; cbn; try done. by intros t ->.
  - apply update_approval_evolves. intros a Hc. split; cbn; try done. intros t Ht. unfold open_approval in Hc. rewrite Ht in Hc.
    cond_cases Hc. naive_solver.
Qed.
