(* ===== verification/RunWf.v ===== *)
(** * Workflow runs: the invariant of the tables

    [run_wf] is preserved by every statement the storage issues: attempts have
    distinct keys and at most ten tries, a retry follows a failed try of the
    same activation, an activation keeps its iteration, a succeeded run has a
    succeeded attempt, an instance is named after its run and generation, and
    an approval is consumed only when approved. *)

From S2P Require Import Prelude JsString Json Layout Libs D1 WorkflowPlan RunTables RunStorage RunFacts.

Record attempts_wf (l : list attempt_row) : Prop := {
  aw_keys : NoDup (map at_key l);
  aw_bounds : ∀ a, a ∈ l → (1 <= ak_iteration (at_key a) ∧ 1 <= ak_attempt (at_key a) <= 10)%Z;
  aw_retry : ∀ a, a ∈ l → (1 < ak_attempt (at_key a))%Z →
    ∃ b, b ∈ l ∧ at_key a = next_key (at_key b) ∧ at_status b = Failed ∧ at_activation b = at_activation a;
  aw_activation : ∀ a b act, a ∈ l → b ∈ l → ak_run (at_key a) = ak_run (at_key b) → ak_step (at_key a) = ak_step (at_key b) →
    at_activation a = Some act → at_activation b = Some act → ak_iteration (at_key a) = ak_iteration (at_key b);
}.
Record approvals_wf (l : list approval_row) : Prop := {
  pw_requests : NoDup (map (λ a, ai_requestId (ap_identity a)) l);
  pw_consumed : ∀ a, a ∈ l → is_Some (ap_consumedAt a) → ap_approved a = true;
}.
Definition named (id : str) (l : launch_columns) : Prop :=
  (∀ x, la_reserved l = Some x → x = instance_name id (la_generation l)) ∧
  (∀ x, la_instance l = Some x → x = instance_name id (la_generation l)).
Definition has_success (l : list attempt_row) (id : str) : Prop :=
  ∃ a, a ∈ l ∧ ak_run (at_key a) = id ∧ at_status a = Succeeded.
Record run_wf (d : run_db) : Prop := {
  rw_ids : ∀ id r, db_runs d !! id = Some r → run_id r = id;
  rw_named : ∀ id r, db_runs d !! id = Some r → named id (rr_launch r);
  rw_success : ∀ id r, db_runs d !! id = Some r → rr_status r = RunSucceeded → has_success (db_attempts d) id;
  rw_owned : ∀ a, a ∈ db_attempts d → is_Some (db_runs d !! ak_run (at_key a));
  rw_attempts : attempts_wf (db_attempts d);
  rw_approvals : approvals_wf (db_approvals d);
}.

(** The statements that the storage issues *)
Definition issuable (w : sql_write) : Prop :=
  match w with
  | InsertRun r => ∃ r0, r = inserted_run r0
  | ClaimLaunch instance _ id gen => instance = instance_name id gen
  | RetryActivation _ k | RetryCurrent k | RetryManual k => (ak_attempt k < 10)%Z
  | _ => True
  end.

(** ** Attempts *)

Lemma evolved_elem {A} (R : A → A → Prop) l k b : Forall2 R l k → b ∈ k → ∃ a, a ∈ l ∧ R a b.
Proof. intros H (i & Hi)%list_elem_of_lookup. destruct (Forall2_lookup_r _ _ _ _ _ H Hi) as (a & Ha & HP). eauto using list_elem_of_lookup_2. Qed.
Lemma evolved_from {A} (R : A → A → Prop) l k a : Forall2 R l k → a ∈ l → ∃ b, b ∈ k ∧ R a b.
Proof. intros H (i & Hi)%list_elem_of_lookup. destruct (Forall2_lookup_l _ _ _ _ _ H Hi) as (b & Hb & HP). eauto using list_elem_of_lookup_2. Qed.
Lemma evolved_keys l k : Forall2 attempt_evolves l k → map at_key k = map at_key l.
Proof. induction 1 as [|a b l k [(Hk & _) _ _ _ _ _ _] _ IH]; cbn; [done|]. by rewrite Hk, IH. Qed.
Lemma attempts_evolve_wf l k : Forall2 attempt_evolves l k → attempts_wf l → attempts_wf k.
Proof.
  intros H [W1 W2 W3 W4]. split.
  - by rewrite (evolved_keys _ _ H).
  - intros b (a & Ha & [(-> & _) _ _ _ _ _ _])%(evolved_elem _ _ _ _ H). auto.
  - intros b (a & Ha & [(Hk & Hact & _) _ _ _ _ _ _])%(evolved_elem _ _ _ _ H) Hlt. rewrite Hk in Hlt |- *.
    destruct (W3 a Ha Hlt) as (p & Hp & Hpk & Hps & Hpa). destruct (evolved_from _ _ _ _ H Hp) as (q & Hq & Hpq).
    exists q. rewrite (ae_ended _ _ Hpq) in * by (by rewrite Hps). split_and!; [done..|congruence].
  - intros b b' act (a & Ha & [(Hk & Hact & _) _ _ _ _ _ _])%(evolved_elem _ _ _ _ H) (a' & Ha' & [(Hk' & Hact' & _) _ _ _ _ _ _])%(evolved_elem _ _ _ _ H).
    rewrite Hk, Hk', Hact, Hact'. by apply W4.
Qed.
Lemma success_evolves l k id : Forall2 attempt_evolves l k → has_success l id → has_success k id.
Proof.
  intros H (a & Ha & Hr & Hs). destruct (evolved_from _ _ _ _ H Ha) as (b & Hb & Hab). exists b.
  rewrite (ae_ended _ _ Hab) in * by (by rewrite Hs). done.
Qed.

Lemma attempts_insert_wf l a :
  attempts_wf l → at_key a ∉ map at_key l → (1 <= ak_iteration (at_key a) ∧ 1 <= ak_attempt (at_key a) <= 10)%Z →
  ((1 < ak_attempt (at_key a))%Z → ∃ b, b ∈ l ∧ at_key a = next_key (at_key b) ∧ at_status b = Failed ∧ at_activation b = at_activation a) →
  (∀ b act, b ∈ l → ak_run (at_key b) = ak_run (at_key a) → ak_step (at_key b) = ak_step (at_key a) →
     at_activation b = Some act → at_activation a = Some act → ak_iteration (at_key b) = ak_iteration (at_key a)) →
  attempts_wf (l ++ [a]).
Proof.
  intros [W1 W2 W3 W4] Hk Hb Hr Ha. split.
  - rewrite map_app. apply NoDup_app. split_and!; [done| |apply NoDup_singleton]. by intros x Hx ->%list_elem_of_singleton.
  - intros b [H| ->%list_elem_of_singleton]%elem_of_app; auto.
  - intros b [H| ->%list_elem_of_singleton]%elem_of_app Hlt; [destruct (W3 b H Hlt) as (p & Hp & Hrest)|destruct (Hr Hlt) as (p & Hp & Hrest)];
      exists p; (split; [apply elem_of_app; by left|done]).
  - intros b b' act [H| ->%list_elem_of_singleton]%elem_of_app [H'| ->%list_elem_of_singleton]%elem_of_app; eauto.
    intros ? ? ? ?. symmetry. eauto.
Qed.

Section Step.
Variable d : run_db.
Hypothesis Hwf : run_wf d.

Lemma update_run_wf id cond f :
  (∀ r, db_runs d !! id = Some r → cond r = true → rr_frozen (f r) = rr_frozen r ∧ (named id (rr_launch r) → named id (rr_launch (f r))) ∧
     (rr_status (f r) = RunSucceeded → rr_status r = RunSucceeded ∨ has_success (db_attempts d) id)) →
  run_wf (update_run id cond f d).1.
Proof.
  intros H. unfold update_run. destruct (db_runs d !! id) as [r|] eqn:E; [|done]. destruct (cond r) eqn:Ec; [|done]. cbn.
  destruct (H r eq_refl Ec) as (H1 & H2 & H3). destruct Hwf as [W1 W2 W3 W4 W5 W6]. split; cbn; try done.
  - intros id' s. destruct (decide (id' = id)) as [->|Hne]; [|rewrite lookup_insert_ne by done; by apply W1].
    rewrite lookup_insert_eq. intros [= <-]. unfold run_id. rewrite H1. by apply (W1 _ _ E).
  - intros id' s. destruct (decide (id' = id)) as [->|Hne]; [|rewrite lookup_insert_ne by done; by apply W2].
    rewrite lookup_insert_eq. intros [= <-]. by apply H2, W2.
  - intros id' s. destruct (decide (id' = id)) as [->|Hne]; [|rewrite lookup_insert_ne by done; by apply W3].
    rewrite lookup_insert_eq. intros [= <-] Hs. destruct (H3 Hs) as [Ho|Ho]; [by apply (W3 _ _ E)|done].
  - intros a Ha. destruct (decide (ak_run (at_key a) = id)) as [->|Hne]; [rewrite lookup_insert_eq; eauto|].
    rewrite lookup_insert_ne by done. by apply W4.
Qed.
Lemma update_where_wf cond f : (∀ a, cond a = true → attempt_evolves a (f a)) → run_wf (update_where cond f d).1.
Proof.
  intros H. assert (Forall2 attempt_evolves (db_attempts d) (map (λ a, if cond a then f a else a) (db_attempts d))) as Hf
    by (apply map_forall2; [done|auto]).
  destruct Hwf as [W1 W2 W3 W4 W5 W6]. split; cbn; try done.
  - intros id r Hr Hs. eapply success_evolves; [exact Hf|by eapply W3].
  - intros b (a & Ha & [(-> & _) _ _ _ _ _ _])%(evolved_elem _ _ _ _ Hf). by apply W4.
  - by eapply attempts_evolve_wf.
Qed.

Lemma insert_attempt_wf a :
  (1 <= ak_iteration (at_key a) ∧ 1 <= ak_attempt (at_key a) <= 10)%Z →
  ((1 < ak_attempt (at_key a))%Z → ∃ b, b ∈ db_attempts d ∧ at_key a = next_key (at_key b) ∧ at_status b = Failed ∧ at_activation b = at_activation a) →
  (∀ b act, b ∈ db_attempts d → ak_run (at_key b) = ak_run (at_key a) → ak_step (at_key b) = ak_step (at_key a) →
     at_activation b = Some act → at_activation a = Some act → ak_iteration (at_key b) = ak_iteration (at_key a)) →
  run_wf (insert_attempt a d).1.
Proof.
  intros Hb Hr Ha. unfold insert_attempt. destruct (_ || _) eqn:E; [done|]. apply orb_false_iff in E as [E1 E2].
  destruct Hwf as [W1 W2 W3 W4 W5 W6]. split; cbn; try done.
  - intros id r Hid Hs. destruct (W3 id r Hid Hs) as (b & Hb' & ?). exists b. split; [apply elem_of_app; by left|done].
  - intros b [H| ->%list_elem_of_singleton]%elem_of_app; [by apply W4|]. by destruct (db_runs d !! ak_run (at_key a)).
  - apply attempts_insert_wf; try done. intros (b & Hk & Hin)%list_elem_of_fmap.
    apply not_true_iff_false in E1. apply E1, existsb_exists. exists b. rewrite <-list_elem_of_In. split; [done|].
    apply orb_true_iff. left. by apply bool_decide_eq_true.
Qed.
Lemma insert_retry_wf k cond :
  (ak_attempt k < 10)%Z → (∀ a, cond a = true → at_status a = Failed) → run_wf (insert_retry k cond d).1.
Proof.
  intros Hk Hc. unfold insert_retry. destruct (List.find _ _) as [a|] eqn:E; [|done].
  apply find_some in E as [Ha%list_elem_of_In [Hak%bool_decide_eq_true Hs%Hc]%andb_true_iff].
  pose proof (rw_attempts _ Hwf) as [W1 W2 W3 W4]. pose proof (W2 a Ha) as Hb. apply insert_attempt_wf; cbn.
  - rewrite <-Hak in Hk. lia.
  - intros _. by exists a.
  - intros b act Hin Hr Hst Hba Haa. by eapply W4.
Qed.
Lemma max_iteration_bound run step : (0 <= max_iteration run step d)%Z ∧
  ∀ a, a ∈ db_attempts d → of_step run step a = true → (ak_iteration (at_key a) <= max_iteration run step d)%Z.
Proof.
  unfold max_iteration. pose proof (aw_bounds _ (rw_attempts _ Hwf)) as Hb.
  assert (∀ i, i ∈ map (λ a, ak_iteration (at_key a)) (List.filter (of_step run step) (db_attempts d)) → (1 <= i)%Z) as Hp.
  { intros i (a & -> & [Ha%list_elem_of_In _]%list_elem_of_In%filter_In)%list_elem_of_fmap. apply Hb. by apply Ha. }
  assert (∀ i l x, x ∈ i :: l → (x <= foldr Z.max i l)%Z) as Hmax.
  { intros i l. induction l as [|y l IH]; intros x; [intros ->%list_elem_of_singleton; cbn; lia|].
    rewrite !elem_of_cons. cbn. intros [->|[->|Hx]]; [specialize (IH i ltac:(by left)); lia|lia|specialize (IH x ltac:(by right)); lia]. }
  assert (∀ a, a ∈ db_attempts d → of_step run step a = true →
    ak_iteration (at_key a) ∈ map (λ a, ak_iteration (at_key a)) (List.filter (of_step run step) (db_attempts d))) as Hin.
  { intros a Ha Hs. apply list_elem_of_fmap. exists a. split; [done|]. apply list_elem_of_In, filter_In. by rewrite <-list_elem_of_In. }
  destruct (map _ _) as [|i l] eqn:El.
  - split; [lia|]. intros a Ha Hs. by apply Hin in Ha as []%elem_of_nil.
  - split; [|intros a Ha Hs; by apply Hmax, Hin]. specialize (Hp i ltac:(by left)). specialize (Hmax i l i ltac:(by left)). lia.
Qed.
End Step.

(** ** Statements *)

Lemma named_same id l m : la_generation m = la_generation l → la_reserved m = la_reserved l → la_instance m = la_instance l → named id l → named id m.
Proof. intros E1 E2 E3 [H1 H2]. split; rewrite E1, ?E2, ?E3; done. Qed.
Ltac run_row_update Hwf := apply (update_run_wf _ Hwf); intros r Hr Hc; cond_cases Hc; split; [done|split; [by apply named_same|cbn; try done; auto]].
Ltac attempt_row_update Hwf := apply (update_where_wf _ Hwf); intros a Hc;
  refine (proj1 (_ : attempt_moves (RunDb ∅ [] []) a _)); cond_cases Hc; apply attempt_columns; cbn; try done; try lia;
  try (by intros t Ht; rewrite Ht in Hc; naive_solver); unfold idle; destruct (at_status a); naive_solver.

Lemma claim_attempt_wf d input now k : run_wf d → run_wf (exec_write (ClaimAttempt input now k) d).1.
Proof.
  intros Hwf. apply (update_where_wf _ Hwf). intros a Hc. cond_cases Hc. destruct Hc as (_ & [Hs|[]] & _).
  split; cbn; rewrite ?Hs; try done; lia.
Qed.
Lemma attach_wf d instance now id gen : run_wf d → run_wf (attach_run instance now id gen d).1.
Proof.
  intros Hwf. unfold attach_run. destruct (_ && _); [done|]. apply (update_run_wf _ Hwf). intros r Hr Hc. split; [done|]. split; [|done].
  intros [H1 H2]. apply andb_true_iff in Hc as [_ Hres]. destruct (la_reserved (rr_launch r)) as [x|] eqn:Ex; [|done].
  apply str_eqb_eq in Hres as ->. split; cbn; [rewrite ?Ex; exact H1|]. intros y [= <-]. by apply H1.
Qed.
Lemma insert_run_wf d r : run_wf d → run_wf (exec_write (InsertRun (inserted_run r)) d).1.
Proof.
  intros Hwf. cbn [exec_write]. destruct (_ || _) eqn:E; [done|]. apply orb_false_iff in E as [E _]. apply negb_false_iff in E.
  destruct (db_runs d !! run_id (inserted_run r)) eqn:El; [done|]. destruct Hwf as [W1 W2 W3 W4 W5 W6]. split; cbn; try done.
  - intros id s. destruct (decide (id = run_id (inserted_run r))) as [->|Hne]; [rewrite lookup_insert_eq; by intros [= <-]|].
    rewrite lookup_insert_ne by done. apply W1.
  - intros id s. destruct (decide (id = run_id (inserted_run r))) as [->|Hne]; [rewrite lookup_insert_eq; by intros [= <-]|].
    rewrite lookup_insert_ne by done. apply W2.
  - intros id s. destruct (decide (id = run_id (inserted_run r))) as [->|Hne]; [rewrite lookup_insert_eq; by intros [= <-]|].
    rewrite lookup_insert_ne by done. apply W3.
  - intros a Ha. apply W4 in Ha. destruct (decide (run_id (inserted_run r) = ak_run (at_key a))) as [->|Hne]; [rewrite lookup_insert_eq; eauto|].
    by rewrite lookup_insert_ne.
Qed.
Lemma insert_activation_wf d run step act agent connection : run_wf d → run_wf (exec_write (InsertActivation run step act agent connection) d).1.
Proof.
  intros Hwf. cbn [exec_write]. destruct (_ && _) eqn:E; [|done]. apply andb_true_iff in E as [E _]. apply negb_true_iff in E.
  destruct (max_iteration_bound d Hwf run step) as [Hm _]. apply (insert_attempt_wf d Hwf); cbn; [lia|intros; lia|].
  intros b act' Hb Hr Hs Ha [= <-]. exfalso. apply not_true_iff_false in E. apply E. unfold exists_attempt. apply existsb_exists.
  exists b. rewrite <-list_elem_of_In. split; [done|]. unfold of_activation, of_step. rewrite Hr, Hs, Ha. cbn [opt_is]. by rewrite !str_eqb_refl.
Qed.
Lemma approvals_update_wf d cond f :
  run_wf d → (∀ a, cond a = true → ap_identity (f a) = ap_identity a ∧ (is_Some (ap_consumedAt (f a)) → ap_approved (f a) = true)) →
  run_wf (update_approval cond f d).1.
Proof.
  intros [W1 W2 W3 W4 W5 [P1 P2]] H. split; cbn; try done. split.
  - replace (map (λ a, ai_requestId (ap_identity a)) (map (λ a, if cond a then f a else a) (db_approvals d)))
      with (map (λ a, ai_requestId (ap_identity a)) (db_approvals d)); [done|].
    clear -H. induction (db_approvals d) as [|a l IH]; cbn; [done|]. rewrite IH. f_equal. destruct (cond a) eqn:E; [|done].
    by destruct (H a E) as [-> _].
  - intros b (a & -> & Ha)%list_elem_of_fmap. destruct (cond a) eqn:E; [by apply H|by apply P2].
Qed.
Lemma insert_approval_wf d i : run_wf d → run_wf (insert_approval i d).1.
Proof.
  intros Hwf. unfold insert_approval. destruct (_ || _) eqn:E; [done|]. apply orb_false_iff in E as [E _].
  destruct Hwf as [W1 W2 W3 W4 W5 [P1 P2]]. split; cbn; try done. split.
  - rewrite map_app. apply NoDup_app. split_and!; [done| |apply NoDup_singleton]. intros x (a & -> & Ha)%list_elem_of_fmap Hx.
    apply list_elem_of_singleton in Hx. cbn in Hx. apply not_true_iff_false in E. apply E, existsb_exists. exists a.
    rewrite <-list_elem_of_In. split; [done|]. unfold same_request. by rewrite Hx, str_eqb_refl.
  - intros b [H| ->%list_elem_of_singleton]%elem_of_app; [by apply P2|]. by intros [? ?].
Qed.

Lemma exec_write_wf w d : issuable w → run_wf d → run_wf (exec_write w d).1.
Proof.
  intros Hi Hwf. destruct w; cbn [exec_write]; cbn [issuable] in Hi;
    try solve [by apply claim_attempt_wf | by apply attach_wf | by apply insert_activation_wf | attempt_row_update Hwf | run_row_update Hwf].
  - destruct Hi as [r0 ->]. by apply insert_run_wf.
  - apply (update_run_wf _ Hwf). intros r Hr Hc. split; [done|]. split; [|cbn; auto]. intros [_ H2]. cond_cases Hc.
    destruct Hc as [[Hg _] _]. split; cbn; [intros x [= <-]; unfold generation in Hg |- *; congruence|exact H2].
  - apply (update_run_wf _ Hwf). intros r Hr Hc. split; [done|]. split; [by apply named_same|]. intros _. right.
    apply andb_true_iff in Hc as [_ (a & Ha & Hs)%existsb_exists]. rewrite <-list_elem_of_In in Ha. cond_cases Hs.
    destruct Hs as [[Hrun _]%andb_true_iff [Hs|[]]]. exists a. split; [done|]. by apply str_eqb_eq in Hrun.
  - apply (insert_retry_wf _ Hwf); [done|]. intros a Hc. cond_cases Hc. naive_solver.
  - apply (insert_retry_wf _ Hwf); [done|]. intros a Hc. cond_cases Hc. naive_solver.
  - apply (insert_retry_wf _ Hwf); [done|]. intros a Hc. cond_cases Hc. naive_solver.
  - apply (update_run_wf _ Hwf). intros r Hr Hc. split; [done|]. split; [by split|cbn; auto].
  - destruct (exists_run _ _ d); [|done]. by apply insert_approval_wf.
  - apply (approvals_update_wf _ _ _ Hwf). intros a Hc. by split.
  - apply (approvals_update_wf _ _ _ Hwf). intros a Hc. split; [done|]. intros _. unfold open_approval in Hc. cond_cases Hc. naive_solver.
Qed.

(** ** Calls *)

Definition respects {A} (s : run_db → run_db * outcome run_error A) : Prop :=
  ∀ d, evolves d (s d).1 ∧ (run_wf d → run_wf (s d).1).
Lemma write_respects w : issuable w → respects (exec_write w).
Proof. intros Hi d. split; [apply exec_write_evolves|by apply exec_write_wf]. Qed.
Lemma batch_respects ws : Forall issuable ws → respects (exec_batch ws).
Proof.
  induction 1 as [|w ws Hw _ IH]; intros d; [done|]. cbn. destruct (write_respects w Hw d) as [E1 W1].
  destruct (exec_write w d) as [d1 [n|e]]; [|done]. cbn in *. destruct (IH d1) as [E2 W2].
  destruct (exec_batch ws d1) as [d2 [ns|e]]; [|done]. cbn in *. split; [by transitivity d1|auto].
Qed.

(** Every run of a call takes the tables along [evolves] and keeps [run_wf],
    when the other workers issue statements of the storage. *)
Definition sane (w : run_world) : Prop := Forall (Forall issuable) (rw_others w).
Definition run_grows (w w' : run_world) : Prop :=
  sane w → sane w' ∧ evolves (tables w) (tables w') ∧ (run_wf (tables w) → run_wf (tables w')).
#[export] Instance run_grows_preorder : PreOrder run_grows.
Proof.
  split; [by intros w|]. intros a b c H1 H2 Ha. destruct (H1 Ha) as (Hb & E1 & W1). destruct (H2 Hb) as (Hc & E2 & W2).
  split_and!; [done|by transitivity (tables b)|auto].
Qed.

Lemma interfere_respects ws d : Forall issuable ws → evolves d (interfere ws d) ∧ (run_wf d → run_wf (interfere ws d)).
Proof.
  intros H. revert d. induction H as [|w ws Hw _ IH]; intros d; [done|]. cbn. destruct (write_respects w Hw d) as [E1 W1].
  destruct (IH (exec_write w d).1) as [E2 W2]. split; [by etransitivity|auto].
Qed.
Lemma keeps_statement {A} (s : run_db → run_db * outcome run_error A) : respects s → keeps run_grows (statement s).
Proof.
  intros Hs w Hw. unfold statement. set (ws := default [] (head (rw_others w))).
  assert (Forall issuable ws) as Hi by (unfold ws; destruct Hw; cbn; [constructor|done]).
  assert (sane (RunWorld (rw_db w) (tail (rw_others w)) [] [] [] [])) as Ht by (unfold sane; cbn; by destruct Hw).
  destruct (interfere_respects ws (tables w) Hi) as [E1 W1]. destruct (Hs (interfere ws (tables w))) as [E2 W2].
  destruct (d1_exec _ _ _) as [db r] eqn:Ed. apply d1_exec_table in Ed. cbn in *. split; [exact Ht|].
  unfold tables in *. destruct Ed as [[Et _]|[Et _]]; cbn in *; rewrite Et; [split; [by etransitivity|auto]|done].
Qed.
Lemma keeps_write w : issuable w → keeps run_grows (write w).
Proof. intros H. by apply keeps_statement, write_respects. Qed.
Lemma keeps_write_any w : (match w with InsertRun _ | ClaimLaunch _ _ _ _ | RetryActivation _ _ | RetryCurrent _ | RetryManual _ => False | _ => True end) →
  keeps run_grows (write w).
Proof. intros H. apply keeps_write. by destruct w. Qed.
Lemma keeps_batch ws : Forall issuable ws → keeps run_grows (batch ws).
Proof. intros H. by apply keeps_statement, batch_respects. Qed.
Lemma keeps_query {A} (f : run_db → A) : keeps run_grows (query f).
Proof. by apply keeps_statement. Qed.
Lemma keeps_clock : keeps run_grows now.
Proof. by intros w. Qed.
Lemma keeps_randomUUID : keeps run_grows randomUUID.
Proof. by intros w. Qed.
Lemma keeps_create_instance id : keeps run_grows (create_instance id).
Proof. by intros w. Qed.
Lemma keeps_require b m : keeps run_grows (require_that b m).
Proof. apply keeps_lift, _. Qed.
#[export] Hint Resolve keeps_query keeps_clock keeps_randomUUID keeps_create_instance keeps_require : adt_keeps.
#[export] Hint Extern 2 (keeps run_grows (write _)) => apply keeps_write_any; exact I : adt_keeps.

Lemma keeps_getRun id : keeps run_grows (getRun id).
Proof. unfold getRun. keeps_tac. Qed.
#[export] Hint Resolve keeps_getRun : adt_keeps.
Lemma keeps_read_attempt k : keeps run_grows (read_attempt k).
Proof. unfold read_attempt, found_attempt. keeps_tac. Qed.
Lemma keeps_current_attempt run step act : keeps run_grows (current_attempt run step act).
Proof. unfold current_attempt, activation, latest_attempt, found_attempt. keeps_tac. Qed.
#[export] Hint Resolve keeps_read_attempt keeps_current_attempt : adt_keeps.
