(* ===== verification/RunCalls.v ===== *)
(** * Workflow runs: what the calls guarantee

    The calls of the storage, of the launch and of the approvals take the
    tables along [evolves] and keep [run_wf], whatever fails and whatever other
    workers do in between. From this: ended runs are final, the start of an
    attempt is claimed by one caller, an approval resumes its run once, and
    every instance is named after its run and generation. *)

From S2P Require Import Prelude JsString Json Layout Libs D1 WorkflowPlan RunTables RunStorage RunFacts RunWf.

(** ** Every call *)

Lemma keeps_existing key : keeps run_grows (existing_run key).
Proof. unfold existing_run. keeps_tac. Qed.
Lemma keeps_createRun r : keeps run_grows (createRun r).
Proof.
  unfold createRun. pose proof keeps_existing. keeps_tac. apply keeps_batch. repeat constructor. by eexists.
Qed.
Lemma keeps_claim_launch id gen : keeps run_grows (claimWorkflowLaunch id gen (instance_name id gen)).
Proof. unfold claimWorkflowLaunch, fails. keeps_tac. by apply keeps_write. Qed.
Lemma keeps_attach id gen instance : keeps run_grows (attachWorkflowInstance id gen instance).
Proof. unfold attachWorkflowInstance, fails. keeps_tac. Qed.
Lemma keeps_launch_failure id gen instance m : keeps run_grows (recordWorkflowLaunchFailure id gen instance m).
Proof. unfold recordWorkflowLaunchFailure. keeps_tac. Qed.
Lemma keeps_activation run step act : keeps run_grows (ensureGraphActivation run step act).
Proof. unfold ensureGraphActivation, activated. keeps_tac. Qed.
Lemma keeps_claim run step input act : keeps run_grows (claimGraphNode run step input act).
Proof. unfold claimGraphNode, fails. keeps_tac. Qed.
Lemma keeps_bind_source k source : keeps run_grows (bindConversationSource k source).
Proof. unfold bindConversationSource. keeps_tac. Qed.
Lemma keeps_transport k t : keeps run_grows (recordProviderDiagnostics k t).
Proof. unfold recordProviderDiagnostics, changed. keeps_tac. Qed.
Lemma keeps_task k task delay : keeps run_grows (persistProviderTask k task delay).
Proof. unfold persistProviderTask, changed. keeps_tac. Qed.
Lemma keeps_progress k state delay output url : keeps run_grows (persistProviderProgress k state delay output url).
Proof. unfold persistProviderProgress, changed. keeps_tac. Qed.
Lemma keeps_poll k delay : keeps run_grows (incrementPollCount k delay).
Proof. unfold incrementPollCount, changed. keeps_tac. Qed.
Lemma keeps_complete_step k output url : keeps run_grows (completeStep k output url).
Proof. unfold completeStep, changed. keeps_tac. Qed.
Lemma keeps_fail_step k failure : keeps run_grows (failStep k failure).
Proof. unfold failStep, changed. keeps_tac. Qed.
Lemma keeps_complete_run run step output url : keeps run_grows (completeRun run step output url).
Proof. unfold completeRun, changed. keeps_tac. Qed.
Lemma keeps_graph_failure run code m : keeps run_grows (recordGraphFailure run code m).
Proof. unfold recordGraphFailure. keeps_tac. Qed.
Lemma keeps_diagnostics run gen json : keeps run_grows (set_diagnostics_json run gen json).
Proof. unfold set_diagnostics_json, diagnosticMutationResult, fails. keeps_tac. Qed.
Lemma keeps_fail_run run code m json gen : keeps run_grows (failRun run code m json gen).
Proof. unfold failRun. keeps_tac. Qed.
Lemma keeps_request_cancellation run : keeps run_grows (requestCancellation run).
Proof. unfold requestCancellation, fails. keeps_tac. Qed.
Lemma keeps_cancellation_result run result : keeps run_grows (recordCancellationResult run result).
Proof. unfold recordCancellationResult, fails. keeps_tac. Qed.
Lemma keeps_cancel_run run : keeps run_grows (cancelRun run).
Proof. unfold cancelRun. keeps_tac. Qed.

Lemma retry_prior_limit d status f limit r a :
  retry_prior d status f limit = Some (r, a) → (ak_attempt (at_key a) < limit)%Z.
Proof.
  unfold retry_prior. intros (detail & _ & H)%bind_Some. apply bind_Some in H as (prior & _ & H).
  destruct (_ && _) eqn:E; [|done]. injection H as <- <-. apply andb_true_iff in E as [_ E]. by apply Z.ltb_lt.
Qed.
(** The bind of a checked option *)
Lemma keeps_checked {A B} (o : option A) e (k : A → RunM B) :
  (∀ a, o = Some a → keeps run_grows (k a)) → keeps run_grows (lift (from_option_throw e o) ≫= k).
Proof. intros H. destruct o as [a|]; [exact (H a eq_refl)|]. by intros w. Qed.
Lemma keeps_automatic_retry run step act : keeps run_grows (createAutomaticRetryAttempt run step act).
Proof.
  unfold createAutomaticRetryAttempt. keeps_step; [auto with adt_keeps|]. cbv zeta. apply keeps_checked. intros [r prior] Hp.
  apply retry_prior_limit in Hp. keeps_tac; apply keeps_write; destruct act as [[]|]; cbn; lia.
Qed.
Lemma keeps_manual_retry run step : keeps run_grows (prepareManualRetry run step).
Proof.
  unfold prepareManualRetry. keeps_step; [auto with adt_keeps|]. apply keeps_checked. intros [r prior] Hp.
  apply retry_prior_limit in Hp. keeps_tac; apply keeps_write; cbn; lia.
Qed.
#[export] Hint Resolve keeps_createRun keeps_claim_launch keeps_attach keeps_launch_failure keeps_activation keeps_claim keeps_bind_source
  keeps_transport keeps_task keeps_progress keeps_poll keeps_complete_step keeps_fail_step keeps_complete_run keeps_graph_failure
  keeps_diagnostics keeps_fail_run keeps_request_cancellation keeps_cancellation_result keeps_cancel_run keeps_automatic_retry
  keeps_manual_retry : adt_keeps.

Lemma keeps_launched run gen : keeps run_grows (ensureWorkflowLaunched run gen).
Proof.
  unfold ensureWorkflowLaunched, launch_claimed, launch_unavailable, assertRunExecutable, fails. keeps_tac.
Qed.
Lemma keeps_reconcile d : keeps run_grows (reconcileWorkflowLaunch d).
Proof. pose proof keeps_launched. unfold reconcileWorkflowLaunch, assertRunExecutable. keeps_tac. Qed.

Section Approvals.
Variable is_uuid : str → bool.
Lemma keeps_get_approval id : keeps run_grows (get_approval is_uuid id).
Proof. unfold get_approval, parse_request. keeps_tac. Qed.
Lemma keeps_recover i : keeps run_grows (recover_request i).
Proof. unfold recover_request, find_request, reuse, fails. keeps_tac. Qed.
Lemma keeps_require_approval i : keeps run_grows (require_approval is_uuid i).
Proof.
  pose proof keeps_get_approval. pose proof keeps_recover. unfold require_approval, find_request, reuse, fails. keeps_tac.
Qed.
Lemma keeps_approve run request : keeps run_grows (approve is_uuid run request).
Proof. pose proof keeps_get_approval. unfold approve, parse_request, fails. keeps_tac. Qed.
Lemma keeps_consume run request : keeps run_grows (consume run request).
Proof. unfold consume. keeps_tac. apply keeps_batch. by repeat constructor. Qed.
Lemma keeps_wake_turn run request : keeps run_grows (wake_turn is_uuid run request).
Proof.
  pose proof keeps_get_approval. pose proof keeps_consume. unfold wake_turn, cancelled_wake, fails. keeps_tac.
Qed.
Lemma keeps_wake_loop fuel run request : keeps run_grows (wake_loop is_uuid fuel run request).
Proof. pose proof keeps_wake_turn. induction fuel; cbn [wake_loop]; keeps_tac. Qed.
Lemma keeps_wait fuel i : keeps run_grows (waitForApprovalWake is_uuid fuel i).
Proof.
  pose proof keeps_require_approval. pose proof keeps_wake_loop.
  unfold waitForApprovalWake, reconcileCancellation, approvalEventType, parse_request. keeps_tac.
Qed.
End Approvals.

(** The calls that change the tables *)
Inductive run_call :=
| DoCreate (r : run_row)
| DoLaunch (run : str) (gen : Z)
| DoAttach (run : str) (gen : Z) (instance : str)
| DoActivate (run step act : str)
| DoClaim (run step input : str) (act : option str)
| DoBind (k : attempt_key) (source : ConversationSourceIdentity)
| DoTransport (k : attempt_key) (transport : jsval)
| DoTask (k : attempt_key) (task : str) (delay : Z)
| DoProgress (k : attempt_key) (state : str) (delay : Z) (output url : option str)
| DoPoll (k : attempt_key) (delay : Z)
| DoCompleteStep (k : attempt_key) (output : str) (url : option str)
| DoFailStep (k : attempt_key) (failure : step_failure)
| DoCompleteRun (run step output : str) (url : option str)
| DoGraphFailure (run code message : str)
| DoDiagnostics (run : str) (gen : Z) (json : option str)
| DoFailRun (run code message : str) (json : option str) (gen : option Z)
| DoRequestCancel (run : str)
| DoCancelResult (run : str) (result : CancellationResult)
| DoCancel (run : str)
| DoAutoRetry (run step : str) (act : option str)
| DoManualRetry (run step : str)
| DoRequire (i : approval_input)
| DoApprove (run request : str)
| DoConsume (run request : str)
| DoWait (fuel : nat) (i : approval_input).

Section Calls.
Variable is_uuid : str → bool.
Definition ignore {A} (m : RunM A) : RunM unit := _ ← attempt m; mret ().
Definition run_one (c : run_call) : RunM unit :=
  match c with
  | DoCreate r => ignore (createRun r)
  | DoLaunch run gen => ignore (ensureWorkflowLaunched run gen)
  | DoAttach run gen i => ignore (attachWorkflowInstance run gen i)
  | DoActivate run step act => ignore (ensureGraphActivation run step act)
  | DoClaim run step input act => ignore (claimGraphNode run step input act)
  | DoBind k s => ignore (bindConversationSource k s)
  | DoTransport k t => ignore (recordProviderDiagnostics k t)
  | DoTask k t n => ignore (persistProviderTask k t n)
  | DoProgress k s n o u => ignore (persistProviderProgress k s n o u)
  | DoPoll k n => ignore (incrementPollCount k n)
  | DoCompleteStep k o u => ignore (completeStep k o u)
  | DoFailStep k f => ignore (failStep k f)
  | DoCompleteRun run step o u => ignore (completeRun run step o u)
  | DoGraphFailure run c m => ignore (recordGraphFailure run c m)
  | DoDiagnostics run gen j => ignore (set_diagnostics_json run gen j)
  | DoFailRun run c m j gen => ignore (failRun run c m j gen)
  | DoRequestCancel run => ignore (requestCancellation run)
  | DoCancelResult run r => ignore (recordCancellationResult run r)
  | DoCancel run => ignore (cancelRun run)
  | DoAutoRetry run step act => ignore (createAutomaticRetryAttempt run step act)
  | DoManualRetry run step => ignore (prepareManualRetry run step)
  | DoRequire i => ignore (require_approval is_uuid i)
  | DoApprove run r => ignore (approve is_uuid run r)
  | DoConsume run r => ignore (consume run r)
  | DoWait fuel i => ignore (waitForApprovalWake is_uuid fuel i)
  end.
Definition run_calls (cs : list run_call) (w : run_world) : run_world := (for_each run_one cs w).1.

Lemma keeps_run_one c : keeps run_grows (run_one c).
Proof.
  destruct c; unfold run_one, ignore; keeps_tac; auto using keeps_launched, keeps_require_approval, keeps_approve, keeps_consume, keeps_wait.
Qed.
Lemma run_calls_grow cs w : run_grows w (run_calls cs w).
Proof. unfold run_calls. apply (keeps_for_each _). intros c. apply keeps_run_one. Qed.
End Calls.
