(* ===== verification/RunTheorems.v ===== *)
(** * Workflow runs: theorems

    Consequences of the evolution of the tables for runs, attempts, approvals
    and launches. *)

From S2P Require Import Prelude JsString Json Layout Libs D1 WorkflowPlan RunTables RunStorage RunFacts RunWf RunCalls.

(** ** Taking calls apart *)

Lemma run_bind_ok {A B} (m : RunM A) (k : A → RunM B) w w' b :
  (m ≫= k) w = (w', Ok b) → ∃ w1 a, m w = (w1, Ok a) ∧ k a w1 = (w', Ok b).
Proof. intros [H|(e & _ & ?)]%bind_run; [done|congruence]. Qed.
(** A statement that answers ran on tables the other workers left. *)
Lemma statement_ok {A} (s : run_db → run_db * outcome run_error A) w w' a :
  statement s w = (w', Ok a) → sane w →
  ∃ d, s d = (tables w', Ok a) ∧ sane w' ∧ evolves (tables w) d ∧ (run_wf (tables w) → run_wf d).
Proof.
  unfold statement. intros H Hs. set (ws := default [] (head (rw_others w))) in *. exists (interfere ws (tables w)).
  assert (Forall issuable ws) as Hi by (unfold ws; destruct Hs; cbn; [constructor|done]).
  destruct (d1_exec _ _ _) as [db r] eqn:E. injection H as <- ->. apply d1_exec_ok in E.
  split; [exact E|]. split; [unfold sane; cbn; by destruct Hs|by apply interfere_respects].
Qed.
Lemma grows_now (w w' : run_world) : run_grows w w' → sane w → sane w' ∧ evolves (tables w) (tables w') ∧ (run_wf (tables w) → run_wf (tables w')).
Proof. auto. Qed.
Lemma call_grows {A} (m : RunM A) w w' r : keeps run_grows m → m w = (w', r) → run_grows w w'.
Proof. apply keeps_run. Qed.

Lemma evolved_attempt d e a : evolves d e → a ∈ db_attempts d → ∃ b, b ∈ db_attempts e ∧ attempt_evolves a b.
Proof.
  intros (_ & (old & new & -> & Hf & _) & _)%(λ H, conj (ev_runs _ _ H) (conj (ev_attempts _ _ H) (ev_approvals _ _ H))) Ha.
  destruct (evolved_from _ _ _ _ Hf Ha) as (b & Hb & [Hab _]). exists b. split; [apply elem_of_app; by left|done].
Qed.
Lemma evolved_approval d e a : evolves d e → a ∈ db_approvals d → ∃ b, b ∈ db_approvals e ∧ approval_evolves a b.
Proof.
  intros H Ha. destruct (ev_approvals _ _ H) as (old & new & -> & Hf).
  destruct (evolved_from _ _ _ _ Hf Ha) as (b & Hb & Hab). exists b. split; [apply elem_of_app; by left|done].
Qed.
Lemma nodup_map_inj {A B} (f : A → B) l a b : NoDup (map f l) → a ∈ l → b ∈ l → f a = f b → a = b.
Proof.
  induction l as [|x l IH]; cbn; [by intros _ ?%elem_of_nil|]. intros [Hx Hn]%NoDup_cons [->|Ha]%elem_of_cons [->|Hb]%elem_of_cons E; auto.
  - exfalso. apply Hx. rewrite E. by apply list_elem_of_fmap_2.
  - exfalso. apply Hx. rewrite <-E. by apply list_elem_of_fmap_2.
Qed.
Lemma filter_none {A} (f : A → bool) l : (∀ a, a ∈ l → f a = false) → List.filter f l = [].
Proof. induction l as [|a l IH]; cbn; [done|]. intros H. rewrite (H a) by (by left). apply IH. intros x Hx. apply H. by right. Qed.
Lemma map_none {A} (f : A → bool) (g : A → A) l : (∀ a, a ∈ l → f a = false) → map (λ a, if f a then g a else a) l = l.
Proof. induction l as [|a l IH]; cbn; [done|]. intros H. rewrite (H a) by (by left). f_equal. apply IH. intros x Hx. apply H. by right. Qed.
Lemma filter_some {A} (f : A → bool) l : List.filter f l ≠ [] → ∃ a, a ∈ l ∧ f a = true.
Proof.
  intros H. destruct (List.filter f l) as [|a k] eqn:E; [done|]. assert (In a (List.filter f l)) as Ha by (rewrite E; by left).
  apply filter_In in Ha as [Ha Hf]. exists a. by rewrite list_elem_of_In.
Qed.

Lemma existsb_none_all {A} (f : A → bool) l : (∀ a, a ∈ l → f a = false) → existsb f l = false.
Proof. intros H. induction l as [|a l IH]; cbn; [done|]. rewrite (H a) by (by left). apply IH. intros x Hx. apply H. by right. Qed.

(** ** The tables *)

(** C6: Whatever calls of the storage, the launch and the approvals are made,
    whatever statements fail before or after their effect and whatever other
    workers write in between, the tables stay consistent: attempts have
    distinct keys and at most ten tries, each retry follows a failed try of
    its activation, a succeeded run has a succeeded attempt; and no attempt is
    lost, changes its identity or goes back: its provider task, its
    conversation and its input are fixed once set, and an ended attempt never
    changes. *)
Theorem run_tables_consistent is_uuid calls w (Hothers : sane w) (Hwf : run_wf (tables w)) :
  run_wf (tables (run_calls is_uuid calls w)) ∧
  ∀ a, a ∈ db_attempts (tables w) → ∃ b, b ∈ db_attempts (tables (run_calls is_uuid calls w)) ∧ attempt_evolves a b.
Proof.
  destruct (run_calls_grow is_uuid calls w Hothers) as (_ & He & Hw). split; [auto|]. intros a Ha. by eapply evolved_attempt.
Qed.

(** C7: A run that has succeeded or was cancelled, and is not being launched,
    is final: through any calls, faults and other workers its row does not
    change, and none of its attempts that is pending, or is created later, is
    ever started. *)
Theorem ended_run_final is_uuid calls w id r (Hothers : sane w) (Hrun : db_runs (tables w) !! id = Some r) (Hended : ended r) :
  db_runs (tables (run_calls is_uuid calls w)) !! id = Some r ∧
  ∀ b, b ∈ db_attempts (tables (run_calls is_uuid calls w)) → ak_run (at_key b) = id →
    at_status b = Pending ∨ at_status b = Cancelled ∨
    ∃ a, a ∈ db_attempts (tables w) ∧ at_key a = at_key b ∧ at_status a ≠ Pending.
Proof.
  destruct (run_calls_grow is_uuid calls w Hothers) as (_ & [Hr (old & new & -> & Hf & Hn) _] & _). split.
  - destruct (Hr id r Hrun) as (s & Hs & Hv). by rewrite (rv_ended _ _ Hv Hended) in Hs.
  - intros b Hb <-. assert (run_ended (tables w) (ak_run (at_key b))) as He by (by exists r).
    apply elem_of_app in Hb as [Hb|Hb]; [|destruct (Hn b Hb He); auto].
    destruct (evolved_elem _ _ _ _ Hf Hb) as (a & Ha & [Hab Hidle]). destruct (ae_identity _ _ Hab) as [Hk _].
    destruct (decide (at_status a = Pending)) as [Hp|Hp]; [rewrite <-Hk in Hidle; destruct (Hidle He Hp); auto|].
    right. right. exists a. by rewrite Hk.
Qed.

(** ** Starting an attempt *)

Lemma claimed_row input now k d d' :
  exec_write (ClaimAttempt input now k) d = (d', Ok 1%Z) → ∃ b, b ∈ db_attempts d' ∧ at_key b = k ∧ at_status b ≠ Pending.
Proof.
  cbn. unfold update_attempt, update_where. intros [= <- Hn]. cbn.
  match type of Hn with Z.of_nat (length (List.filter ?c _)) = _ => destruct (filter_some c (db_attempts d)) as (a & Ha & Hc) end.
  { intros E. by rewrite E in Hn. }
  pose proof Hc as [Hk%bool_decide_eq_true _]%andb_true_iff. exists (started_attempt input now a). split; [|done].
  apply list_elem_of_fmap. exists a. by rewrite Hc.
Qed.
Lemma claim_again d k b input now : run_wf d → b ∈ db_attempts d → at_key b = k → at_status b ≠ Pending →
  exec_write (ClaimAttempt input now k) d = (RunDb (db_runs d) (db_attempts d) (db_approvals d), Ok 0%Z).
Proof.
  intros Hwf Hb Hk Hs. cbn [exec_write]. unfold update_attempt, update_where.
  assert (∀ c, ∀ a, a ∈ db_attempts d → bool_decide (at_key a = k) && (step_in [Pending] (at_status a) && c) = false) as Hno.
  { intros c a Ha. apply not_true_iff_false. intros [Hak%bool_decide_eq_true [Hp _]%andb_true_iff]%andb_true_iff.
    apply step_in_true, list_elem_of_singleton in Hp. apply Hs.
    by rewrite (nodup_map_inj at_key _ b a (aw_keys _ (rw_attempts _ Hwf)) Hb Ha) by congruence. }
  rewrite filter_none by (intros a Ha; by apply Hno). rewrite map_none; [done|]. intros a Ha. apply Hno, Ha.
Qed.


(** ** Approvals *)

Lemma request_unique d request run a b : run_wf d → a ∈ db_approvals d → b ∈ db_approvals d →
  request_is request run a = true → request_is request run b = true → a = b.
Proof.
  intros Hwf Ha Hb [E1%str_eqb_eq _]%andb_true_iff [E2%str_eqb_eq _]%andb_true_iff.
  by apply (nodup_map_inj _ _ a b (pw_requests _ (rw_approvals _ Hwf)) Ha Hb); rewrite E1, E2.
Qed.
(** No open request is left once it was consumed. *)
Lemma consumed_closed d request run a : run_wf d → a ∈ db_approvals d → request_is request run a = true → is_Some (ap_consumedAt a) →
  ∀ b, b ∈ db_approvals d → open_approval request run b = false.
Proof.
  intros Hwf Ha Hr [t Ht] b Hb. apply not_true_iff_false. unfold open_approval. intros [[Hbr _]%andb_true_iff Hn]%andb_true_iff.
  rewrite <-(request_unique _ _ _ _ _ Hwf Ha Hb Hr Hbr), Ht in Hn. done.
Qed.

(** C16: An approval resumes its run once: when consuming a request is answered
    as done, the request was approved and is marked as consumed, and in every
    later state of the tables, whatever calls, faults and other workers came
    in between, it neither resumes the run nor is consumed again. *)
Theorem approval_consumed_once is_uuid run request calls w w' (Hothers : sane w) (Hwf : run_wf (tables w))
    (Hconsume : consume run request w = (w', Ok true)) :
  (∃ a, a ∈ db_approvals (tables w') ∧ request_is request run a = true ∧ ap_approved a = true ∧ is_Some (ap_consumedAt a)) ∧
  let d := tables (run_calls is_uuid calls w') in
  ∀ t, (exec_write (ResumeRun t run request) d).2 = Ok 0%Z ∧ (exec_write (ConsumeApproval t request run) d).2 = Ok 0%Z.
Proof.
  unfold consume in Hconsume. apply run_bind_ok in Hconsume as (w1 & t & H1 & Hconsume).
  destruct (call_grows _ _ _ _ keeps_clock H1 Hothers) as (S1 & _ & W1).
  apply run_bind_ok in Hconsume as (w2 & counts & H2 & Hrest).
  destruct (statement_ok _ _ _ _ H2 S1) as (d & Hd & S2 & _ & Wd). specialize (Wd (W1 Hwf)).
  assert (run_wf (tables w2)) as W2.
  { pose proof (proj2 (batch_respects [ResumeRun t run request; ConsumeApproval t request run] ltac:(by repeat constructor) d) Wd) as Hw.
    by rewrite Hd in Hw. }
  assert (w2 = w' ∧ ∃ n, counts = [n; 1%Z]) as [-> [n ->]].
  { destruct counts as [|n [|m [|]]]; try (by injection Hrest). destruct (negb (n =? 1)%Z).
    - apply run_bind_ok in Hrest as (w3 & u & _ & Hrest). by injection Hrest.
    - apply run_bind_ok in Hrest as (w3 & u & Hu & Hrest). injection Hrest as <-. unfold require_that, lift in Hu. injection Hu as <- Hu.
      apply guard_throw_ok, Z.eqb_eq in Hu as ->. eauto. }
  cbn [exec_batch] in Hd. destruct (exec_write (ResumeRun t run request) d) as [d1 [n1|]]; [|discriminate Hd].
  destruct (exec_write (ConsumeApproval t request run) d1) as [d2 [n2|]] eqn:Ec; [|discriminate Hd]. injection Hd as -> -> ->.
  cbn in Ec. unfold update_approval in Ec. injection Ec as Et En.
  match type of En with Z.of_nat (length (List.filter ?c _)) = _ => destruct (filter_some c (db_approvals d1)) as (a & Ha & Hc) end.
  { intros E. by rewrite E in En. }
  assert (∃ b, b ∈ db_approvals (tables w') ∧ request_is request run b = true ∧ ap_approved b = true ∧ is_Some (ap_consumedAt b)) as Hb.
  { eexists. split; [rewrite <-Et; cbn; apply list_elem_of_fmap; exists a; rewrite Hc; done|].
    apply andb_true_iff in Hc as [[[Hr Hap]%andb_true_iff _]%andb_true_iff _]. cbn. eauto. }
  split; [done|]. destruct Hb as (b & Hb & Hr & _ & [tc Htc]). intros e t'.
  destruct (run_calls_grow is_uuid calls w' S2) as (_ & E5 & W5). destruct (evolved_approval _ _ _ E5 Hb) as (b2 & Hb2 & [Hi _ _ Hcons]).
  assert (∀ x, x ∈ db_approvals e → open_approval request run x = false) as Hno.
  { apply (consumed_closed _ _ _ b2); [exact (W5 W2)|exact Hb2|unfold request_is in *; by rewrite Hi|by rewrite (Hcons _ Htc)]. }
  split; cbn [exec_write].
  - unfold update_run. destruct (db_runs e !! run) as [r|]; [|done].
    rewrite (existsb_none_all _ _ Hno), andb_false_r. done.
  - cbn. rewrite filter_none; [done|]. intros x Hx. by rewrite (Hno x Hx).
Qed.

(** ** Launching *)

(** The calls that create no instance *)
Definition creates_none (w w' : run_world) : Prop := rw_created w' = rw_created w.
#[export] Instance creates_none_preorder : PreOrder creates_none.
Proof. split; [by intros w|intros u v w; unfold creates_none; congruence]. Qed.
Lemma statement_creates {A} (s : run_db → run_db * outcome run_error A) : keeps creates_none (statement s).
Proof. intros w. unfold statement. by destruct (d1_exec _ _ _). Qed.
Lemma now_creates : keeps creates_none now.
Proof. by intros w. Qed.
Lemma require_creates b m : keeps creates_none (require_that b m).
Proof. apply keeps_lift, _. Qed.
Lemma getRun_creates id : keeps creates_none (getRun id).
Proof. pose proof @statement_creates. unfold getRun, query. keeps_tac. Qed.
#[export] Hint Resolve now_creates require_creates getRun_creates : adt_keeps.
#[export] Hint Extern 2 (keeps creates_none (write _)) => apply statement_creates : adt_keeps.
Lemma claim_creates id gen i : keeps creates_none (claimWorkflowLaunch id gen i).
Proof. unfold claimWorkflowLaunch, fails. keeps_tac. Qed.
Lemma attach_creates id gen i : keeps creates_none (attachWorkflowInstance id gen i).
Proof. unfold attachWorkflowInstance, fails. keeps_tac. Qed.
Lemma unavailable_creates {A} id gen i : keeps creates_none (launch_unavailable (A := A) id gen i).
Proof. unfold launch_unavailable, recordWorkflowLaunchFailure, fails. keeps_tac. Qed.
Lemma launch_claimed_creates run gen i w w' r : launch_claimed run gen i w = (w', r) → rw_created w' = rw_created w ++ [i].
Proof.
  pose proof attach_creates. pose proof @unavailable_creates.
  unfold launch_claimed. intros E. apply bind_run in E as [(w1 & a & H1 & E)|(e & H1 & _)]; injection H1 as <-; [|done].
  change (rw_created w ++ [i]) with (rw_created (create_instance i w).1). eapply (keeps_run creates_none); [|exact E]. keeps_tac.
Qed.
Lemma getRun_named id w w' d : sane w → run_wf (tables w) → getRun id w = (w', Ok (Some d)) → named id (rr_launch (de_run d)).
Proof.
  intros Hs Hwf H. unfold getRun in H. apply run_bind_ok in H as (w1 & row & H1 & H).
  destruct (statement_ok _ _ _ _ H1 Hs) as (t & Ht & _ & _ & Wt). injection Ht as _ Hrow. destruct row as [r|]; [|done].
  apply run_bind_ok in H as (w2 & l & _ & H). injection H as _ <-. by apply (rw_named _ (Wt Hwf)).
Qed.
(** Who wins the launch has the name of the run and its generation. *)
Lemma claim_instance id gen w w' c i : sane w → run_wf (tables w) →
  claimWorkflowLaunch id gen (instance_name id gen) w = (w', Ok (c, Some i)) → (c = Claimed ∨ c = StaleLaunchClaimed) → i = instance_name id gen.
Proof.
  intros Hs Hwf H Hc. unfold claimWorkflowLaunch in H. apply run_bind_ok in H as (w1 & t & H1 & H).
  destruct (call_grows _ _ _ _ keeps_clock H1 Hs) as (S1 & _ & W1). apply run_bind_ok in H as (w2 & n & H2 & H).
  destruct (call_grows _ _ _ _ (keeps_write (ClaimLaunch _ _ id gen) eq_refl) H2 S1) as (S2 & _ & W2).
  destruct (n =? 1)%Z; [unfold mret, eff_ret in H; congruence|]. apply run_bind_ok in H as (w3 & d & H3 & H).
  destruct d as [[r l]|]; [|destruct Hc as [->| ->]; discriminate H]. pose proof (getRun_named _ _ _ _ S2 (W2 (W1 Hwf)) H3) as [Hn _].
  cbn [de_run] in Hn. revert H. unfold fails, throw, mret, eff_ret.
  destruct (_ && _); [destruct Hc as [->| ->]; discriminate|]. destruct (la_generation (rr_launch r) =? gen)%Z eqn:Eg; [|discriminate].
  apply Z.eqb_eq in Eg. rewrite Eg in Hn. cbn [negb]. destruct (la_state (rr_launch r)); try (destruct Hc as [->| ->]; discriminate).
  destruct (la_attemptedAt (rr_launch r)) as [[|x at_]|]; try (destruct Hc as [->| ->]; discriminate).
  destruct (recent t (x :: at_)); [destruct Hc as [->| ->]; discriminate|]. intros H.
  apply run_bind_ok in H as (w4 & u & _ & H). apply run_bind_ok in H as (w5 & m & _ & H).
  destruct (m =? 1)%Z; [injection H as _ _ Hi; by apply Hn|]. apply run_bind_ok in H as (w6 & d' & _ & H). revert H.
  destruct d' as [[r' l']|]; [destruct (launch_in _ _)|]; destruct Hc as [->| ->]; discriminate.
Qed.

(** C17: A launch asks the platform for at most one instance, the one named
    after the run and its generation, whether it is the first launch or the
    takeover of an abandoned one and whatever fails or other workers do; so
    two launches of a generation can only collide on the same name. A launch
    that reports a new instance has asked for it. *)
Theorem launch_instance_named run gen w w' r (Hothers : sane w) (Hwf : run_wf (tables w))
    (Hlaunch : ensureWorkflowLaunched run gen w = (w', r)) :
  (rw_created w' = rw_created w ∧ ∀ i, r ≠ Ok (LLaunched i)) ∨ rw_created w' = rw_created w ++ [instance_name run gen].
Proof.
  unfold ensureWorkflowLaunched in Hlaunch.
  apply bind_run in Hlaunch as [(w1 & d & H1 & H)|(e & H1 & ->)];
    pose proof (keeps_run creates_none _ _ _ _ (getRun_creates run) H1) as C1; [|by left].
  destruct (call_grows _ _ _ _ (keeps_getRun run) H1 Hothers) as (S1 & _ & W1).
  destruct d as [d|]; [|injection H as <- <-; by left].
  apply bind_run in H as [(w2 & u & H2 & H)|(e & H2 & ->)]; unfold assertRunExecutable in H2;
    pose proof (keeps_run creates_none _ _ _ _ (require_creates _ _) H2) as C2; [|left; split; [unfold creates_none in *; congruence|done]].
  destruct (call_grows _ _ _ _ (keeps_require _ _) H2 S1) as (S2 & _ & W2).
  apply bind_run in H as [(w3 & [c i] & H3 & H)|(e & H3 & ->)];
    pose proof (keeps_run creates_none _ _ _ _ (claim_creates _ _ _) H3) as C3; [|left; split; [unfold creates_none in *; congruence|done]].
  assert (rw_created w3 = rw_created w) as <- by (unfold creates_none in *; congruence).
  pose proof (λ j Hj, claim_instance run gen w2 w3 c j S2 (W2 (W1 Hwf)) Hj) as Hname.
  destruct c; [| |injection H as <- <-; by left..]; (destruct i as [i|]; [|injection H as <- <-; by left]); right;
    rewrite <-(Hname i H3) by auto; by apply (launch_claimed_creates _ _ _ _ _ _ H).
Qed.
