(* ===== verification/RunExamples.v ===== *)
(** * Workflow runs: examples

    Witnesses of the theorems on runs, at a run that is created, launched,
    worked on and approved from empty tables; and the request to cancel a run
    during its launch, which the attachment of the instance undoes. *)

From S2P Require Import Prelude JsString Json Layout Libs D1 WorkflowGraph WorkflowPlan RunTables RunStorage RunFacts RunWf RunCalls RunTheorems.

Definition any_uuid (s : str) : bool := negb (str_eqb s []).
Definition demo_plan : execution_plan :=
  Plan [PlanNode (js "write") t_agent 1 (JObj [(js "agentId", JStr (js "writer"))])] [] (js "write") (js "write") 20.
Definition demo_run (id : string) : run_row :=
  RunRow (RunFrozen (js id) true (Some demo_plan) [(js "writer", (js "writer", js "main"))] [(Some (js "git"), Some (js "adt-vault"))]
            (js "Write it.") None (js "2025-01-01T00:00:00.000Z"))
    Queued None (LaunchColumns Unclaimed 1 None None None None) (ResultColumns None None None None None None) None None None
    (js "2025-01-01T00:00:00.000Z") 0.
Definition ticks : list str := repeat (js "2025-01-01T00:00:01.000Z") 40.
(** Empty tables, with other workers' statements and a lost answer on the way *)
Definition start (others : list (list sql_write)) (faults : list fault) : run_world :=
  RunWorld (D1 (RunDb ∅ [] []) faults) others ticks [js "request-1"] [Created (js "r1-g1")] [].

Lemma empty_wf : run_wf (RunDb ∅ [] []).
Proof.
  split; cbn; try (by intros ? ?; rewrite lookup_empty); [by intros a Ha%elem_of_nil|split; cbn..];
    try (by apply NoDup_nil); try (by intros a Ha%elem_of_nil). by intros a b act Ha%elem_of_nil.
Qed.
Lemma calls_from others faults cs : Forall (Forall issuable) others →
  sane (run_calls any_uuid cs (start others faults)) ∧ run_wf (tables (run_calls any_uuid cs (start others faults))).
Proof. intros H. destruct (run_calls_grow any_uuid cs (start others faults) H) as (Hs & _ & Hw). split; [done|exact (Hw empty_wf)]. Qed.

Definition key1 : attempt_key := AttemptKey (js "r1") (js "write") 1 1.
Definition launched : list run_call := [DoCreate (demo_run "r1"); DoLaunch (js "r1") 1; DoActivate (js "r1") (js "write") (js "a1")].
Definition worked : list run_call :=
  launched ++ [DoClaim (js "r1") (js "write") (js "Write it.") (Some (js "a1")); DoTask key1 (js "task-1") 1000;
               DoCompleteStep key1 (js "Done.") None; DoCompleteRun (js "r1") (js "write") (js "Done.") None].

(** Another worker cancels a run of its own, and the answer to the second statement is lost. *)
Definition busy : list (list sql_write) := [[RequestCancel (js "t") (js "t") (js "r2")]; []; [ClaimAttempt (js "x") (js "t") key1]].
Definition lossy : list fault := [NoFault; FaultAfter; FaultBefore].
Lemma busy_sane : Forall (Forall issuable) busy.
Proof. repeat constructor. Qed.

Lemma run_tables_consistent_witness :
  sane (start busy lossy) ∧ run_wf (tables (start busy lossy)) ∧ run_wf (tables (run_calls any_uuid (worked ++ worked) (start busy lossy))) ∧
  map (λ a, (at_key a, at_status a)) (db_attempts (tables (run_calls any_uuid (worked ++ worked) (start busy lossy)))) = [(key1, Succeeded)].
Proof.
  split; [exact busy_sane|]. split; [exact empty_wf|].
  split; [exact (proj1 (run_tables_consistent any_uuid (worked ++ worked) (start busy lossy) busy_sane empty_wf))|]. vm_compute. reflexivity.
Defined.

Definition done_world : run_world := run_calls any_uuid worked (start [] []).
Definition later : list run_call :=
  [DoRequestCancel (js "r1"); DoCancel (js "r1"); DoActivate (js "r1") (js "write") (js "a2"); DoManualRetry (js "r1") (js "write"); DoLaunch (js "r1") 1].
Definition done_row : run_row := default (demo_run "r1") (db_runs (tables done_world) !! js "r1").
Lemma ended_run_final_witness : rr_status done_row = RunSucceeded ∧ db_runs (tables (run_calls any_uuid later done_world)) !! js "r1" = Some done_row.
Proof.
  split; [vm_compute; reflexivity|].
  refine (proj1 (ended_run_final any_uuid later done_world (js "r1") done_row (proj1 (calls_from [] [] worked ltac:(constructor))) _ _)).
  - vm_compute. reflexivity.
  - split; [left; vm_compute; reflexivity|]. vm_compute. discriminate.
Defined.

Definition ready_world : run_world := run_calls any_uuid launched (start [] []).
Definition claim1 : RunM (attempt_row * bool) := claimGraphNode (js "r1") (js "write") (js "Write it.") (Some (js "a1")).
Definition claimed_attempt : attempt_row := started_attempt (js "Write it.") (js "2025-01-01T00:00:01.000Z") (fresh_attempt key1 (Some (js "a1")) (js "writer") (js "main") None).

Definition question : approval_input := ApprovalInput (js "r1") 1 (js "review") (js "a9") (js "i9") (js "Continue?") (js "Draft").
Definition approved : list run_call := launched ++ [DoRequire question; DoApprove (js "r1") (js "request-1")].
Definition approved_world : run_world := run_calls any_uuid approved (start [] []).
Definition consume1 : RunM bool := consume (js "r1") (js "request-1").
Lemma approval_consumed_once_witness :
  (consume1 approved_world).2 = Ok true ∧ (consume1 (consume1 approved_world).1).2 = Ok false ∧
  ∀ t, (exec_write (ResumeRun t (js "r1") (js "request-1")) (tables (run_calls any_uuid [DoConsume (js "r1") (js "request-1")] (consume1 approved_world).1))).2 = Ok 0%Z.
Proof.
  split; [vm_compute; reflexivity|]. split; [vm_compute; reflexivity|]. intros t.
  exact (proj1 (proj2 (approval_consumed_once any_uuid (js "r1") (js "request-1") [DoConsume (js "r1") (js "request-1")] approved_world (consume1 approved_world).1
    (proj1 (calls_from [] [] approved ltac:(constructor))) (proj2 (calls_from [] [] approved ltac:(constructor))) ltac:(vm_compute; reflexivity)) t)).
Defined.

Definition created_world : run_world := run_calls any_uuid [DoCreate (demo_run "r1")] (start [] []).
Lemma launch_instance_named_witness :
  rw_created created_world = [] ∧ rw_created (ensureWorkflowLaunched (js "r1") 1 created_world).1 = [js "r1-g1"].
Proof.
  split; [vm_compute; reflexivity|].
  destruct (launch_instance_named (js "r1") 1 created_world (ensureWorkflowLaunched (js "r1") 1 created_world).1 (ensureWorkflowLaunched (js "r1") 1 created_world).2
    (proj1 (calls_from [] [] [DoCreate (demo_run "r1")] ltac:(constructor))) (proj2 (calls_from [] [] [DoCreate (demo_run "r1")] ltac:(constructor))) ltac:(vm_compute; reflexivity))
    as [[_ H]|H]; [|exact H]. exfalso. apply (H (js "r1-g1")). vm_compute. reflexivity.
Defined.

(** ** A request to cancel during the launch

    The launch has claimed the run and asked for its instance; the user
    cancels; the instance is attached. The attachment sets the status to
    queued whatever it was, so the driver, which sees the request and calls
    [cancelRun], fails with [invalid_cancellation]. *)
Definition during_launch : RunM RunStatus :=
  _ ← claimWorkflowLaunch (js "r1") 1 (js "r1-g1"); s ← requestCancellation (js "r1"); attachWorkflowInstance (js "r1") 1 (js "r1-g1") ;; mret s.
Theorem cancellation_lost_in_launch :
  (during_launch created_world).2 = Ok Cancelling ∧
  let w := (during_launch created_world).1 in
  (λ r, (rr_status r, is_null (rr_cancelRequestedAt r))) <$> db_runs (tables w) !! js "r1" = Some (Queued, false) ∧
  (cancelRun (js "r1") w).2 = Throw (RunError (js "invalid_cancellation")) ∧
  (recordCancellationResult (js "r1") CCancelled w).2 = Throw (RunError (js "invalid_cancellation")).
Proof. vm_compute. auto. Qed.
