(* ===== verification/DurableResult.v ===== *)
(** * Durable step results

    The values that the driver of a workflow run gets back from its durable
    steps ([src/lib/workflow-durable-runtime-result.ts]) and the diagnostics it
    stores ([src/lib/workflow-orchestration-diagnostics.ts]). Both are plain
    objects and stay [jsval]s, as the source casts the value it has checked. *)

From S2P Require Import Prelude JsString JsNumber JsDate Encoding Json JsonText FeatureRequests Contract RunTables.

(** [includes] and [has] on literal strings *)
Definition one_of (l : list string) (s : str) : bool := existsb (λ x, str_eqb (js x) s) l.
Definition absent_or (f : jsval → bool) (v : jsval) : bool := is_undefined v || f v.

(** [Number.isInteger(value) && min <= value <= max] *)
Definition integer_between (v : jsval) (min max : Z) : bool :=
  match v with JNum (NInt z) => (min <=? z)%Z && (z <=? max)%Z | _ => false end.
(** [/^[A-Za-z0-9:_-]+$/] *)
Definition identifier_unit (c : N) : bool :=
  is_alpha c || is_digit c || (c =? 58)%N || (c =? 95)%N || (c =? 45)%N.
Definition identifier (v : jsval) : bool :=
  match v with JStr s => (0 <? length s)%nat && (length s <=? 256)%nat && forallb identifier_unit s | _ => false end.
Definition object_of (v : jsval) : option (list (str * jsval)) := match v with JObj o => Some o | _ => None end.
Definition only_keys (o : list (str * jsval)) (keys : list string) : bool := forallb (λ kv, one_of keys kv.1) o.
(** [...(v === undefined ? {} : {k: v})] *)
Definition spread_defined (k : string) (v : jsval) : list (str * jsval) := if is_undefined v then [] else [(js k, v)].

Definition failureCategories : list string :=
  ["configuration_invalid"; "security_denied"; "security_timeout"; "security_unavailable"; "connection_unavailable";
   "authentication_failed"; "permission_denied"; "provider_rejected"; "provider_start_ambiguous"; "provider_publish_ambiguous";
   "rate_limited"; "provider_unavailable"; "provider_timeout"; "malformed_response"; "output_too_large"; "cancelled";
   "conversation_unavailable"; "internal_error"]%string.
Definition runtimeSafeErrorCodes : list string :=
  ["runtime_authentication_failed"; "invalid_request"; "credential_invalid"; "unsupported_operation"; "protocol_incompatible";
   "capability_unavailable"; "runtime_unavailable"; "execution_failed"; "malformed_response"]%string.
Definition transport_outcomes : list string := ["response_received"; "timeout"; "network_error"]%string.
Definition transport_reasons : list string :=
  ["cross_request_io"; "platform_subrequest_limit"; "invalid_request_context"; "network_connection_lost"; "aborted"; "fetch_type_error"; "unknown"]%string.
Definition transport_error_names : list string := ["AbortError"; "TypeError"; "Error"]%string.

(** ** Diagnostics *)

Definition MAX_WORKFLOW_ORCHESTRATION_DIAGNOSTIC_BYTES : Z := 4096.
Definition workflowOrchestrationStages : list string :=
  ["runtime_readiness"; "runtime_transport"; "checkpoint_gateway"; "graph_node_gateway"; "runtime_response"; "runtime_langgraph"]%string.
Definition workflowOrchestrationCodes : list string :=
  ["capability_unavailable"; "authentication_failed"; "protocol_incompatible"; "runtime_unavailable"; "timeout"; "network_error";
   "checkpoint_unavailable"; "checkpoint_authority_invalid"; "checkpoint_backend_unavailable"; "checkpoint_state_conflicting";
   "checkpoint_state_invalid"; "graph_node_unavailable"; "graph_node_authority_invalid"; "graph_node_backend_unavailable";
   "malformed_response"; "execution_failed"]%string.
Definition diagnostic_categories : list string :=
  ["authentication_failed"; "configuration_invalid"; "connection_unavailable"; "provider_unavailable"; "provider_rejected";
   "provider_timeout"; "provider_start_ambiguous"; "malformed_response"; "output_too_large"; "internal_error"]%string.
Definition gateways : list string := ["checkpoint_gateway"; "graph_node_gateway"]%string.
Definition validGatewayStageCode (stage code : jsval) : bool :=
  match stage with
  | JStr s =>
      if str_eqb s (js "checkpoint_gateway") then starts_with (js "checkpoint_") (js_String code)
      else if str_eqb s (js "graph_node_gateway") then starts_with (js "graph_node_") (js_String code) else true
  | _ => true
  end.
Definition in_named (l : list string) (v : jsval) : bool := one_of l (js_String v).

Definition parseRuntimeOrchestrationEvidence (value : jsval) : option jsval :=
  v ← object_of value;
  let at_ k := field (js k) v in
  if only_keys v ["stage"; "code"; "httpStatus"; "transportOutcome"]%string && in_named gateways (at_ "stage"%string) &&
     in_named workflowOrchestrationCodes (at_ "code"%string) && validGatewayStageCode (at_ "stage"%string) (at_ "code"%string) &&
     absent_or (λ x, integer_between x 100 599) (at_ "httpStatus"%string) && absent_or (in_named transport_outcomes) (at_ "transportOutcome"%string)
  then Some value else None.

Definition runtime_transport_ok (value : jsval) : bool :=
  match value with
  | JObj t =>
      let at_ k := field (js k) t in
      only_keys t ["outcome"; "reason"; "runtimeErrorName"; "httpStatus"; "elapsedMs"; "clientRequestId"]%string &&
      in_named transport_outcomes (at_ "outcome"%string) && absent_or (in_named transport_reasons) (at_ "reason"%string) &&
      absent_or (in_named transport_error_names) (at_ "runtimeErrorName"%string) &&
      absent_or (λ x, integer_between x 100 599) (at_ "httpStatus"%string) && integer_between (at_ "elapsedMs"%string) 0 3600000 &&
      identifier (at_ "clientRequestId"%string)
  | _ => false
  end.
Definition gateway_transport_ok (stage value : jsval) : bool :=
  in_named gateways stage &&
  match value with
  | JObj t => only_keys t ["outcome"; "httpStatus"]%string && in_named transport_outcomes (field (js "outcome") t) &&
              absent_or (λ x, integer_between x 100 599) (field (js "httpStatus") t)
  | _ => false
  end.
Definition counter_ok (v : jsval) : bool := absent_or (λ x, integer_between x 0 32768) v.
Definition observed_ok (v : jsval) : bool := match v with JStr s => negb (is_null (Date_parse s)) | _ => false end.
Definition is_one (v : jsval) : bool := match v with JNum (NInt 1) => true | _ => false end.

Definition parseWorkflowOrchestrationDiagnostic (value : jsval) : option jsval :=
  v ← object_of value;
  let at_ k := field (js k) v in
  if only_keys v ["version"; "stage"; "category"; "runtimeCode"; "orchestrationCode"; "runtimeTransport"; "gatewayTransport";
                  "consecutiveFailures"; "recoveryRetriesAllowed"; "transportTurnCount"; "runtimeReadinessAttemptCount";
                  "runtimeExecutionRequestCount"; "externalSubrequestCount"; "observedAt"]%string &&
     is_one (at_ "version"%string) && in_named workflowOrchestrationStages (at_ "stage"%string) &&
     in_named diagnostic_categories (at_ "category"%string) && in_named workflowOrchestrationCodes (at_ "orchestrationCode"%string) &&
     validGatewayStageCode (at_ "stage"%string) (at_ "orchestrationCode"%string) &&
     integer_between (at_ "consecutiveFailures"%string) 1 32769 && integer_between (at_ "recoveryRetriesAllowed"%string) 0 32768 &&
     counter_ok (at_ "transportTurnCount"%string) && counter_ok (at_ "runtimeReadinessAttemptCount"%string) &&
     counter_ok (at_ "runtimeExecutionRequestCount"%string) && counter_ok (at_ "externalSubrequestCount"%string) &&
     observed_ok (at_ "observedAt"%string) && absent_or (in_named runtimeSafeErrorCodes) (at_ "runtimeCode"%string) &&
     absent_or runtime_transport_ok (at_ "runtimeTransport"%string) &&
     absent_or (gateway_transport_ok (at_ "stage"%string)) (at_ "gatewayTransport"%string)
  then
    let parsed := JObj ([(js "version", JNum (NInt 1)); (js "stage", at_ "stage"%string); (js "category", at_ "category"%string)] ++
      spread_defined "runtimeCode" (at_ "runtimeCode"%string) ++ [(js "orchestrationCode", at_ "orchestrationCode"%string)] ++
      spread_defined "runtimeTransport" (at_ "runtimeTransport"%string) ++ spread_defined "gatewayTransport" (at_ "gatewayTransport"%string) ++
      [(js "consecutiveFailures", at_ "consecutiveFailures"%string); (js "recoveryRetriesAllowed", at_ "recoveryRetriesAllowed"%string)] ++
      spread_defined "transportTurnCount" (at_ "transportTurnCount"%string) ++
      spread_defined "runtimeReadinessAttemptCount" (at_ "runtimeReadinessAttemptCount"%string) ++
      spread_defined "runtimeExecutionRequestCount" (at_ "runtimeExecutionRequestCount"%string) ++
      spread_defined "externalSubrequestCount" (at_ "externalSubrequestCount"%string) ++ [(js "observedAt", at_ "observedAt"%string)]) in
    if (byte_length (stringify parsed) <=? MAX_WORKFLOW_ORCHESTRATION_DIAGNOSTIC_BYTES)%Z then Some parsed else None
  else None.
Definition serializeWorkflowOrchestrationDiagnostic (value : jsval) : outcome run_error str :=
  match parseWorkflowOrchestrationDiagnostic value with
  | Some parsed => Ok (stringify parsed)
  | None => Throw (RunError (js "invalid_orchestration_diagnostic"))
  end.

(** ** Results of the durable steps *)

Definition MAX_DURABLE_RUNTIME_FAILURE_BYTES : Z := 4096.
Definition MAX_SAFE_MESSAGE_BYTES : Z := 512.

Definition parseTransport (value : jsval) : option jsval :=
  t ← object_of value;
  let at_ k := field (js k) t in
  if only_keys t ["clientRequestId"; "requestId"; "httpStatus"; "elapsedMs"; "processingMs"; "outcome"; "reason"; "runtimeErrorName"]%string &&
     identifier (at_ "clientRequestId"%string) && absent_or identifier (at_ "requestId"%string) &&
     absent_or (λ x, integer_between x 100 599) (at_ "httpStatus"%string) && integer_between (at_ "elapsedMs"%string) 0 3600000 &&
     absent_or (λ x, integer_between x 0 3600000) (at_ "processingMs"%string) && in_named transport_outcomes (at_ "outcome"%string) &&
     absent_or (in_named transport_reasons) (at_ "reason"%string) && absent_or (in_named transport_error_names) (at_ "runtimeErrorName"%string)
  then Some value else None.

(** A part that may be absent: [None] is a part that is present and refused. *)
Definition optional_part (parse : jsval → option jsval) (v : jsval) : option jsval := if is_undefined v then Some JUndefined else parse v.
Definition safe_message_ok (v : jsval) : bool :=
  match v with JStr s => nonempty s && (byte_length s <=? MAX_SAFE_MESSAGE_BYTES)%Z | _ => false end.
Definition parseFailure (value : jsval) : option jsval :=
  f ← object_of value;
  let at_ k := field (js k) f in
  if only_keys f ["category"; "safeMessage"; "runtimeCode"; "transportDiagnostics"; "orchestration"]%string &&
     in_named failureCategories (at_ "category"%string) && safe_message_ok (at_ "safeMessage"%string) &&
     absent_or (in_named runtimeSafeErrorCodes) (at_ "runtimeCode"%string)
  then
    transport ← optional_part parseTransport (at_ "transportDiagnostics"%string);
    evidence ← optional_part parseRuntimeOrchestrationEvidence (at_ "orchestration"%string);
    let parsed := JObj ([(js "category", at_ "category"%string); (js "safeMessage", at_ "safeMessage"%string)] ++
      spread_defined "runtimeCode" (at_ "runtimeCode"%string) ++ spread_defined "transportDiagnostics" transport ++
      spread_defined "orchestration" evidence) in
    if (byte_length (stringify parsed) <=? MAX_DURABLE_RUNTIME_FAILURE_BYTES)%Z then Some parsed else None
  else None.

Definition result_states : list string :=
  ["admission_required"; "approval_required"; "advanced"; "completed"; "pending"; "failed"; "cancelled"; "execution_limit"; "graph_failure"]%string.
Definition text_field (v : jsval) : bool := match v with JUndefined | JStr _ => true | _ => false end.
Definition within_bytes (max : Z) (v : jsval) : bool := match v with JStr s => (byte_length s <=? max)%Z | _ => true end.
Definition frontier_entry (v : jsval) : bool :=
  match v with
  | JObj e => only_keys e ["nodeId"; "activationId"]%string && identifier (field (js "nodeId") e) && identifier (field (js "activationId") e)
  | _ => false
  end.
Definition frontier_ok (v : jsval) : bool := match v with JArr l => (length l <=? 3)%nat && forallb frontier_entry l | _ => false end.
Definition parseResult (value : jsval) : option jsval :=
  r ← object_of value;
  let at_ k := field (js k) r in
  if only_keys r ["state"; "outputText"; "frontier"; "interruptId"; "nodeId"; "activationId"; "message"; "text"; "safeMessage";
                  "failureCode"; "retryAfterMs"]%string &&
     in_named result_states (at_ "state"%string) &&
     forallb (λ k, text_field (at_ k)) ["outputText"; "interruptId"; "nodeId"; "activationId"; "message"; "text"; "safeMessage"]%string &&
     within_bytes 262144 (at_ "outputText"%string) && within_bytes MAX_SAFE_MESSAGE_BYTES (at_ "safeMessage"%string) &&
     absent_or frontier_ok (at_ "frontier"%string) && absent_or (in_named ["output_too_large"; "configuration_invalid"]%string) (at_ "failureCode"%string) &&
     absent_or (λ x, integer_between x 1000 900000) (at_ "retryAfterMs"%string)
  then Some value else None.

Record request_counts := RequestCounts { rc_readiness : Z; rc_langgraphExecution : Z }.
Definition parseCounts (value : jsval) : option request_counts :=
  c ← object_of value;
  if only_keys c ["readiness"; "langgraphExecution"]%string && integer_between (field (js "readiness") c) 0 1 &&
     integer_between (field (js "langgraphExecution") c) 0 2
  then match field (js "readiness") c, field (js "langgraphExecution") c with
       | JNum (NInt a), JNum (NInt b) => Some (RequestCounts a b)
       | _, _ => None
       end
  else None.
Definition counts_value (c : request_counts) : jsval :=
  JObj [(js "readiness", JNum (NInt (rc_readiness c))); (js "langgraphExecution", JNum (NInt (rc_langgraphExecution c)))].

Inductive durable_step := StepResult (result : jsval) (counts : request_counts) | StepFailed (failure : jsval) (counts : request_counts).
Definition is_kind (k : string) (v : jsval) : bool := match v with JStr s => str_eqb s (js k) | _ => false end.
Definition parseDurableLangGraphStepResult (value : jsval) : option durable_step :=
  e ← object_of value;
  let kind := field (js "kind") e in
  if only_keys e (if is_kind "result" kind then ["kind"; "result"; "requestCounts"]%string
                  else if is_kind "runtime_failure" kind then ["kind"; "failure"; "requestCounts"]%string else [])
  then
    counts ← parseCounts (field (js "requestCounts") e);
    if is_kind "result" kind then r ← parseResult (field (js "result") e); Some (StepResult r counts)
    else if is_kind "runtime_failure" kind then f ← parseFailure (field (js "failure") e); Some (StepFailed f counts)
    else None
  else None.
Inductive durable_validation := Validated (counts : request_counts) | ValidationFailed (failure : jsval) (counts : request_counts).
Definition parseDurableRuntimeValidationResult (value : jsval) : option durable_validation :=
  e ← object_of value;
  let kind := field (js "kind") e in
  if only_keys e (if is_kind "validated" kind then ["kind"; "requestCounts"]%string
                  else if is_kind "runtime_failure" kind then ["kind"; "failure"; "requestCounts"]%string else [])
  then
    counts ← parseCounts (field (js "requestCounts") e);
    if is_kind "validated" kind then Some (Validated counts)
    else f ← parseFailure (field (js "failure") e); Some (ValidationFailed f counts)
  else None.

(** A [RemoteRuntimeFailure]; absent properties are [undefined]. *)
Record remote_failure := RemoteFailure { mf_category : str; mf_safeMessage : str; mf_runtimeCode : option str; mf_transport : jsval; mf_orchestration : jsval }.
Definition result_value (result : jsval) (c : request_counts) : jsval :=
  JObj [(js "kind", JStr (js "result")); (js "result", result); (js "requestCounts", counts_value c)].
Definition validated_value (c : request_counts) : jsval := JObj [(js "kind", JStr (js "validated")); (js "requestCounts", counts_value c)].
Definition failure_value (failure : jsval) (c : request_counts) : jsval :=
  JObj [(js "kind", JStr (js "runtime_failure")); (js "failure", failure); (js "requestCounts", counts_value c)].
Definition step_value (s : durable_step) : jsval :=
  match s with StepResult r c => result_value r c | StepFailed f c => failure_value f c end.
Definition durableRuntimeFailure (e : remote_failure) (c : request_counts) : outcome run_error jsval :=
  let code := match mf_runtimeCode e with Some ((_ :: _) as s) => JStr s | _ => JUndefined end in
  match parseDurableLangGraphStepResult
          (failure_value (JObj ([(js "category", JStr (mf_category e)); (js "safeMessage", JStr (mf_safeMessage e))] ++
             spread_defined "runtimeCode" code ++ spread_defined "transportDiagnostics" (mf_transport e) ++
             spread_defined "orchestration" (mf_orchestration e))) c) with
  | Some (StepFailed f c') => Ok (failure_value f c')
  | _ => Throw (RunError (js "invalid_runtime_failure"))
  end.
