(* ===== verification/DurableFacts.v ===== *)
(** * Durable step results: facts

    A value that a durable step returned is checked again each time the step is
    replayed: checking is stable, and what passes is bounded. *)

From S2P Require Import Prelude JsString JsNumber JsDate Encoding Json JsonText FeatureRequests Contract RunTables DurableResult.

Lemma spread_cases k v : (v = JUndefined ∧ spread_defined k v = []) ∨ (is_undefined v = false ∧ spread_defined k v = [(js k, v)]).
Proof. destruct v; auto. Qed.

(** ** Failures *)

Definition failure_object (category message code transport evidence : jsval) : list (str * jsval) :=
  [(js "category", category); (js "safeMessage", message)] ++ spread_defined "runtimeCode" code ++
  spread_defined "transportDiagnostics" transport ++ spread_defined "orchestration" evidence.
Lemma failure_fields category message code transport evidence :
  let o := failure_object category message code transport evidence in
  field (js "category") o = category ∧ field (js "safeMessage") o = message ∧ field (js "runtimeCode") o = code ∧
  field (js "transportDiagnostics") o = transport ∧ field (js "orchestration") o = evidence ∧
  only_keys o ["category"; "safeMessage"; "runtimeCode"; "transportDiagnostics"; "orchestration"]%string = true.
Proof.
  intros o. unfold o, failure_object.
  destruct (spread_cases "runtimeCode" code) as [[-> ->]|[_ ->]], (spread_cases "transportDiagnostics" transport) as [[-> ->]|[_ ->]],
    (spread_cases "orchestration" evidence) as [[-> ->]|[_ ->]]; split_and!; reflexivity.
Qed.
Lemma parseTransport_same v t : parseTransport v = Some t → t = v.
Proof. unfold parseTransport. intros (o & _ & H)%bind_Some. cbv zeta in H. case_match; congruence. Qed.
Lemma parseEvidence_same v t : parseRuntimeOrchestrationEvidence v = Some t → t = v.
Proof. unfold parseRuntimeOrchestrationEvidence. intros (o & _ & H)%bind_Some. cbv zeta in H. case_match; congruence. Qed.
Lemma optional_part_stable parse v p : (∀ x y, parse x = Some y → y = x) → optional_part parse v = Some p → p = v.
Proof. unfold optional_part. intros H. destruct (is_undefined v) eqn:E; [destruct v; try discriminate E; congruence|apply H]. Qed.

(** What a checked failure is *)
Lemma parseFailure_inv v p : parseFailure v = Some p →
  ∃ category message code transport evidence, p = JObj (failure_object category message code transport evidence) ∧
    in_named failureCategories category = true ∧ safe_message_ok message = true ∧ absent_or (in_named runtimeSafeErrorCodes) code = true ∧
    optional_part parseTransport transport = Some transport ∧ optional_part parseRuntimeOrchestrationEvidence evidence = Some evidence ∧
    (byte_length (stringify p) <= MAX_DURABLE_RUNTIME_FAILURE_BYTES)%Z.
Proof.
  unfold parseFailure. intros (f & _ & H)%bind_Some. destruct (_ && _) eqn:E; [|done].
  apply bind_Some in H as (t & Ht & H). apply bind_Some in H as (e & He & H). cbv zeta in H.
  destruct (_ <=? _)%Z eqn:El; [|done]. apply Z.leb_le in El. injection H as <-.
  apply andb_true_iff in E as [E Ec]. apply andb_true_iff in E as [E Em]. apply andb_true_iff in E as [_ En].
  pose proof (optional_part_stable _ _ _ parseTransport_same Ht) as Et. pose proof (optional_part_stable _ _ _ parseEvidence_same He) as Ee.
  exists (field (js "category") f), (field (js "safeMessage") f), (field (js "runtimeCode") f), t, e. rewrite <-Et in Ht. rewrite <-Ee in He. done.
Qed.
Lemma parseFailure_stable v p : parseFailure v = Some p → parseFailure p = Some p.
Proof.
  intros (category & message & code & transport & evidence & -> & H1 & H2 & H3 & H4 & H5 & H6)%parseFailure_inv.
  destruct (failure_fields category message code transport evidence) as (F1 & F2 & F3 & F4 & F5 & F6).
  unfold parseFailure. cbn [object_of mbind option_bind]. rewrite F1, F2, F3, F4, F5, F6, H1, H2, H3, H4, H5. cbn [andb mbind option_bind].
  fold (failure_object category message code transport evidence). apply Z.leb_le in H6. by rewrite H6.
Qed.

(** ** Results and counts *)

Lemma parseCounts_value v c : parseCounts v = Some c → parseCounts (counts_value c) = Some c ∧ (0 <= rc_readiness c <= 1)%Z ∧ (0 <= rc_langgraphExecution c <= 2)%Z.
Proof.
  unfold parseCounts at 1. intros (o & _ & H)%bind_Some. destruct (_ && _) eqn:E; [|done]. apply andb_true_iff in E as [E E2]. apply andb_true_iff in E as [_ E1].
  destruct (field (js "readiness") o) as [| | |[a| | |]| | | |]; try done. destruct (field (js "langgraphExecution") o) as [| | |[b| | |]| | | |]; try done.
  injection H as <-. unfold integer_between in E1, E2.
  change (parseCounts (counts_value (RequestCounts a b))) with
    (if ((0 <=? a) && (a <=? 1))%Z && ((0 <=? b) && (b <=? 2))%Z then Some (RequestCounts a b) else None).
  rewrite E1, E2. cbn [rc_readiness rc_langgraphExecution]. apply andb_true_iff in E1 as [?%Z.leb_le ?%Z.leb_le]. apply andb_true_iff in E2 as [?%Z.leb_le ?%Z.leb_le]. auto.
Qed.
Lemma parseResult_same v r : parseResult v = Some r → r = v.
Proof. unfold parseResult. intros (o & _ & H)%bind_Some. cbv zeta in H. case_match; congruence. Qed.
(** The delay a result asks for *)
Lemma parseResult_delay v r : parseResult v = Some r →
  ∃ o, r = JObj o ∧ (field (js "retryAfterMs") o = JUndefined ∨ ∃ z, field (js "retryAfterMs") o = JNum (NInt z) ∧ (1000 <= z <= 900000)%Z).
Proof.
  intros H. pose proof (parseResult_same _ _ H) as ->. unfold parseResult in H. apply bind_Some in H as (o & Ho & H).
  destruct v; try done. injection Ho as ->. exists o. split; [done|]. destruct (_ && _) eqn:E; [|done].
  apply andb_true_iff in E as [_ E]. unfold absent_or, integer_between in E. destruct (field (js "retryAfterMs") o) as [| | |[z| | |]| | | |]; try done; auto.
  cbn in E. apply andb_true_iff in E as [?%Z.leb_le ?%Z.leb_le]. eauto.
Qed.

Lemma parsed_result v r c : parseDurableLangGraphStepResult v = Some (StepResult r c) → parseResult r = Some r.
Proof.
  unfold parseDurableLangGraphStepResult. intros (e & _ & H)%bind_Some. destruct (only_keys _ _); [|done].
  apply bind_Some in H as (c' & _ & H). destruct (is_kind "result" _).
  - apply bind_Some in H as (r' & Hr & H). injection H as -> _. pose proof (parseResult_same _ _ Hr) as E. by rewrite <-E in Hr.
  - destruct (is_kind "runtime_failure" _); [|done]. by apply bind_Some in H as (f & _ & H).
Qed.

(** C23: What a durable step returned can be replayed: a value that passes the
    check, once rebuilt as the step returns it, passes again as the same value.
    What passes is bounded: at most one readiness and two execution requests,
    a failure of at most 4096 bytes, a result whose delay is between one second
    and fifteen minutes. *)
Theorem durable_step_stable v s (Hparsed : parseDurableLangGraphStepResult v = Some s) :
  parseDurableLangGraphStepResult (step_value s) = Some s ∧
  match s with
  | StepResult r c => parseResult r = Some r ∧ (0 <= rc_readiness c <= 1)%Z ∧ (0 <= rc_langgraphExecution c <= 2)%Z ∧
      ∃ o, r = JObj o ∧ (field (js "retryAfterMs") o = JUndefined ∨ ∃ z, field (js "retryAfterMs") o = JNum (NInt z) ∧ (1000 <= z <= 900000)%Z)
  | StepFailed f c => (byte_length (stringify f) <= 4096)%Z ∧ (0 <= rc_readiness c <= 1)%Z ∧ (0 <= rc_langgraphExecution c <= 2)%Z
  end.
Proof.
  unfold parseDurableLangGraphStepResult in Hparsed. apply bind_Some in Hparsed as (e & _ & H). destruct (only_keys _ _); [|done].
  apply bind_Some in H as (c & Hc & H). apply parseCounts_value in Hc as (Hc & Hb). destruct (is_kind "result" _).
  - apply bind_Some in H as (r & Hr & H). injection H as <-. pose proof (parseResult_same _ _ Hr) as E. rewrite <-E in Hr.
    split; [|split_and!; try apply Hb; [done|by apply (parseResult_delay _ _ Hr)]].
    change (parseDurableLangGraphStepResult (step_value (StepResult r c))) with (c ← parseCounts (counts_value c); r ← parseResult r; Some (StepResult r c)).
    rewrite Hc. cbn. by rewrite Hr.
  - destruct (is_kind "runtime_failure" _); [|done]. apply bind_Some in H as (f & Hf & H). injection H as <-.
    pose proof (parseFailure_inv _ _ Hf) as (? & ? & ? & ? & ? & _ & _ & _ & _ & _ & _ & Hl). apply parseFailure_stable in Hf.
    split; [|split_and!; try apply Hb; done].
    change (parseDurableLangGraphStepResult (step_value (StepFailed f c))) with (c ← parseCounts (counts_value c); f ← parseFailure f; Some (StepFailed f c)).
    rewrite Hc. cbn. by rewrite Hf.
Qed.
