(* ===== verification/RunDriver.v ===== *)
(** * Workflow runs: the driver

    [executeLangGraphWorkflow] and [executeWorkflowRun] of
    [src/lib/workflow-worker-runtime.ts]: validation of the Runtime, the turns
    that advance the graph, recovery from failures, approvals, and the end of
    the run. The Runtime's answers, the clock and the suspended time are
    scripts of the world; a durable step runs its body once, and its value is
    checked again as on a replay. *)

From S2P Require Import Prelude JsString JsNumber JsDate Encoding Json Layout Libs Contract GithubClient D1 FeatureRequests WorkflowGraph WorkflowPlan RunTables RunStorage DurableResult.

(** What a call of the Runtime does; the requests it made are counted. *)
Inductive remote_answer :=
| RemoteAnswers (value : jsval) (counts : request_counts)
| RemoteFails (failure : remote_failure) (counts : request_counts)
| RemoteThrows.
Record graph_scope := GraphScope { gs_nodeId : str; gs_activationId : str; gs_generation : Z; gs_iteration : Z; gs_attempt : Z }.
Inductive remote_request := ValidateGraph | AdvanceGraph (resume : option (str * str)) (authorities : option (list (graph_scope * str))).

Record driver_world := DriverWorld {
  dw_run : run_world;
  dw_remote : list remote_answer;
  dw_ms : list Z;
  dw_suspended : list Z;
  dw_requests : list remote_request;
  dw_slept : list Z;
}.
Abbreviation DriverM := (eff driver_world run_error).

Definition storage {A} (m : RunM A) : DriverM A := λ w,
  let '(r, a) := m (dw_run w) in (DriverWorld r (dw_remote w) (dw_ms w) (dw_suspended w) (dw_requests w) (dw_slept w), a).
Definition remote (q : remote_request) : DriverM remote_answer := λ w,
  (DriverWorld (dw_run w) (tail (dw_remote w)) (dw_ms w) (dw_suspended w) (dw_requests w ++ [q]) (dw_slept w),
   Ok (default RemoteThrows (head (dw_remote w)))).
Definition now_ms : DriverM Z := λ w,
  (DriverWorld (dw_run w) (dw_remote w) (tail (dw_ms w)) (dw_suspended w) (dw_requests w) (dw_slept w), Ok (default 0%Z (head (dw_ms w)))).
Definition suspendedMs : DriverM Z := λ w,
  (DriverWorld (dw_run w) (dw_remote w) (dw_ms w) (tail (dw_suspended w)) (dw_requests w) (dw_slept w), Ok (default 0%Z (head (dw_suspended w)))).
Definition sleep (ms : Z) : DriverM unit := λ w,
  (DriverWorld (dw_run w) (dw_remote w) (dw_ms w) (dw_suspended w) (dw_requests w) (dw_slept w ++ [ms]), Ok ()).
Definition driver_error {A} (message : string) : DriverM A := throw (RunError (js message)).
Definition driver_requires (b : bool) (message : string) : DriverM unit := lift (guard_throw b (RunError (js message))).

Definition MAX_LANGGRAPH_RECOVERY_FAILURES : Z := 6.
Definition MAX_LANGGRAPH_TRANSPORT_TURNS : Z := 32768.
Definition MAX_WORKFLOW_RUN_MS : Z := 86400000.
Definition recoveryDelay (failure : Z) : Z :=
  default 0%Z ([1000; 2000; 5000; 10000; 30000; 30000]%Z !! Z.to_nat (Z.min (failure - 1) 5)).

(** The counters of a run of the driver *)
Record driver_state := DriverState {
  ds_failures : Z;
  ds_transportTurns : Z;
  ds_readinessAttempts : Z;
  ds_executionRequests : Z;
  ds_pendingTurns : Z;
  ds_resume : option (str * str);
}.
Definition addCounts (c : request_counts) (s : driver_state) : driver_state :=
  DriverState (ds_failures s) (ds_transportTurns s + rc_langgraphExecution c) (ds_readinessAttempts s + rc_readiness c)
    (ds_executionRequests s + rc_langgraphExecution c) (ds_pendingTurns s) (ds_resume s).
Definition with_failures (n : Z) (s : driver_state) : driver_state :=
  DriverState n (ds_transportTurns s) (ds_readinessAttempts s) (ds_executionRequests s) (ds_pendingTurns s) (ds_resume s).
Definition with_pending (n : Z) (s : driver_state) : driver_state :=
  DriverState (ds_failures s) (ds_transportTurns s) (ds_readinessAttempts s) (ds_executionRequests s) n (ds_resume s).
Definition with_resume (r : option (str * str)) (s : driver_state) : driver_state :=
  DriverState (ds_failures s) (ds_transportTurns s) (ds_readinessAttempts s) (ds_executionRequests s) (ds_pendingTurns s) r.

(** ** Diagnostics and recovery *)

Definition jnum (z : Z) : jsval := JNum (NInt z).
Definition field_of (k : string) (v : jsval) : jsval := prop_opt k v.
Definition is_value (v : jsval) (s : string) : bool := match v with JStr t => str_eqb t (js s) | _ => false end.
Definition value_in (l : list string) (v : jsval) : bool := existsb (is_value v) l.
(** [a ?? b] *)
Definition or_else (a b : jsval) : jsval := if nullish a then b else a.
Definition orchestrationDiagnostic (runtime : jsval) (failures : Z) (observedAt : str) (s : driver_state) : jsval :=
  let evidence := field_of "orchestration" runtime in
  let transport := field_of "transportDiagnostics" runtime in
  let code := field_of "runtimeCode" runtime in
  let outcome := field_of "outcome" transport in
  let '(stage, orchestration) :=
    if negb (nullish evidence) || nullish runtime
    then (or_else (field_of "stage" evidence) (JStr (js "runtime_langgraph")), or_else (field_of "code" evidence) (JStr (js "execution_failed")))
    else if is_value (field_of "category" runtime) "malformed_response" then (JStr (js "runtime_response"), JStr (js "malformed_response"))
    else if value_in ["timeout"; "network_error"]%string outcome then (JStr (js "runtime_transport"), outcome)
    else if value_in ["runtime_authentication_failed"; "protocol_incompatible"; "capability_unavailable"; "credential_invalid"]%string code ||
            value_in ["authentication_failed"; "configuration_invalid"; "connection_unavailable"]%string (field_of "category" runtime)
    then (JStr (js "runtime_readiness"),
          JStr (js (if is_value code "runtime_authentication_failed" then "authentication_failed"
                    else if is_value code "protocol_incompatible" then "protocol_incompatible"
                    else if is_value code "capability_unavailable" then "capability_unavailable" else "runtime_unavailable")%string))
    else (JStr (js "runtime_langgraph"), JStr (js "execution_failed")) in
  let gateway := field_of "transportOutcome" evidence in
  JObj ([(js "version", jnum 1); (js "stage", stage); (js "category", or_else (field_of "category" runtime) (JStr (js "internal_error")))] ++
        (if truthy code then [(js "runtimeCode", code)] else []) ++ [(js "orchestrationCode", orchestration)] ++
        (if truthy transport then [(js "runtimeTransport", transport)] else []) ++
        (if truthy gateway then [(js "gatewayTransport", JObj ((js "outcome", gateway) ::
            (if truthy (field_of "httpStatus" evidence) then [(js "httpStatus", field_of "httpStatus" evidence)] else [])))] else []) ++
        [(js "consecutiveFailures", jnum failures); (js "recoveryRetriesAllowed", jnum MAX_LANGGRAPH_RECOVERY_FAILURES);
         (js "transportTurnCount", jnum (ds_transportTurns s)); (js "runtimeReadinessAttemptCount", jnum (ds_readinessAttempts s));
         (js "runtimeExecutionRequestCount", jnum (ds_executionRequests s));
         (js "externalSubrequestCount", jnum (ds_readinessAttempts s + ds_executionRequests s)); (js "observedAt", JStr observedAt)]).

Definition cancel_asked (r : run_row) : bool := status_in [Cancelling] (rr_status r) || filled_column (rr_cancelRequestedAt r).
(** [Some status] is [done: true]. *)
Definition reconcileOrchestrationRace (run : str) (gen : Z) : RunM (option RunStatus) :=
  detail ← getRun run;
  match detail with
  | None => fails "run_not_found"
  | Some (RunDetail r _) =>
      if negb (generation r =? gen)%Z then mret (Some (rr_status r))
      else if cancel_asked r then when (status_in [Cancelling] (rr_status r)) (cancelRun run) ;; mret (Some RunCancelled)
      else mret (if status_in terminal (rr_status r) then Some (rr_status r) else None)
  end.

(** [failRun] with a diagnostic: the diagnostic is serialised before the statement. *)
Definition fail_diagnosed (run : str) (code message : str) (diagnostic : jsval) (gen : Z) : RunM unit :=
  json ← lift (serializeWorkflowOrchestrationDiagnostic diagnostic); failRun run code message (Some json) (Some gen).
Definition record_diagnosed (run : str) (gen : Z) (diagnostic : jsval) : RunM diagnostic_result :=
  json ← lift (serializeWorkflowOrchestrationDiagnostic diagnostic); recordOrchestrationDiagnostics run gen json.
Definition text_of (v : jsval) : str := match v with JStr s => s | _ => [] end.
(** The step goes on ([inr]) or the run has ended ([inl]). *)
Definition handleFailure (run : str) (gen : Z) (runtime : jsval) (s : driver_state) : DriverM (RunStatus + driver_state) :=
  raced ← storage (reconcileOrchestrationRace run gen);
  match raced with
  | Some status => mret (inl status)
  | None =>
      let failures := (ds_failures s + 1)%Z in
      t ← now_ms;
      let diagnostic := orchestrationDiagnostic runtime failures (toISOString t) s in
      let end_with code message := storage (fail_diagnosed run code message diagnostic gen) ;; mret (inl RunFailed) in
      if is_value (field_of "reason" (field_of "transportDiagnostics" runtime)) "platform_subrequest_limit"
      then end_with (js "provider_unavailable") (js "Workflow orchestration exceeded the platform external-subrequest budget.")
      else if is_value (field_of "runtimeCode" runtime) "capability_unavailable"
      then end_with (js "connection_unavailable") (js "ADT Runtime LangGraph capability is unavailable.")
      else if value_in ["authentication_failed"; "configuration_invalid"]%string (field_of "category" runtime)
      then end_with (text_of (field_of "category" runtime)) (text_of (field_of "safeMessage" runtime))
      else if (MAX_LANGGRAPH_RECOVERY_FAILURES <? failures)%Z
      then end_with (js "provider_unavailable") (js "Workflow orchestration remained unavailable after bounded recovery.")
      else
        mutation ← storage (record_diagnosed run gen diagnostic);
        match mutation with
        | DUpdated => sleep (recoveryDelay failures) ;; mret (inr (with_failures failures s))
        | _ =>
            changed ← storage (reconcileOrchestrationRace run gen);
            match changed with Some status => mret (inl status) | None => driver_error "diagnostic_mutation_conflict" end
        end
  end.

(** ** The head of every turn *)

Definition currentRun (run : str) : RunM run_row :=
  detail ← getRun run;
  match detail with
  | None => fails "run_not_found"
  | Some (RunDetail r _) => require_that (executable r) "legacy_run_read_only" ;; mret r
  end.
(** The run's row, or the status with which the driver stops *)
Definition turn_head (run : str) : DriverM (RunStatus + run_row) :=
  r ← storage (currentRun run);
  if status_in terminal (rr_status r) then mret (inl (rr_status r))
  else if cancel_asked r then storage (cancelRun run) ;; mret (inl RunCancelled)
  else
    t ← now_ms;
    suspended ← suspendedMs;
    let expired := match Date_parse (rf_createdAt (rr_frozen r)) with Some c => (MAX_WORKFLOW_RUN_MS <? t - c - suspended)%Z | None => false end in
    if expired then storage (failRun run (js "provider_timeout") (js "The workflow run exceeded its time limit.") None None) ;; mret (inl RunFailed)
    else mret (inr r).

(** ** Validation *)

Definition validate_body : DriverM jsval :=
  answer ← remote ValidateGraph;
  match answer with
  | RemoteAnswers _ c => mret (validated_value c)
  | RemoteFails f c => lift (durableRuntimeFailure f c)
  | RemoteThrows => driver_error "remote_error"
  end.
(** [inr] once the Runtime is validated; [None] when the fuel ends *)
Fixpoint validate_loop (fuel : nat) (run : str) (s : driver_state) : DriverM (option (RunStatus + driver_state)) :=
  match fuel with
  | O => mret None
  | S fuel =>
      start ← turn_head run;
      match start with
      | inl status => mret (Some (inl status))
      | inr r =>
          value ← validate_body;
          let recover failure s :=
            handled ← handleFailure run (generation r) failure s;
            match handled with inl status => mret (Some (inl status)) | inr s => validate_loop fuel run s end in
          match parseDurableRuntimeValidationResult value with
          | None => recover JUndefined s
          | Some (Validated c) => mret (Some (inr (with_failures 0 (addCounts c s))))
          | Some (ValidationFailed f c) => recover f (addCounts c s)
          end
      end
  end.

(** ** A turn of the graph *)

Section Turns.
Variable is_uuid : str → bool.
(** [checkpointAuthority] and [nodeAuthority]: signed tokens *)
Variable checkpointAuthority : outcome run_error str.
Variable nodeAuthority : graph_scope → outcome run_error str.

Definition frontier_of (v : jsval) : list (str * str) :=
  match field_of "frontier" v with
  | JArr l => omap (λ e, match field_of "nodeId" e, field_of "activationId" e with JStr n, JStr a => Some (n, a) | _, _ => None end) l
  | _ => []
  end.
Definition invalid_admission : run_error := RunError (js "invalid_graph_admission").
Definition admit_node (run : str) (admitted : run_detail) (na : str * str) : RunM (graph_scope * str) :=
  let '(node, act) := na in
  a ← match filled_column (re_failureCode (rr_result (de_run admitted))) with
      | true => lift (from_option_throw invalid_admission (last_such (of_activation run node act) (de_attempts admitted)))
      | false => ensureGraphActivation run node act
      end;
  lift (guard_throw (negb (step_in [Cancelled] (at_status a))) invalid_admission) ;;
  let scope := GraphScope node act (generation (de_run admitted)) (ak_iteration (at_key a)) (ak_attempt (at_key a)) in
  token ← lift (nodeAuthority scope);
  mret (scope, token).
Fixpoint admit_all (run : str) (admitted : run_detail) (l : list (str * str)) : RunM (list (graph_scope * str)) :=
  match l with
  | [] => mret []
  | na :: l => a ← admit_node run admitted na; rest ← admit_all run admitted l; mret (a :: rest)
  end.
Definition add_request_counts (a b : request_counts) : request_counts :=
  RequestCounts (rc_readiness a + rc_readiness b) (rc_langgraphExecution a + rc_langgraphExecution b).
(** The second call of a turn: the frontier is admitted and authorised. *)
Definition advance_admitted (run : str) (gen : Z) (resume : option (str * str)) (v : jsval) (c : request_counts) : DriverM jsval :=
  detail ← storage (getRun run);
  admitted ← lift (from_option_throw invalid_admission detail);
  lift (guard_throw (executable (de_run admitted) && (generation (de_run admitted) =? gen)%Z) invalid_admission) ;;
  lift (guard_throw (negb (bool_decide (frontier_of v = []))) invalid_admission) ;;
  authorities ← storage (admit_all run admitted (frontier_of v));
  second ← remote (AdvanceGraph resume (Some authorities));
  match second with
  | RemoteThrows => driver_error "remote_error"
  | RemoteFails f c' => lift (durableRuntimeFailure f (add_request_counts c c'))
  | RemoteAnswers v' c' => mret (result_value v' (add_request_counts c c'))
  end.
Definition advance_body (run : str) (gen : Z) (resume : option (str * str)) : DriverM jsval :=
  _ ← lift checkpointAuthority;
  first ← remote (AdvanceGraph resume None);
  match first with
  | RemoteThrows => driver_error "remote_error"
  | RemoteFails f c => lift (durableRuntimeFailure f c)
  | RemoteAnswers v c =>
      if is_value (field_of "state" v) "admission_required" then advance_admitted run gen resume v c else mret (result_value v c)
  end.

(** What the driver comes to: a status, or an approval it still waits for *)
Inductive driver_end := Finished (s : RunStatus) | StillWaiting | OutOfFuel.
Definition finish_failed (run : str) (code message : str) : DriverM (driver_end + driver_state) :=
  storage (failRun run code message None None) ;; mret (inl (Finished RunFailed)).

(** The pause of a pending turn, in slices of five seconds *)
Fixpoint wait_slices (fuel : nat) (run : str) (gen : Z) (remaining : Z) : DriverM (option (option RunStatus)) :=
  if (remaining <=? 0)%Z then mret (Some None) else
  match fuel with
  | O => mret None
  | S fuel =>
      let duration := Z.min 5000 remaining in
      sleep duration ;;
      changed ← storage (reconcileOrchestrationRace run gen);
      match changed with Some status => mret (Some (Some status)) | None => wait_slices fuel run gen (remaining - duration) end
  end.
Definition pending_delay (v : jsval) (pendingTurns : Z) : Z :=
  Z.max (match v with JNum (NInt z) => z | _ => 1000%Z end) (Z.min 45000 (3000 * 2 ^ Z.min (pendingTurns - 1) 4)).
(** 180 slices of five seconds are fifteen minutes, the longest delay of a checked result. *)
Definition slice_fuel : nat := 180.

Definition wait_approval (waits : nat) (run : str) (gen : Z) (result : jsval) (s : driver_state) : DriverM (driver_end + driver_state) :=
  match field_of "nodeId" result, field_of "activationId" result, field_of "interruptId" result, field_of "message" result, field_of "text" result with
  | JStr ((_ :: _) as n), JStr ((_ :: _) as a), JStr ((_ :: _) as i), JStr m, JStr t =>
      decision ← storage (waitForApprovalWake is_uuid waits (ApprovalInput run gen n a i m t));
      match decision with
      | None => mret (inl StillWaiting)
      | Some WakeCancelled => mret (inl (Finished RunCancelled))
      | Some (WakeApproved request interrupt) => mret (inr (with_resume (Some (request, interrupt)) s))
      end
  | _, _, _, _, _ => finish_failed run (js "internal_error") (js "Approval state could not be persisted.")
  end.
Definition finish_completed (run : str) (plan : execution_plan) (output : jsval) : DriverM (driver_end + driver_state) :=
  durable ← storage (getRun run);
  let final := d ← durable; last_such (λ a, of_step run (pl_terminal plan) a && step_in [Succeeded] (at_status a)) (de_attempts d) in
  match a ← final; text ← at_output a; Some (text, at_externalUrl a), output with
  | Some (text, url), JStr o =>
      if str_eqb o text then storage (completeRun run (pl_terminal plan) text url) ;; mret (inl (Finished RunSucceeded))
      else finish_failed run (js "internal_error") (js "Workflow terminal result could not be reconciled.")
  | _, _ => finish_failed run (js "internal_error") (js "Workflow terminal result could not be reconciled.")
  end.
(** [v ?? fallback] as a parameter of a statement, which is a text *)
Definition bound_text (v : jsval) (fallback : string) : outcome run_error str :=
  match v with JStr t => Ok t | JUndefined | JNull => Ok (js fallback) | _ => Throw RunDatabaseError end.
Definition take_result (waits : nat) (run : str) (gen : Z) (plan : execution_plan) (result : jsval) (s : driver_state) :
    DriverM (driver_end + driver_state) :=
  let state := field_of "state" result in
  if is_value state "approval_required" then wait_approval waits run gen result s
  else if is_value state "completed" then finish_completed run plan (field_of "outputText" result)
  else if is_value state "graph_failure" then
    code ← lift (bound_text (field_of "failureCode" result) "internal_error");
    message ← lift (bound_text (field_of "safeMessage" result) "Workflow graph execution failed.");
    finish_failed run code message
  else if is_value state "execution_limit" then finish_failed run (js "internal_error") (js "The workflow execution limit was reached.")
  else if is_value state "failed" then
    refreshed ← storage (getRun run);
    match refreshed with
    | Some (RunDetail r _) =>
        if status_in [RunFailed; RunCancelled] (rr_status r) then mret (inl (Finished (rr_status r)))
        else finish_failed run (js "internal_error") (js "Workflow node state could not be reconciled.")
    | None => finish_failed run (js "internal_error") (js "Workflow node state could not be reconciled.")
    end
  else if is_value state "cancelled" then
    refreshed ← storage (getRun run);
    when (has_status [Cancelling] refreshed) (storage (cancelRun run)) ;; mret (inl (Finished RunCancelled))
  else if is_value state "pending" then
    let pendingTurns := (ds_pendingTurns s + 1)%Z in
    waited ← wait_slices slice_fuel run gen (pending_delay (field_of "retryAfterMs" result) pendingTurns);
    match waited with
    | None => mret (inl OutOfFuel)
    | Some (Some status) => mret (inl (Finished status))
    | Some None => mret (inr (with_pending pendingTurns s))
    end
  else mret (inr (with_pending 0 s)).

(** Success after failures clears the diagnostics; [inl] when the run has moved on. *)
Definition clear_failures (run : str) (gen : Z) (s : driver_state) : DriverM (RunStatus + driver_state) :=
  if (0 <? ds_failures s)%Z then
    mutation ← storage (clearOrchestrationDiagnostics run gen);
    match mutation with
    | DUpdated => mret (inr (with_failures 0 s))
    | _ =>
        changed ← storage (reconcileOrchestrationRace run gen);
        match changed with Some status => mret (inl status) | None => driver_error "diagnostic_mutation_conflict" end
    end
  else mret (inr s).
Definition recover (run : str) (gen : Z) (failure : jsval) (s : driver_state) : DriverM (driver_end + driver_state) :=
  handled ← handleFailure run gen failure s;
  mret (match handled with inl status => inl (Finished status) | inr s => inr s end).
Definition graph_turn (waits : nat) (run : str) (s : driver_state) : DriverM (driver_end + driver_state) :=
  start ← turn_head run;
  match start with
  | inl status => mret (inl (Finished status))
  | inr r =>
      let gen := generation r in
      value ← attempt (advance_body run gen (ds_resume s));
      match value with
      | Throw _ => recover run gen JUndefined s
      | Ok value =>
          match parseDurableLangGraphStepResult value with
          | None => recover run gen JUndefined s
          | Some (StepFailed f c) => recover run gen f (addCounts c s)
          | Some (StepResult result c) =>
              cleared ← clear_failures run gen (addCounts c s);
              match cleared with
              | inl status => mret (inl (Finished status))
              | inr s =>
                  plan ← lift (from_option_throw (RunError (js "legacy_run_read_only")) (rf_plan (rr_frozen r)));
                  take_result waits run gen plan result (with_resume None s)
              end
          end
      end
  end.
Fixpoint turn_loop (turns waits : nat) (run : str) (s : driver_state) : DriverM driver_end :=
  match turns with
  | O => storage (failRun run (js "internal_error") (js "The workflow orchestration recovery limit was reached.") None None) ;; mret (Finished RunFailed)
  | S turns =>
      t ← graph_turn waits run s;
      match t with inl e => mret e | inr s => turn_loop turns waits run s end
  end.

(** The seventh failure in a row ends the run, so seven validations are enough. *)
Definition validation_fuel : nat := 7.
Definition executeLangGraphWorkflow (waits : nat) (run : str) : DriverM driver_end :=
  validated ← validate_loop validation_fuel run (DriverState 0 0 0 0 0 None);
  match validated with
  | None => mret OutOfFuel
  | Some (inl status) => mret (Finished status)
  | Some (inr s) => turn_loop (Z.to_nat MAX_LANGGRAPH_TRANSPORT_TURNS) waits run s
  end.
(** [configured]: the URLs of the two gateways are set. *)
Definition executeWorkflowRun (configured : bool) (waits : nat) (run instance : str) : DriverM driver_end :=
  driver_requires (nonempty run && nonempty instance) "invalid_workflow_context" ;;
  detail ← storage (getRun run);
  match detail with
  | None => driver_error "run_not_found"
  | Some (RunDetail r _) =>
      storage (assertRunExecutable r) ;;
      storage (attachWorkflowInstance run (generation r) instance) ;;
      driver_requires configured "langgraph_gateway_unavailable" ;;
      executeLangGraphWorkflow waits run
  end.
End Turns.
