(* ===== verification/RunDriverFacts.v ===== *)
(** * Workflow runs: theorems on the driver

    The driver keeps the tables consistent, authorises only stored attempts of
    its run, reports success only of a run with a succeeded attempt, and comes
    to an end. *)

From S2P Require Import Prelude JsString JsNumber JsDate Encoding Json Layout Libs Contract D1 FeatureRequests WorkflowGraph WorkflowPlan RunTables RunStorage RunFacts RunWf RunCalls RunTheorems DurableResult DurableFacts RunDriver.

(** ** Answers that are never given *)

(** [avoids φ m]: no answer of [m] is in [φ]. *)
Definition avoids {W E A} (φ : A → Prop) (m : eff W E A) : Prop := ∀ w w' a, m w = (w', Ok a) → ¬ φ a.
Section Avoids.
Context {W E : Type}.
Lemma avoids_ret {A} φ (a : A) : ¬ φ a → avoids φ (mret a : eff W E A).
Proof. intros H w w' b [= <- <-]. exact H. Qed.
Lemma avoids_throw {A} φ e : avoids φ (throw e : eff W E A).
Proof. by intros w w' a H. Qed.
Lemma avoids_bind {A B} (θ : A → Prop) (φ : B → Prop) (m : eff W E A) k : avoids θ m → (∀ a, ¬ θ a → avoids φ (k a)) → avoids φ (m ≫= k).
Proof. intros Hm Hk w w' b H. apply bind_run in H as [(w1 & a & H1 & H)|(e & _ & ?)]; [|done]. exact (Hk a (Hm _ _ _ H1) _ _ _ H). Qed.
Lemma avoids_next {A B} (φ : B → Prop) (m : eff W E A) k : (∀ a, avoids φ (k a)) → avoids φ (m ≫= k).
Proof. intros Hk. apply (avoids_bind (λ _, False)); [intros w w' a _ []|auto]. Qed.
Lemma avoids_attempt {A} (φ : A → Prop) (m : eff W E A) : avoids φ m → avoids (λ o, ∃ a, o = Ok a ∧ φ a) (attempt m).
Proof.
  intros H w w' o E1. unfold attempt in E1. destruct (m w) as [w1 r] eqn:Em. injection E1 as <- <-. intros (a & -> & Ha). exact (H _ _ _ Em Ha).
Qed.
End Avoids.
Lemma avoids_error {A} φ m : avoids (A := A) φ (driver_error m).
Proof. apply avoids_throw. Qed.
Ltac avoids_step :=
  lazymatch goal with
  | |- avoids _ (mret _) => apply avoids_ret; try discriminate
  | |- avoids _ (throw _) => apply avoids_throw
  | |- avoids _ (driver_error _) => apply avoids_error
  | |- avoids _ (match ?x with _ => _ end) => destruct x
  | |- avoids _ (mbind _ _) => apply avoids_next; intros
  end.

(** ** The tables *)

Lemma keeps_reconcile_race run gen : keeps run_grows (reconcileOrchestrationRace run gen).
Proof. unfold reconcileOrchestrationRace, fails. keeps_tac. Qed.
Lemma keeps_fail_diagnosed run code m d gen : keeps run_grows (fail_diagnosed run code m d gen).
Proof. unfold fail_diagnosed. keeps_tac. Qed.
Lemma keeps_record_diagnosed run gen d : keeps run_grows (record_diagnosed run gen d).
Proof. unfold record_diagnosed, recordOrchestrationDiagnostics. keeps_tac. Qed.
Lemma keeps_clear_diagnostics run gen : keeps run_grows (clearOrchestrationDiagnostics run gen).
Proof. unfold clearOrchestrationDiagnostics. keeps_tac. Qed.
Lemma keeps_currentRun run : keeps run_grows (currentRun run).
Proof. unfold currentRun, fails. keeps_tac. Qed.
Lemma keeps_admit authority run d na : keeps run_grows (admit_node authority run d na).
Proof. destruct na. unfold admit_node. keeps_tac. Qed.
Lemma keeps_admit_all authority run d l : keeps run_grows (admit_all authority run d l).
Proof. pose proof keeps_admit. induction l; cbn [admit_all]; keeps_tac. Qed.
Lemma keeps_assert r : keeps run_grows (assertRunExecutable r).
Proof. apply keeps_require. Qed.
#[export] Hint Resolve keeps_reconcile_race keeps_fail_diagnosed keeps_record_diagnosed keeps_clear_diagnostics keeps_currentRun keeps_admit_all
  keeps_assert keeps_wait : adt_keeps.

(** An attempt of the run with the key and the activation of an authority *)
Definition scope_attempt_key (run : str) (s : graph_scope) : attempt_key := AttemptKey run (gs_nodeId s) (gs_iteration s) (gs_attempt s).
Definition backs (run : str) (s : graph_scope) (a : attempt_row) : Prop := at_key a = scope_attempt_key run s ∧ at_activation a = Some (gs_activationId s).
Definition scope_backed (run : str) (d : run_db) (s : graph_scope) : Prop := ∃ a, a ∈ db_attempts d ∧ backs run s a.
Definition request_backed (run : str) (d : run_db) (q : remote_request) : Prop :=
  match q with AdvanceGraph _ (Some l) => ∀ s t, (s, t) ∈ l → scope_backed run d s | _ => True end.
Definition backed (run : str) (w : driver_world) : Prop := Forall (request_backed run (tables (dw_run w))) (dw_requests w).

Lemma scope_backed_evolves run d e s : evolves d e → scope_backed run d s → scope_backed run e s.
Proof.
  intros He (a & Ha & Hk & Hact). destruct (evolved_attempt _ _ _ He Ha) as (b & Hb & Hab). destruct (ae_identity _ _ Hab) as (E1 & E2 & _).
  exists b. split; [done|]. split; congruence.
Qed.
Lemma backed_evolves run d e q : evolves d e → request_backed run d q → request_backed run e q.
Proof. intros He. destruct q as [|resume [l|]]; cbn; eauto using scope_backed_evolves. Qed.

Definition driver_grows (run : str) (w w' : driver_world) : Prop :=
  sane (dw_run w) → run_grows (dw_run w) (dw_run w') ∧ (backed run w → backed run w').
#[export] Instance driver_grows_preorder run : PreOrder (driver_grows run).
Proof.
  split; [by intros w _|]. intros u v w H1 H2 Hs. destruct (H1 Hs) as [G1 B1]. destruct (H2 (proj1 (G1 Hs))) as [G2 B2].
  split; [by etransitivity|auto].
Qed.

Section Driver.
Variable run : str.
Abbreviation G := (driver_grows run).

Lemma keeps_storage {A} (m : RunM A) : keeps run_grows m → keeps G (storage m).
Proof.
  intros Hm w Hs. unfold storage. pose proof (Hm (dw_run w)) as Hg. destruct (m (dw_run w)) as [r a]. cbn in *. split; [done|].
  destruct (Hg Hs) as (_ & He & _). unfold backed. cbn. intros H. eapply Forall_impl; [exact H|]. intros q. by apply backed_evolves.
Qed.
Lemma keeps_plain_remote q : match q with AdvanceGraph _ (Some _) => False | _ => True end → keeps G (remote q).
Proof.
  intros Hq w Hs. cbn. split; [done|]. unfold backed. cbn. intros H. apply Forall_app. split; [done|]. constructor; [|constructor].
  by destruct q as [|? [|]].
Qed.
Lemma keeps_now_ms : keeps G now_ms.
Proof. by intros w Hs. Qed.
Lemma keeps_suspended : keeps G suspendedMs.
Proof. by intros w Hs. Qed.
Lemma keeps_sleep ms : keeps G (sleep ms).
Proof. by intros w Hs. Qed.
Lemma keeps_requires b m : keeps G (driver_requires b m).
Proof. apply keeps_lift, _. Qed.
Lemma keeps_driver_error {A} m : keeps G (driver_error (A := A) m).
Proof. apply keeps_throw, _. Qed.
Hint Resolve keeps_storage keeps_now_ms keeps_suspended keeps_sleep keeps_requires keeps_driver_error : adt_keeps.

Lemma keeps_handleFailure gen f s : keeps G (handleFailure run gen f s).
Proof. unfold handleFailure. keeps_tac. Qed.
Lemma keeps_turn_head : keeps G (turn_head run).
Proof. unfold turn_head. keeps_tac. Qed.
Lemma keeps_validate_body : keeps G validate_body.
Proof. unfold validate_body. keeps_tac. by apply keeps_plain_remote. Qed.
Hint Resolve keeps_handleFailure keeps_turn_head keeps_validate_body : adt_keeps.
Lemma keeps_validate_loop fuel s : keeps G (validate_loop fuel run s).
Proof. revert s. induction fuel as [|fuel IH]; intros s; cbn [validate_loop]; keeps_tac. Qed.

(** *** Admission *)

Definition listed (d : run_db) (a : attempt_row) : Prop := ∃ b, b ∈ db_attempts d ∧ at_key b = at_key a ∧ at_activation b = at_activation a.
Lemma listed_evolves d e a : evolves d e → listed d a → listed e a.
Proof.
  intros He (b & Hb & E1 & E2). destruct (evolved_attempt _ _ _ He Hb) as (b' & Hb' & Hab). destruct (ae_identity _ _ Hab) as (E3 & E4 & _).
  exists b'. split_and!; congruence.
Qed.
Lemma getRun_listed id w w' d : sane w → getRun id w = (w', Ok (Some d)) → ∀ a, a ∈ de_attempts d → listed (tables w') a.
Proof.
  intros Hs H a Ha. unfold getRun in H. apply run_bind_ok in H as (w1 & row & H1 & H).
  destruct (statement_ok _ _ _ _ H1 Hs) as (t & _ & S1 & _). destruct row as [r|]; [|done]. apply run_bind_ok in H as (w2 & l & H2 & H). injection H as <- <-.
  destruct (statement_ok _ _ _ _ H2 S1) as (t' & Ht & _). injection Ht as <- <-. cbn in Ha. unfold attempts_of in Ha.
  exists a. split; [|done]. assert (In a (List.filter (λ a, str_eqb (ak_run (at_key a)) id) (db_attempts t'))) as [Hin _]%filter_In;
    [|by apply list_elem_of_In]. apply list_elem_of_In. by rewrite sort_list_perm in Ha.
Qed.
Lemma last_such_elem {A} (f : A → bool) l a : last_such f l = Some a → a ∈ l ∧ f a = true.
Proof.
  unfold last_such. intros (k & E)%last_Some. assert (In a (List.filter f l)) as [Hin Hf]%filter_In; [|by rewrite list_elem_of_In].
  rewrite E. apply in_or_app. right. by left.
Qed.
Lemma activation_node_detail d step detail plan n : activation_node d step = Some (detail, plan, n) → d = Some detail.
Proof.
  unfold activation_node. intros (x & -> & H)%bind_Some. apply bind_Some in H as (p & _ & H). apply bind_Some in H as (m & _ & H). case_match; congruence.
Qed.
Lemma ensure_listed step act w w' a : sane w → ensureGraphActivation run step act w = (w', Ok a) →
  of_activation run step act a = true ∧ listed (tables w') a.
Proof.
  intros Hs H. unfold ensureGraphActivation in H. apply run_bind_ok in H as (w1 & u & H1 & H). injection H1 as <- _.
  apply run_bind_ok in H as (w2 & d & H2 & H). destruct (call_grows _ _ _ _ (keeps_getRun run) H2 Hs) as (S2 & _).
  apply run_bind_ok in H as (w3 & [[detail plan] n] & H3 & H). injection H3 as <- H3.
  assert (d = Some detail) as ->.
  { destruct (activation_node d step) as [x|] eqn:En; [|done]. injection H3 as ->. exact (activation_node_detail _ _ _ _ _ En). }
  destruct (last_such _ (de_attempts detail)) as [b|] eqn:El.
  - injection H as <- ->. apply last_such_elem in El as [Hin Hf]. split; [done|]. exact (getRun_listed _ _ _ _ Hs H2 _ Hin).
  - apply run_bind_ok in H as (w4 & u' & H4 & H). injection H4 as <- _. apply run_bind_ok in H as (w5 & [agent connection] & H5 & H). injection H5 as <- _.
    apply run_bind_ok in H as (w6 & r & H6 & H).
    assert (keeps run_grows (attempt (write (InsertActivation run step act agent connection)))) as Hk by keeps_tac.
    destruct (call_grows _ _ _ _ Hk H6 S2) as (S6 & _). unfold activated in H. apply run_bind_ok in H as (w7 & d' & H7 & H). injection H as <- H.
    destruct d' as [d'|]; [|done]. cbn in H. destruct (last_such _ (de_attempts d')) as [b|] eqn:El'; [|done]. injection H as ->.
    apply last_such_elem in El' as [Hin Hf]. split; [done|]. exact (getRun_listed _ _ _ _ S6 H7 _ Hin).
Qed.
Lemma admit_backed authority d na w w' s t : sane w → (∀ a, a ∈ de_attempts d → listed (tables w) a) →
  admit_node authority run d na w = (w', Ok (s, t)) → scope_backed run (tables w') s.
Proof.
  intros Hs Hd H. destruct na as [node act]. unfold admit_node in H. apply run_bind_ok in H as (w1 & a & H1 & H).
  assert (of_activation run node act a = true ∧ listed (tables w1) a) as [Hact (b & Hb & Hk & Ha)].
  { destruct (filled_column _); [|by eapply ensure_listed]. injection H1 as <- H1.
    destruct (last_such _ _) as [x|] eqn:El; [|done]. injection H1 as <-. apply last_such_elem in El as [Hin Hf]. auto. }
  apply run_bind_ok in H as (w2 & u & H2 & H). injection H2 as <- _. apply run_bind_ok in H as (w3 & tok & H3 & H). injection H3 as <- _.
  injection H as <- <- _. unfold of_activation, of_step in Hact. apply andb_true_iff in Hact as [[E1%str_eqb_eq E2%str_eqb_eq]%andb_true_iff E3].
  exists b. split; [done|]. split; [rewrite Hk; unfold scope_attempt_key; cbn; destruct (at_key a); cbn in *; congruence|].
  rewrite Ha. unfold opt_is in E3. destruct (at_activation a); [|done]. apply str_eqb_eq in E3 as ->. done.
Qed.
Lemma admit_all_backed authority d l w w' out : sane w → (∀ a, a ∈ de_attempts d → listed (tables w) a) →
  admit_all authority run d l w = (w', Ok out) → ∀ s t, (s, t) ∈ out → scope_backed run (tables w') s.
Proof.
  revert w w' out. induction l as [|na l IH]; intros w w' out Hs Hd H s t Hin; cbn [admit_all] in H; [injection H as <- <-; by apply elem_of_nil in Hin|].
  apply run_bind_ok in H as (w1 & [s1 t1] & H1 & H). apply run_bind_ok in H as (w2 & rest & H2 & H). injection H as <- <-.
  destruct (call_grows _ _ _ _ (keeps_admit _ _ _ _) H1 Hs) as (S1 & E1 & _). destruct (call_grows _ _ _ _ (keeps_admit_all _ _ _ _) H2 S1) as (_ & E2 & _).
  apply elem_of_cons in Hin as [[= -> ->]|Hin].
  - eapply scope_backed_evolves; [exact E2|]. exact (admit_backed _ _ _ _ _ _ _ Hs Hd H1).
  - eapply IH; [exact S1| |exact H2|exact Hin]. intros a Ha. eapply listed_evolves; [exact E1|auto].
Qed.

Lemma storage_run {A} (m : RunM A) w w' r : storage m w = (w', r) →
  m (dw_run w) = (dw_run w', r) ∧ dw_requests w' = dw_requests w.
Proof. unfold storage. destruct (m (dw_run w)) as [x a]. by intros [= <- <-]. Qed.
Lemma guard_run b w w' r (k : unit → DriverM jsval) : (lift (guard_throw b invalid_admission) ≫= k) w = (w', r) → w' = w ∨ k () w = (w', r).
Proof. destruct b; [by right|]. intros [= <- <-]. by left. Qed.
(** The request that carries authorities *)
Lemma authorised_grows resume auths (k : remote_answer → DriverM jsval) w w' r :
  (∀ s t, (s, t) ∈ auths → scope_backed run (tables (dw_run w)) s) → (∀ x, keeps G (k x)) →
  (remote (AdvanceGraph resume (Some auths)) ≫= k) w = (w', r) → G w w'.
Proof.
  intros Hb Hk E. apply bind_run in E as [(w1 & x & E1 & E)|(e & E1 & _)]; [|discriminate E1].
  transitivity w1; [|by apply (keeps_run _ _ _ _ _ (Hk x) E)]. injection E1 as <- _. intros _. split; [done|].
  unfold backed. cbn. intros H. apply Forall_app. split; [done|]. by repeat constructor.
Qed.
Lemma keeps_advance_admitted authority gen resume v c : keeps G (advance_admitted authority run gen resume v c).
Proof.
  intros w Hs. destruct (advance_admitted authority run gen resume v c w) as [w' r] eqn:E. cbn. enough (G w w') as HG by exact (HG Hs).
  unfold advance_admitted in E. apply bind_run in E as [(w1 & d & E1 & E)|(e & E1 & _)];
    pose proof (keeps_run G _ _ _ _ (keeps_storage _ (keeps_getRun run)) E1) as G1; [|done].
  transitivity w1; [done|]. apply storage_run in E1 as [E1 _]. destruct (call_grows _ _ _ _ (keeps_getRun run) E1 Hs) as (S1 & _).
  destruct d as [d|]; [|injection E as <- _; done]. change (lift (from_option_throw invalid_admission (Some d))) with (mret d : DriverM run_detail) in E.
  apply bind_run in E as [(w2 & d' & [= <- <-] & E)|(e & E2 & _)]; [|done].
  apply guard_run in E as [->|E]; [done|]. apply guard_run in E as [->|E]; [done|].
  apply bind_run in E as [(w2 & auths & E2 & E)|(e & E2 & _)];
    pose proof (keeps_run G _ _ _ _ (keeps_storage _ (keeps_admit_all authority run d (frontier_of v))) E2) as G2; [|done].
  transitivity w2; [done|]. apply storage_run in E2 as [E2 _].
  eapply authorised_grows; [| |exact E].
  - exact (admit_all_backed _ _ _ _ _ _ S1 (getRun_listed _ _ _ _ Hs E1) E2).
  - intros x. destruct x; keeps_tac.
Qed.
Hint Resolve keeps_advance_admitted keeps_validate_loop : adt_keeps.

Lemma keeps_advance_body checkpoint authority gen resume : keeps G (advance_body checkpoint authority run gen resume).
Proof. unfold advance_body. keeps_tac. by apply keeps_plain_remote. Qed.
Lemma keeps_finish_failed code m : keeps G (finish_failed run code m).
Proof. unfold finish_failed. keeps_tac. Qed.
Lemma keeps_wait_slices fuel gen remaining : keeps G (wait_slices fuel run gen remaining).
Proof. revert remaining. induction fuel as [|fuel IH]; intros remaining; cbn [wait_slices]; keeps_tac. Qed.
Hint Resolve keeps_advance_body keeps_finish_failed keeps_wait_slices : adt_keeps.
Lemma keeps_wait_approval is_uuid waits gen result s : keeps G (wait_approval is_uuid waits run gen result s).
Proof. unfold wait_approval. keeps_tac. Qed.
Lemma keeps_finish_completed plan output : keeps G (finish_completed run plan output).
Proof. unfold finish_completed. keeps_tac. Qed.
Hint Resolve keeps_wait_approval keeps_finish_completed : adt_keeps.
Lemma keeps_take_result is_uuid waits gen plan result s : keeps G (take_result is_uuid waits run gen plan result s).
Proof. unfold take_result. keeps_tac. Qed.
Lemma keeps_clear_failures gen s : keeps G (clear_failures run gen s).
Proof. unfold clear_failures. keeps_tac. Qed.
Lemma keeps_recover_turn gen f s : keeps G (recover run gen f s).
Proof. unfold recover. keeps_tac. Qed.
Hint Resolve keeps_take_result keeps_clear_failures keeps_recover_turn : adt_keeps.
Lemma keeps_graph_turn is_uuid checkpoint authority waits s : keeps G (graph_turn is_uuid checkpoint authority waits run s).
Proof. unfold graph_turn. keeps_tac. Qed.
Lemma keeps_turn_loop is_uuid checkpoint authority turns waits s : keeps G (turn_loop is_uuid checkpoint authority turns waits run s).
Proof. revert s. pose proof keeps_graph_turn. induction turns as [|turns IH]; intros s; cbn [turn_loop]; keeps_tac. Qed.
Lemma keeps_driver is_uuid checkpoint authority configured waits instance :
  keeps G (executeWorkflowRun is_uuid checkpoint authority configured waits run instance).
Proof. pose proof keeps_turn_loop. unfold executeWorkflowRun, executeLangGraphWorkflow. generalize (Z.to_nat MAX_LANGGRAPH_TRANSPORT_TURNS). intros n. keeps_tac. Qed.

(** ** Reports of success *)

Lemma success_persists d e : evolves d e → has_success (db_attempts d) run → has_success (db_attempts e) run.
Proof.
  intros He (a & Ha & Hr & Hs). destruct (evolved_attempt _ _ _ He Ha) as (b & Hb & Hab). exists b.
  rewrite (ae_ended _ _ Hab) in * by (by rewrite Hs). done.
Qed.
Abbreviation succeeded w := (has_success (db_attempts (tables w)) run).

Lemma getRun_success w w' o : sane w → run_wf (tables w) → getRun run w = (w', Ok o) → has_status [RunSucceeded] o = true → succeeded w'.
Proof.
  intros Hs Hwf H Ho. unfold getRun in H. apply run_bind_ok in H as (w1 & row & H1 & H).
  destruct (statement_ok _ _ _ _ H1 Hs) as (t & Ht & S1 & _ & Wt). injection Ht as Et Hrow. destruct row as [r|]; [|by injection H as <- <-].
  apply run_bind_ok in H as (w2 & l & H2 & H). injection H as <- <-.
  destruct (call_grows _ _ _ _ (keeps_query _) H2 S1) as (_ & E2 & _). eapply success_persists; [exact E2|]. rewrite <-Et.
  apply (rw_success _ (Wt Hwf) _ _ Hrow). cbn in Ho. by destruct (rr_status r).
Qed.
Definition ok_status (s : RunStatus) : bool := bool_decide (s = RunSucceeded).
Lemma race_success gen w w' s : sane w → run_wf (tables w) → reconcileOrchestrationRace run gen w = (w', Ok (Some s)) → ok_status s = true → succeeded w'.
Proof.
  intros Hs Hwf H Ho. apply bool_decide_eq_true in Ho as ->. unfold reconcileOrchestrationRace in H. apply run_bind_ok in H as (w1 & d & H1 & H).
  destruct d as [[r l]|]; [|done]. pose proof (getRun_success _ _ _ Hs Hwf H1) as Hg.
  destruct (negb _); [injection H as <- H; apply Hg; cbn; by rewrite H|]. destruct (cancel_asked r).
  - apply run_bind_ok in H as (w2 & u & _ & H). by injection H.
  - unfold mret, eff_ret in H. injection H as <- H. apply Hg. case_match; [|discriminate H]. injection H as H. cbn. by rewrite H.
Qed.
Lemma current_success w w' r : sane w → run_wf (tables w) → currentRun run w = (w', Ok r) → ok_status (rr_status r) = true → succeeded w'.
Proof.
  intros Hs Hwf H Ho. apply bool_decide_eq_true in Ho. unfold currentRun in H. apply run_bind_ok in H as (w1 & d & H1 & H).
  destruct d as [[r' l]|]; [|done]. pose proof (getRun_success _ _ _ Hs Hwf H1) as Hg. apply run_bind_ok in H as (w2 & u & H2 & H).
  injection H2 as <- _. injection H as <- ->. apply Hg. cbn. by rewrite Ho.
Qed.
Lemma completeRun_success step output url w w' u : sane w → run_wf (tables w) → completeRun run step output url w = (w', Ok u) → succeeded w'.
Proof.
  intros Hs Hwf H. unfold completeRun in H. apply run_bind_ok in H as (w1 & d & H1 & H). pose proof (getRun_success _ _ _ Hs Hwf H1) as Hg.
  destruct (call_grows _ _ _ _ (keeps_getRun run) H1 Hs) as (S1 & _). destruct (has_status _ d); [injection H as <- _; by apply Hg|].
  apply run_bind_ok in H as (w2 & t & H2 & H). injection H2 as <- _. apply run_bind_ok in H as (w3 & t' & H3 & H). injection H3 as <- _.
  apply run_bind_ok in H as (w4 & n & H4 & H). unfold changed, require_that, lift in H. injection H as <- H.
  match type of H4 with _ ?w0 = _ => assert (sane w0) as S0 by exact S1 end.
  destruct (statement_ok _ _ _ _ H4 S0) as (e & He & _). destruct (n =? 1)%Z eqn:En; [|done]. apply Z.eqb_eq in En as ->.
  cbn [exec_write] in He. unfold update_run in He. destruct (db_runs e !! run) as [r|]; [|done]. destruct (_ && _) eqn:Ec; [|done].
  injection He as <-. cbn. apply andb_true_iff in Ec as [_ (a & Ha & Hc)%existsb_exists]. apply andb_true_iff in Hc as [Hc Hst].
  exists a. split; [by apply list_elem_of_In|]. apply andb_true_iff in Hc as [Hc%str_eqb_eq _]. split; [done|]. by destruct (at_status a).
Qed.

(** [reports φ m]: an answer in [φ] is only given of a run with a succeeded attempt. *)
Definition reports {A} (φ : A → bool) (m : DriverM A) : Prop := ∀ w w' a,
  sane (dw_run w) → run_wf (tables (dw_run w)) → m w = (w', Ok a) → φ a = true → succeeded (dw_run w').
Lemma reports_ret {A} φ (a : A) : φ a = false → reports φ (mret a).
Proof. intros H w w' b _ _ [= <- <-]. congruence. Qed.
Lemma reports_throw {A} φ e : reports (A := A) φ (throw e).
Proof. by intros w w' a _ _ H. Qed.
Lemma reports_error {A} φ m : reports (A := A) φ (driver_error m).
Proof. apply reports_throw. Qed.
Lemma reports_silent {A} (m : DriverM A) : reports (λ _, false) m.
Proof. by intros w w' a _ _ _. Qed.
Lemma reports_bind {A B} (φ : A → bool) (ψ : B → bool) m k : keeps G m → (∀ a, keeps G (k a)) → reports φ m →
  (∀ a, φ a = false → reports ψ (k a)) → reports ψ (m ≫= k).
Proof.
  intros Km Kk Hm Hk w w' b Hs Hwf H Hb. apply bind_run in H as [(w1 & a & H1 & H)|(e & _ & ?)]; [|done].
  destruct (keeps_run G _ _ _ _ Km H1 Hs) as [G1 _]. destruct (G1 Hs) as (S1 & _ & W1). destruct (φ a) eqn:Ea.
  - destruct (keeps_run G _ _ _ _ (Kk a) H S1) as [G2 _]. destruct (G2 S1) as (_ & E2 & _). eapply success_persists; [exact E2|]. exact (Hm w w1 a Hs Hwf H1 Ea).
  - exact (Hk a Ea w1 w' b S1 (W1 Hwf) H Hb).
Qed.
Lemma reports_next {A B} (ψ : B → bool) (m : DriverM A) k : keeps G m → (∀ a, keeps G (k a)) → (∀ a, reports ψ (k a)) → reports ψ (m ≫= k).
Proof. intros Km Kk Hk. apply (reports_bind (λ _, false)); auto using reports_silent. Qed.
Lemma reports_storage {A} (φ : A → bool) (m : RunM A) :
  (∀ w w' a, sane w → run_wf (tables w) → m w = (w', Ok a) → φ a = true → succeeded w') → reports φ (storage m).
Proof. intros H w w' a Hs Hwf [E _]%storage_run Ha. exact (H (dw_run w) (dw_run w') a Hs Hwf E Ha). Qed.
Definition ok_option (o : option RunStatus) : bool := match o with Some s => ok_status s | None => false end.
Definition ok_left {B} (x : RunStatus + B) : bool := match x with inl s => ok_status s | inr _ => false end.
Definition ok_end (e : driver_end) : bool := match e with Finished s => ok_status s | _ => false end.
Definition ok_turn {B} (x : driver_end + B) : bool := match x with inl e => ok_end e | inr _ => false end.
Lemma reports_race gen : reports ok_option (storage (reconcileOrchestrationRace run gen)).
Proof. apply reports_storage. intros w w' [s|] Hs Hwf H Ho; [|done]. exact (race_success gen w w' s Hs Hwf H Ho). Qed.

Ltac reports_step :=
  lazymatch goal with
  | |- reports _ (mret _) => apply reports_ret; first [reflexivity|assumption]
  | |- reports _ (throw _) => apply reports_throw
  | |- reports _ (driver_error _) => apply reports_error
  | |- reports _ (match ?x with _ => _ end) => destruct x
  | |- reports _ (mbind _ (storage (reconcileOrchestrationRace _ _))) => apply (reports_bind ok_option); [auto with adt_keeps|intros; keeps_tac|apply reports_race|intros]
  | |- reports _ (mbind _ _) => apply reports_next; [keeps_tac|intros; keeps_tac|intros]
  end.
Lemma reports_handle gen f s : reports ok_left (handleFailure run gen f s).
Proof. unfold handleFailure. repeat reports_step. Qed.
Lemma reports_head : reports ok_left (turn_head run).
Proof.
  unfold turn_head. apply (reports_bind (λ r, ok_status (rr_status r))); [keeps_tac|intros; keeps_tac| |].
  - apply reports_storage. intros w w' r Hs Hwf H Ho. exact (current_success w w' r Hs Hwf H Ho).
  - intros r Hr. repeat reports_step.
Qed.
Lemma reports_clear gen s : reports ok_left (clear_failures run gen s).
Proof. unfold clear_failures. repeat reports_step. Qed.
Lemma reports_recover gen f s : reports ok_turn (recover run gen f s).
Proof.
  unfold recover. apply (reports_bind ok_left); [keeps_tac|intros; keeps_tac|apply reports_handle|]. intros [s'|s'] H; by apply reports_ret.
Qed.
Definition ok_wait (o : option (option RunStatus)) : bool := match o with Some o => ok_option o | None => false end.
Lemma reports_slices fuel gen remaining : reports ok_wait (wait_slices fuel run gen remaining).
Proof. revert remaining. induction fuel as [|fuel IH]; intros remaining; cbn [wait_slices]; repeat reports_step; apply IH. Qed.
Definition ok_validation {B} (o : option (RunStatus + B)) : bool := match o with Some x => ok_left x | None => false end.
Lemma reports_validate fuel s : reports ok_validation (validate_loop fuel run s).
Proof.
  revert s. induction fuel as [|fuel IH]; intros s; cbn [validate_loop]; [by apply reports_ret|].
  apply (reports_bind ok_left); [keeps_tac|intros; keeps_tac|apply reports_head|]. intros [st|r] H; [by apply reports_ret|].
  apply reports_next; [keeps_tac|intros; keeps_tac|]. intros value.
  assert (∀ f s, reports ok_validation (handled ← handleFailure run (generation r) f s;
    match handled with inl status => mret (Some (inl status)) | inr s => validate_loop fuel run s end)) as Hrec.
  { intros f s'. apply (reports_bind ok_left); [keeps_tac|intros; keeps_tac|apply reports_handle|]. intros [st|s''] Hh; [by apply reports_ret|apply IH]. }
  destruct (parseDurableRuntimeValidationResult value) as [[c|f c]|]; [by apply reports_ret|apply Hrec..].
Qed.
Lemma reports_failed code m : reports ok_turn (finish_failed run code m).
Proof. unfold finish_failed. repeat reports_step. Qed.
Lemma reports_completed plan output : reports ok_turn (finish_completed run plan output).
Proof.
  unfold finish_completed. apply reports_next; [keeps_tac|intros; keeps_tac|]. intros d. cbv zeta.
  destruct (_ ≫= _) as [[text url]|]; [|apply reports_failed]. destruct output; try apply reports_failed. destruct (str_eqb _ _); [|apply reports_failed].
  apply (reports_bind (λ _, true)); [keeps_tac|intros; keeps_tac| |done].
  apply reports_storage. intros w w' u Hs Hwf H _. exact (completeRun_success _ _ _ w w' u Hs Hwf H).
Qed.
Lemma reports_approval is_uuid waits gen result s : reports ok_turn (wait_approval is_uuid waits run gen result s).
Proof. pose proof reports_failed. unfold wait_approval. repeat reports_step; auto. Qed.
Lemma reports_take is_uuid waits gen plan result s : reports ok_turn (take_result is_uuid waits run gen plan result s).
Proof.
  pose proof reports_failed. unfold take_result. cbv zeta. destruct (is_value _ _); [apply reports_approval|].
  destruct (is_value _ _); [apply reports_completed|]. destruct (is_value _ _); [repeat reports_step; auto|]. destruct (is_value _ _); [auto|].
  destruct (is_value _ _).
  - apply reports_next; [keeps_tac|intros; keeps_tac|]. intros [[r l]|]; [|auto]. destruct (status_in _ _) eqn:E; [|auto].
    apply reports_ret. cbn. by destruct (rr_status r).
  - destruct (is_value _ _); [repeat reports_step|]. destruct (is_value _ _); [|repeat reports_step].
    apply (reports_bind ok_wait); [keeps_tac|intros; keeps_tac|apply reports_slices|]. intros [[st|]|] H'; by apply reports_ret.
Qed.
Lemma reports_turn is_uuid checkpoint authority waits s : reports ok_turn (graph_turn is_uuid checkpoint authority waits run s).
Proof.
  unfold graph_turn. apply (reports_bind ok_left); [keeps_tac|intros; keeps_tac|apply reports_head|]. intros [st|r] H; [by apply reports_ret|].
  apply reports_next; [keeps_tac|intros; keeps_tac|]. intros [value|e]; [|apply reports_recover].
  destruct (parseDurableLangGraphStepResult value) as [[result c|f c]|]; [|apply reports_recover..].
  apply (reports_bind ok_left); [keeps_tac|intros; keeps_tac|apply reports_clear|]. intros [st|s'] H'; [by apply reports_ret|].
  apply reports_next; [keeps_tac|intros; keeps_tac|]. intros plan. apply reports_take.
Qed.
Lemma reports_turns is_uuid checkpoint authority turns waits s : reports ok_end (turn_loop is_uuid checkpoint authority turns waits run s).
Proof.
  pose proof keeps_graph_turn as Kg. pose proof keeps_turn_loop as Kl. revert s. induction turns as [|turns IH]; intros s; cbn [turn_loop]; [repeat reports_step|].
  apply (reports_bind ok_turn); [auto|intros; keeps_tac|apply reports_turn|]. intros [e|s'] H; [by apply reports_ret|apply IH].
Qed.
Lemma reports_driver is_uuid checkpoint authority configured waits instance :
  reports ok_end (executeWorkflowRun is_uuid checkpoint authority configured waits run instance).
Proof.
  pose proof keeps_turn_loop as Kl. unfold executeWorkflowRun, executeLangGraphWorkflow. generalize (Z.to_nat MAX_LANGGRAPH_TRANSPORT_TURNS). intros n.
  apply reports_next; [keeps_tac|intros; keeps_tac|]. intros _. apply reports_next; [keeps_tac|intros; keeps_tac|]. intros [[r l]|]; [|apply reports_error].
  apply reports_next; [keeps_tac|intros; keeps_tac|]. intros _. apply reports_next; [keeps_tac|intros; keeps_tac|]. intros _.
  apply reports_next; [keeps_tac|intros; keeps_tac|]. intros _.
  apply (reports_bind ok_validation); [keeps_tac|intros; keeps_tac|apply reports_validate|].
  intros [[st|s]|] H; [by apply reports_ret|apply reports_turns|by apply reports_ret].
Qed.
End Driver.

(** ** Theorems *)

(** C18: Whatever the Runtime answers, whatever statements fail and whatever
    other workers write, a run of the driver keeps the tables consistent, and
    it authorises the Runtime only for attempts that are stored for its run
    under the same node, activation, iteration and try. *)
Theorem driver_authorities_backed is_uuid checkpoint authority configured waits run instance w w' r
    (Hothers : sane (dw_run w)) (Hwf : run_wf (tables (dw_run w))) (Hfresh : dw_requests w = [])
    (Hdrive : executeWorkflowRun is_uuid checkpoint authority configured waits run instance w = (w', r)) :
  run_wf (tables (dw_run w')) ∧
  ∀ resume l s t, AdvanceGraph resume (Some l) ∈ dw_requests w' → (s, t) ∈ l →
    ∃ a, a ∈ db_attempts (tables (dw_run w')) ∧ at_activation a = Some (gs_activationId s) ∧
      at_key a = AttemptKey run (gs_nodeId s) (gs_iteration s) (gs_attempt s).
Proof.
  destruct (keeps_run (driver_grows run) _ _ _ _ (keeps_driver run is_uuid checkpoint authority configured waits instance) Hdrive Hothers) as [G B].
  destruct (G Hothers) as (_ & _ & W). split; [auto|]. intros resume l s t Hq Hs.
  assert (backed run w') as Hb by (apply B; unfold backed; rewrite Hfresh; constructor).
  unfold backed in Hb. rewrite Forall_forall in Hb. destruct (Hb _ Hq s t Hs) as (a & Ha & Hk & Hact). eauto.
Qed.

(** C19: The driver reports a run as succeeded only if an attempt of the run has
    succeeded: through races with other drivers, replays and failures the
    status it returns was read from or written to the tables. *)
Theorem driver_reports_success is_uuid checkpoint authority configured waits run instance w w'
    (Hothers : sane (dw_run w)) (Hwf : run_wf (tables (dw_run w)))
    (Hdrive : executeWorkflowRun is_uuid checkpoint authority configured waits run instance w = (w', Ok (Finished RunSucceeded))) :
  ∃ a, a ∈ db_attempts (tables (dw_run w')) ∧ ak_run (at_key a) = run ∧ at_status a = Succeeded.
Proof.
  exact (reports_driver run is_uuid checkpoint authority configured waits instance w w' _ Hothers Hwf Hdrive eq_refl).
Qed.

(** ** Fuel *)

(** A handled failure counts, and no more than six in a row are handled. *)
Lemma handle_counts run gen f s :
  avoids (λ x, ∃ s', x = inr s' ∧ ¬ (ds_failures s' = ds_failures s + 1 ∧ ds_failures s' <= 6)%Z) (handleFailure run gen f s).
Proof.
  unfold handleFailure. apply avoids_next. intros [st|]; [apply avoids_ret; by intros (? & ? & _)|]. cbv zeta. apply avoids_next. intros t.
  do 3 (case_match; [repeat avoids_step; by intros (? & ? & _)|]).
  destruct (_ <? _)%Z eqn:E; [repeat avoids_step; by intros (? & ? & _)|]. apply Z.ltb_ge in E.
  apply avoids_next. intros []; repeat avoids_step; try (by intros (? & ? & _)). intros (s' & [= <-] & Hno). apply Hno. cbn. unfold MAX_LANGGRAPH_RECOVERY_FAILURES in E. lia.
Qed.
Lemma validate_fuel run fuel s : (0 <= ds_failures s <= 6)%Z → (7 <= Z.of_nat fuel + ds_failures s)%Z → avoids (λ o, o = None) (validate_loop fuel run s).
Proof.
  revert s. induction fuel as [|fuel IH]; intros s Hf Hn; cbn [validate_loop]; [lia|]. apply avoids_next. intros [st|r]; [by apply avoids_ret|].
  apply avoids_next. intros value.
  assert (∀ f s', ds_failures s' = ds_failures s → avoids (λ o, o = None) (handled ← handleFailure run (generation r) f s';
    match handled with inl status => mret (Some (inl status)) | inr s => validate_loop fuel run s end)) as Hrec.
  { intros f s' Es. eapply avoids_bind; [apply handle_counts|]. intros [st|s''] H; [by apply avoids_ret|].
    assert (ds_failures s'' = ds_failures s' + 1 ∧ ds_failures s'' <= 6)%Z as [E1 E2].
    { destruct (decide (ds_failures s'' = ds_failures s' + 1 ∧ ds_failures s'' <= 6)%Z) as [Hd|Hd]; [done|]. exfalso. apply H. eauto. }
    apply IH; lia. }
  destruct (parseDurableRuntimeValidationResult value) as [[c|f c]|]; [by apply avoids_ret|by apply Hrec..].
Qed.
Lemma slices_fuel fuel run gen remaining : (remaining <= 5000 * Z.of_nat fuel)%Z → avoids (λ o, o = None) (wait_slices fuel run gen remaining).
Proof.
  revert remaining. induction fuel as [|fuel IH]; intros remaining H; cbn [wait_slices]; (destruct (remaining <=? 0)%Z eqn:E; [by apply avoids_ret|]);
    apply Z.leb_gt in E; [lia|]. apply avoids_next. intros _. apply avoids_next. intros [st|]; [by apply avoids_ret|]. apply IH. lia.
Qed.
Lemma pending_bound v r n : parseResult v = Some r → (pending_delay (field_of "retryAfterMs" r) n <= 5000 * Z.of_nat slice_fuel)%Z.
Proof.
  intros (o & -> & Hd)%parseResult_delay. unfold pending_delay, slice_fuel, field_of, prop_opt.
  destruct Hd as [->|(z & -> & Hz)]; apply Z.max_lub; lia.
Qed.
Lemma take_fuel is_uuid waits run gen plan v r s : parseResult v = Some r →
  avoids (λ x, x = inl OutOfFuel) (take_result is_uuid waits run gen plan r s).
Proof.
  intros Hr. unfold take_result, wait_approval, finish_completed, finish_failed. cbv zeta.
  do 6 (case_match; [repeat avoids_step|]). case_match; [|repeat avoids_step].
  apply (avoids_bind (λ o, o = None)); [apply slices_fuel; by eapply pending_bound|]. intros [[st|]|] H'; [repeat avoids_step..|done].
Qed.
Lemma turn_fuel is_uuid checkpoint authority waits run s : avoids (λ x, x = inl OutOfFuel) (graph_turn is_uuid checkpoint authority waits run s).
Proof.
  assert (∀ gen f s, avoids (λ x, x = inl OutOfFuel) (recover run gen f s)) as Hrec
    by (intros gen f s'; unfold recover; apply avoids_next; intros [st|s'']; by apply avoids_ret).
  unfold graph_turn. apply avoids_next. intros [st|r]; [by apply avoids_ret|]. apply avoids_next. intros [value|e]; [|apply Hrec].
  destruct (parseDurableLangGraphStepResult value) as [[result c|f c]|] eqn:E; [|apply Hrec..].
  apply avoids_next. intros [st|s']; [by apply avoids_ret|]. apply avoids_next. intros plan.
  pose proof (parsed_result _ _ _ E) as Hr. by eapply take_fuel.
Qed.

