(* ===== verification/NodeTurn.v ===== *)
(** * Workflow runs: the turn of a node

    [src/lib/workflow-durable-driver.ts]: one transition of the provider
    lifecycle of a node, as the worker behind the graph node gateway makes it:
    claim and start, poll, retry, cancel, or reconcile a failed run. The
    provider, the resolution of connections and the clock are scripts of the
    world; every call of the provider is recorded. *)

From S2P Require Import Prelude JsString JsNumber JsDate Encoding Json Layout Libs Contract GithubClient D1 WorkflowGraph WorkflowPlan RunTables RunStorage DurableResult RunDriver.

(** ** Errors and values *)

(** A thrown object, by the properties that are read; or an error of the storage or of this file *)
Record thrown := ThrownObject { th_category : option str; th_safeMessage : option str; th_retryable : option bool; th_transport : jsval }.
Inductive node_error := Thrown (t : thrown) | Plain (e : run_error).
Definition with_category (c : string) : node_error := Thrown (ThrownObject (Some (js c)) None None JUndefined).
Definition conversation_lost : str := js "The selected Codex conversation is no longer available to continue.".
Definition conversation_error : node_error :=
  Thrown (ThrownObject (Some (js "conversation_unavailable")) (Some conversation_lost) (Some false) JUndefined).

Definition transient : list string := ["rate_limited"; "provider_unavailable"; "provider_timeout"]%string.
Definition MAX_TEXT : Z := 262144.
Definition MAX_POLL_DELAY : Z := 900000.
Definition DEFAULT_POLL : Z := 10000.
Definition MIN_POLL : Z := 1000.
Definition MAX_TOTAL_ATTEMPTS : Z := 10.
Definition MAX_PROVIDER_POLLS : Z := 720.
Definition MAX_PROVIDER_STEP_MS : Z := 7200000.
Definition GRAPH_START_UNCERTAINTY_MS : Z := 2 * 60000.
Definition PROVIDER_TRANSPORT_ALLOWANCE_MS : Z := 6000.

(** [Math.round] *)
Definition round_num (n : num) : option Z :=
  match n with
  | NInt z => Some z
  | NDec m e => Some ((2 * m + 10 ^ Zpos e) / (2 * 10 ^ Zpos e))%Z
  | _ => None
  end.
Definition clampPollDelay (v : jsval) : Z :=
  match v with
  | JNum n => match round_num n with Some z => Z.max MIN_POLL (Z.min MAX_POLL_DELAY z) | None => DEFAULT_POLL end
  | _ => DEFAULT_POLL
  end.
Definition delay_value (d : option Z) : jsval := match d with Some z => JNum (NInt z) | None => JUndefined end.

(** [safe.replaceAll("_", " ")] *)
Definition spaced (s : str) : str := map (λ c, if (c =? 95)%N then 32%N else c) s.
Definition durableSafeFailure (e : node_error) : step_failure :=
  let t := match e with Thrown t => t | Plain _ => ThrownObject None None None JUndefined end in
  let category := default (js "internal_error") (th_category t) in
  let safe := if one_of failureCategories category then category else js "internal_error" in
  let outcome := field_of "outcome" (th_transport t) in
  let reason := field_of "reason" (th_transport t) in
  let elapsed := match field_of "elapsedMs" (th_transport t) with
                 | JNum (NInt z) => js " after " ++ dec_of_Z ((z + 500) / 1000)%Z ++ js " seconds"
                 | _ => []
                 end in
  let ambiguous :=
    if is_value outcome "timeout" then js "The provider request timed out" ++ elapsed ++ js " before ADT received a provider task ID. The provider may still have accepted the request, so ADT did not automatically submit another request."
    else if is_value outcome "network_error" then js "The connection ended before ADT received a provider task ID. The provider may still have accepted the request, so ADT did not automatically submit another request."
    else js "The provider may have accepted the request, so ADT did not automatically start a duplicate. Inspect provider activity before manually retrying if necessary." in
  let localRuntime := value_in ["cross_request_io"; "invalid_request_context"]%string reason in
  let safe_is s := str_eqb safe (js s) in
  let message :=
    if localRuntime then js "ADT could not start the provider request because the Worker runtime rejected the network operation. No provider response was received."
    else match th_safeMessage t with
         | Some m => m
         | None =>
             if safe_is "conversation_unavailable"%string then conversation_lost
             else if safe_is "internal_error"%string then js "The provider operation failed unexpectedly."
             else if safe_is "provider_start_ambiguous"%string then ambiguous
             else if safe_is "provider_publish_ambiguous"%string then js "The provider may have opened the pull request. ADT will not blindly request another publication."
             else js "The provider operation failed (" ++ spaced safe ++ js ")."
         end in
  StepFailure safe message
    (if localRuntime || starts_with (js "security_") safe then false else default (one_of transient safe) (th_retryable t)).

(** ** The provider *)

Inductive start_result :=
| StartPending (taskId : str) (pollAfterMs : jsval) (providerState outputText taskUrl : option str)
| StartCompleted (outputText : str) (externalUrl : option str).
Inductive check_result :=
| CheckPending (pollAfterMs : jsval) (providerState outputText taskUrl : option str)
| CheckCompleted (outputText : str) (externalUrl : option str)
| CheckFailed (category safeMessage : str) (retryable : bool).
Record invocation := Invocation { iv_key : attempt_key; iv_idempotencyKey : str; iv_polls : Z; iv_inputText : str; iv_conversationRef : option str }.
Inductive provider_call := CallStart (i : invocation) | CallCheck (task : str) (i : invocation) | CallCancel (task : str) (i : invocation).

(** [resolve(key, snapshot)]: [usable] when the snapshot exists, the live
    connection is enabled and the adapters agree; [registered] when a runtime
    exists for the adapter. *)
Inductive resolution := Resolved (usable registered : bool) | ResolutionFails (t : thrown).
Record node_world := NodeWorld {
  nw_run : run_world;
  nw_resolutions : list resolution;
  nw_starts : list (outcome thrown (start_result * jsval));
  nw_checks : list (outcome thrown check_result);
  nw_cancels : list (outcome thrown CancellationResult);
  nw_ms : list Z;
  nw_calls : list provider_call;
}.
Abbreviation NodeM := (eff node_world node_error).

Definition stored {A} (m : RunM A) : NodeM A := λ w,
  let '(r, a) := m (nw_run w) in
  (NodeWorld r (nw_resolutions w) (nw_starts w) (nw_checks w) (nw_cancels w) (nw_ms w) (nw_calls w),
   match a with Ok a => Ok a | Throw e => Throw (Plain e) end).
Definition clock_ms : NodeM Z := λ w,
  (NodeWorld (nw_run w) (nw_resolutions w) (nw_starts w) (nw_checks w) (nw_cancels w) (tail (nw_ms w)) (nw_calls w), Ok (default 0%Z (head (nw_ms w)))).
Definition resolve_connection : NodeM resolution := λ w,
  (NodeWorld (nw_run w) (tail (nw_resolutions w)) (nw_starts w) (nw_checks w) (nw_cancels w) (nw_ms w) (nw_calls w),
   Ok (default (Resolved false false) (head (nw_resolutions w)))).
Definition no_answer : thrown := ThrownObject None None None JUndefined.
Definition answered {A} (o : outcome thrown A) : outcome node_error A := match o with Ok a => Ok a | Throw t => Throw (Thrown t) end.
Definition runtime_start (i : invocation) : NodeM (start_result * jsval) := λ w,
  (NodeWorld (nw_run w) (nw_resolutions w) (tail (nw_starts w)) (nw_checks w) (nw_cancels w) (nw_ms w) (nw_calls w ++ [CallStart i]),
   answered (default (Throw no_answer) (head (nw_starts w)))).
Definition runtime_check (task : str) (i : invocation) : NodeM check_result := λ w,
  (NodeWorld (nw_run w) (nw_resolutions w) (nw_starts w) (tail (nw_checks w)) (nw_cancels w) (nw_ms w) (nw_calls w ++ [CallCheck task i]),
   answered (default (Throw no_answer) (head (nw_checks w)))).
Definition runtime_cancel (task : str) (i : invocation) : NodeM CancellationResult := λ w,
  (NodeWorld (nw_run w) (nw_resolutions w) (nw_starts w) (nw_checks w) (tail (nw_cancels w)) (nw_ms w) (nw_calls w ++ [CallCancel task i]),
   answered (default (Throw no_answer) (head (nw_cancels w)))).
Definition node_requires (b : bool) (e : node_error) : NodeM unit := lift (guard_throw b e).
Definition plain (message : string) : node_error := Plain (RunError (js message)).

Section Turn.
(** [new URL]: the protocol, the user, the password and the text of a URL *)
Variable new_URL : str → option (str * str * str * str).
(** [providerExecutionTimeoutMs] at the snapshots of the attempt, which may throw *)
Variable execution_timeout : run_row → attempt_row → outcome unit (option Z).

Definition safeExternalUrl (v : option str) : option str :=
  match v with
  | Some ((_ :: _) as s) =>
      match new_URL s with
      | Some (protocol, user, password, text) =>
          if str_eqb protocol (js "https:") && str_eqb user [] && str_eqb password [] then Some text else None
      | None => None
      end
  | _ => None
  end.
Definition graphStartUncertaintyMs (r : run_row) (a : attempt_row) : Z :=
  match execution_timeout r a with
  | Ok timeout => Z.max GRAPH_START_UNCERTAINTY_MS (default 0%Z timeout + PROVIDER_TRANSPORT_ALLOWANCE_MS + 20000)
  | Throw _ => GRAPH_START_UNCERTAINTY_MS
  end.
(** [now - Date.parse(at)], unless that is NaN *)
Definition since (now : Z) (at_ : option str) : option Z :=
  match at_ with Some ((_ :: _) as s) => (λ t, (now - t)%Z) <$> Date_parse s | _ => None end.
Definition older (now : Z) (at_ : option str) (limit : Z) : bool := match since now at_ with Some d => (limit <? d)%Z | None => false end.
Definition younger (now : Z) (at_ : option str) (limit : Z) : bool := match since now at_ with Some d => (d <? limit)%Z | None => false end.

Definition source_attempt (attempts : list attempt_row) (s : ConversationSourceIdentity) : option attempt_row :=
  List.find (λ a, bool_decide (at_key a = AttemptKey (so_runId s) (so_stepId s) (so_iteration s) (so_attempt s)) &&
                  bool_decide (at_activation a = so_activationId s)) attempts.
Definition durableInvocation (d : run_detail) (a : attempt_row) : NodeM (invocation * bool) :=
  live ← resolve_connection;
  match live with
  | ResolutionFails t => throw (Thrown t)
  | Resolved usable registered =>
      node_requires usable (with_category "connection_unavailable") ;;
      conversation ← lift (match at_source a with
        | None => Ok None
        | Some s =>
            match source_attempt (de_attempts d) s with
            | Some b => if step_in [Succeeded] (at_status b) && filled_column (at_task b) then Ok (at_task b) else Throw conversation_error
            | None => Throw conversation_error
            end
        end);
      let k := at_key a in
      let id := run_id (de_run d) in
      mret (Invocation (AttemptKey id (ak_step k) (ak_iteration k) (ak_attempt k))
              (id ++ js ":" ++ ak_step k ++ js ":" ++ dec_of_Z (ak_iteration k) ++ js ":" ++ dec_of_Z (ak_attempt k))
              (at_polls a) (default [] (at_input a)) conversation, registered)
  end.
Definition registered_invocation (d : run_detail) (a : attempt_row) : NodeM invocation :=
  '(call, registered) ← durableInvocation d a;
  node_requires registered (with_category "configuration_invalid") ;; mret call.

Record turn_input := TurnInput { ti_runId : str; ti_nodeId : str; ti_activationId : option str; ti_inputText : str }.
Inductive node_result :=
| NodeCompleted (outputText : str)
| NodePending (retryAfterMs : Z)
| NodeFailed (safeMessage : str)
| NodeCancelled.
(** A turn ends, or records a failure and is run again ([deferFailure]). *)
Inductive turn_step := Done (r : node_result) | Defer (category message : str).

Definition key_in (i : turn_input) (a : attempt_row) : attempt_key := AttemptKey (ti_runId i) (ti_nodeId i) (ak_iteration (at_key a)) (ak_attempt (at_key a)).
Definition of_turn (i : turn_input) (a : attempt_row) : bool :=
  match ti_activationId i with
  | Some ((_ :: _) as act) => of_activation (ti_runId i) (ti_nodeId i) act a
  | _ => of_step (ti_runId i) (ti_nodeId i) a
  end.
Definition run_read (run : str) : NodeM run_detail :=
  d ← stored (getRun run); lift (from_option_throw (plain "TypeError") d).

(** ** A run with a failed branch *)

Definition unresolved (a : attempt_row) : bool :=
  (filled_column (at_task a) && step_in started_states (at_status a)) || (step_in [Starting] (at_status a) && negb (filled_column (at_task a))).
Definition finish_failure (run : str) (category message : option str) : NodeM node_result :=
  current ← run_read run;
  if existsb unresolved (de_attempts current) then mret (NodePending MIN_POLL) else
  category ← lift (from_option_throw (Plain RunDatabaseError) category);
  message ← lift (from_option_throw (Plain RunDatabaseError) message);
  stored (failRun run category message None None) ;; mret (NodeFailed message).
Definition start_ambiguous : str := js "ADT did not receive a durable provider task identity or result. The provider may have accepted the request, so ADT did not automatically submit another request.".
Definition cancel_task (d : run_detail) (a : attempt_row) (task : str) : NodeM CancellationResult :=
  outcome ← attempt ('(call, registered) ← durableInvocation d a;
                     if (registered : bool) then runtime_cancel task call else mret CUnsupported);
  mret (match outcome with Ok r => r | Throw _ => CSafeFailure end).
(** [None]: the step is settled and the run may be finished. *)
Definition poll_sibling (run : str) (a : attempt_row) : NodeM (option node_result) :=
  let k := at_key a in
  _ ← stored (incrementPollCount k (clampPollDelay (delay_value (at_delay a))));
  d ← run_read run;
  b ← lift (from_option_throw (plain "TypeError") (List.find (λ x, bool_decide (at_key x = k)) (de_attempts d)));
  call ← registered_invocation d b;
  result ← runtime_check (default [] (at_task b)) call;
  match result with
  | CheckCompleted output url =>
      node_requires (byte_length output <=? MAX_TEXT)%Z (with_category "output_too_large") ;;
      stored (completeStep k output (safeExternalUrl url)) ;; mret None
  | CheckPending poll state output url =>
      let next := clampPollDelay poll in
      stored (persistProviderProgress k (default (js "pending") (first_of state (at_state b))) next output (safeExternalUrl url)) ;;
      mret (Some (NodePending next))
  | CheckFailed category message _ => stored (failStep k (StepFailure category message false)) ;; mret None
  end.
Definition reconcileFailedGraphRun (run : str) (a : attempt_row) (d : run_detail) : NodeM node_result :=
  let k := at_key a in
  let finish := finish_failure run (re_failureCode (rr_result (de_run d))) (re_failureMessage (rr_result (de_run d))) in
  if step_in [Starting] (at_status a) && negb (filled_column (at_task a)) then
    now ← (if filled_column (at_startedAt a) then clock_ms else mret 0%Z);
    if younger now (at_startedAt a) (graphStartUncertaintyMs (de_run d) a) then mret (NodePending MIN_POLL)
    else stored (failStep k (StepFailure (js "provider_start_ambiguous") start_ambiguous false)) ;; finish
  else
  match at_task a with
  | Some ((_ :: _) as task) =>
      if negb (step_in [WaitingProvider] (at_status a)) then finish else
      cancellation ← cancel_task d a task;
      if bool_decide (cancellation = CCancelled) then
        stored (failStep k (StepFailure (js "cancelled") (js "The admitted sibling provider task was cancelled after another graph branch failed.") false)) ;; finish
      else
        now ← (if (at_polls a <? MAX_PROVIDER_POLLS)%Z && filled_column (at_startedAt a) then clock_ms else mret 0%Z);
        if (MAX_PROVIDER_POLLS <=? at_polls a)%Z || negb (filled_column (at_startedAt a)) || older now (at_startedAt a) MAX_PROVIDER_STEP_MS then
          stored (failStep k (StepFailure (js "provider_timeout") (js "The admitted sibling provider task could not be reconciled within its polling limit.") false)) ;; finish
        else
          polled ← attempt (poll_sibling run a);
          match polled with
          | Ok (Some r) => mret r
          | Ok None => finish
          | Throw e =>
              let f := durableSafeFailure e in
              stored (failStep k (StepFailure (fl_category f) (fl_safeMessage f) false)) ;; finish
          end
  | _ => finish
  end.

(** ** Cancellation *)

Fixpoint cancel_tasks (d : run_detail) (l : list attempt_row) : NodeM (list CancellationResult) :=
  match l with
  | [] => mret []
  | a :: l => r ← cancel_task d a (default [] (at_task a)); rest ← cancel_tasks d l; mret (r :: rest)
  end.
Definition overall_cancellation (l : list CancellationResult) : CancellationResult :=
  if bool_decide (CPending ∈ l) then CPending else if bool_decide (CSafeFailure ∈ l) then CSafeFailure
  else if bool_decide (CUnsupported ∈ l) then CUnsupported else if bool_decide (CCancelled ∈ l) then CCancelled else CAlreadyTerminal.
Definition cancel_node (run : str) (d : run_detail) (a : attempt_row) : NodeM node_result :=
  outcomes ← cancel_tasks d (List.filter (λ x, filled_column (at_task x) && step_in started_states (at_status x)) (de_attempts d));
  let outcome := overall_cancellation outcomes in
  stored (recordCancellationResult run outcome) ;;
  if bool_decide (outcome = CPending) then mret (NodePending (Z.min 5000 (clampPollDelay (delay_value (at_delay a)))))
  else stored (cancelRun run) ;; mret NodeCancelled.

(** ** Start and poll *)

Definition retry_or_defer (category message : str) (retryable : bool) : turn_step :=
  if retryable && one_of transient category then Done (NodePending MIN_POLL) else Defer category message.
Definition fail_node (i : turn_input) (a : attempt_row) (f : step_failure) : NodeM turn_step :=
  stored (failStep (key_in i a) f) ;; mret (retry_or_defer (fl_category f) (fl_safeMessage f) (fl_retryable f)).
Definition wants_conversation (r : run_row) (node : str) : bool :=
  match rf_plan (rr_frozen r) with
  | Some plan => match List.find (λ n, str_eqb (pn_id n) node) (pl_nodes plan) with
                 | Some n => str_eqb (pn_type n) t_agent && (pn_version n =? 3)%Z && truthy (prop_opt "conversation" (pn_config n))
                 | None => false
                 end
  | None => false
  end.
Definition start_provider (i : turn_input) (a : attempt_row) : NodeM node_result :=
  let k := key_in i a in
  d ← run_read (ti_runId i);
  node_requires (negb (wants_conversation (de_run d) (ti_nodeId i) && is_null (at_source a))) conversation_error ;;
  if status_in [RunCancelled] (rr_status (de_run d)) then mret NodeCancelled
  else if cancel_asked (de_run d) then mret (NodePending MIN_POLL) else
  call ← registered_invocation d a;
  '(result, transport) ← runtime_start call;
  when (truthy transport) (stored (recordProviderDiagnostics k transport)) ;;
  match result with
  | StartPending task poll state output url =>
      let delay := clampPollDelay poll in
      stored (persistProviderTask k task delay) ;;
      when (filled_column state || filled_column output || filled_column url)
        (stored (persistProviderProgress k (default (js "pending") state) delay output (safeExternalUrl url))) ;;
      mret (NodePending delay)
  | StartCompleted output url =>
      node_requires (byte_length output <=? MAX_TEXT)%Z (with_category "output_too_large") ;;
      stored (completeStep k output (safeExternalUrl url)) ;; mret (NodeCompleted output)
  end.
Definition start_node (i : turn_input) (a : attempt_row) : NodeM turn_step :=
  started ← attempt (start_provider i a);
  match started with
  | Ok r => mret (Done r)
  | Throw e =>
      when (match e with Thrown t => truthy (th_transport t) | Plain _ => false end)
        (stored (recordProviderDiagnostics (key_in i a) (match e with Thrown t => th_transport t | Plain _ => JUndefined end))) ;;
      fail_node i a (durableSafeFailure e)
  end.
Definition check_provider (i : turn_input) (d : run_detail) (a : attempt_row) : NodeM turn_step :=
  let k := key_in i a in
  call ← registered_invocation d a;
  result ← runtime_check (default [] (at_task a)) call;
  match result with
  | CheckCompleted output url =>
      node_requires (byte_length output <=? MAX_TEXT)%Z (with_category "output_too_large") ;;
      stored (completeStep k output (safeExternalUrl url)) ;; mret (Done (NodeCompleted output))
  | CheckPending poll state output url =>
      let next := clampPollDelay poll in
      stored (persistProviderProgress k (default (js "pending") (first_of state (at_state a))) next output (safeExternalUrl url)) ;;
      mret (Done (NodePending next))
  | CheckFailed category message retryable => fail_node i a (StepFailure category message retryable)
  end.
(** The attempt is read again after the poll was counted; later failures are recorded on it. *)
Definition poll_node (i : turn_input) (a : attempt_row) : NodeM turn_step :=
  again ← attempt (_ ← stored (incrementPollCount (key_in i a) (clampPollDelay (delay_value (at_delay a))));
                   d ← run_read (ti_runId i);
                   b ← lift (from_option_throw (plain "TypeError") (last_such (of_turn i) (de_attempts d)));
                   mret (d, b));
  match again with
  | Throw e => fail_node i a (durableSafeFailure e)
  | Ok (d, b) =>
      checked ← attempt (check_provider i d b);
      match checked with Ok r => mret r | Throw e => fail_node i b (durableSafeFailure e) end
  end.

(** ** The turn *)

Definition wait_node (i : turn_input) (a : attempt_row) : NodeM turn_step :=
  node_requires (filled_column (at_task a)) (plain "invalid_attempt_state") ;;
  now ← (if (at_polls a <? MAX_PROVIDER_POLLS)%Z && filled_column (at_startedAt a) then clock_ms else mret 0%Z);
  if (MAX_PROVIDER_POLLS <=? at_polls a)%Z || negb (filled_column (at_startedAt a)) || older now (at_startedAt a) MAX_PROVIDER_STEP_MS then
    stored (failStep (key_in i a) (StepFailure (js "provider_timeout") (js "The provider step exceeded its polling limit.") false)) ;;
    mret (Defer (js "provider_timeout") (js "The provider step exceeded its polling limit."))
  else poll_node i a.
Definition retry_node (i : turn_input) (d : run_detail) (a : attempt_row) : NodeM turn_step :=
  let total := Z.of_nat (length (List.filter (of_turn i) (de_attempts d))) in
  let retryable := match at_failure a with Some f => fl_retryable f && one_of transient (fl_category f) | None => false end in
  if retryable && (ak_attempt (at_key a) <? 3)%Z && (total <? MAX_TOTAL_ATTEMPTS)%Z then
    _ ← stored (createAutomaticRetryAttempt (ti_runId i) (ti_nodeId i) (ti_activationId i));
    mret (Done (NodePending (if (ak_attempt (at_key a) =? 1)%Z then 10000 else 30000)%Z))
  else mret (Defer (match at_failure a with Some f => fl_category f | None => js "internal_error" end)
                   (match at_failure a with Some f => fl_safeMessage f | None => js "The workflow step failed." end)).
(** The turn from the attempt on: [owns] when this turn has claimed its start *)
Definition attempt_turn (i : turn_input) (d : run_detail) (a : attempt_row) (owns : bool) : NodeM turn_step :=
  match at_status a with
  | Starting =>
      if owns then start_node i a else
      now ← (if filled_column (at_startedAt a) then clock_ms else mret 0%Z);
      if negb (filled_column (at_startedAt a)) || younger now (at_startedAt a) (graphStartUncertaintyMs (de_run d) a) then mret (Done (NodePending MIN_POLL))
      else
        stored (failStep (key_in i a) (StepFailure (js "provider_start_ambiguous") start_ambiguous false)) ;;
        mret (Defer (js "provider_start_ambiguous") start_ambiguous)
  | WaitingProvider => wait_node i a
  | Failed => retry_node i d a
  | _ => mret (Done (NodePending MIN_POLL))
  end.
Definition claim_turn (i : turn_input) (d : run_detail) : NodeM turn_step :=
  node_requires (byte_length (ti_inputText i) <=? MAX_TEXT)%Z (plain "output_too_large") ;;
  '(a, owns) ← stored (claimGraphNode (ti_runId i) (ti_nodeId i) (ti_inputText i) (ti_activationId i));
  if step_in [Cancelled] (at_status a) then mret (Done NodeCancelled)
  else if negb owns && step_in [Pending] (at_status a) then
    d' ← run_read (ti_runId i);
    if filled_column (re_failureCode (rr_result (de_run d'))) then r ← reconcileFailedGraphRun (ti_runId i) a d'; mret (Done r)
    else throw (plain "invalid_step_claim")
  else attempt_turn i d a owns.
Definition node_known (d : option run_detail) (node : str) : option (run_detail * list attempt_row) :=
  detail ← d; plan ← rf_plan (rr_frozen (de_run detail));
  if rf_engine2 (rr_frozen (de_run detail)) && existsb (λ n, str_eqb (pn_id n) node) (pl_nodes plan)
  then Some (detail, de_attempts detail) else None.
Definition node_step (i : turn_input) : NodeM turn_step :=
  read ← stored (getRun (ti_runId i));
  '(d, attempts) ← lift (from_option_throw (plain "invalid_graph_node") (node_known read (ti_nodeId i)));
  let r := de_run d in
  if status_in [RunSucceeded] (rr_status r) then
    let output := last_such (λ a, of_turn i a && step_in [Succeeded] (at_status a)) attempts ≫= at_output in
    mret (Done (NodeCompleted (default [] (first_of output (re_finalOutput (rr_result r))))))
  else if status_in [RunCancelled] (rr_status r) then mret (Done NodeCancelled) else
  now ← clock_ms;
  if older now (Some (rf_createdAt (rr_frozen r))) MAX_WORKFLOW_RUN_MS then
    stored (failRun (ti_runId i) (js "provider_timeout") (js "The workflow run exceeded its time limit.") None None) ;;
    mret (Done (NodeFailed (js "The workflow run exceeded its time limit.")))
  else
  a ← lift (from_option_throw (plain "invalid_graph_node") (last_such (of_turn i) attempts));
  if cancel_asked r then x ← cancel_node (ti_runId i) d a; mret (Done x)
  else if filled_column (re_failureCode (rr_result r)) then x ← reconcileFailedGraphRun (ti_runId i) a d; mret (Done x)
  else match at_status a with
       | Succeeded => mret (Done (NodeCompleted (default [] (at_output a))))
       | Pending => claim_turn i d
       | _ => attempt_turn i d a false
       end.
(** [fuel] bounds the failures that are deferred in one call; [None] when it ends. *)
Fixpoint executeDurableGraphNodeTurn (fuel : nat) (i : turn_input) : NodeM (option node_result) :=
  step ← node_step i;
  match step with
  | Done r => mret (Some r)
  | Defer category message =>
      stored (recordGraphFailure (ti_runId i) category message) ;;
      match fuel with O => mret None | S fuel => executeDurableGraphNodeTurn fuel i end
  end.
End Turn.
