(* ===== verification/NodeTurnFacts.v ===== *)
(** * Workflow runs: theorems on the turn of a node

    The provider is started at most once for an attempt: a start follows a won
    claim of the same turn, and a won claim is never of an attempt that was
    started before. *)

From S2P Require Import Prelude JsString JsNumber JsDate Encoding Json Layout Libs Contract GithubClient D1 WorkflowGraph WorkflowPlan RunTables RunStorage RunFacts RunWf RunCalls RunTheorems DurableResult DurableFacts RunDriver RunDriverFacts NodeTurn.

(** ** The latest attempt *)

Lemma greatest_spec {A} (lt : A → A → bool) l b :
  (∀ a, lt a a = false) → (∀ b a x, lt b a = true → lt b x = false → lt a x = false) →
  greatest lt l = Some b → b ∈ l ∧ ∀ a, a ∈ l → lt b a = false.
Proof.
  intros Hirr Hlt. unfold greatest. set (f := λ best a, match best with Some b => if lt b a then Some a else best | None => Some a end).
  assert (∀ l b0 pre, b0 ∈ pre → (∀ a, a ∈ pre → lt b0 a = false) → ∀ b, foldl f (Some b0) l = Some b →
    b ∈ pre ++ l ∧ ∀ a, a ∈ pre ++ l → lt b a = false) as Hgen.
  { clear l b. induction l as [|a l IH]; intros b0 pre Hin Hmax b H; cbn in H.
    - injection H as <-. by rewrite app_nil_r.
    - replace (pre ++ a :: l) with ((pre ++ [a]) ++ l) by (by rewrite <-app_assoc). destruct (lt b0 a) eqn:E.
      + apply (IH a); [set_solver| |exact H]. intros x [Hx| ->%list_elem_of_singleton]%elem_of_app; [by apply (Hlt b0); auto|apply Hirr].
      + apply (IH b0); [set_solver| |exact H]. intros x [Hx| ->%list_elem_of_singleton]%elem_of_app; auto. }
  destruct l as [|a l]; [done|]. cbn. intros H.
  apply (Hgen l a [a]) in H; [exact H|by apply list_elem_of_singleton|]. intros x ->%list_elem_of_singleton. apply Hirr.
Qed.

Definition cur_of (run step : str) (act : option str) (a : attempt_row) : bool :=
  match act with Some ((_ :: _) as act) => of_activation run step act a | _ => of_step run step a end.
Definition cur_lt (act : option str) (a b : attempt_row) : bool :=
  match act with Some (_ :: _) => attempt_lt a b | _ => iteration_lt a b end.
Lemma current_spec run step act w w' a : sane w → current_attempt run step act w = (w', Ok a) →
  a ∈ db_attempts (tables w') ∧ cur_of run step act a = true ∧
  ∀ b, b ∈ db_attempts (tables w') → cur_of run step act b = true → cur_lt act a b = false.
Proof.
  intros Hs H.
  assert (∃ w1 o, query (λ d, greatest (cur_lt act) (List.filter (cur_of run step act) (db_attempts d))) w = (w1, Ok o) ∧ found_attempt o w1 = (w', Ok a)) as (w1 & o & H1 & H2)
    by (destruct act as [[|c act]|]; apply run_bind_ok in H as (w1 & o & H1 & H2); exists w1, o; split; done).
  destruct (statement_ok _ _ _ _ H1 Hs) as (d & Hd & _). injection Hd as -> Ho. unfold found_attempt, lift in H2. injection H2 as <- H2.
  destruct o as [x|]; [|done]. injection H2 as ->.
  apply greatest_spec in Ho as [Hin Hmax].
  - apply list_elem_of_In, filter_In in Hin as [Hin Hc]. rewrite list_elem_of_In. split_and!; [done..|].
    intros b Hb Hcb. apply Hmax. apply list_elem_of_In, filter_In. by rewrite <-list_elem_of_In.
  - intros b. unfold cur_lt, iteration_lt, attempt_lt. destruct act as [[|]|]; lia.
  - intros b c x. unfold cur_lt, iteration_lt, attempt_lt. destruct act as [[|]|]; lia.
Qed.
Lemma cur_step run step act a : cur_of run step act a = true →
  at_key a = AttemptKey run step (ak_iteration (at_key a)) (ak_attempt (at_key a)).
Proof.
  intros H. assert (of_step run step a = true) as [E1%str_eqb_eq E2%str_eqb_eq]%andb_true_iff.
  { destruct act as [[|c act]|]; cbn in H; try done. by apply andb_true_iff in H as [H _]. }
  destruct (at_key a). cbn in *. congruence.
Qed.
Lemma cur_same run step act a b : at_key a = at_key b → at_activation a = at_activation b → cur_of run step act a = cur_of run step act b.
Proof. intros E1 E2. unfold cur_of, of_activation, of_step. by rewrite E1, E2. Qed.
(** Two current attempts that are both latest have the same key. *)
Lemma cur_key run step act l a b : attempts_wf l → a ∈ l → b ∈ l → cur_of run step act a = true → cur_of run step act b = true →
  cur_lt act a b = false → cur_lt act b a = false → at_key a = at_key b.
Proof.
  intros Hwf Ha Hb Ca Cb L1 L2. rewrite (cur_step _ _ _ _ Ca), (cur_step _ _ _ _ Cb).
  unfold cur_lt, iteration_lt, attempt_lt in L1, L2. destruct act as [[|c act]|]; try (f_equal; lia).
  assert (ak_iteration (at_key a) = ak_iteration (at_key b)) as ->; [|f_equal; lia]. cbn in Ca, Cb.
  unfold of_activation, of_step, opt_is in Ca, Cb.
  destruct (at_activation a) as [x|] eqn:Ea; [|by rewrite andb_false_r in Ca]. destruct (at_activation b) as [y|] eqn:Eb; [|by rewrite andb_false_r in Cb].
  apply andb_true_iff in Ca as [[A1%str_eqb_eq A2%str_eqb_eq]%andb_true_iff ->%str_eqb_eq].
  apply andb_true_iff in Cb as [[B1%str_eqb_eq B2%str_eqb_eq]%andb_true_iff ->%str_eqb_eq].
  eapply (aw_activation _ Hwf a b); [done..| | |exact Ea|exact Eb]; congruence.
Qed.

(** ** Claims *)

Definition not_pending (d : run_db) (k : attempt_key) : Prop := ∃ a, a ∈ db_attempts d ∧ at_key a = k ∧ at_status a ≠ Pending.
Lemma not_pending_evolves d e k : evolves d e → not_pending d k → not_pending e k.
Proof.
  intros He (a & Ha & Hk & Hs). destruct (evolved_attempt _ _ _ He Ha) as (b & Hb & Hab). exists b.
  destruct (ae_identity _ _ Hab) as (E & _). split_and!; [done|congruence|]. intros Ep.
  pose proof (ae_status _ _ Hab) as Hle. rewrite Ep in Hle. by destruct (at_status a).
Qed.
Lemma claim_was_pending input now k d d' : exec_write (ClaimAttempt input now k) d = (d', Ok 1%Z) → ∃ a, a ∈ db_attempts d ∧ at_key a = k ∧ at_status a = Pending.
Proof.
  cbn [exec_write]. unfold update_attempt, update_where. intros [= <- Hn].
  match type of Hn with Z.of_nat (length (List.filter ?c _)) = _ => destruct (filter_some c (db_attempts d)) as (a & Ha & Hc) end.
  { intros E. by rewrite E in Hn. }
  apply andb_true_iff in Hc as [Hk%bool_decide_eq_true [Hp _]%andb_true_iff]. exists a. split_and!; [done..|]. by destruct (at_status a).
Qed.
(** The attempt that a won claim returns was not started before the claim. *)
Lemma claim_fresh run step input act w w' a : sane w → run_wf (tables w) → claimGraphNode run step input act w = (w', Ok (a, true)) →
  a ∈ db_attempts (tables w') ∧ cur_of run step act a = true ∧ ¬ not_pending (tables w) (at_key a).
Proof.
  intros Hs Hwf H. unfold claimGraphNode in H. apply run_bind_ok in H as (w0 & t & H0 & H). injection H0 as <- _.
  match type of H with _ ?x = _ => assert (sane x ∧ tables x = tables w) as [S0 T0] by done; set (u := x) in * end. clearbody u.
  apply run_bind_ok in H as (w1 & cur & H1 & H). destruct (call_grows _ _ _ _ (keeps_current_attempt _ _ _) H1 S0) as (S1 & E1 & W1).
  destruct (current_spec _ _ _ _ _ _ S0 H1) as (Hc & Cc & Mc).
  apply run_bind_ok in H as (w2 & n & H2 & H). destruct (call_grows _ _ _ _ (keeps_write_any (ClaimAttempt _ _ _) I) H2 S1) as (S2 & E2 & W2).
  destruct (statement_ok _ _ _ _ H2 S1) as (d & Hd & _ & Ed & Wd).
  destruct (n =? 1)%Z eqn:En; cycle 1.
  { exfalso. apply run_bind_ok in H as (w4 & v & _ & H). apply run_bind_ok in H as (w5 & a' & _ & H). cbn [negb andb] in H.
    destruct (step_in [Pending] (at_status a')); [|unfold mret, eff_ret in H; congruence]. apply run_bind_ok in H as (w6 & dt & _ & H).
    revert H. unfold fails, throw, mret, eff_ret. repeat case_match; congruence. }
  apply Z.eqb_eq in En as ->. apply run_bind_ok in H as (w3 & v & H3 & H). assert (run_grows w2 w3) as G3 by (eapply call_grows; [|exact H3]; keeps_tac).
  destruct (G3 S2) as (S3 & E3 & W3). apply run_bind_ok in H as (w4 & a' & H4 & H). injection H as <- ->.
  destruct (call_grows _ _ _ _ (keeps_current_attempt _ _ _) H4 S3) as (S4 & E4 & W4). destruct (current_spec _ _ _ _ _ _ S3 H4) as (Ha & Ca & Ma).
  split_and!; [done..|]. intros Hnp. rewrite <-T0 in Hnp, Hwf.
  pose proof (W1 Hwf) as F1. pose proof (W4 (W3 (W2 F1))) as F4. assert (evolves (tables w1) (tables w4)) as E14 by (transitivity (tables w2); [exact E2|]; transitivity (tables w3); [exact E3|exact E4]).
  (* the attempt already existed when the claim read the latest one *)
  destruct (not_pending_evolves _ _ _ E1 Hnp) as (r1 & Hr1 & Kr1 & _). destruct (evolved_attempt _ _ _ E14 Hr1) as (r4 & Hr4 & R14).
  destruct (ae_identity _ _ R14) as (Kr4 & Ar4 & _).
  assert (r4 = a) as -> by (apply (nodup_map_inj _ _ _ _ (aw_keys _ (rw_attempts _ F4)) Hr4 Ha); congruence).
  assert (cur_of run step act r1 = true) as Cr1 by (rewrite <-Ca; by apply cur_same).
  destruct (evolved_attempt _ _ _ E14 Hc) as (c4 & Hc4 & C14). destruct (ae_identity _ _ C14) as (Kc4 & Ac4 & _).
  assert (cur_of run step act c4 = true) as Cc4 by (rewrite <-Cc; by apply cur_same).
  assert (at_key cur = at_key r1) as Ek.
  { apply (cur_key run step act (db_attempts (tables w1))); [exact (rw_attempts _ F1)|done..|by apply Mc|].
    pose proof (Ma c4 Hc4 Cc4) as L. unfold cur_lt, iteration_lt, attempt_lt in *. rewrite Kc4, Kr4 in L. exact L. }
  destruct (claim_was_pending _ _ _ _ _ Hd) as (p & Hp & Kp & Sp). destruct (not_pending_evolves _ _ _ (transitivity E1 Ed) Hnp) as (q & Hq & Kq & Sq).
  apply Sq. rewrite <-(cur_step _ _ _ _ Cc) in Kp.
  by rewrite (nodup_map_inj _ _ _ _ (aw_keys _ (rw_attempts _ (Wd F1))) Hq Hp) by congruence.
Qed.

(** ** Turns without a start *)

Definition starts_of (l : list provider_call) : list attempt_key := omap (λ c, match c with CallStart i => Some (iv_key i) | _ => None end) l.
Definition node_ok (w : node_world) : Prop := sane (nw_run w) ∧ run_wf (tables (nw_run w)).
Definition node_quiet (w w' : node_world) : Prop := run_grows (nw_run w) (nw_run w') ∧ starts_of (nw_calls w') = starts_of (nw_calls w).
#[export] Instance node_quiet_preorder : PreOrder node_quiet.
Proof. split; [by intros w|]. intros u v w [G1 E1] [G2 E2]. split; [by etransitivity|congruence]. Qed.

Lemma quiet_stored {A} (m : RunM A) : keeps run_grows m → keeps node_quiet (stored m).
Proof. intros Hm w. unfold stored. pose proof (Hm (nw_run w)) as H. by destruct (m (nw_run w)). Qed.
Lemma quiet_clock : keeps node_quiet clock_ms.
Proof. by intros w. Qed.
Lemma quiet_resolve : keeps node_quiet resolve_connection.
Proof. by intros w. Qed.
Lemma starts_of_app l k : starts_of (l ++ k) = starts_of l ++ starts_of k.
Proof. apply omap_app. Qed.
Lemma quiet_check task i : keeps node_quiet (runtime_check task i).
Proof. intros w. split; [done|]. cbn. by rewrite starts_of_app, app_nil_r. Qed.
Lemma quiet_cancel task i : keeps node_quiet (runtime_cancel task i).
Proof. intros w. split; [done|]. cbn. by rewrite starts_of_app, app_nil_r. Qed.
Lemma quiet_requires b e : keeps node_quiet (node_requires b e).
Proof. apply keeps_lift, _. Qed.
#[export] Hint Resolve quiet_stored quiet_clock quiet_resolve quiet_check quiet_cancel quiet_requires : adt_keeps.

Section Turn.
Variable new_URL : str → option (str * str * str * str).
Variable execution_timeout : run_row → attempt_row → outcome unit (option Z).
Abbreviation Q := node_quiet.

Lemma quiet_run_read run : keeps Q (run_read run).
Proof. unfold run_read. keeps_tac. Qed.
Lemma quiet_invocation d a : keeps Q (durableInvocation d a).
Proof. unfold durableInvocation. keeps_tac. Qed.
Hint Resolve quiet_run_read quiet_invocation : adt_keeps.
Lemma quiet_registered d a : keeps Q (registered_invocation d a).
Proof. unfold registered_invocation. keeps_tac. Qed.
Lemma quiet_cancel_task d a task : keeps Q (cancel_task d a task).
Proof. unfold cancel_task. keeps_tac. Qed.
Lemma quiet_finish run c m : keeps Q (finish_failure run c m).
Proof. unfold finish_failure. keeps_tac. Qed.
Hint Resolve quiet_registered quiet_cancel_task quiet_finish : adt_keeps.
Lemma quiet_sibling run a : keeps Q (poll_sibling new_URL run a).
Proof. unfold poll_sibling. keeps_tac. Qed.
Hint Resolve quiet_sibling : adt_keeps.
Lemma quiet_reconcile run a d : keeps Q (reconcileFailedGraphRun new_URL execution_timeout run a d).
Proof. unfold reconcileFailedGraphRun. keeps_tac. Qed.
Lemma quiet_cancel_tasks d l : keeps Q (cancel_tasks d l).
Proof. induction l; cbn [cancel_tasks]; keeps_tac. Qed.
Hint Resolve quiet_reconcile quiet_cancel_tasks : adt_keeps.
Lemma quiet_cancel_node run d a : keeps Q (cancel_node run d a).
Proof. unfold cancel_node. keeps_tac. Qed.
Lemma quiet_fail i a f : keeps Q (fail_node i a f).
Proof. unfold fail_node. keeps_tac. Qed.
Hint Resolve quiet_cancel_node quiet_fail : adt_keeps.
Lemma quiet_check_provider i d a : keeps Q (check_provider new_URL i d a).
Proof. unfold check_provider. keeps_tac. Qed.
Hint Resolve quiet_check_provider : adt_keeps.
Lemma quiet_poll i a : keeps Q (poll_node new_URL i a).
Proof. unfold poll_node. keeps_tac. Qed.
Hint Resolve quiet_poll : adt_keeps.
Lemma quiet_wait i a : keeps Q (wait_node new_URL i a).
Proof. unfold wait_node. keeps_tac. Qed.
Lemma quiet_retry i d a : keeps Q (retry_node i d a).
Proof. unfold retry_node. keeps_tac. Qed.
Hint Resolve quiet_wait quiet_retry : adt_keeps.
(** A turn that does not own the start of its attempt, or whose attempt is not starting, starts nothing. *)
Lemma quiet_attempt_turn i d a owns : owns = false ∨ at_status a ≠ Starting → keeps Q (attempt_turn new_URL execution_timeout i d a owns).
Proof.
  intros H. unfold attempt_turn. destruct (at_status a); [keeps_tac| |keeps_tac..]. destruct owns; [by destruct H|]. keeps_tac.
Qed.

(** ** Turns with a start *)

Lemma node_ok_grows w w' : run_grows (nw_run w) (nw_run w') → node_ok w → node_ok w'.
Proof. intros H [Hs Hwf]. destruct (H Hs) as (S & _ & W). split; auto. Qed.
Lemma getRun_id run w w' d : sane w → run_wf (tables w) → getRun run w = (w', Ok (Some d)) → run_id (de_run d) = run.
Proof.
  intros Hs Hwf H. unfold getRun in H. apply run_bind_ok in H as (w1 & row & H1 & H).
  destruct (statement_ok _ _ _ _ H1 Hs) as (t & Ht & _ & _ & Wt). injection Ht as _ Hrow. destruct row as [r|]; [|done].
  apply run_bind_ok in H as (w2 & l & _ & H). injection H as _ <-. by apply (rw_ids _ (Wt Hwf)).
Qed.
Lemma node_bind_ok {A B} (m : NodeM A) (k : A → NodeM B) w w' r : (m ≫= k) w = (w', r) →
  (∃ w1 a, m w = (w1, Ok a) ∧ k a w1 = (w', r)) ∨ ∃ e, m w = (w', Throw e).
Proof. intros [H|(e & H & _)]%bind_run; eauto. Qed.
Lemma run_read_id run w w' d : node_ok w → run_read run w = (w', Ok d) → run_id (de_run d) = run.
Proof.
  intros [Hs Hwf] H. unfold run_read in H. apply bind_run in H as [(w1 & o & H1 & H)|(e & _ & ?)]; [|done].
  unfold lift in H. injection H as -> H. destruct o as [x|]; [|done]. injection H as ->.
  unfold stored in H1. destruct (getRun run (nw_run w)) as [rw [ro|]] eqn:E; [|done]. injection H1 as <- ->. exact (getRun_id _ _ _ _ Hs Hwf E).
Qed.
Lemma registered_key d a w w' call : registered_invocation d a w = (w', Ok call) →
  iv_key call = AttemptKey (run_id (de_run d)) (ak_step (at_key a)) (ak_iteration (at_key a)) (ak_attempt (at_key a)).
Proof.
  intros H. unfold registered_invocation in H. apply bind_run in H as [(w1 & [c b] & H1 & H)|(e & _ & ?)]; [|done].
  apply bind_run in H as [(w2 & u & _ & H)|(e & _ & ?)]; [|done]. injection H as _ <-.
  unfold durableInvocation in H1. apply bind_run in H1 as [(w3 & live & _ & H1)|(e & _ & ?)]; [|done]. destruct live as [usable registered|t]; [|done].
  apply bind_run in H1 as [(w4 & u' & _ & H1)|(e & _ & ?)]; [|done]. apply bind_run in H1 as [(w5 & conv & _ & H1)|(e & _ & ?)]; [|done].
  by injection H1 as _ <- _.
Qed.
(** What a start adds to the calls of the provider *)
Definition may_start (k : attempt_key) (w w' : node_world) : Prop :=
  run_grows (nw_run w) (nw_run w') ∧ (starts_of (nw_calls w') = starts_of (nw_calls w) ∨ starts_of (nw_calls w') = starts_of (nw_calls w) ++ [k]).
Lemma quiet_may k u v w : Q u v → may_start k v w → may_start k u w.
Proof. intros [G1 E1] [G2 E2]. split; [by etransitivity|]. by rewrite E1 in E2. Qed.
Lemma may_quiet k u v w : may_start k u v → Q v w → may_start k u w.
Proof. intros [G1 E1] [G2 E2]. split; [by etransitivity|]. by rewrite E2. Qed.
Lemma quiet_is_may k w w' : Q w w' → may_start k w w'.
Proof. intros [G E]. split; auto. Qed.
Lemma start_provider_may i a w w' r : node_ok w → at_key a = key_in i a →
  start_provider new_URL i a w = (w', r) → may_start (key_in i a) w w'.
Proof.
  intros Hok Hk H. unfold start_provider in H.
  apply node_bind_ok in H as [(w1 & d & H1 & H)|(e & H1)]; pose proof (keeps_run Q _ _ _ _ (quiet_run_read _) H1) as Q1; [|by apply quiet_is_may].
  eapply quiet_may; [exact Q1|]. pose proof (run_read_id _ _ _ _ Hok H1) as Hid. clear H1 Q1 Hok.
  apply node_bind_ok in H as [(w2 & u & H2 & H)|(e & H2)]; pose proof (keeps_run Q _ _ _ _ (quiet_requires _ _) H2) as Q2; [|by apply quiet_is_may].
  eapply quiet_may; [exact Q2|]. clear H2 Q2. destruct (status_in _ _); [injection H as <- _; by apply quiet_is_may|].
  destruct (cancel_asked _); [injection H as <- _; by apply quiet_is_may|].
  apply node_bind_ok in H as [(w3 & call & H3 & H)|(e & H3)]; pose proof (keeps_run Q _ _ _ _ (quiet_registered _ _) H3) as Q3; [|by apply quiet_is_may].
  eapply quiet_may; [exact Q3|]. apply registered_key in H3.
  assert (iv_key call = key_in i a) as Hkey by (rewrite H3, Hid, Hk; reflexivity). clear H3 Q3.
  assert (may_start (key_in i a) w3 (runtime_start call w3).1) as Hstart.
  { split; [done|]. right. cbn. rewrite starts_of_app. cbn. by rewrite Hkey. }
  apply node_bind_ok in H as [(w4 & [result transport] & H4 & H)|(e & H4)]; rewrite H4 in Hstart; cbn [fst] in Hstart; [|done].
  eapply may_quiet; [exact Hstart|]. refine (keeps_run Q _ _ _ _ _ H). keeps_tac.
Qed.
Lemma start_node_may i a w w' r : node_ok w → at_key a = key_in i a → start_node new_URL i a w = (w', r) → may_start (key_in i a) w w'.
Proof.
  intros Hok Hk H. unfold start_node in H. apply node_bind_ok in H as [(w1 & o & H1 & H)|(e & H1)].
  - unfold attempt in H1. destruct (start_provider new_URL i a w) as [w1' r1] eqn:E. injection H1 as <- <-.
    eapply may_quiet; [exact (start_provider_may _ _ _ _ _ Hok Hk E)|]. refine (keeps_run Q _ _ _ _ _ H). keeps_tac.
  - unfold attempt in H1. by destruct (start_provider new_URL i a w).
Qed.

(** Every start was of an attempt that is no longer pending, and of each once. *)
Definition once (w : node_world) : Prop :=
  NoDup (starts_of (nw_calls w)) ∧ ∀ k, k ∈ starts_of (nw_calls w) → not_pending (tables (nw_run w)) k.
Definition node_grows (w w' : node_world) : Prop := node_ok w → run_grows (nw_run w) (nw_run w') ∧ (once w → once w').
#[export] Instance node_grows_preorder : PreOrder node_grows.
Proof.
  split; [by intros w|]. intros u v w H1 H2 Hok. destruct (H1 Hok) as [G1 O1]. destruct (H2 (node_ok_grows _ _ G1 Hok)) as [G2 O2].
  split; [by etransitivity|auto].
Qed.
Lemma quiet_grows w w' : Q w w' → node_grows w w'.
Proof.
  intros [G E] [Hs Hwf]. split; [done|]. destruct (G Hs) as (_ & He & _). intros [N P]. split; rewrite E; [done|]. intros k Hk. eapply not_pending_evolves; eauto.
Qed.
Lemma keeps_quiet {A} (m : NodeM A) : keeps Q m → keeps node_grows m.
Proof. intros H w. apply quiet_grows, H. Qed.
Lemma claim_turn_grows i d : keeps node_grows (claim_turn new_URL execution_timeout i d).
Proof.
  unfold claim_turn. apply (keeps_bind _); [apply keeps_quiet; keeps_tac|]. intros _.
  intros w. match goal with |- node_grows w (?m w).1 => destruct (m w) as [w' r] eqn:H end. cbn [fst]. intros Hok.
  enough (node_grows w w') as HG by exact (HG Hok).
  apply node_bind_ok in H as [(w1 & [a owns] & H1 & H)|(e & H1)]; pose proof (keeps_run Q _ _ _ _ (quiet_stored _ (keeps_claim _ _ _ _)) H1) as Q1; [|by apply quiet_grows].
  destruct (decide (owns = false ∨ at_status a ≠ Starting)) as [Hq|Hq].
  { apply quiet_grows. transitivity w1; [done|]. refine (keeps_run Q _ _ _ _ _ H). pose proof quiet_attempt_turn. keeps_tac. }
  destruct owns; [|by exfalso; apply Hq; left]. assert (at_status a = Starting) as Hst by (destruct (decide (at_status a = Starting)); [done|by exfalso; apply Hq; right]).
  unfold attempt_turn in H. rewrite Hst in H. cbn [step_in existsb negb andb] in H. change (start_node new_URL i a w1 = (w', r)) in H.
  unfold stored in H1. destruct (claimGraphNode _ _ _ _ (nw_run w)) as [rw [x|]] eqn:Ec; [|done]. injection H1 as <- ->.
  destruct Hok as [Hs Hwf]. destruct (claim_fresh _ _ _ _ _ _ _ Hs Hwf Ec) as (Ha & Hc & Hnp).
  assert (at_key a = key_in i a) as Hk by exact (cur_step _ _ _ _ Hc).
  apply start_node_may in H as [G2 E2]; [|exact (node_ok_grows _ _ (proj1 Q1) (conj Hs Hwf))|exact Hk].
  intros _. destruct Q1 as [G1 _]. split; [by etransitivity|]. intros [N P]. cbn in *. destruct (G1 Hs) as (S1 & E1 & _). destruct (G2 S1) as (_ & E3 & _).
  assert (∀ k, k ∈ starts_of (nw_calls w) → not_pending (tables (nw_run w')) k) as P'.
  { intros k Hin. eapply not_pending_evolves; [exact E3|]. eapply not_pending_evolves; [exact E1|auto]. }
  destruct E2 as [E2|E2]; unfold once; rewrite E2; [done|]. rewrite <-Hk. split.
  - apply NoDup_app. split_and!; [done| |apply NoDup_singleton]. intros k Hin ->%list_elem_of_singleton. by apply Hnp, P.
  - intros k [Hin| ->%list_elem_of_singleton]%elem_of_app; [by apply P'|]. eapply not_pending_evolves; [exact E3|]. exists a. by rewrite Hst.
Qed.
Lemma node_step_grows i : keeps node_grows (node_step new_URL execution_timeout i).
Proof.
  pose proof quiet_attempt_turn. unfold node_step.
  repeat (first [apply claim_turn_grows | apply (keeps_bind _); [apply keeps_quiet; solve [keeps_tac]|intros ?] | keeps_step]);
    try solve [apply keeps_quiet; keeps_tac | auto].
Qed.
Lemma turn_grows fuel i : keeps node_grows (executeDurableGraphNodeTurn new_URL execution_timeout fuel i).
Proof.
  pose proof node_step_grows. induction fuel as [|fuel IH]; cbn [executeDurableGraphNodeTurn];
    (apply (keeps_bind _); [done|]; intros [r|c m]; [apply (keeps_ret _)|]; apply (keeps_bind _); [apply keeps_quiet; keeps_tac|]; intros _);
    [apply (keeps_ret _)|exact IH].
Qed.
End Turn.

(** ** Theorems *)

Section Theorems.
Variable new_URL : str → option (str * str * str * str).
Variable execution_timeout : run_row → attempt_row → outcome unit (option Z).

(** A sequence of turns, each with its fuel; a turn that throws is followed by the next. *)
Definition run_turns (turns : list (nat * turn_input)) (w : node_world) : node_world :=
  foldl (λ w t, (executeDurableGraphNodeTurn new_URL execution_timeout t.1 t.2 w).1) w turns.

Lemma run_turns_grow turns w : node_grows w (run_turns turns w).
Proof.
  revert w. induction turns as [|[fuel i] turns IH]; intros w; [done|]. cbn.
  transitivity (executeDurableGraphNodeTurn new_URL execution_timeout fuel i w).1; [apply turn_grows|apply IH].
Qed.


(** ** Delays *)

Definition delay_ok (ms : Z) : Prop := (1000 <= ms <= 900000)%Z.
Definition bad_result (r : node_result) : Prop := ∃ ms, r = NodePending ms ∧ ¬ delay_ok ms.
Definition bad_step (s : turn_step) : Prop := ∃ r, s = Done r ∧ bad_result r.
Lemma clamp_ok v : delay_ok (clampPollDelay v).
Proof. unfold delay_ok, clampPollDelay, DEFAULT_POLL, MIN_POLL, MAX_POLL_DELAY. repeat case_match; lia. Qed.
Lemma good_pending ms : delay_ok ms → ¬ bad_result (NodePending ms).
Proof. by intros H (ms' & [= <-] & Hn). Qed.
Lemma min_ok : delay_ok MIN_POLL.
Proof. unfold delay_ok, MIN_POLL. lia. Qed.
Lemma good_done r : ¬ bad_result r → ¬ bad_step (Done r).
Proof. by intros H (r' & [= <-] & Hb). Qed.
Hint Resolve good_pending clamp_ok min_ok good_done : core.
Ltac delays := repeat avoids_step; auto; try (by intros (? & ? & _)); try (by intros (? & [= <-] & ? & ? & _)).

Lemma finish_delay run c m : avoids bad_result (finish_failure run c m).
Proof. unfold finish_failure. delays. Qed.
Lemma sibling_delay run a : avoids (λ o, ∃ r, o = Some r ∧ bad_result r) (poll_sibling new_URL run a).
Proof. unfold poll_sibling. delays. intros (r & [= <-] & H). exact (good_pending _ (clamp_ok _) H). Qed.
Lemma reconcile_delay run a d : avoids bad_result (reconcileFailedGraphRun new_URL execution_timeout run a d).
Proof.
  pose proof finish_delay as Hf. unfold reconcileFailedGraphRun. cbv zeta.
  destruct (_ && _); [delays|]. destruct (at_task a) as [[|]|]; [auto| |auto]. destruct (negb _); [auto|]. apply avoids_next. intros c.
  destruct (bool_decide _); [delays|]. apply avoids_next. intros t. destruct (_ || _); [delays|].
  apply (avoids_bind (λ o, ∃ x, o = Ok x ∧ ∃ r, x = Some r ∧ bad_result r)); [apply avoids_attempt, sibling_delay|].
  intros [[r|]|e] H; [|auto|delays]. apply avoids_ret. intros Hr. apply H. eauto.
Qed.
Lemma cancel_delay run d a : avoids bad_result (cancel_node run d a).
Proof.
  unfold cancel_node. delays. apply good_pending. pose proof (clamp_ok (delay_value (at_delay a))) as H. unfold delay_ok in *. lia.
Qed.
Lemma retry_or_defer_ok c m b : ¬ bad_step (retry_or_defer c m b).
Proof. unfold retry_or_defer. destruct (_ && _); [auto|by intros (? & ? & _)]. Qed.
Lemma fail_delay i a f : avoids bad_step (fail_node i a f).
Proof. unfold fail_node. repeat avoids_step. apply retry_or_defer_ok. Qed.
Lemma start_delay i a : avoids bad_step (start_node new_URL i a).
Proof.
  unfold start_node. apply (avoids_bind (λ o, ∃ r, o = Ok r ∧ bad_result r)); [apply avoids_attempt; unfold start_provider; delays|].
  intros [r|e] H; [apply avoids_ret, good_done; intros Hr; apply H; eauto|]. apply avoids_next. intros _. apply fail_delay.
Qed.
Lemma poll_delay i a : avoids bad_step (poll_node new_URL i a).
Proof.
  pose proof fail_delay as Hf. unfold poll_node. apply avoids_next. intros [[d b]|e]; [|auto].
  apply (avoids_bind (λ o, ∃ r, o = Ok r ∧ bad_step r)); [apply avoids_attempt; unfold check_provider; delays|].
  intros [r|e] H; [|auto]. apply avoids_ret. intros Hr. apply H. eauto.
Qed.
Lemma attempt_delay i d a owns : avoids bad_step (attempt_turn new_URL execution_timeout i d a owns).
Proof.
  pose proof start_delay. pose proof poll_delay. unfold attempt_turn, wait_node, retry_node.
  destruct (at_status a); [delays|destruct owns; delays|delays|delays| |delays]. cbv zeta. destruct (_ && _); [|delays].
  apply avoids_next. intros _. apply avoids_ret, good_done, good_pending. unfold delay_ok. destruct (_ =? _)%Z; lia.
Qed.
Lemma step_delay i : avoids bad_step (node_step new_URL execution_timeout i).
Proof.
  pose proof attempt_delay as Ha. pose proof reconcile_delay as Hr. pose proof cancel_delay as Hc.
  assert (∀ m : NodeM node_result, avoids bad_result m → avoids bad_step (x ← m; mret (Done x))) as Hdone.
  { intros m Hm. apply (avoids_bind bad_result); [done|]. intros x Hx. by apply avoids_ret, good_done. }
  unfold node_step. apply avoids_next. intros read. apply avoids_next. intros [d attempts]. cbv zeta.
  destruct (status_in _ _); [delays|]. destruct (status_in _ _); [delays|]. apply avoids_next. intros t. destruct (older _ _ _); [delays|].
  apply avoids_next. intros a. destruct (cancel_asked _); [auto|]. destruct (filled_column _); [auto|].
  destruct (at_status a); try (by auto); [|delays]. unfold claim_turn. apply avoids_next. intros _. apply avoids_next. intros [b owns].
  destruct (step_in _ _); [delays|]. destruct (_ && _); [|auto]. apply avoids_next. intros d'. destruct (filled_column _); [auto|apply avoids_throw].
Qed.

(** C22: A node that is not finished asks to be called again after a delay that
    the driver accepts: between one second and fifteen minutes, whatever the
    provider proposes. *)
Theorem pending_delay_accepted fuel i w w' ms
    (Hturn : executeDurableGraphNodeTurn new_URL execution_timeout fuel i w = (w', Ok (Some (NodePending ms)))) :
  (1000 <= ms <= 900000)%Z ∧
  parseResult (JObj [(js "state", JStr (js "pending")); (js "retryAfterMs", jnum ms)]) =
    Some (JObj [(js "state", JStr (js "pending")); (js "retryAfterMs", jnum ms)]).
Proof.
  assert (delay_ok ms) as Hms.
  { destruct (decide (1000 <= ms <= 900000)%Z) as [H|H]; [done|]. exfalso. revert w w' Hturn. induction fuel as [|fuel IH]; intros w w' Hturn;
      cbn [executeDurableGraphNodeTurn] in Hturn; apply bind_run in Hturn as [(w1 & s & H1 & Hturn)|(e & _ & ?)]; try done;
      (destruct s as [r|c m]; [injection Hturn as _ ->; apply (step_delay i _ _ _ H1); eexists; split; [done|]; by exists ms|]);
      apply bind_run in Hturn as [(w2 & u & _ & Hturn)|(e & _ & ?)]; try done. by eapply IH. }
  split; [exact Hms|]. unfold delay_ok in Hms.
  change (parseResult (JObj [(js "state", JStr (js "pending")); (js "retryAfterMs", jnum ms)])) with
    (if ((1000 <=? ms) && (ms <=? 900000))%Z then Some (JObj [(js "state", JStr (js "pending")); (js "retryAfterMs", jnum ms)]) else None).
  destruct Hms as [->%Z.leb_le ->%Z.leb_le]. done.
Qed.
End Theorems.
