(* ===== verification/RunDriverExamples.v ===== *)
(** * Workflow runs: examples of the driver and of turns

    A run that the driver validates, admits, waits for and completes while
    another worker executes its node; failures that the driver cannot record;
    and three turns of a node: the first starts the provider, the second polls
    it, the third finds the node completed. *)

From S2P Require Import Prelude JsString JsNumber JsDate Encoding Json Layout Libs Contract GithubClient D1 FeatureRequests WorkflowGraph WorkflowPlan RunTables RunStorage RunFacts RunWf RunCalls RunTheorems RunExamples DurableResult DurableFacts RunDriver RunDriverFacts NodeTurn NodeTurnFacts.

Definition token (s : graph_scope) : outcome run_error str := Ok (js "token").
Definition drive (w : driver_world) : driver_world * outcome run_error driver_end :=
  executeWorkflowRun any_uuid (Ok (js "token")) token true 3 (js "r1") (js "r1-g1") w.
(** The worker behind the gateway executes the node as soon as it is admitted. *)
Definition node_worker : list sql_write :=
  [ClaimAttempt (js "Write it.") (js "2025-01-01T00:00:02.000Z") key1; StartRun (js "write") (js "2025-01-01T00:00:02.000Z") (js "r1");
   CompleteAttempt (js "Done.") None (js "2025-01-01T00:00:03.000Z") key1].
Definition no_requests : request_counts := RequestCounts 0 0.
Definition one_request : request_counts := RequestCounts 0 1.
Definition state_js (state : string) (rest : list (str * jsval)) : jsval := JObj ((js "state", JStr (js state)) :: rest).
Definition frontier_js : list (str * jsval) :=
  [(js "frontier", JArr [JObj [(js "nodeId", JStr (js "write")); (js "activationId", JStr (js "a1"))]])].
Definition good_answers : list remote_answer :=
  [RemoteAnswers JUndefined (RequestCounts 1 0);
   RemoteAnswers (state_js "admission_required" frontier_js) one_request; RemoteAnswers (state_js "pending" [(js "retryAfterMs", jnum 7000)]) one_request;
   RemoteAnswers (state_js "completed" [(js "outputText", JStr (js "Done."))]) one_request].
Definition drive_world (others : list (list sql_write)) (answers : list remote_answer) : driver_world :=
  let w := run_calls any_uuid [DoCreate (demo_run "r1"); DoLaunch (js "r1") 1] (start [] []) in
  DriverWorld (RunWorld (rw_db w) others (rw_clock w) (rw_uuids w) (rw_creations w) (rw_created w)) answers (repeat 1735689605000%Z 20) [] [] [].
Definition good_world : driver_world := drive_world (repeat node_worker 40) good_answers.

Lemma good_sane : sane (dw_run good_world).
Proof. unfold sane, good_world, drive_world. cbn [dw_run rw_others]. apply Forall_forall. intros x Hx. apply list_elem_of_In, repeat_spec in Hx as ->. by repeat constructor. Qed.
Lemma good_wf : run_wf (tables (dw_run good_world)).
Proof.
  pose proof (proj2 (calls_from [] [] [DoCreate (demo_run "r1"); DoLaunch (js "r1") 1] ltac:(constructor))) as H.
  unfold good_world, drive_world. cbv zeta. cbn [dw_run]. unfold tables in *. cbn [rw_db]. exact H.
Qed.

Definition first_scope : graph_scope := GraphScope (js "write") (js "a1") 1 1 1.
Lemma driver_authorities_backed_witness :
  AdvanceGraph None (Some [(first_scope, js "token")]) ∈ dw_requests (drive good_world).1 ∧
  ∃ a, a ∈ db_attempts (tables (dw_run (drive good_world).1)) ∧ at_key a = key1.
Proof.
  assert (AdvanceGraph None (Some [(first_scope, js "token")]) ∈ dw_requests (drive good_world).1) as H
    by (vm_compute; right; right; left).
  split; [exact H|].
  destruct (driver_authorities_backed any_uuid (Ok (js "token")) token true 3 (js "r1") (js "r1-g1") good_world (drive good_world).1 (drive good_world).2
    good_sane good_wf ltac:(vm_compute; reflexivity) ltac:(vm_compute; reflexivity)) as [_ Hb].
  destruct (Hb None [(first_scope, js "token")] first_scope (js "token") H ltac:(left)) as (a & Ha & _ & Hk). by exists a.
Defined.
Lemma driver_reports_success_witness :
  (drive good_world).2 = Ok (Finished RunSucceeded) ∧
  ∃ a, a ∈ db_attempts (tables (dw_run (drive good_world).1)) ∧ ak_run (at_key a) = js "r1" ∧ at_status a = Succeeded.
Proof.
  split; [vm_compute; reflexivity|].
  exact (driver_reports_success any_uuid (Ok (js "token")) token true 3 (js "r1") (js "r1-g1") good_world (drive good_world).1 good_sane good_wf
           ltac:(vm_compute; reflexivity)).
Defined.

Definition limited : remote_failure := RemoteFailure (js "rate_limited") (js "Slow down.") None JUndefined JUndefined.
Definition limited_js : jsval := JObj [(js "category", JStr (js "rate_limited")); (js "safeMessage", JStr (js "Slow down."))].
Lemma durable_step_stable_witness :
  durableRuntimeFailure limited one_request = Ok (failure_value limited_js one_request) ∧
  parseDurableLangGraphStepResult (failure_value limited_js one_request) = Some (StepFailed limited_js one_request) ∧
  (byte_length (stringify limited_js) <= 4096)%Z.
Proof.
  split; [vm_compute; reflexivity|]. split; [vm_compute; reflexivity|].
  exact (proj1 (proj2 (durable_step_stable (failure_value limited_js one_request) (StepFailed limited_js one_request) ltac:(vm_compute; reflexivity)))).
Defined.

(** ** Failures that cannot be recorded

    The check of the durable steps admits every failure category; the check of
    the diagnostics admits ten of them. When the Runtime reports another one,
    the driver throws instead of retrying or failing the run, which stays
    queued. *)
Definition limited_world : driver_world := drive_world [] [RemoteAnswers JUndefined (RequestCounts 1 0); RemoteFails limited one_request].
Theorem category_not_recordable :
  (drive limited_world).2 = Throw (RunError (js "invalid_orchestration_diagnostic")) ∧
  (rr_status <$> db_runs (tables (dw_run (drive limited_world).1)) !! js "r1") = Some Queued.
Proof. vm_compute. auto. Qed.
(** The driver makes up to 32768 turns of two requests each; a failure after
    the 32768th request cannot be recorded either. *)
Theorem late_failure_not_recordable :
  serializeWorkflowOrchestrationDiagnostic
    (orchestrationDiagnostic JUndefined 1 (js "2025-01-01T00:00:00.000Z") (DriverState 0 32769 1 32769 0 None)) =
  Throw (RunError (js "invalid_orchestration_diagnostic")) ∧
  match serializeWorkflowOrchestrationDiagnostic
    (orchestrationDiagnostic JUndefined 1 (js "2025-01-01T00:00:00.000Z") (DriverState 0 32767 1 32767 0 None)) with Ok _ => True | Throw _ => False end.
Proof. vm_compute. auto. Qed.

(** ** Turns of a node *)

Definition demo_URL (s : str) : option (str * str * str * str) := if starts_with (js "https://") s then Some (js "https:", [], [], s) else None.
Definition demo_timeout (r : run_row) (a : attempt_row) : outcome unit (option Z) := Ok None.
Definition demo_turn : turn_input := TurnInput (js "r1") (js "write") (Some (js "a1")) (js "Write it.").
Definition turn_world : node_world :=
  NodeWorld ready_world (repeat (Resolved true true) 5)
    [Ok (StartPending (js "task-1") (jnum 500) None None (Some (js "https://provider/task-1")), JUndefined)]
    [Ok (CheckCompleted (js "Done.") None)] [] (repeat 1735689605000%Z 20) [].
Definition three_turns : list (nat * turn_input) := repeat (1%nat, demo_turn) 3.
Definition turned : node_world := run_turns demo_URL demo_timeout three_turns turn_world.

Lemma turn_sane : sane (nw_run turn_world).
Proof. exact (proj1 (calls_from [] [] launched ltac:(constructor))). Qed.
Lemma turn_wf : run_wf (tables (nw_run turn_world)).
Proof. exact (proj2 (calls_from [] [] launched ltac:(constructor))). Qed.
Lemma pending_delay_accepted_witness :
  (executeDurableGraphNodeTurn demo_URL demo_timeout 1 demo_turn turn_world).2 = Ok (Some (NodePending 1000)) ∧ (1000 <= 1000 <= 900000)%Z.
Proof.
  split; [vm_compute; reflexivity|].
  exact (proj1 (pending_delay_accepted demo_URL demo_timeout 1 demo_turn turn_world (executeDurableGraphNodeTurn demo_URL demo_timeout 1 demo_turn turn_world).1 1000
    ltac:(vm_compute; reflexivity))).
Defined.
